(* ===== verification/_CoqProject ===== *)
-Q . S2P
Prelude.v
Encoding.v
MediationFee.v
MediationFeeTheorems.v
State.v
Events.v
ChannelViews.v
ChannelValidation.v
ChannelSend.v
ChannelHandlers.v
TaskState.v
Target.v
World.v
Mediator.v
Initiator.v
InitiatorManager.v
NodeState.v
Views.v
ForwardingFees.v
LockSets.v
ChannelInvariant.v
BalanceProofMessages.v
LockOperations.v
StateTransition.v
TransferTheorems.v
Reachability.v
ChannelFrame.v
SecretRegistration.v
TargetTheorems.v
WorldLogic.v
MediatorInvariant.v
MediatorPhases.v
MediatorForwarding.v
MediatorTheorems.v
Lifecycle.v
ChannelTheorems.v
InitiatorInvariant.v
InitiatorRoutes.v
InitiatorSteps.v
InitiatorDispatch.v
InitiatorTheorems.v
InitiatorRuns.v
InitiatorOutcomes.v
ChannelSync.v
WithdrawTheorems.v
Instances.v
Divergences.v
Witnesses.v
TaskWitnesses.v
InitiatorWitnesses.v
