(* ===== verification/Prelude.v ===== *)
(** * The Gatecoin payment channel: a verification development

    Gatecoin is a payment-channel client.  Two nodes lock a deposit in a
    contract and then exchange signed messages that move tokens between them;
    each node keeps its own view of the channel and drives it by state changes
    (messages, on-chain logs, blocks, actions of its user) that return events to
    be executed (messages to send, transactions).  A payment between nodes
    without a common channel goes through mediators; each node on its path runs a
    task (target, mediator, initiator) that works on the channels.  The
    development models the channel, the core of [src/src/gatecoin/transfer], the
    tasks of the target, the mediator and the initiator, and the calculation of
    mediation fees.

    ** Files and the code they model

    All paths are below [src/src/gatecoin/].
    - [Prelude] (this file): results with exceptions, Python dictionaries that
      keep their order, sums over dictionaries, [list.remove], fixed-width
      integers; the tactics [res_inv], [zbool], [split_ifs]; the hint databases
      [channel] (facts of the channel invariant) and [bytes] (lengths).
    - [Encoding]: [utils/packing.py], [utils/signer.py], [utils/formatting.py],
      [utils/secrethash.py], [transfer/utils/__init__.py] and the [Lock] of
      [messages/transfers.py].  The class [Externals] collects the third-party
      functions (Keccak, ECDSA recovery, the ABI encoder, the withdraw packer
      of the contracts package, libm's [pow]); [ExternalsLaws] what is documented
      of them and used; [RandomGen] is the generator of message identifiers.
    - [MediationFee], [MediationFeeTheorems]:
      [transfer/mediated_transfer/mediation_fee.py].  [Fraction] is [Q]; [float]
      is [spec_float] with 53 bits.
    - [State]: the dataclasses of [transfer/state.py], [transfer/architecture.py],
      [transfer/identifiers.py] and [transfer/mediated_transfer/state.py] that a
      channel consists of.  A dataclass is a record, its [__post_init__] a
      function [_init] that can raise; assignment to a field is a function
      [set_...], and an assignment inside an object held by another is
      [upd_our] or [upd_partner].
    - [Events]: [transfer/events.py], [transfer/state_change.py] and their
      [mediated_transfer] counterparts, as far as the modelled parts use them.
    - [ChannelViews], [ChannelValidation], [ChannelSend], [ChannelHandlers]:
      [transfer/channel.py] from top to bottom, one definition per function under
      its name: queries and end-state updates; the checks of received messages;
      what is sent; the handlers, the dispatch and [sanity_check].  Mutation is
      state passing: a function that changes the channel returns the new one,
      also where it then reports an error.
    - [TaskState]: the states of the tasks ([mediated_transfer/state.py]) and the
      checks they share; [Target]: [mediated_transfer/target.py]; the task has one
      channel, which is passed and returned.
    - [World]: the channel objects as a heap.  The mediator reaches the same
      channel object through two dictionaries (by identifier and by partner), so
      those map to locations, and its code is a state monad [M] with exceptions
      over the heap and the generator; also [transfer/routes.py].  [Mediator]:
      [mediated_transfer/mediator.py], in the module [mediator].  The pairs of a
      task belong to it alone and are returned updated; [for_pairs] is the loop
      over them.
    - [Initiator]: [mediated_transfer/initiator.py], one transfer of a payment, with
      the fee margins computed in double precision; [InitiatorManager]:
      [mediated_transfer/initiator_manager.py], the payment with its transfers,
      which are objects of the payment task and returned updated.
    - [NodeState], [Views]: the chain state of a node (registries, token networks,
      tasks, queues) and the queries of [transfer/views.py], as data of the node
      whose dispatch comes next; no theorem is about them yet.
    - [LockSets], [ChannelInvariant], [BalanceProofMessages], [LockOperations],
      [StateTransition]: the invariant of a channel and the library of lemmas
      (below).
    - [TransferTheorems], [Reachability], [Lifecycle], [ChannelTheorems],
      [ChannelSync], [WithdrawTheorems]: the theorems about the channel.
    - [ChannelFrame], [SecretRegistration]: what the channel promises the tasks
      ([safe_step], [secret_registered]): each call keeps the channel invariant
      and the identity, status and timeouts of the channel.  The theorems about
      the tasks use the channel only through them and the inversion lemmas of
      [TransferTheorems].
    - [TargetTheorems]; [ForwardingFees] (the amount a mediator forwards);
      [WorldLogic] (triples over the monad, and the invariant [steady] of the
      heap), [MediatorInvariant], [MediatorPhases], [MediatorForwarding],
      [MediatorTheorems]: the theorems about target and mediator.
    - [InitiatorInvariant] (the payment stays well-formed and describes one
      payment), [InitiatorRoutes] (the choice of a route), [InitiatorSteps] (one
      transfer), [InitiatorDispatch] (the handlers of the manager),
      [InitiatorTheorems], [InitiatorRuns], [InitiatorOutcomes]: the theorems
      about the initiator.
    - [Instances]: computable stand-ins for the third-party code and a channel
      between alice and bob; [Divergences]: runs in which the channel code does
      not do what it means to; [Witnesses], [TaskWitnesses],
      [InitiatorWitnesses]: the theorems with hypotheses applied to concrete data
      (a transfer from bob to alice, a payment from bob to carol that alice
      mediates, a payment that bob makes to alice).

    ** The abstract view of an end

    The code keeps each pending lock in one of three dictionaries (locked,
    unlocked off-chain, unlocked on-chain), its encoding in a list, and its
    amount in the balance proof.  [LockSets.all_locks] is the one set of locks
    they all represent, and [locks_inv] says that they do.  [channel_inv] adds
    that each end's balance covers its locked amount ([solvent]) and that the
    withdraws are ordered.  Each operation is proved to change the abstract set
    and the balances in one of a few ways ([lock_effect]); [acceptable_lock],
    [acceptable_unlock], [acceptable_lock_expired] and
    [acceptable_withdraw_request] are the specifications of what a receiver
    accepts, and the checks of the code are proved to decide them.

    ** What the theorems show

    - The channel is safe: every channel reached from a freshly opened one
      passes [sanity_check] and never promises more than it owns
      ([reachable_channel_is_sane]); the transition function returns on every
      state change [admissible] describes ([state_transition_total]).  The steps
      to a reachable channel lock only under secret hashes that are not pending;
      then the pending locks account for the locked amount.  The code does not
      check that: [pending_locks_account_for_locked_amount] also says what is
      missing after an accepted transfer whose hash is pending, and
      [handle_receive_lockedtransfer_correct] what such a transfer does
      ([lock_taken], [replaced_amount]).
    - Two nodes agree: [mirrored] relates the two views of one channel; what one
      node sends the other accepts, and the views stay mirrored ([ChannelSync],
      [withdraw_synchronised]).
    - Mediation is safe: the task keeps [mediator_wf] and the channels
      [channel_inv]; nothing is paid and no secret given away unless the task
      before the transition, and the payee who reveals the secret in it, make it
      safe ([safe_event]); [sanity_check] raises only after an unlock that came
      before the secret ([paid_early]); what is forwarded is what the fees leave.
    - The initiator: a secret leaves the node only for a valid request of the
      target, a payment is unlocked only for a revealed secret, each transfer
      shows its secret and is paid at most once; a route is tried only within the
      limits of the fee; expired and cancelled payments are reported and nothing
      more is sent for them.
    - The target: its state machine is total and never loses or invents a lock;
      it reports a payment exactly when it was paid, and goes on-chain in time.
    - Messages ([TransferTheorems]), the send functions, secrets and withdraws:
      what is accepted, with which effect, and that nothing changes otherwise.
    - Life cycle ([Lifecycle]): the status only moves forward; closing; settling
      with locks at one end or both, unlocking and removal; deposits commute.
    - Fees ([MediationFeeTheorems], [ForwardingFees]) and encodings.
    - Divergences: assertions an honest node can trip, tokens that are locked
      and withdrawn, a transfer that hides an earlier lock, a message sent twice, a capping loop and a list of points
      that stop too early; a target that repeats itself after the expiration or
      reports a claimed payment as failed; a mediator that an early unlock or a
      refund without a pair stops.

    [StateTransition.admissible], [TargetTheorems.target_admissible] and
    [MediatorTheorems.mediator_admissible] list what the environment must respect
    for the assertions of the code to hold.  Several clauses are there only
    because of the divergences: the withdrawn total must leave the locked amount,
    cooperative settlements must not cross, no withdraw of zero may be left over;
    a lock must not expire below the reveal timeout; the secret hash of a new lock
    must not be pending; a refund must come from the last payee, and routes must
    not swap tokens.

    ** Bounds and fuel

    Integers are [Z]; where the code fixes a width ([to_bytes(32)], the checks
    against [UINT256_MAX] and [UINT64_MAX], the words of SHA-256) the width is in
    the definition.  [bisect_loop] runs with the length of the list as fuel; the
    interval halves at each step, and [bisect_right_spec] proves the result for
    every increasing list.  [Sha256.chunks] runs with the length of the message.
    [find_section] runs with the number of x-values, and [find_section_spec]
    proves that the loop ends before it runs out.  No other definition needs
    fuel.

    ** What is not modelled

    The dispatch of the node and the token network come next.  Transport, storage,
    the REST interface and the blockchain proxies are input and output; the contracts are a separate package.  Logging and type
    checks of the code have no counterpart here. *)

From Stdlib Require Import ZArith Lia Strings.Byte.
From stdpp Require Import base gmap list strings pretty.

Open Scope Z_scope.

(** ** Hint databases *)

Create HintDb channel.
Create Rewrite HintDb bytes.

(** ** Bytes

    Python's [bytes] are lists of 8-bit values.  They are used as dictionary
    keys (addresses, secret hashes), so they need decidable equality and
    countability. *)

Abbreviation bytes := (list Byte.byte).

#[export] Instance byte_eq_dec : EqDecision Byte.byte := Byte.byte_eq_dec.

#[export] Program Instance byte_countable : Countable Byte.byte :=
  inj_countable Byte.to_N Byte.of_N _.
Next Obligation. intros b. apply Byte.of_to_N. Qed.

(** [bytes(n)]: [n] zero bytes. *)
Definition zero_bytes (n : nat) : bytes := replicate n x00.

(** ** Results and exceptions

    A Python function either returns or raises.  The exceptions are the ones
    the modelled code raises, or that the operations of the language it uses
    raise. *)

Inductive exn :=
  | AssertionError (msg : string)
  | ValueError (msg : string)
  | OverflowError (msg : string)
  | ZeroDivisionError
  | IndexError
  | KeyError
  | InvalidSignature
  | UndefinedMediationFee.

Inductive Res (A : Type) :=
  | Ok (a : A)
  | Raise (e : exn).
Arguments Ok {A} _.
Arguments Raise {A} _.

Definition bind {A B} (m : Res A) (k : A -> Res B) : Res B :=
  match m with
  | Ok a => k a
  | Raise e => Raise e
  end.

(** [assert cond, msg] followed by the rest of the function. *)
Definition py_assert {A} (cond : bool) (msg : string) (k : Res A) : Res A :=
  if cond then k else Raise (AssertionError msg).

Declare Scope res_scope.
Delimit Scope res_scope with res.
Open Scope res_scope.
Notation "'let*' x ':=' c 'in' k" := (bind c (fun x => k))
  (at level 10, x pattern, c at level 200, k at level 200) : res_scope.
Notation "'assert!' b 'with' msg 'in' k" := (py_assert b msg k)
  (at level 10, b at level 200, msg at level 200, k at level 200) : res_scope.

Definition is_Ok {A} (r : Res A) : bool := match r with Ok _ => true | Raise _ => false end.

Lemma bind_Ok_inv {A B} (m : Res A) (k : A -> Res B) b :
  bind m k = Ok b -> exists a, m = Ok a /\ k a = Ok b.
Proof. destruct m; simpl; [eauto | discriminate]. Qed.

Lemma py_assert_Ok_inv {A} c msg (k : Res A) a :
  py_assert c msg k = Ok a -> c = true /\ k = Ok a.
Proof. destruct c; simpl; [auto | discriminate]. Qed.

Lemma py_assert_true {A} c msg (k : Res A) : c = true -> py_assert c msg k = k.
Proof. intros ->. reflexivity. Qed.

(** Truth value of an optional reference: [if x:] for objects without
    [__bool__] or [__len__]. *)
Definition is_some {A} (o : option A) : bool := match o with Some _ => true | None => false end.
Definition is_none {A} (o : option A) : bool := negb (is_some o).

(** Truth value of an optional integer: [None] and [0] are both false. *)
Definition truthy_int (o : option Z) : bool :=
  match o with Some z => negb (z =? 0) | None => false end.

(** ** Insertion-ordered dictionaries

    Python dictionaries iterate in insertion order.  Where the code relies on
    that order the dictionary is an association list: storing an existing key
    keeps its position, a new key goes to the end. *)

Section OrderedDict.
Context {K V : Type} `{EqDecision K}.

Fixpoint od_get (k : K) (d : list (K * V)) : option V :=
  match d with
  | [] => None
  | (k', v) :: d' => if decide (k = k') then Some v else od_get k d'
  end.

Fixpoint od_set (k : K) (v : V) (d : list (K * V)) : list (K * V) :=
  match d with
  | [] => [(k, v)]
  | (k', v') :: d' => if decide (k = k') then (k', v) :: d' else (k', v') :: od_set k v d'
  end.

(** [del d[k]] for a key that is known to be present. *)
Fixpoint od_del (k : K) (d : list (K * V)) : list (K * V) :=
  match d with
  | [] => []
  | (k', v') :: d' => if decide (k = k') then d' else (k', v') :: od_del k d'
  end.

Lemma od_get_None k d : od_get k d = None <-> k ∉ d.*1.
Proof.
  induction d as [|[k' v'] d IH]; csimpl; [set_solver|].
  case_decide; subst; rewrite ?IH; set_solver.
Qed.

Lemma od_get_Some_elem k v d : od_get k d = Some v -> (k, v) ∈ d.
Proof.
  induction d as [|[k' v'] d IH]; csimpl; [done|].
  case_decide; intros; simplify_eq; set_solver.
Qed.

Lemma od_get_elem k v d : NoDup d.*1 -> (k, v) ∈ d -> od_get k d = Some v.
Proof.
  induction d as [|[k' v'] d IH]; csimpl; [set_solver|].
  rewrite NoDup_cons. intros [Hk Hnd] [Heq|Hin]%elem_of_cons.
  - simplify_eq. by rewrite decide_True.
  - rewrite decide_False; [auto|].
    intros ->. apply Hk. apply list_elem_of_fmap. by exists (k', v).
Qed.

Lemma od_set_new k v d : k ∉ d.*1 -> od_set k v d = d ++ [(k, v)].
Proof.
  induction d as [|[k' v'] d IH]; csimpl; [done|].
  intros Hk. rewrite decide_False by set_solver. rewrite IH by set_solver. done.
Qed.

Lemma od_get_set k k' v d :
  od_get k (od_set k' v d) = if decide (k = k') then Some v else od_get k d.
Proof.
  induction d as [|[k0 v0] d IH]; simpl.
  - repeat case_decide; congruence.
  - destruct (decide (k' = k0)); simpl; repeat case_decide; congruence.
Qed.

Lemma od_set_keys k v d : k ∈ d.*1 -> (od_set k v d).*1 = d.*1.
Proof.
  induction d as [|[k' v'] d IH]; csimpl; [set_solver|].
  intros Hk. case_decide; csimpl; [done|]. rewrite IH; set_solver.
Qed.

Lemma od_set_elem_inv k v d p : p ∈ od_set k v d -> p = (k, v) \/ p ∈ d.
Proof.
  induction d as [|[k' v'] d IH]; csimpl; [set_solver|].
  case_decide; subst; set_solver.
Qed.

Lemma od_del_sublist k d : od_del k d `sublist_of` d.
Proof.
  induction d as [|[k' v'] d IH]; csimpl; [constructor|].
  case_decide; [by apply sublist_cons | by apply sublist_skip].
Qed.

Lemma od_del_keys_elem k k' d : k' ∈ (od_del k d).*1 -> k' ∈ d.*1.
Proof.
  intros (p & -> & Hp)%list_elem_of_fmap. apply list_elem_of_fmap.
  exists p. split; [done|]. eapply elem_of_sublist; [done | apply od_del_sublist].
Qed.

Lemma od_del_get k d : NoDup d.*1 -> od_get k (od_del k d) = None.
Proof.
  intros Hnd. apply od_get_None.
  induction d as [|[k' v'] d IH]; csimpl in *; [set_solver|].
  apply NoDup_cons in Hnd as [? ?]. case_decide; subst; [done|].
  csimpl. set_solver.
Qed.
End OrderedDict.

(** [max(d, default=0)] over the keys of a dictionary with integer keys. *)
Definition max_key {V} (d : list (Z * V)) : Z :=
  match d.*1 with
  | [] => 0
  | k :: ks => fold_left Z.max ks k
  end.

Lemma fold_max_ge ks k : k <= fold_left Z.max ks k /\ Forall (fun x => x <= fold_left Z.max ks k) ks.
Proof.
  revert k. induction ks as [|k' ks IH]; intros k; simpl; [split; [lia|constructor]|].
  destruct (IH (Z.max k k')) as [H1 H2]. split; [lia|].
  constructor; [lia | done].
Qed.

Lemma fold_max_elem ks k : fold_left Z.max ks k = k \/ fold_left Z.max ks k ∈ ks.
Proof.
  revert k. induction ks as [|k' ks IH]; intros k; simpl; [by left|].
  destruct (IH (Z.max k k')) as [->|]; [|set_solver].
  destruct (Z.max_spec k k') as [[? ->]|[? ->]]; set_solver.
Qed.

Lemma max_key_ge {V} (d : list (Z * V)) k : k ∈ d.*1 -> k <= max_key d.
Proof.
  unfold max_key. destruct (d.*1) as [|k0 ks]; [set_solver|].
  destruct (fold_max_ge ks k0) as [? Hall]. intros [->|Hin]%elem_of_cons; [done|].
  rewrite Forall_forall in Hall. auto.
Qed.

Lemma max_key_elem {V} (d : list (Z * V)) : d.*1 = [] \/ max_key d ∈ d.*1.
Proof.
  unfold max_key. destruct (d.*1) as [|k0 ks]; [by left|]. right.
  destruct (fold_max_elem ks k0) as [->|]; set_solver.
Qed.

Lemma max_key_le {V} (d : list (Z * V)) b :
  0 <= b -> (forall k, k ∈ d.*1 -> k <= b) -> max_key d <= b.
Proof.
  intros Hb H. destruct (max_key_elem d) as [Hd|Hd]; [|auto].
  unfold max_key. rewrite Hd. done.
Qed.

Lemma max_key_set {V} (d : list (Z * V)) k v :
  0 <= k -> max_key (od_set k v d) = Z.max (max_key d) k.
Proof.
  intros Hk. destruct (decide (k ∈ d.*1)) as [Hin|Hin].
  - pose proof (max_key_ge d k Hin). unfold max_key at 1.
    rewrite od_set_keys by done. fold (max_key d). lia.
  - rewrite od_set_new by done. unfold max_key. rewrite fmap_app. csimpl.
    destruct (d.*1) as [|k0 ks]; csimpl; [lia|].
    rewrite fold_left_app. done.
Qed.

Lemma max_key_sublist {V} (d d' : list (Z * V)) :
  d' `sublist_of` d -> 0 <= max_key d -> max_key d' <= max_key d.
Proof.
  intros Hs Hd. apply max_key_le; [done|]. intros k Hk. apply max_key_ge.
  apply list_elem_of_fmap in Hk as (p & -> & Hp).
  apply list_elem_of_fmap. exists p. split; [done|].
  by eapply elem_of_sublist.
Qed.

(** ** Sums over the values of a dictionary *)

Section MapSum.
Context {K V : Type} `{Countable K} (f : V -> Z).

(** [sum(f(v) for v in d.values())]. *)
Definition map_sum (m : gmap K V) : Z := map_fold (fun _ v acc => f v + acc) 0 m.

Lemma map_sum_empty : map_sum ∅ = 0.
Proof. apply map_fold_empty. Qed.

Lemma map_sum_insert k v m : m !! k = None -> map_sum (<[k:=v]> m) = f v + map_sum m.
Proof. intros Hk. unfold map_sum. rewrite map_fold_insert_L; [done| |done]. intros. lia. Qed.

Lemma map_sum_delete k v m : m !! k = Some v -> map_sum (delete k m) = map_sum m - f v.
Proof.
  intros Hk. unfold map_sum.
  rewrite (map_fold_delete_L _ _ k v m); [lia| |done]. intros. lia.
Qed.

Lemma map_sum_delete_None k m : m !! k = None -> map_sum (delete k m) = map_sum m.
Proof. intros Hk. by rewrite delete_id. Qed.

Lemma map_sum_nonneg m : (forall k v, m !! k = Some v -> 0 <= f v) -> 0 <= map_sum m.
Proof.
  induction m as [|k v m Hk IH] using map_ind; intros Hpos.
  - by rewrite map_sum_empty.
  - rewrite map_sum_insert by done.
    assert (0 <= f v) by (apply (Hpos k); by simplify_map_eq).
    assert (0 <= map_sum m); [|lia].
    apply IH. intros k' v' Hk'. apply (Hpos k').
    rewrite lookup_insert_ne; [done|congruence].
Qed.

Lemma map_sum_lookup_le k v m :
  (forall k v, m !! k = Some v -> 0 <= f v) -> m !! k = Some v -> f v <= map_sum m.
Proof.
  intros Hpos Hk. pose proof (map_sum_delete k v m Hk) as E.
  assert (0 <= map_sum (delete k m)); [|lia].
  apply map_sum_nonneg. intros k' v' [_ Hk']%lookup_delete_Some. eauto.
Qed.
End MapSum.

Section MapSumMore.
Context {K : Type} `{Countable K}.

Lemma map_sum_fmap {V W} (g : V -> W) (f : W -> Z) (m : gmap K V) :
  map_sum f (g <$> m) = map_sum (fun v => f (g v)) m.
Proof.
  induction m as [|k v m Hk IH] using map_ind.
  - by rewrite fmap_empty, !map_sum_empty.
  - rewrite fmap_insert, !map_sum_insert; [by rewrite IH | done |].
    by rewrite lookup_fmap, Hk.
Qed.

Lemma map_sum_union {V} (f : V -> Z) (m1 m2 : gmap K V) :
  m1 ##ₘ m2 -> map_sum f (m1 ∪ m2) = map_sum f m1 + map_sum f m2.
Proof.
  induction m1 as [|k v m1 Hk IH] using map_ind; intros Hdisj.
  - rewrite (left_id_L ∅ (∪)), map_sum_empty. lia.
  - apply map_disjoint_insert_l in Hdisj as [Hk2 Hdisj].
    rewrite <- insert_union_l, !map_sum_insert; [|done|].
    + rewrite IH by done. lia.
    + by apply lookup_union_None.
Qed.
End MapSumMore.

(** ** Python's [list.remove]: the first occurrence goes *)

Fixpoint list_remove_first {A} `{EqDecision A} (x : A) (l : list A) : list A :=
  match l with
  | [] => []
  | y :: l' => if decide (x = y) then l' else y :: list_remove_first x l'
  end.

Section ListRemoveFirst.
Context {A : Type} `{EqDecision A}.
Implicit Types (x y : A) (l : list A).

Lemma list_remove_first_ne x y l : x <> y -> y ∈ l -> y ∈ list_remove_first x l.
Proof.
  intros Hne. induction l as [|z l IH]; simpl; [done|].
  intros [->|Hin]%elem_of_cons; case_decide; subst; try done; set_solver.
Qed.

Lemma list_remove_first_elem x y l : y ∈ list_remove_first x l -> y ∈ l.
Proof.
  induction l as [|z l IH]; simpl; [done|].
  case_decide; [set_solver|]. intros [->|Hin]%elem_of_cons; set_solver.
Qed.

Lemma list_remove_first_length x l :
  x ∈ l -> S (length (list_remove_first x l)) = length l.
Proof.
  induction l as [|z l IH]; simpl; [set_solver|].
  intros Hin. case_decide; simpl; [done|].
  rewrite IH; [done|]. apply elem_of_cons in Hin as [?|?]; done.
Qed.

Lemma list_remove_first_app x l : x ∉ l -> list_remove_first x (l ++ [x]) = l.
Proof.
  induction l as [|z l IH]; simpl; [by rewrite decide_True by done|].
  intros Hin. rewrite decide_False by set_solver. rewrite IH by set_solver. done.
Qed.
End ListRemoveFirst.

(** ** Fixed-width big-endian integers

    [int.to_bytes(n, byteorder="big")] raises [OverflowError] when the value
    is negative or does not fit. *)

Definition byte_of_Z (z : Z) : Byte.byte :=
  default x00 (Byte.of_N (Z.to_N (z mod 256))).

Definition Z_of_byte (b : Byte.byte) : Z := Z.of_N (Byte.to_N b).

(** The [n] least significant bytes of [z], most significant first. *)
Fixpoint be_bytes (n : nat) (z : Z) : bytes :=
  match n with
  | O => []
  | S n' => be_bytes n' (z / 256) ++ [byte_of_Z z]
  end.

Definition int_to_bytes (n : nat) (z : Z) : Res bytes :=
  if z <? 0 then Raise (OverflowError "can't convert negative int to unsigned")
  else if 256 ^ Z.of_nat n <=? z then Raise (OverflowError "int too big to convert")
  else Ok (be_bytes n z).

(** [int.from_bytes(bs, byteorder="big")]. *)
Definition int_from_bytes (bs : bytes) : Z :=
  fold_left (fun acc b => acc * 256 + Z_of_byte b) bs 0.

Lemma Z_of_byte_of_Z z : Z_of_byte (byte_of_Z z) = z mod 256.
Proof.
  unfold Z_of_byte, byte_of_Z.
  pose proof (Z.mod_pos_bound z 256 ltac:(lia)) as Hb.
  destruct (Byte.of_N (Z.to_N (z mod 256))) as [b|] eqn:E; simpl.
  - apply Byte.to_of_N in E. rewrite E. lia.
  - apply Byte.of_N_None_iff in E. lia.
Qed.

Lemma be_bytes_length n z : length (be_bytes n z) = n.
Proof.
  revert z. induction n as [|n IH]; intros z; simpl; [done|].
  rewrite length_app, IH. simpl. lia.
Qed.

#[export] Hint Rewrite @length_app be_bytes_length : bytes.

Lemma int_from_bytes_app bs b : int_from_bytes (bs ++ [b]) = int_from_bytes bs * 256 + Z_of_byte b.
Proof. unfold int_from_bytes. by rewrite fold_left_app. Qed.

Lemma int_from_be_bytes n z : 0 <= z < 256 ^ Z.of_nat n -> int_from_bytes (be_bytes n z) = z.
Proof.
  revert z. induction n as [|n IH]; intros z Hz.
  - simpl in *. unfold int_from_bytes. simpl. lia.
  - cbn [be_bytes]. rewrite int_from_bytes_app, IH, Z_of_byte_of_Z.
    + pose proof (Z.div_mod z 256). lia.
    + rewrite Nat2Z.inj_succ, Z.pow_succ_r in Hz by lia.
      split; [apply Z.div_pos; lia|]. apply Z.div_lt_upper_bound; lia.
Qed.

Lemma int_to_bytes_Ok n z :
  0 <= z < 256 ^ Z.of_nat n -> int_to_bytes n z = Ok (be_bytes n z).
Proof.
  intros Hz. unfold int_to_bytes.
  rewrite (proj2 (Z.ltb_ge z 0)), (proj2 (Z.leb_gt _ _)) by lia. done.
Qed.

Lemma int_to_bytes_inv n z bs :
  int_to_bytes n z = Ok bs -> 0 <= z < 256 ^ Z.of_nat n /\ bs = be_bytes n z.
Proof.
  unfold int_to_bytes. destruct (Z.ltb_spec z 0); [done|].
  destruct (Z.leb_spec (256 ^ Z.of_nat n) z); [done|]. intros [= <-]. split; [lia|done].
Qed.

(** Equal appends with prefixes of the same length split. *)
Lemma app_inj_length {A} (l1 l2 r1 r2 : list A) :
  length l1 = length l2 -> l1 ++ r1 = l2 ++ r2 -> l1 = l2 /\ r1 = r2.
Proof. intros. by apply app_inj_1. Qed.

(** ** Proof automation

    [res_inv] inverts every hypothesis that says a computation in the result
    monad returned; [res_step] walks the goal forward. *)

Ltac res_inv_step :=
  match goal with
  | H : Ok _ = Ok _ |- _ => injection H as H
  | H : Raise _ = Ok _ |- _ => discriminate H
  | H : Ok _ = Raise _ |- _ => discriminate H
  | H : bind _ _ = Ok _ |- _ =>
      let a := fresh "a" in let H1 := fresh "Hrun" in
      apply bind_Ok_inv in H as (a & H1 & H)
  | H : py_assert _ _ _ = Ok _ |- _ =>
      let H1 := fresh "Hassert" in apply py_assert_Ok_inv in H as [H1 H]
  end.
Ltac res_inv := repeat (res_inv_step; simpl in * ); simplify_eq.

(** Turns boolean tests of the code into propositions. *)
Ltac zbool :=
  repeat match goal with
  | H : (_ <? _) = true |- _ => apply Z.ltb_lt in H
  | H : (_ <? _) = false |- _ => apply Z.ltb_ge in H
  | H : (_ <=? _) = true |- _ => apply Z.leb_le in H
  | H : (_ <=? _) = false |- _ => apply Z.leb_gt in H
  | H : (_ =? _) = true |- _ => apply Z.eqb_eq in H
  | H : (_ =? _) = false |- _ => apply Z.eqb_neq in H
  | H : negb _ = true |- _ => apply negb_true_iff in H
  | H : negb _ = false |- _ => apply negb_false_iff in H
  | H : (_ && _)%bool = true |- _ => apply andb_true_iff in H as [? ?]
  | H : (_ || _)%bool = false |- _ => apply orb_false_iff in H as [? ?]
  | H : bool_decide _ = true |- _ => apply bool_decide_eq_true in H
  | H : bool_decide _ = false |- _ => apply bool_decide_eq_false in H
  end.

(** Splits the conditionals of the goal, remembering which way each went. *)
Ltac split_ifs :=
  repeat match goal with
  | |- context [if ?b then _ else _] => let E := fresh "E" in destruct b eqn:E
  end.
