(* ===== verification/Encoding.v ===== *)
(** * Byte-level encodings: hashes, signatures, locks and balance data

    Models [utils/formatting.py], [utils/signer.py], [utils/packing.py],
    [utils/secrethash.py], [transfer/utils/__init__.py] and the [Lock] of
    [messages/transfers.py].  Third-party code (the Keccak hash, the ECDSA
    recovery, the ABI encoder, the pinned [gatecoin_contracts] packer, libm's
    [pow]) enters through the class [Externals]. *)

From Stdlib Require Import ZArith Lia Strings.Byte Strings.Ascii SpecFloat.
From stdpp Require Import base gmap list strings pretty.
From S2P Require Import Prelude.

(** ** Code outside the repository *)

Class Externals := {
  (** [eth_hash.auto.keccak] *)
  keccak : bytes -> bytes;
  (** [keys.ecdsa_recover(message_hash, keys.Signature(sig)).to_canonical_address()];
      [None] stands for any exception it raises *)
  ecdsa_recover_address : bytes -> bytes -> option bytes;
  (** [eth_abi.encode_single("uint256", n)] *)
  encode_single_uint256 : Z -> Res bytes;
  (** [Web3.toBytes(hexstr=...)] *)
  to_bytes_hexstr : string -> bytes;
  (** [gatecoin_contracts.utils.proofs.pack_withdraw_message] of the pinned
      release: token network, chain, channel, participant, amount, expiration *)
  pack_withdraw_message : string -> Z -> Z -> string -> Z -> Z -> Res bytes;
  (** [pow] of the C library, which Python's [**] calls on floats *)
  float_pow : spec_float -> spec_float -> Res spec_float;
}.

(** The documented facts the proofs use: Keccak-256 digests have 32 bytes, and
    the ABI encoding of a [uint256] is its 32-byte big-endian representation. *)
Class ExternalsLaws `{Externals} := {
  keccak_length bs : length (keccak bs) = 32%nat;
  encode_single_uint256_Ok z :
    0 <= z <= 2 ^ 256 - 1 -> encode_single_uint256 z = Ok (be_bytes 32 z);
}.

(** ** Random numbers

    The code draws identifiers with [prng.randint(0, UINT64_MAX)]; the
    generator's state is threaded through the functions that draw. *)
Class RandomGen (Random : Type) := {
  randint : Z -> Z -> Random -> Z * Random;
  randint_range lo hi g : lo <= hi -> lo <= (randint lo hi g).1 <= hi;
}.

Definition UINT64_MAX : Z := 2 ^ 64 - 1.
Definition UINT256_MAX : Z := 2 ^ 256 - 1.

Definition message_identifier_from_prng {Random} `{RandomGen Random} (prng : Random) : Z * Random :=
  randint 0 UINT64_MAX prng.

(** ** SHA-256 (Python's [hashlib.sha256]) *)

Module Sha256.
Definition w32 (z : Z) : Z := Z.land z 4294967295.
Definition rotr (n z : Z) : Z := w32 (Z.lor (Z.shiftr z n) (Z.shiftl z (32 - n))).

(** The constants are the first 32 bits of the fractional parts of the roots
    of the first primes: cube roots for the rounds, square roots for the
    initial state. *)
Definition is_prime (n : Z) : bool :=
  forallb (fun d => negb (n mod Z.of_nat d =? 0)) (seq 2 (Z.to_nat n - 2)).
Definition primes : list Z := Eval vm_compute in
  List.filter is_prime (map Z.of_nat (seq 2 310)).

(** The integer cube root, bit by bit. *)
Fixpoint cbrt_bits (n : nat) (x r : Z) : Z :=
  match n with
  | O => r
  | S n' => let r' := r + 2 ^ Z.of_nat n' in cbrt_bits n' x (if r' ^ 3 <=? x then r' else r)
  end.

Definition K : list Z := Eval vm_compute in
  map (fun p => w32 (cbrt_bits 40 (p * 2 ^ 96) 0)) primes.
Definition H0 : list Z := Eval vm_compute in
  map (fun p => w32 (Z.sqrt (p * 2 ^ 64))) (take 8 primes).

(** Message padding to a multiple of 64 bytes. *)
Definition pad (m : bytes) : bytes :=
  let len := length m in
  m ++ x80 :: zero_bytes ((119 - len mod 64) mod 64) ++ be_bytes 8 (8 * Z.of_nat len).

Fixpoint chunks (n fuel : nat) (l : bytes) : list bytes :=
  match fuel, l with
  | S fuel', _ :: _ => take n l :: chunks n fuel' (drop n l)
  | _, _ => []
  end.

(** The message schedule, most recent word first. *)
Fixpoint extend (n : nat) (w : list Z) : list Z :=
  match n with
  | O => w
  | S n' =>
      let g i := nth i w 0 in
      let s0 := Z.lxor (Z.lxor (rotr 7 (g 14%nat)) (rotr 18 (g 14%nat))) (Z.shiftr (g 14%nat) 3) in
      let s1 := Z.lxor (Z.lxor (rotr 17 (g 1%nat)) (rotr 19 (g 1%nat))) (Z.shiftr (g 1%nat) 10) in
      extend n' (w32 (g 15%nat + s0 + g 6%nat + s1) :: w)
  end.

Definition round (h : list Z) (kw : Z * Z) : list Z :=
  match h with
  | [a; b; c; d; e; f; g; hh] =>
      let S1 := Z.lxor (Z.lxor (rotr 6 e) (rotr 11 e)) (rotr 25 e) in
      let ch := Z.lxor (Z.land e f) (Z.land (Z.lxor e 4294967295) g) in
      let t1 := hh + S1 + ch + kw.1 + kw.2 in
      let S0 := Z.lxor (Z.lxor (rotr 2 a) (rotr 13 a)) (rotr 22 a) in
      let maj := Z.lxor (Z.lxor (Z.land a b) (Z.land a c)) (Z.land b c) in
      [w32 (t1 + S0 + maj); a; b; c; w32 (d + t1); e; f; g]
  | _ => h
  end.

Definition compress (h : list Z) (block : bytes) : list Z :=
  let w := rev (extend 48 (rev (map int_from_bytes (chunks 4 16 block)))) in
  zip_with (fun x y => w32 (x + y)) h (fold_left round (zip K w) h).

Definition digest (m : bytes) : bytes :=
  let p := pad m in
  concat (map (be_bytes 4) (fold_left compress (chunks 64 (length p) p) H0)).
End Sha256.

Definition sha256_secrethash (secret : bytes) : bytes := Sha256.digest secret.

(** ** Text *)

Definition hex_digit (n : Z) : ascii :=
  ascii_of_N (Z.to_N (if n <? 10 then 48 + n else 87 + n)).

(** [bytes.hex()] *)
Fixpoint hex (bs : bytes) : string :=
  match bs with
  | [] => ""
  | b :: bs' => String (hex_digit (Z_of_byte b / 16)) (String (hex_digit (Z_of_byte b mod 16)) (hex bs'))
  end.

(** [eth_utils.encode_hex] and [to_hex] on bytes, and [to_hex_address]. *)
Definition to_hex (bs : bytes) : string := "0x" +:+ hex bs.
Definition to_hex_address (address : bytes) : string := "0x" +:+ hex address.

Definition is_digit (c : ascii) : bool :=
  let n := N_of_ascii c in (48 <=? n)%N && (n <=? 57)%N.
Definition upper (c : ascii) : ascii :=
  let n := N_of_ascii c in
  if (97 <=? n)%N && (n <=? 122)%N then ascii_of_N (n - 32) else c.
Definition lower (c : ascii) : ascii :=
  let n := N_of_ascii c in
  if (65 <=? n)%N && (n <=? 90)%N then ascii_of_N (n + 32) else c.

Section WithExternals.
Context `{Externals}.

Fixpoint checksum_chars (v : Z) (i : Z) (s : string) : string :=
  match s with
  | EmptyString => ""
  | String char s' =>
      let c := if is_digit char then char
               else if negb (Z.land v (2 ^ (255 - 4 * i)) =? 0) then upper char else lower char in
      String c (checksum_chars v (i + 1) s')
  end.

(** EIP-55 checksum address. *)
Definition to_checksum_address (address : bytes) : string :=
  let v := int_from_bytes (keccak (String.list_byte_of_string (hex address))) in
  "0x" +:+ checksum_chars v 0 (hex address).

(** ** Signatures *)

Definition eth_prefix : bytes := x19 :: String.list_byte_of_string "Ethereum Signed Message:" ++ [x0a].

Definition eth_sign_sha3 (data : bytes) : bytes :=
  let data :=
    if bool_decide (eth_prefix `prefix_of` data) then data
    else eth_prefix ++ String.list_byte_of_string (pretty (Z.of_nat (length data))) ++ data in
  keccak data.

(** [get_public_key] followed by [to_canonical_address]. *)
Definition recover (data signature : bytes) : Res bytes :=
  let hashed_message := eth_sign_sha3 data in
  match last signature with
  | None => Raise IndexError
  | Some v =>
      let signature :=
        if 27 <=? Z_of_byte v
        then removelast signature ++ [byte_of_Z (Z_of_byte v - 27)]
        else signature in
      match ecdsa_recover_address hashed_message signature with
      | Some address => Ok address
      | None => Raise InvalidSignature
      end
  end.

(** ** Hashes of channel data *)

Definition EMPTY_HASH : bytes := zero_bytes 32.
Definition EMPTY_ADDRESS : bytes := zero_bytes 20.
Definition EMPTY_SECRETHASH : bytes := zero_bytes 32.
Definition LOCKSROOT_OF_NO_LOCKS : bytes := keccak [].

Definition hash_balance_data (transferred_amount locked_amount : Z) (locksroot : bytes) : Res bytes :=
  assert! bool_decide (locksroot <> []) with "Can't hash empty locksroot" in
  assert! bool_decide (length locksroot = 32%nat) with "Locksroot has wrong length" in
  if (transferred_amount =? 0) && (locked_amount =? 0) && bool_decide (locksroot = LOCKSROOT_OF_NO_LOCKS)
  then Ok EMPTY_HASH
  else
    let* t := int_to_bytes 32 transferred_amount in
    let* l := int_to_bytes 32 locked_amount in
    Ok (keccak (t ++ l ++ locksroot)).
End WithExternals.

(** ** Locks *)

(** [Lock.as_bytes] of a lock whose fields passed [Lock.__post_init__]. *)
Definition lock_as_bytes (amount expiration : Z) (secrethash : bytes) : bytes :=
  be_bytes 32 expiration ++ be_bytes 32 amount ++ secrethash.

(** [Lock(...).as_bytes], with the checks of [__post_init__]. *)
Definition Lock_encode (amount expiration : Z) (secrethash : bytes) : Res bytes :=
  if amount <? 0 then Raise (ValueError ("amount " +:+ pretty amount +:+ " needs to be positive"))
  else if UINT256_MAX <? amount then Raise (ValueError ("amount " +:+ pretty amount +:+ " is too large"))
  else if expiration <? 0 then
    Raise (ValueError ("expiration " +:+ pretty expiration +:+ " needs to be positive"))
  else if UINT256_MAX <? expiration then
    Raise (ValueError ("expiration " +:+ pretty expiration +:+ " is too large"))
  else if negb (bool_decide (length secrethash = 32%nat)) then
    Raise (ValueError "secrethash {self.secrethash} is not a valid hash")
  else
    let* e := int_to_bytes 32 expiration in
    let* a := int_to_bytes 32 amount in
    Ok (e ++ a ++ secrethash).

(** [Lock.from_bytes], up to the validation of the constructor. *)
Definition Lock_decode (serialized : bytes) : Z * Z * bytes :=
  (int_from_bytes (take 32 (drop 32 serialized)), int_from_bytes (take 32 serialized), drop 64 serialized).

(** ** Facts about the encodings *)

Lemma Lock_encode_inv amount expiration secrethash bs :
  Lock_encode amount expiration secrethash = Ok bs ->
  0 <= amount <= UINT256_MAX /\ 0 <= expiration <= UINT256_MAX /\
  length secrethash = 32%nat /\ bs = lock_as_bytes amount expiration secrethash.
Proof.
  unfold Lock_encode. split_ifs; try discriminate. zbool. intros Hrun. res_inv.
  apply int_to_bytes_inv in Hrun0 as [? ->]. apply int_to_bytes_inv in Hrun1 as [? ->].
  split; [lia|]. split; [lia|]. done.
Qed.

Lemma Lock_encode_Ok amount expiration secrethash :
  0 <= amount <= UINT256_MAX -> 0 <= expiration <= UINT256_MAX -> length secrethash = 32%nat ->
  Lock_encode amount expiration secrethash = Ok (lock_as_bytes amount expiration secrethash).
Proof.
  intros Ha He Hl. unfold Lock_encode, UINT256_MAX in *.
  rewrite bool_decide_true by done. simpl negb.
  split_ifs; zbool; try lia.
  rewrite !int_to_bytes_Ok by (simpl; lia). done.
Qed.

Lemma Lock_decode_lock_as_bytes amount expiration secrethash :
  0 <= amount <= UINT256_MAX -> 0 <= expiration <= UINT256_MAX ->
  Lock_decode (lock_as_bytes amount expiration secrethash) = (amount, expiration, secrethash).
Proof.
  intros Ha He. unfold Lock_decode, lock_as_bytes, UINT256_MAX in *.
  rewrite take_app_length' by (by autorewrite with bytes).
  rewrite !(drop_app_ge (be_bytes 32 expiration)) by (autorewrite with bytes; lia).
  rewrite !be_bytes_length. simpl (32 - 32)%nat. simpl (64 - 32)%nat. rewrite drop_0.
  rewrite take_app_length' by (by autorewrite with bytes).
  rewrite drop_app_length' by (by autorewrite with bytes).
  rewrite !int_from_be_bytes by (simpl; lia). done.
Qed.

(** Different locks have different encodings: in particular an encoding
    determines the secret hash. *)
Lemma lock_as_bytes_inj a e h a' e' h' :
  0 <= a <= UINT256_MAX -> 0 <= e <= UINT256_MAX ->
  0 <= a' <= UINT256_MAX -> 0 <= e' <= UINT256_MAX ->
  lock_as_bytes a e h = lock_as_bytes a' e' h' -> a = a' /\ e = e' /\ h = h'.
Proof.
  intros ???? Heq. apply (f_equal Lock_decode) in Heq.
  rewrite !Lock_decode_lock_as_bytes in Heq by done. by simplify_eq.
Qed.

Section EncodingFacts.
Context `{ExternalsLaws}.

Lemma LOCKSROOT_OF_NO_LOCKS_length : length LOCKSROOT_OF_NO_LOCKS = 32%nat.
Proof. apply keccak_length. Qed.

Lemma nonempty_of_length (bs : bytes) : length bs = 32%nat -> bs <> [].
Proof. by destruct bs. Qed.

Lemma hash_balance_data_Ok transferred locked locksroot :
  0 <= transferred <= UINT256_MAX -> 0 <= locked <= UINT256_MAX -> length locksroot = 32%nat ->
  exists h, hash_balance_data transferred locked locksroot = Ok h /\ length h = 32%nat.
Proof.
  intros Ht Hl Hr. unfold hash_balance_data, UINT256_MAX in *.
  rewrite !py_assert_true by (apply bool_decide_true; auto using nonempty_of_length).
  destruct (_ && _); [eauto|].
  rewrite !int_to_bytes_Ok by (simpl; lia). simpl. eauto using keccak_length.
Qed.
End EncodingFacts.

(** C39. Locks round-trip.  A lock is encoded exactly when its amount and its
    expiration fit in 256 bits and its secret hash has 32 bytes; every other
    input raises [ValueError].  The encoding has 96 bytes, decoding it gives back
    the three fields, and no other lock has the same encoding. *)
Theorem Lock_encode_roundtrip amount expiration secrethash :
  (is_Ok (Lock_encode amount expiration secrethash) = true <->
   0 <= amount <= UINT256_MAX /\ 0 <= expiration <= UINT256_MAX /\ length secrethash = 32%nat) /\
  match Lock_encode amount expiration secrethash with
  | Ok bs =>
      length bs = 96%nat /\ Lock_decode bs = (amount, expiration, secrethash) /\
      forall a e h, Lock_encode a e h = Ok bs -> (a, e, h) = (amount, expiration, secrethash)
  | Raise ex => exists msg, ex = ValueError msg
  end.
Proof.
  destruct (Lock_encode amount expiration secrethash) as [bs|ex] eqn:E.
  - apply Lock_encode_inv in E as (Ha & He & Hl & ->). split; [split; [done | done]|].
    split; [|split; [by apply Lock_decode_lock_as_bytes|]].
    + unfold lock_as_bytes. autorewrite with bytes. by rewrite Hl.
    + intros a e h (Ha' & He' & _ & Heq)%Lock_encode_inv.
      apply lock_as_bytes_inj in Heq as (-> & -> & ->); done.
  - split.
    + split; [discriminate|]. intros (Ha & He & Hl). by rewrite Lock_encode_Ok in E.
    + unfold Lock_encode in E. revert E. split_ifs; try (intros [= <-]; eauto; fail). zbool.
      rewrite !int_to_bytes_Ok by (unfold UINT256_MAX in *; simpl; lia). discriminate.
Qed.
