(* ===== verification/MediationFee.v ===== *)
(** * Mediation fees: [transfer/mediated_transfer/mediation_fee.py]

    Penalty functions are piecewise linear over exact rationals (Python's
    [Fraction], here [Q]); the imbalance curve is computed in IEEE-754 double
    precision (Python's [float], here [SpecFloat] with 53 bits). *)

From Stdlib Require Import ZArith Lia QArith Qabs Lqa SpecFloat.
From stdpp Require Import base gmap list strings pretty.
From S2P Require Import Prelude Encoding.

Open Scope Z_scope.

Definition NUM_DISCRETISATION_POINTS : Z := 21.

(** ** Piecewise linear interpolation *)

Record Interpolate := {
  ip_x_list : list Q;
  ip_y_list : list Q;
  ip_slopes : list Q;
}.

Definition Qlt_bool (x y : Q) : bool := negb (Qle_bool y x).

(** [all(y - x > 0 for x, y in zip(l, l[1:]))] *)
Fixpoint strictly_ascending (l : list Q) : bool :=
  match l with
  | x :: (y :: _) as l' => Qlt_bool 0 (y - x) && strictly_ascending l'
  | _ => true
  end.

Fixpoint slopes_of (xs ys : list Q) : list Q :=
  match xs, ys with
  | x1 :: (x2 :: _) as xs', y1 :: (y2 :: _) as ys' =>
      Qred ((y2 - y1) / (x2 - x1)) :: slopes_of xs' ys'
  | _, _ => []
  end.

Definition Interpolate_init (x_list y_list : list Q) : Res Interpolate :=
  if negb (strictly_ascending x_list)
  then Raise (ValueError "x_list must be in strictly ascending order!")
  else Ok {| ip_x_list := x_list; ip_y_list := y_list; ip_slopes := slopes_of x_list y_list |}.

(** [bisect.bisect_right(a, x)]: binary search in [a[lo:hi]]. *)
Fixpoint bisect_loop (fuel : nat) (a : list Q) (x : Q) (lo hi : nat) : nat :=
  match fuel with
  | O => lo
  | S fuel' =>
      if (lo <? hi)%nat then
        let mid := ((lo + hi) / 2)%nat in
        if Qlt_bool x (nth mid a 0%Q) then bisect_loop fuel' a x lo mid
        else bisect_loop fuel' a x (S mid) hi
      else lo
  end.
Definition bisect_right (a : list Q) (x : Q) : nat := bisect_loop (length a) a x 0 (length a).

Definition Interpolate_call (f : Interpolate) (x : Q) : Res Q :=
  match head (ip_x_list f), last (ip_x_list f) with
  | Some x0, Some xn =>
      if negb (Qle_bool x0 x && Qle_bool x xn) then Raise (ValueError "x out of bounds!")
      else if Qeq_bool x xn then
        match last (ip_y_list f) with Some y => Ok y | None => Raise IndexError end
      else
        let i := (bisect_right (ip_x_list f) x - 1)%nat in
        match ip_y_list f !! i, ip_slopes f !! i, ip_x_list f !! i with
        | Some y, Some s, Some xi => Ok (Qred (y + s * (x - xi)))
        | _, _, _ => Raise IndexError
        end
  | _, _ => Raise IndexError
  end.

(** Sign of the input, zero on zero. *)
Definition sign (x : Q) : Z :=
  if Qeq_bool x 0 then 0 else if Qlt_bool 0 x then 1 else -1.

(** ** Fee schedules *)

Record FeeScheduleState := {
  fs_cap_fees : bool;
  fs_flat : Z;
  fs_proportional : Z;
  fs_imbalance_penalty : option (list (Z * Z));
  fs_penalty_func : option Interpolate;
}.

(** [FeeScheduleState(...)]: [__post_init__] builds the penalty function from
    a non-empty list of points. *)
Definition FeeScheduleState_init (cap_fees : bool) (flat proportional : Z)
    (imbalance_penalty : option (list (Z * Z))) : Res FeeScheduleState :=
  let* penalty_func :=
    match imbalance_penalty with
    | Some ((_ :: _) as points) =>
        let* f := Interpolate_init (map (fun p => inject_Z p.1) points) (map (fun p => inject_Z p.2) points) in
        Ok (Some f)
    | _ => Ok None
    end in
  Ok {| fs_cap_fees := cap_fees; fs_flat := flat; fs_proportional := proportional;
        fs_imbalance_penalty := imbalance_penalty; fs_penalty_func := penalty_func |}.

(** [FeeScheduleState.fee]: the conditional expression covers the whole sum,
    so a schedule without penalty function charges nothing. *)
Definition fee (s : FeeScheduleState) (balance : Z) (amount : Q) : Res Q :=
  match fs_penalty_func s with
  | Some pf =>
      let* p1 := Interpolate_call pf (inject_Z balance + amount)%Q in
      let* p2 := Interpolate_call pf (inject_Z balance) in
      Ok (Qred (inject_Z (fs_flat s) + (fs_proportional s # 1000000) * Qabs amount + (p1 - p2)))
  | None => Ok 0%Q
  end.

(** [sorted(set(...))] *)
Fixpoint insert_sorted (x : Q) (l : list Q) : list Q :=
  match l with
  | [] => [x]
  | y :: l' => if Qeq_bool x y then l else if Qlt_bool x y then x :: l else y :: insert_sorted x l'
  end.
Definition sorted_set (l : list Q) : list Q := fold_right insert_sorted [] l.

Definition Qmin2 (x y : Q) : Q := if Qlt_bool y x then y else x.
Definition Qmax2 (x y : Q) : Q := if Qlt_bool x y then y else x.

Definition _collect_x_values (penalty_func_in penalty_func_out : Interpolate)
    (balance_in balance_out max_x : Z) : list Q :=
  let all_x_vals :=
    map (fun x => Qred (x - inject_Z balance_in)) (ip_x_list penalty_func_in)
    ++ map (fun x => Qred (inject_Z balance_out - x)) (ip_x_list penalty_func_out) in
  let limited_x_vals :=
    map (fun x => Qmax2 (Qmin2 (Qmin2 x (inject_Z balance_out)) (inject_Z max_x)) 0%Q) all_x_vals in
  sorted_set limited_x_vals.

(** [l.insert(i, x)] *)
Definition list_insert_at (i : nat) (x : Q) (l : list Q) : list Q := take i l ++ x :: drop i l.

(** The loop of [_cap_fees]: the bound is fixed before the lists grow. *)
Fixpoint cap_loop (n i : nat) (x_list y_list : list Q) : Res (list Q * list Q) :=
  match n with
  | O => Ok (x_list, y_list)
  | S n' =>
      match y_list !! i, y_list !! S i, x_list !! i, x_list !! S i with
      | Some y1, Some y2, Some x1, Some x2 =>
          if (sign y1 * sign y2 =? -1) then
            let new_x := Qred (x1 + Qabs y1 / Qabs (y2 - y1) * (x2 - x1)) in
            let new_index := bisect_right x_list new_x in
            cap_loop n' (S i) (list_insert_at new_index new_x x_list) (list_insert_at new_index 0%Q y_list)
          else cap_loop n' (S i) x_list y_list
      | _, _, _, _ => Raise (ValueError "not enough values to unpack")
      end
  end.

Definition _cap_fees (x_list y_list : list Q) : Res (list Q * list Q) :=
  let* xy := cap_loop (length x_list - 1) 0 x_list y_list in
  Ok (xy.1, map (fun y => Qmax2 y 0%Q) xy.2).

(** The list comprehension of fees, raising at the first element that raises. *)
Fixpoint map_res {A B} (f : A -> Res B) (l : list A) : Res (list B) :=
  match l with
  | [] => Ok []
  | x :: l' => let* y := f x in let* ys := map_res f l' in Ok (y :: ys)
  end.

Definition set_penalty_func (f : Interpolate) (s : FeeScheduleState) : FeeScheduleState :=
  {| fs_cap_fees := fs_cap_fees s; fs_flat := fs_flat s; fs_proportional := fs_proportional s;
     fs_imbalance_penalty := fs_imbalance_penalty s; fs_penalty_func := Some f |}.

(** Dummy penalty functions for a schedule that has none. *)
Definition with_default_penalty (s : FeeScheduleState) (upper : Z) : Res (FeeScheduleState * Interpolate) :=
  match fs_penalty_func s with
  | Some f => Ok (s, f)
  | None =>
      let* f := Interpolate_init [0%Q; inject_Z upper] [0%Q; 0%Q] in
      Ok (set_penalty_func f s, f)
  end.

Definition _mediation_fee_func (schedule_in schedule_out : FeeScheduleState)
    (balance_in balance_out receivable : Z)
    (amount_with_fees amount_without_fees : option Z) (cap_fees : bool) : Res Interpolate :=
  assert! is_none amount_with_fees || is_none amount_without_fees
    with "Must be called with either amount_with_fees or amount_without_fees as None" in
  if (balance_out =? 0) || (receivable =? 0) then Raise UndefinedMediationFee
  else
    let* (schedule_in, func_in) := with_default_penalty schedule_in (balance_in + receivable) in
    let* (schedule_out, func_out) := with_default_penalty schedule_out balance_out in
    let x_list :=
      _collect_x_values func_in func_out balance_in balance_out
        (if is_none amount_with_fees then receivable else balance_out) in
    let point x :=
      let* f_in :=
        fee schedule_in balance_in
          (match amount_with_fees with None => x | Some a => inject_Z a end) in
      let* f_out :=
        fee schedule_out balance_out
          (match amount_without_fees with None => Qopp x | Some a => Qopp (inject_Z a) end) in
      Ok (Qred (f_in + f_out)) in
    let* y_list :=
      match map_res point x_list with
      | Raise (ValueError _) => Raise UndefinedMediationFee
      | r => r
      end in
    let* (x_list, y_list) := if cap_fees then _cap_fees x_list y_list else Ok (x_list, y_list) in
    Interpolate_init x_list y_list.

Definition mediation_fee_func schedule_in schedule_out balance_in balance_out receivable
    (amount_with_fees : Z) (cap_fees : bool) : Res Interpolate :=
  _mediation_fee_func schedule_in schedule_out balance_in balance_out receivable
    (Some amount_with_fees) None cap_fees.

Definition mediation_fee_backwards_func schedule_in schedule_out balance_in balance_out receivable
    (amount_without_fees : Z) (cap_fees : bool) : Res Interpolate :=
  _mediation_fee_func schedule_in schedule_out balance_in balance_out receivable
    None (Some amount_without_fees) cap_fees.

(** ** Double-precision arithmetic *)

Definition float_prec : Z := 53.
Definition float_emax : Z := 1024.

Definition check_overflow (x : spec_float) (msg : string) : Res spec_float :=
  match x with
  | S754_infinity _ => Raise (OverflowError msg)
  | _ => Ok x
  end.

(** [float(n)]: round to nearest even. *)
Definition float_of_int (n : Z) : Res spec_float :=
  check_overflow (binary_normalize float_prec float_emax n 0 false) "int too large to convert to float".

Definition exact_float (n : Z) : spec_float :=
  match n with
  | Z0 => S754_zero false
  | Zpos p => S754_finite false p 0
  | Zneg p => S754_finite true p 0
  end.

(** [a / b] on integers: the correctly rounded quotient. *)
Definition int_truediv (a b : Z) : Res spec_float :=
  if b =? 0 then Raise ZeroDivisionError
  else check_overflow (SFdiv float_prec float_emax (exact_float a) (exact_float b))
         "integer division result too large for a float".

Definition float_div (x y : spec_float) : Res spec_float :=
  match y with
  | S754_zero _ => Raise ZeroDivisionError
  | _ => Ok (SFdiv float_prec float_emax x y)
  end.
Definition float_mul (x y : spec_float) : spec_float := SFmul float_prec float_emax x y.
Definition float_sub (x y : spec_float) : spec_float := SFsub float_prec float_emax x y.

(** [m / 2^k] rounded to the nearest integer, ties to even. *)
Definition round_half_even (m k : Z) : Z :=
  let q := Z.shiftr m k in
  let r := m - Z.shiftl q k in
  let half := Z.shiftl 1 (k - 1) in
  if r <? half then q
  else if half <? r then q + 1
  else if Z.even q then q else q + 1.

(** [int(round(x))] *)
Definition float_round (x : spec_float) : Res Z :=
  match x with
  | S754_zero _ => Ok 0
  | S754_infinity _ => Raise (OverflowError "cannot convert float infinity to integer")
  | S754_nan => Raise (ValueError "cannot convert float NaN to integer")
  | S754_finite s m e =>
      let v := if 0 <=? e then Z.shiftl (Zpos m) e else round_half_even (Zpos m) (- e) in
      Ok (if s then - v else v)
  end.

(** ** The imbalance curve *)

(** [range(n)] *)
Definition py_range (n : Z) : list Z := map Z.of_nat (seq 0 (Z.to_nat n)).

(** [num] numbers from [start] to [stop] (inclusive). *)
Definition linspace (start stop num : Z) : Res (list Z) :=
  assert! 1 <? num with "Must generate at least one step" in
  assert! start <=? stop with "start must be smaller than stop" in
  let* step := int_truediv (stop - start) (num - 1) in
  map_res (fun i => let* fi := float_of_int i in
                    let* d := float_round (float_mul fi step) in
                    Ok (start + d)) (py_range num).

Section ImbalanceFees.
Context `{Externals}.

Definition calculate_imbalance_fees (channel_capacity proportional_imbalance_fee : Z)
    : Res (option (list (Z * Z))) :=
  assert! 0 <=? channel_capacity with "channel_capacity must be larger than zero" in
  assert! 0 <=? proportional_imbalance_fee with "prop. imbalance fee must be larger than zero" in
  if proportional_imbalance_fee =? 0 then Ok None
  else if channel_capacity =? 0 then Ok None
  else
    let* MAXIMUM_SLOPE := int_truediv 1 10 in
    let* two := float_of_int 2 in
    let* ten := float_of_int 10 in
    let* million := float_of_int 1000000 in
    let* total := float_of_int (channel_capacity * proportional_imbalance_fee) in
    let* max_imbalance_fee := float_div total million in
    let* prop := float_of_int proportional_imbalance_fee in
    let* prop_rate := float_div prop million in
    let* max_rate := float_div MAXIMUM_SLOPE two in
    assert! SFleb prop_rate max_rate with "Too high imbalance fee" in
    let s := MAXIMUM_SLOPE in
    let c := max_imbalance_fee in
    let* o := int_truediv channel_capacity 2 in
    let* b := float_div (float_mul s o) c in
    let b := if SFltb ten b then ten else b in
    let* ob := float_pow o b in
    let* a := float_div c ob in
    let f x :=
      let* fx := float_of_int x in
      let* p := float_pow (SFabs (float_sub fx o)) b in
      float_round (float_mul a p) in
    let num_base_points := Z.min NUM_DISCRETISATION_POINTS (channel_capacity + 1) in
    let* x_values := linspace 0 channel_capacity num_base_points in
    let* y_values := map_res f x_values in
    Ok (Some (zip x_values y_values)).
End ImbalanceFees.
