(* ===== verification/MediationFeeTheorems.v ===== *)
(** * Mediation fees: the theorems

    The interpolation is the piecewise linear function through its points;
    the normalised x-values are in order and in range; capping keeps the points
    and makes the fees non-negative; and the fee function of two channels
    without imbalance penalty is the sum of their flat and proportional fees. *)

From Stdlib Require Import ZArith Lia QArith Qabs Lqa Sorting.Sorted Setoid.
From stdpp Require Import base gmap list strings pretty.
From S2P Require Import Prelude Encoding MediationFee.

Open Scope Z_scope.

(** ** Comparisons *)

Lemma Qlt_bool_iff x y : Qlt_bool x y = true <-> (x < y)%Q.
Proof.
  unfold Qlt_bool. rewrite negb_true_iff, <- not_true_iff_false, Qle_bool_iff. split; lra.
Qed.
Lemma Qlt_bool_false x y : Qlt_bool x y = false <-> (y <= x)%Q.
Proof. rewrite <- not_true_iff_false, Qlt_bool_iff. split; lra. Qed.
Lemma Qeq_bool_false x y : Qeq_bool x y = false <-> ~ (x == y)%Q.
Proof. rewrite <- not_true_iff_false, Qeq_bool_iff. done. Qed.

Lemma inject_Z_nonneg z : 0 <= z -> (0 <= inject_Z z)%Q.
Proof. intros Hz. change 0%Q with (inject_Z 0). by rewrite <- Zle_Qle. Qed.
Lemma inject_Z_le x y : x <= y -> (inject_Z x <= inject_Z y)%Q.
Proof. by rewrite <- Zle_Qle. Qed.

(** Turns the boolean comparisons on rationals of the context into
    propositions. *)
Ltac qbool :=
  repeat match goal with
  | Hx : Qlt_bool _ _ = true |- _ => apply Qlt_bool_iff in Hx
  | Hx : Qlt_bool _ _ = false |- _ => apply Qlt_bool_false in Hx
  | Hx : Qle_bool _ _ = true |- _ => apply Qle_bool_iff in Hx
  | Hx : Qeq_bool _ _ = true |- _ => apply Qeq_bool_iff in Hx
  | Hx : Qeq_bool _ _ = false |- _ => apply Qeq_bool_false in Hx
  end.

Abbreviation ascending := (StronglySorted Qlt).

Lemma strictly_ascending_iff l : strictly_ascending l = true <-> ascending l.
Proof.
  induction l as [|x l IH]; [by repeat constructor|]. destruct l as [|y l]; [by repeat constructor|].
  cbn [strictly_ascending]. rewrite andb_true_iff, Qlt_bool_iff, IH. split.
  - intros [Hxy Hl]. constructor; [done|]. apply StronglySorted_inv in Hl as Hl'. destruct Hl' as [_ Hy].
    constructor; [lra|]. eapply Forall_impl; [exact Hy|]. intros z Hz; cbn in Hz. lra.
  - intros [Hl Hx]%StronglySorted_inv. split; [|done]. apply Forall_cons in Hx as [Hx _]. lra.
Qed.

Lemma ascending_lookup l i j x y :
  ascending l -> l !! i = Some x -> l !! j = Some y -> (i < j)%nat -> (x < y)%Q.
Proof.
  intros Hl. revert i j. induction Hl as [|z l Hl IH Hz]; intros [|i] [|j]; try discriminate; try lia; cbn.
  - intros [= ->] Hj _. rewrite Forall_lookup in Hz. eauto.
  - intros Hi Hj Hij. apply (IH i j); auto. lia.
Qed.

(** ** Binary search *)

Lemma bisect_loop_spec fuel a x lo hi :
  ascending a -> (lo <= hi <= length a)%nat -> (hi - lo <= fuel)%nat ->
  (forall i y, a !! i = Some y -> (i < lo)%nat -> (y <= x)%Q) ->
  (forall i y, a !! i = Some y -> (hi <= i)%nat -> (x < y)%Q) ->
  let k := bisect_loop fuel a x lo hi in
  (lo <= k <= hi)%nat /\
  (forall i y, a !! i = Some y -> (i < k)%nat -> (y <= x)%Q) /\
  (forall i y, a !! i = Some y -> (k <= i)%nat -> (x < y)%Q).
Proof.
  intros Ha. revert lo hi. induction fuel as [|fuel IH]; intros lo hi Hb Hf Hlo Hhi; cbn [bisect_loop].
  - split; [lia|]. split; [done|]. intros i y Hi Hk. apply (Hhi i y Hi). lia.
  - destruct (Nat.ltb_spec lo hi) as [Hlt|Hge].
    2:{ split; [lia|]. split; [done|]. intros i y Hi Hk. apply (Hhi i y Hi). lia. }
    cbv zeta. set (mid := ((lo + hi) / 2)%nat).
    assert (Hm : (lo <= mid < hi)%nat).
    { unfold mid. split; [apply Nat.div_le_lower_bound; lia | apply Nat.Div0.div_lt_upper_bound; lia]. }
    destruct (lookup_lt_is_Some_2 a mid ltac:(lia)) as [m Em].
    assert (En : nth mid a 0%Q = m) by (by apply nth_lookup_Some). rewrite En.
    destruct (Qlt_bool x m) eqn:Hc; qbool.
    + destruct (IH lo mid) as (H1 & H2 & H3); try done; try lia.
      { intros i y Hi Hk. destruct (decide (i = mid)) as [->|]; [by simplify_eq|].
        pose proof (ascending_lookup a mid i m y Ha Em Hi ltac:(lia)). lra. }
      split; [lia | done].
    + destruct (IH (S mid) hi) as (H1 & H2 & H3); try done; try lia.
      { intros i y Hi Hk. destruct (decide (i = mid)) as [->|]; [by simplify_eq|].
        pose proof (ascending_lookup a i mid y m Ha Hi Em ltac:(lia)). lra. }
      split; [lia | done].
Qed.

(** [bisect_right] returns the number of elements that are not above [x]. *)
Lemma bisect_right_spec a x :
  ascending a ->
  (bisect_right a x <= length a)%nat /\
  (forall i y, a !! i = Some y -> (i < bisect_right a x)%nat -> (y <= x)%Q) /\
  (forall i y, a !! i = Some y -> (bisect_right a x <= i)%nat -> (x < y)%Q).
Proof.
  intros Ha. destruct (bisect_loop_spec (length a) a x 0 (length a) Ha) as (H1 & H2 & H3); try lia.
  - intros i y Hi Hk. apply lookup_lt_Some in Hi. lia.
  - split; [apply H1 | split; [apply H2 | apply H3]].
Qed.

Lemma bisect_right_unique a x i x1 :
  ascending a -> a !! i = Some x1 -> (x1 <= x)%Q ->
  (forall x2, a !! S i = Some x2 -> (x < x2)%Q) -> bisect_right a x = S i.
Proof.
  intros Ha Hi H1 H2. destruct (bisect_right_spec a x Ha) as (Hlen & Hlo & Hhi).
  destruct (Nat.lt_trichotomy (bisect_right a x) (S i)) as [Hlt|[Heq|Hgt]]; [|done|].
  - pose proof (Hhi i x1 Hi ltac:(lia)). lra.
  - destruct (lookup_lt_is_Some_2 a (S i) ltac:(lia)) as [x2 E2].
    pose proof (Hlo (S i) x2 E2 Hgt). pose proof (H2 x2 E2). lra.
Qed.

(** ** Interpolation *)

Lemma slopes_of_lookup xs ys i x1 x2 y1 y2 :
  xs !! i = Some x1 -> xs !! S i = Some x2 -> ys !! i = Some y1 -> ys !! S i = Some y2 ->
  slopes_of xs ys !! i = Some (Qred ((y2 - y1) / (x2 - x1))).
Proof.
  revert ys i. induction xs as [|x xs IH]; intros ys i Hx1 Hx2 Hy1 Hy2; [done|].
  destruct ys as [|y ys]; [done|]. destruct xs as [|x' xs]; [by destruct i|].
  destruct ys as [|y' ys]; [by destruct i|]. cbn [slopes_of].
  destruct i as [|i]; [cbn in *; by simplify_eq|]. cbn in *. by apply (IH (y' :: ys)).
Qed.

(** The two ends of the list bound its elements. *)
Lemma ascending_bounds l x x0 xn :
  ascending l -> head l = Some x0 -> last l = Some xn -> x ∈ l -> (x0 <= x <= xn)%Q.
Proof.
  intros Ha H0 Hn [i Hi]%list_elem_of_lookup. rewrite last_lookup in Hn. rewrite head_lookup in H0.
  pose proof (lookup_lt_Some _ _ _ Hi) as Hlt. split.
  - destruct i as [|i]; [simplify_eq; lra|]. pose proof (ascending_lookup l 0 (S i) x0 x Ha H0 Hi ltac:(lia)). lra.
  - destruct (decide (i = pred (length l))) as [->|]; [simplify_eq; lra|].
    pose proof (ascending_lookup l i (pred (length l)) x xn Ha Hi Hn ltac:(lia)). lra.
Qed.

(** [Interpolate(x_list, y_list)] for lists of the same length. *)
Record interpolates (f : Interpolate) (xs ys : list Q) : Prop := {
  in_x : ip_x_list f = xs;
  in_y : ip_y_list f = ys;
  in_slopes : ip_slopes f = slopes_of xs ys;
  in_length : length xs = length ys;
  in_ascending : ascending xs;
}.

Lemma Interpolate_init_interpolates xs ys f :
  Interpolate_init xs ys = Ok f -> length xs = length ys -> interpolates f xs ys.
Proof.
  unfold Interpolate_init. destruct (strictly_ascending xs) eqn:E; [|discriminate]. cbn.
  intros [= <-] Hl. apply strictly_ascending_iff in E. by split.
Qed.

Lemma Interpolate_init_Ok xs ys :
  ascending xs -> length xs = length ys -> exists f, Interpolate_init xs ys = Ok f /\ interpolates f xs ys.
Proof.
  intros Ha Hl. unfold Interpolate_init. rewrite (proj2 (strictly_ascending_iff xs) Ha). cbn.
  eexists. split; [reflexivity|]. by split.
Qed.

Lemma Interpolate_call_outside f xs ys x x0 xn :
  interpolates f xs ys -> head xs = Some x0 -> last xs = Some xn -> (x < x0 \/ xn < x)%Q ->
  Interpolate_call f x = Raise (ValueError "x out of bounds!").
Proof.
  intros Hf H0 Hn Hx. unfold Interpolate_call. rewrite (in_x _ _ _ Hf), H0, Hn.
  destruct (Qle_bool x0 x && Qle_bool x xn) eqn:E; [|done].
  apply andb_true_iff in E as [E1 E2]. qbool. lra.
Qed.

(** Between two neighbouring points, the left one included. *)
Lemma Interpolate_call_between f xs ys i x x1 x2 y1 y2 :
  interpolates f xs ys ->
  xs !! i = Some x1 -> xs !! S i = Some x2 -> ys !! i = Some y1 -> ys !! S i = Some y2 ->
  (x1 <= x < x2)%Q ->
  exists r, Interpolate_call f x = Ok r /\ (r == y1 + (y2 - y1) / (x2 - x1) * (x - x1))%Q.
Proof.
  intros [Ex Ey Es Hl Ha] Hx1 Hx2 Hy1 Hy2 Hx. unfold Interpolate_call. rewrite Ex, Ey, Es.
  destruct (head xs) as [x0|] eqn:E0; [|by destruct xs].
  destruct (last xs) as [xn|] eqn:En; [|by apply last_None in En as ->].
  pose proof (ascending_bounds xs x1 x0 xn Ha E0 En (list_elem_of_lookup_2 _ _ _ Hx1)).
  pose proof (ascending_bounds xs x2 x0 xn Ha E0 En (list_elem_of_lookup_2 _ _ _ Hx2)).
  rewrite (proj2 (Qle_bool_iff x0 x)) by lra. rewrite (proj2 (Qle_bool_iff x xn)) by lra. cbn [andb negb].
  destruct (Qeq_bool x xn) eqn:Hxn; qbool; [lra|].
  rewrite (bisect_right_unique xs x i x1) by (try done; try lra; intros; simplify_eq; lra).
  replace (S i - 1)%nat with i by lia. cbv zeta.
  rewrite Hy1, Hx1, (slopes_of_lookup xs ys i x1 x2 y1 y2) by done.
  eexists. split; [reflexivity|]. by rewrite !Qred_correct.
Qed.

(** At a point. *)
Lemma Interpolate_call_at f xs ys i x x1 y1 :
  interpolates f xs ys -> xs !! i = Some x1 -> ys !! i = Some y1 -> (x == x1)%Q ->
  exists r, Interpolate_call f x = Ok r /\ (r == y1)%Q.
Proof.
  intros Hf Hx1 Hy1 Hx. pose proof Hf as [Ex Ey _ Hl Ha].
  destruct (xs !! S i) as [x2|] eqn:Hx2.
  - destruct (lookup_lt_is_Some_2 ys (S i)) as [y2 Hy2]; [rewrite <- Hl; by eapply lookup_lt_Some|].
    pose proof (ascending_lookup xs i (S i) x1 x2 Ha Hx1 Hx2 ltac:(lia)).
    destruct (Interpolate_call_between f xs ys i x x1 x2 y1 y2 Hf) as (r & E & Hr); try done; [lra|].
    exists r. split; [done|]. rewrite Hr, Hx. field. lra.
  - pose proof (lookup_lt_Some _ _ _ Hx1). apply lookup_ge_None in Hx2.
    assert (En : last xs = Some x1) by (rewrite last_lookup; by replace (pred (length xs)) with i by lia).
    assert (Eyn : last ys = Some y1) by (rewrite last_lookup, <- Hl; by replace (pred (length xs)) with i by lia).
    unfold Interpolate_call. rewrite Ex, Ey, En, Eyn.
    destruct (head xs) as [x0|] eqn:E0; [|by destruct xs].
    pose proof (ascending_bounds xs x1 x0 x1 Ha E0 En (list_elem_of_lookup_2 _ _ _ Hx1)).
    rewrite (proj2 (Qle_bool_iff x0 x)) by lra. rewrite (proj2 (Qle_bool_iff x x1)) by lra. cbn [andb negb].
    rewrite (proj2 (Qeq_bool_iff x x1)) by done. by exists y1.
Qed.

(** Every argument in range is at a point or between two neighbours. *)
Lemma ascending_locate xs x x0 xn :
  ascending xs -> head xs = Some x0 -> last xs = Some xn -> (x0 <= x <= xn)%Q ->
  exists i x1, xs !! i = Some x1 /\
    ((x == x1)%Q \/ exists x2, xs !! S i = Some x2 /\ (x1 <= x < x2)%Q).
Proof.
  intros Ha H0 Hn Hx. destruct (bisect_right_spec xs x Ha) as (Hlen & Hlo & Hhi).
  rewrite head_lookup in H0. rewrite last_lookup in Hn.
  destruct (bisect_right xs x) as [|i] eqn:Eb; [pose proof (Hhi 0%nat x0 H0 ltac:(lia)); lra|].
  destruct (lookup_lt_is_Some_2 xs i ltac:(lia)) as [x1 E1]. exists i, x1. split; [done|].
  pose proof (Hlo i x1 E1 ltac:(lia)).
  destruct (xs !! S i) as [x2|] eqn:E2; [right|left].
  - exists x2. split; [done|]. pose proof (Hhi (S i) x2 E2 ltac:(lia)). lra.
  - apply lookup_ge_None in E2. replace (pred (length xs)) with i in Hn by lia. simplify_eq. lra.
Qed.

(** C38. Interpolation.  A function built from points with increasing x-values
    raises [ValueError] exactly outside their range; inside it returns, on each
    segment between neighbouring points (both included), the value of the
    straight line through them; so it returns the y-value at every point. *)
Theorem Interpolate_correct xs ys f x0 xn :
  Interpolate_init xs ys = Ok f -> length xs = length ys -> head xs = Some x0 -> last xs = Some xn ->
  (forall x, (x < x0 \/ xn < x)%Q -> Interpolate_call f x = Raise (ValueError "x out of bounds!")) /\
  (forall x, (x0 <= x <= xn)%Q -> is_Ok (Interpolate_call f x) = true) /\
  (forall i x x1 x2 y1 y2,
     xs !! i = Some x1 -> xs !! S i = Some x2 -> ys !! i = Some y1 -> ys !! S i = Some y2 -> (x1 <= x <= x2)%Q ->
     exists r, Interpolate_call f x = Ok r /\ (r == y1 + (y2 - y1) / (x2 - x1) * (x - x1))%Q) /\
  (forall i x1 y1, xs !! i = Some x1 -> ys !! i = Some y1 ->
     exists r, Interpolate_call f x1 = Ok r /\ (r == y1)%Q).
Proof.
  intros Hinit Hl H0 Hn. pose proof (Interpolate_init_interpolates _ _ _ Hinit Hl) as Hf.
  pose proof (in_ascending _ _ _ Hf) as Ha.
  split; [|split; [|split]].
  - intros x Hx. by eapply Interpolate_call_outside.
  - intros x Hx. destruct (ascending_locate xs x x0 xn Ha H0 Hn Hx) as (i & x1 & E1 & Hc).
    destruct (lookup_lt_is_Some_2 ys i) as [y1 Ey1]; [rewrite <- Hl; by eapply lookup_lt_Some|].
    destruct Hc as [Hc|(x2 & E2 & Hc)].
    + destruct (Interpolate_call_at f xs ys i x x1 y1 Hf E1 Ey1 Hc) as (r & -> & _). done.
    + destruct (lookup_lt_is_Some_2 ys (S i)) as [y2 Ey2]; [rewrite <- Hl; by eapply lookup_lt_Some|].
      destruct (Interpolate_call_between f xs ys i x x1 x2 y1 y2 Hf E1 E2 Ey1 Ey2 Hc) as (r & -> & _). done.
  - intros i x x1 x2 y1 y2 E1 E2 Ey1 Ey2 Hx.
    pose proof (ascending_lookup xs i (S i) x1 x2 Ha E1 E2 ltac:(lia)).
    destruct (Qeq_bool x x2) eqn:Hq; qbool.
    + destruct (Interpolate_call_at f xs ys (S i) x x2 y2 Hf E2 Ey2 Hq) as (r & E & Hr).
      exists r. split; [done|]. rewrite Hr, Hq. field. lra.
    + apply (Interpolate_call_between f xs ys i); try done. lra.
  - intros i x1 y1 E1 Ey1. by apply (Interpolate_call_at f xs ys i x1 x1 y1 Hf E1 Ey1).
Qed.

(** ** The x-values *)

Lemma elem_of_insert_sorted x y l : y ∈ insert_sorted x l -> y = x \/ y ∈ l.
Proof.
  induction l as [|z l IH]; cbn; [set_solver|]. destruct (Qeq_bool x z); [set_solver|].
  destruct (Qlt_bool x z); set_solver.
Qed.

Lemma insert_sorted_ascending x l : ascending l -> ascending (insert_sorted x l).
Proof.
  induction 1 as [|z l Hl IH Hz]; cbn; [by repeat constructor|].
  destruct (Qeq_bool x z) eqn:E1; [by constructor|]. destruct (Qlt_bool x z) eqn:E2; qbool.
  - constructor; [by constructor|]. constructor; [done|]. eapply Forall_impl; [exact Hz|]. intros w Hw; cbn in Hw. lra.
  - constructor; [done|]. rewrite Forall_forall in *. intros w [->|Hw]%elem_of_insert_sorted; [|by apply Hz].
    apply Qle_lteq in E2 as [|]; [done|]. destruct E1. by symmetry.
Qed.

Lemma insert_sorted_has x l : exists y, y ∈ insert_sorted x l /\ (y == x)%Q.
Proof.
  induction l as [|z l IH]; cbn; [exists x; set_solver|]. destruct (Qeq_bool x z) eqn:E; qbool.
  - exists z. split; [set_solver | by symmetry].
  - destruct (Qlt_bool x z); [exists x; set_solver|]. destruct IH as (y & ? & ?). exists y. set_solver.
Qed.

Lemma insert_sorted_keeps x y l : y ∈ l -> y ∈ insert_sorted x l.
Proof.
  induction l as [|z l IH]; cbn; [set_solver|]. destruct (Qeq_bool x z); [done|].
  destruct (Qlt_bool x z); set_solver.
Qed.

(** [sorted(set(l))]: increasing, with the same elements. *)
Lemma sorted_set_spec l :
  ascending (sorted_set l) /\ (forall x, x ∈ sorted_set l -> x ∈ l) /\
  (forall x, x ∈ l -> exists y, y ∈ sorted_set l /\ (y == x)%Q).
Proof.
  induction l as [|z l (IH1 & IH2 & IH3)]; cbn; [split; [constructor | set_solver]|]. split; [|split].
  - by apply insert_sorted_ascending.
  - intros x [->|Hx]%elem_of_insert_sorted; set_solver.
  - intros x [->|Hx]%elem_of_cons; [apply insert_sorted_has|]. destruct (IH3 x Hx) as (y & Hy & ?).
    exists y. split; [by apply insert_sorted_keeps | done].
Qed.

(** The clipping of one x-value. *)
Definition clip (balance_out max_x : Z) (x : Q) : Q :=
  Qmax2 (Qmin2 (Qmin2 x (inject_Z balance_out)) (inject_Z max_x)) 0%Q.

(** Case analysis on every comparison a clipped value makes. *)
Ltac clip_cases :=
  unfold clip, Qmin2, Qmax2;
  repeat match goal with
  | |- context [Qlt_bool ?a ?b] =>
      lazymatch constr:((a, b)) with context [Qlt_bool _ _] => fail | _ => destruct (Qlt_bool a b) eqn:? end
  end; qbool; lra.

Lemma clip_range balance_out max_x x :
  (0 <= inject_Z balance_out)%Q -> (0 <= inject_Z max_x)%Q ->
  (0 <= clip balance_out max_x x <= inject_Z balance_out)%Q /\ (clip balance_out max_x x <= inject_Z max_x)%Q.
Proof.
  intros Hb Hm. clip_cases.
Qed.

Lemma clip_id balance_out max_x x :
  (0 <= x <= inject_Z balance_out)%Q -> (x <= inject_Z max_x)%Q -> (clip balance_out max_x x == x)%Q.
Proof.
  intros Hx Hm. clip_cases.
Qed.

Lemma collect_x_values_spec f_in f_out balance_in balance_out max_x :
  0 <= balance_out -> 0 <= max_x ->
  let xs := _collect_x_values f_in f_out balance_in balance_out max_x in
  ascending xs /\
  Forall (fun x => (0 <= x <= inject_Z balance_out)%Q /\ (x <= inject_Z max_x)%Q) xs /\
  (forall x, x ∈ ip_x_list f_in ->
     exists y, y ∈ xs /\ (y == clip balance_out max_x (Qred (x - inject_Z balance_in)))%Q) /\
  (forall x, x ∈ ip_x_list f_out ->
     exists y, y ∈ xs /\ (y == clip balance_out max_x (Qred (inject_Z balance_out - x)))%Q).
Proof.
  intros Hb Hm xs. unfold xs, _collect_x_values.
  match goal with |- context [sorted_set ?l] => destruct (sorted_set_spec l) as (H1 & H2 & H3) end.
  split; [done|]. split; [|split].
  - apply Forall_forall. intros x Hx. apply H2, list_elem_of_fmap in Hx as (y & -> & _).
    apply clip_range; by apply inject_Z_nonneg.
  - intros x Hx. apply H3, list_elem_of_fmap. eexists. split; [reflexivity|].
    apply elem_of_app. left. apply list_elem_of_fmap. by exists x.
  - intros x Hx. apply H3, list_elem_of_fmap. eexists. split; [reflexivity|].
    apply elem_of_app. right. apply list_elem_of_fmap. by exists x.
Qed.

(** Normalised x-values.  The x-values of the fee function are strictly
    increasing, all between 0 and what can be transferred, and they contain
    every kink of the two penalty functions, shifted to the transferred amount
    and clipped to that range; in particular building the function on them never
    raises for their order. *)
Theorem collect_x_values_correct f_in f_out balance_in balance_out max_x :
  0 <= balance_out -> 0 <= max_x ->
  let xs := _collect_x_values f_in f_out balance_in balance_out max_x in
  ascending xs /\
  Forall (fun x => (0 <= x <= inject_Z balance_out)%Q /\ (x <= inject_Z max_x)%Q) xs /\
  (forall x, x ∈ ip_x_list f_in ->
     exists y, y ∈ xs /\ (y == clip balance_out max_x (Qred (x - inject_Z balance_in)))%Q) /\
  (forall x, x ∈ ip_x_list f_out ->
     exists y, y ∈ xs /\ (y == clip balance_out max_x (Qred (inject_Z balance_out - x)))%Q).
Proof. apply collect_x_values_spec. Qed.

(** ** Capping *)

Lemma ascending_insert l1 l2 x :
  ascending (l1 ++ l2) -> Forall (fun y => (y < x)%Q) l1 -> Forall (fun y => (x < y)%Q) l2 ->
  ascending (l1 ++ x :: l2).
Proof.
  intros Ha H1 H2. induction l1 as [|z l1 IH]; cbn in *; [by constructor|].
  apply StronglySorted_inv in Ha as [Ha Hz]. apply Forall_cons in H1 as [Hzx H1].
  constructor; [by apply IH|]. rewrite Forall_app, Forall_cons in *. tauto.
Qed.

Lemma list_insert_at_lookup_lt i x l j : (j < i)%nat -> (i <= length l)%nat -> list_insert_at i x l !! j = l !! j.
Proof. intros Hj Hi. unfold list_insert_at. rewrite lookup_app_l by (rewrite length_take; lia). by apply lookup_take_lt. Qed.

Lemma list_insert_at_lookup_gt i x l j : (i <= j)%nat -> (i <= length l)%nat -> list_insert_at i x l !! S j = l !! j.
Proof.
  intros Hj Hi. unfold list_insert_at. rewrite lookup_app_r by (rewrite length_take; lia).
  rewrite length_take, Nat.min_l by lia. replace (S j - i)%nat with (S (j - i)) by lia.
  change ((x :: drop i l) !! S (j - i)%nat) with (drop i l !! (j - i)%nat). rewrite lookup_drop. f_equal. lia.
Qed.

Lemma list_insert_at_length i x l : (i <= length l)%nat -> length (list_insert_at i x l) = S (length l).
Proof. intros Hi. unfold list_insert_at. rewrite length_app, length_take. cbn. rewrite length_drop. lia. Qed.

Lemma ascending_insert_between xs i x x1 x2 :
  ascending xs -> xs !! i = Some x1 -> xs !! S i = Some x2 -> (x1 < x < x2)%Q ->
  ascending (list_insert_at (S i) x xs).
Proof.
  intros Ha H1 H2 Hx. unfold list_insert_at. apply ascending_insert; [by rewrite take_drop | |];
    apply Forall_forall; intros y [j Hj]%list_elem_of_lookup.
  - apply lookup_take_Some in Hj as [Hj Hlt]. destruct (decide (j = i)) as [->|]; [simplify_eq; lra|].
    pose proof (ascending_lookup xs j i y x1 Ha Hj H1 ltac:(lia)). lra.
  - rewrite lookup_drop in Hj. destruct j as [|j]; [rewrite Nat.add_0_r in Hj; simplify_eq; lra|].
    pose proof (ascending_lookup xs (S i) _ x2 y Ha H2 Hj ltac:(lia)). lra.
Qed.

(** Every point of one pair of lists is a point of the other. *)
Definition keeps_points (xs ys xs' ys' : list Q) : Prop :=
  forall i x y, xs !! i = Some x -> ys !! i = Some y -> exists j, xs' !! j = Some x /\ ys' !! j = Some y.

(** A point the loop adds where the sign changes. *)
Definition crossing (x1 x2 y1 y2 : Q) : Q := Qred (x1 + Qabs y1 / Qabs (y2 - y1) * (x2 - x1)).

Lemma sign_opposite y1 y2 : sign y1 * sign y2 = -1 -> (y1 < 0 < y2 \/ y2 < 0 < y1)%Q.
Proof.
  unfold sign. destruct (Qeq_bool y1 0) eqn:E1, (Qeq_bool y2 0) eqn:E2, (Qlt_bool 0 y1) eqn:E3, (Qlt_bool 0 y2) eqn:E4;
    try discriminate; qbool; intros _.
  - right. split; [|done]. apply Qle_lteq in E4 as [|]; done.
  - left. split; [|done]. apply Qle_lteq in E3 as [|]; done.
Qed.

Lemma crossing_between x1 x2 y1 y2 :
  (x1 < x2)%Q -> sign y1 * sign y2 = -1 -> (x1 < crossing x1 x2 y1 y2 < x2)%Q.
Proof.
  intros Hx Hs%sign_opposite. unfold crossing. rewrite Qred_correct.
  set (t := (Qabs y1 / Qabs (y2 - y1))%Q). assert (Ht : (0 < t < 1)%Q); [|nra].
  unfold t. destruct Hs as [Hs|Hs].
  - rewrite (Qabs_neg y1), (Qabs_pos (y2 - y1)) by lra. split.
    + apply Qlt_shift_div_l; lra.
    + apply Qlt_shift_div_r; lra.
  - rewrite (Qabs_pos y1), (Qabs_neg (y2 - y1)) by lra. split.
    + apply Qlt_shift_div_l; lra.
    + apply Qlt_shift_div_r; lra.
Qed.

(** What the loop keeps: order, matching lengths, the ends and the points; it
    only adds points on the x-axis. *)
Record capped (xs ys xs' ys' : list Q) : Prop := {
  cp_ascending : ascending xs';
  cp_length : length xs' = length ys';
  cp_head : head xs' = head xs;
  cp_last : last xs' = last xs;
  cp_keeps : keeps_points xs ys xs' ys';
  cp_new : forall j x y, xs' !! j = Some x -> ys' !! j = Some y ->
           y = 0%Q \/ exists i, xs !! i = Some x /\ ys !! i = Some y;
}.

Lemma capped_refl xs ys : ascending xs -> length xs = length ys -> capped xs ys xs ys.
Proof. intros Ha Hl. split; try done; unfold keeps_points; eauto. Qed.

Lemma capped_trans xs ys xs1 ys1 xs2 ys2 : capped xs ys xs1 ys1 -> capped xs1 ys1 xs2 ys2 -> capped xs ys xs2 ys2.
Proof.
  intros [A1 L1 H1 T1 K1 N1] [A2 L2 H2 T2 K2 N2]. split; try done; try congruence.
  - intros i x y Hx Hy. destruct (K1 i x y Hx Hy) as (j & ? & ?). eauto.
  - intros j x y Hx Hy. destruct (N2 j x y Hx Hy) as [|(i & ? & ?)]; eauto.
Qed.

Lemma capped_insert xs ys i x x1 x2 :
  ascending xs -> length xs = length ys -> xs !! i = Some x1 -> xs !! S i = Some x2 -> (x1 < x < x2)%Q ->
  capped xs ys (list_insert_at (S i) x xs) (list_insert_at (S i) 0%Q ys).
Proof.
  intros Ha Hl H1 H2 Hx. pose proof (lookup_lt_Some _ _ _ H2) as Hlt. split.
  - by eapply ascending_insert_between.
  - rewrite !list_insert_at_length; lia.
  - rewrite !head_lookup. apply list_insert_at_lookup_lt; lia.
  - rewrite !last_lookup, list_insert_at_length by lia. cbn [pred].
    destruct (length xs) as [|n] eqn:En; [lia|]. cbn [pred]. apply list_insert_at_lookup_gt; lia.
  - intros j y z Hy Hz. destruct (decide (j < S i)%nat).
    + exists j. rewrite !list_insert_at_lookup_lt by lia. done.
    + exists (S j). rewrite !list_insert_at_lookup_gt by lia. done.
  - intros j y z Hy Hz. destruct (decide (j < S i)%nat); [right|].
    + rewrite list_insert_at_lookup_lt in Hy, Hz by lia. by exists j.
    + destruct j as [|j]; [lia|]. destruct (decide (j = i)) as [->|].
      * left. unfold list_insert_at in Hz. rewrite lookup_app_r in Hz by (rewrite length_take; lia).
        rewrite length_take, Nat.min_l, Nat.sub_diag in Hz by lia. by injection Hz.
      * right. exists j. rewrite list_insert_at_lookup_gt in Hy, Hz by lia. done.
Qed.

Lemma cap_loop_spec n i xs ys :
  ascending xs -> length xs = length ys -> (i + n < length xs)%nat \/ n = 0%nat ->
  exists xs' ys', cap_loop n i xs ys = Ok (xs', ys') /\ capped xs ys xs' ys'.
Proof.
  revert i xs ys. induction n as [|n IH]; intros i xs ys Ha Hl Hb; cbn [cap_loop].
  { exists xs, ys. split; [done | by apply capped_refl]. }
  destruct Hb as [Hb|Hb]; [|lia].
  destruct (lookup_lt_is_Some_2 xs i) as [x1 E1]; [lia|]. destruct (lookup_lt_is_Some_2 xs (S i)) as [x2 E2]; [lia|].
  destruct (lookup_lt_is_Some_2 ys i) as [y1 F1]; [lia|]. destruct (lookup_lt_is_Some_2 ys (S i)) as [y2 F2]; [lia|].
  rewrite E1, E2, F1, F2. destruct (Z.eqb_spec (sign y1 * sign y2) (-1)) as [Hs|_]; [|apply IH; try done; lia].
  cbv zeta. fold (crossing x1 x2 y1 y2).
  pose proof (ascending_lookup xs i (S i) x1 x2 Ha E1 E2 ltac:(lia)) as Hx.
  pose proof (crossing_between x1 x2 y1 y2 Hx Hs) as Hc.
  rewrite (bisect_right_unique xs _ i x1) by (try done; try lra; intros; simplify_eq; lra).
  pose proof (capped_insert xs ys i _ x1 x2 Ha Hl E1 E2 Hc) as Hcap.
  destruct (IH (S i) _ _ (cp_ascending _ _ _ _ Hcap) (cp_length _ _ _ _ Hcap)) as (xs' & ys' & E & Hcap').
  { left. rewrite list_insert_at_length; lia. }
  exists xs', ys'. split; [exact E | by eapply capped_trans].
Qed.

(** Capping never raises on increasing x-values: it keeps every point with a
    negative fee replaced by zero, keeps the range, adds only points with fee
    zero, and returns increasing x-values with non-negative fees. *)
Theorem cap_fees_correct xs ys :
  ascending xs -> length xs = length ys ->
  exists xs' ys', _cap_fees xs ys = Ok (xs', ys') /\
    ascending xs' /\ length xs' = length ys' /\ head xs' = head xs /\ last xs' = last xs /\
    Forall (fun y => (0 <= y)%Q) ys' /\
    (forall i x y, xs !! i = Some x -> ys !! i = Some y ->
       exists j, xs' !! j = Some x /\ ys' !! j = Some (Qmax2 y 0)) /\
    (forall j x y, xs' !! j = Some x -> ys' !! j = Some y ->
       y = 0%Q \/ exists i, xs !! i = Some x /\ ys !! i = Some y).
Proof.
  intros Ha Hl. unfold _cap_fees.
  destruct (cap_loop_spec (length xs - 1) 0 xs ys Ha Hl) as (xs' & ys' & E & [A L Hh Ht K N]); [lia|].
  rewrite E. cbn [bind fst snd]. do 2 eexists. split; [reflexivity|].
  split; [done|]. split; [by rewrite length_map|]. split; [done|]. split; [done|]. split; [|split].
  - apply Forall_map, Forall_forall. intros y _. unfold Qmax2. destruct (Qlt_bool y 0) eqn:?; qbool; lra.
  - intros i x y Hx Hy. destruct (K i x y Hx Hy) as (j & ? & Hj). exists j. split; [done|].
    rewrite list_lookup_fmap, Hj. done.
  - intros j x y Hx Hy. rewrite list_lookup_fmap in Hy. destruct (ys' !! j) as [z|] eqn:Ez; [|done].
    injection Hy as <-. unfold Qmax2. destruct (Qlt_bool z 0); [by left|]. by apply (N j).
Qed.

(** ** Fees without imbalance penalty *)

Lemma map_res_Ok {A B} (f : A -> Res B) (P : A -> B -> Prop) l :
  (forall x, x ∈ l -> exists y, f x = Ok y /\ P x y) -> exists ys, map_res f l = Ok ys /\ Forall2 P l ys.
Proof.
  induction l as [|x l IH]; intros Hf; cbn; [by exists []|].
  destruct (Hf x) as (y & -> & Hy); [set_solver|]. destruct IH as (ys & -> & Hys); [set_solver|].
  exists (y :: ys). split; [done | by constructor].
Qed.

(** A function through points on a straight line is that line. *)
Lemma Interpolate_call_affine f xs ys x0 xn a b x :
  interpolates f xs ys -> head xs = Some x0 -> last xs = Some xn ->
  Forall2 (fun x y => (y == a + b * x)%Q) xs ys -> (x0 <= x <= xn)%Q ->
  exists r, Interpolate_call f x = Ok r /\ (r == a + b * x)%Q.
Proof.
  intros Hf H0 Hn Hxy Hx. pose proof (in_ascending _ _ _ Hf) as Ha.
  destruct (ascending_locate xs x x0 xn Ha H0 Hn Hx) as (i & x1 & E1 & Hc).
  destruct (Forall2_lookup_l _ _ _ _ _ Hxy E1) as (y1 & F1 & Hy1). destruct Hc as [Hc|(x2 & E2 & Hc)].
  - destruct (Interpolate_call_at f xs ys i x x1 y1 Hf E1 F1 Hc) as (r & E & Hr).
    exists r. split; [done|]. by rewrite Hr, Hy1, Hc.
  - destruct (Forall2_lookup_l _ _ _ _ _ Hxy E2) as (y2 & F2 & Hy2).
    destruct (Interpolate_call_between f xs ys i x x1 x2 y1 y2 Hf E1 E2 F1 F2 Hc) as (r & E & Hr).
    exists r. split; [done|]. rewrite Hr, Hy1, Hy2. field. lra.
Qed.

Lemma cap_loop_nonneg n i xs ys :
  Forall (fun y => (0 <= y)%Q) ys -> length xs = length ys -> (i + n < length xs)%nat \/ n = 0%nat ->
  cap_loop n i xs ys = Ok (xs, ys).
Proof.
  intros Hy Hl. revert i. induction n as [|n IH]; intros i Hb; cbn [cap_loop]; [done|].
  destruct Hb as [Hb|Hb]; [|lia].
  destruct (lookup_lt_is_Some_2 xs i) as [x1 E1]; [lia|]. destruct (lookup_lt_is_Some_2 xs (S i)) as [x2 E2]; [lia|].
  destruct (lookup_lt_is_Some_2 ys i) as [y1 F1]; [lia|]. destruct (lookup_lt_is_Some_2 ys (S i)) as [y2 F2]; [lia|].
  rewrite E1, E2, F1, F2. rewrite Forall_lookup in Hy. pose proof (Hy _ _ F1). pose proof (Hy _ _ F2).
  destruct (Z.eqb_spec (sign y1 * sign y2) (-1)) as [Hs%sign_opposite|_]; [lra | apply IH; lia].
Qed.

(** A well-formed function whose domain is [lo, hi]. *)
Definition ranges (f : Interpolate) (lo hi : Q) : Prop :=
  interpolates f (ip_x_list f) (ip_y_list f) /\
  exists x0 xn, head (ip_x_list f) = Some x0 /\ (x0 == lo)%Q /\ last (ip_x_list f) = Some xn /\ (xn == hi)%Q.

Lemma interpolates_ranges f xs ys x0 xn lo hi :
  interpolates f xs ys -> head xs = Some x0 -> last xs = Some xn -> (x0 == lo)%Q -> (xn == hi)%Q -> ranges f lo hi.
Proof. intros [<- <- Es Hl Ha] H0 Hn E0 En. split; [by split|]. by exists x0, xn. Qed.

(** The last two steps of [_mediation_fee_func] on points of a straight line,
    which is non-negative if the fees are capped. *)
Lemma capped_line (cap_fees : bool) xs ys x0 xn a b :
  ascending xs -> head xs = Some x0 -> last xs = Some xn ->
  Forall2 (fun x y => (y == a + b * x)%Q) xs ys ->
  (cap_fees = true -> Forall (fun x => (0 <= a + b * x)%Q) xs) ->
  exists f,
    (let* (xs, ys) := if cap_fees then _cap_fees xs ys else Ok (xs, ys) in Interpolate_init xs ys) = Ok f /\
    ranges f x0 xn /\
    forall x, (x0 <= x <= xn)%Q -> exists r, Interpolate_call f x = Ok r /\ (r == a + b * x)%Q.
Proof.
  intros Ha H0 Hn Hxy Hcap. pose proof (Forall2_length _ _ _ Hxy) as Hl. destruct cap_fees.
  - assert (Hpos : Forall (fun y => (0 <= y)%Q) ys).
    { apply Forall_lookup. intros i y Hy. destruct (Forall2_lookup_r _ _ _ _ _ Hxy Hy) as (x & Hx & ->).
      exact (proj1 (Forall_lookup _ _) (Hcap eq_refl) i x Hx). }
    unfold _cap_fees. rewrite cap_loop_nonneg by (try done; lia). cbn [bind fst snd].
    destruct (Interpolate_init_Ok xs (map (fun y => Qmax2 y 0) ys) Ha) as (f & -> & Hf); [by rewrite length_map|].
    exists f. split; [done|]. split; [by eapply interpolates_ranges|].
    intros x Hx. eapply Interpolate_call_affine; try done.
    apply Forall2_fmap_r. apply Forall2_same_length_lookup. split; [done|]. intros i z y Hz Hy.
    pose proof (proj2 (proj1 (Forall2_same_length_lookup _ _ _) Hxy) i z y Hz Hy) as Hline. cbn in Hline.
    pose proof (proj1 (Forall_lookup _ _) Hpos i y Hy) as Hy0. cbn in Hy0. cbn. unfold Qmax2. destruct (Qlt_bool y 0) eqn:?; qbool; lra.
  - cbn [bind]. destruct (Interpolate_init_Ok xs ys Ha Hl) as (f & -> & Hf).
    exists f. split; [done|]. split; [by eapply interpolates_ranges|].
    intros x Hx. by eapply Interpolate_call_affine.
Qed.

(** The penalty function of a schedule that has none. *)
Lemma default_penalty s upper :
  fs_penalty_func s = None -> 0 < upper ->
  exists f, with_default_penalty s upper = Ok (set_penalty_func f s, f) /\ ip_x_list f = [0%Q; inject_Z upper] /\
    forall x, (0 <= x <= inject_Z upper)%Q -> exists r, Interpolate_call f x = Ok r /\ (r == 0)%Q.
Proof.
  intros Hs Hu. unfold with_default_penalty. rewrite Hs.
  assert (Hu' : (0 < inject_Z upper)%Q) by (change 0%Q with (inject_Z 0); by rewrite <- Zlt_Qlt).
  destruct (Interpolate_init_Ok [0%Q; inject_Z upper] [0%Q; 0%Q]) as (f & -> & Hf); [by repeat constructor | done |].
  exists f. split; [done|]. split; [apply Hf|]. intros x Hx.
  destruct (Interpolate_call_affine f _ _ 0 (inject_Z upper) 0 0 x Hf eq_refl eq_refl) as (r & E & Hr);
    [repeat constructor; ring | done |].
  exists r. split; [done|]. rewrite Hr. ring.
Qed.

Lemma fee_without_penalty s f balance amount upper :
  (forall x, (0 <= x <= inject_Z upper)%Q -> exists r, Interpolate_call f x = Ok r /\ (r == 0)%Q) ->
  (0 <= inject_Z balance <= inject_Z upper)%Q -> (0 <= inject_Z balance + amount <= inject_Z upper)%Q ->
  exists r, fee (set_penalty_func f s) balance amount = Ok r /\
            (r == inject_Z (fs_flat s) + (fs_proportional s # 1000000) * Qabs amount)%Q.
Proof.
  intros Hf Hb Ha. unfold fee. cbn [fs_penalty_func set_penalty_func].
  destruct (Hf _ Ha) as (r1 & -> & Hr1). destruct (Hf _ Hb) as (r2 & -> & Hr2). cbn [bind].
  eexists. split; [reflexivity|]. rewrite Qred_correct, Hr1, Hr2. cbn [fs_flat fs_proportional set_penalty_func]. ring.
Qed.

(** The range of the fee function. *)
Lemma collect_x_values_range f_in f_out balance_in balance_out max_x :
  0 <= balance_out -> 0 <= max_x -> 0%Q ∈ ip_x_list f_out -> inject_Z balance_out ∈ ip_x_list f_out ->
  exists x0 xn, head (_collect_x_values f_in f_out balance_in balance_out max_x) = Some x0 /\ (x0 == 0)%Q /\
    last (_collect_x_values f_in f_out balance_in balance_out max_x) = Some xn /\
    (xn == clip balance_out max_x (inject_Z balance_out))%Q.
Proof.
  intros Hb Hm H0 Hn. destruct (collect_x_values_spec f_in f_out balance_in balance_out max_x Hb Hm) as (Ha & Hr & _ & Hk).
  assert (Hb' : (0 <= inject_Z balance_out)%Q) by (by apply inject_Z_nonneg).
  assert (Hm' : (0 <= inject_Z max_x)%Q) by (by apply inject_Z_nonneg).
  set (xs := _collect_x_values _ _ _ _ _) in *.
  destruct (Hk _ H0) as (hi & Hhi & Ehi). destruct (Hk _ Hn) as (lo & Hlo & Elo).
  destruct (head xs) as [x0|] eqn:E0; [|by destruct xs; [set_solver|]].
  destruct (last xs) as [xn|] eqn:En; [|apply last_None in En; rewrite En in Hhi; set_solver].
  pose proof (ascending_bounds xs hi x0 xn Ha E0 En Hhi). pose proof (ascending_bounds xs lo x0 xn Ha E0 En Hlo).
  rewrite Forall_forall in Hr.
  destruct (Hr x0) as [Hx0 _]; [by apply head_Some_elem_of|]. destruct (Hr xn) as [Hxn Hxn']; [by apply last_Some_elem_of|].
  assert (E1 : (Qred (inject_Z balance_out - inject_Z balance_out) == 0)%Q) by (rewrite Qred_correct; ring).
  assert (E2 : (Qred (inject_Z balance_out - 0) == inject_Z balance_out)%Q) by (rewrite Qred_correct; ring).
  exists x0, xn. split; [done|]. split; [|split; [done|]].
  - enough (clip balance_out max_x (Qred (inject_Z balance_out - inject_Z balance_out)) == 0)%Q by lra.
    rewrite clip_id; lra.
  - assert (clip balance_out max_x (Qred (inject_Z balance_out - 0)) == clip balance_out max_x (inject_Z balance_out))%Q
      by clip_cases.
    assert (xn <= clip balance_out max_x (inject_Z balance_out))%Q by clip_cases. lra.
Qed.

(** The fee rate of a schedule, which is stored in millionths. *)
Definition rate (s : FeeScheduleState) : Q := (fs_proportional s # 1000000)%Q.

(** Both directions at once: [a + b * x] is the sum of the flat and proportional
    fees of the amounts the two channels see. *)
Lemma mediation_fee_func_line s_in s_out balance_in balance_out receivable awf awof (cap_fees : bool) a b :
  let amount_in x := match awf with None => x | Some n => inject_Z n end in
  let amount_out x := match awof with None => Qopp x | Some n => Qopp (inject_Z n) end in
  let max_x := if is_none awf then receivable else balance_out in
  is_none awf || is_none awof = true ->
  fs_penalty_func s_in = None -> fs_penalty_func s_out = None ->
  0 <= balance_in -> 0 < balance_out -> 0 < receivable ->
  (forall x, (0 <= x <= inject_Z balance_out)%Q -> (x <= inject_Z max_x)%Q ->
     (0 <= amount_in x <= inject_Z receivable)%Q /\ (- inject_Z balance_out <= amount_out x <= 0)%Q /\
     (inject_Z (fs_flat s_in) + rate s_in * Qabs (amount_in x)
      + (inject_Z (fs_flat s_out) + rate s_out * Qabs (amount_out x)) == a + b * x)%Q /\
     (cap_fees = true -> (0 <= a + b * x)%Q)) ->
  exists f, _mediation_fee_func s_in s_out balance_in balance_out receivable awf awof cap_fees = Ok f /\
    ranges f 0 (clip balance_out max_x (inject_Z balance_out)) /\
    forall x, (0 <= x <= clip balance_out max_x (inject_Z balance_out))%Q ->
      exists r, Interpolate_call f x = Ok r /\ (r == a + b * x)%Q.
Proof.
  intros amount_in amount_out max_x Hone Hin Hout Hbi Hbo Hr Hline.
  unfold _mediation_fee_func. rewrite py_assert_true by done.
  destruct (Z.eqb_spec balance_out 0) as [|_]; [lia|]. destruct (Z.eqb_spec receivable 0) as [|_]; [lia|]. cbn [orb].
  destruct (default_penalty s_in (balance_in + receivable) Hin ltac:(lia)) as (f_in & -> & _ & Zin).
  destruct (default_penalty s_out balance_out Hout Hbo) as (f_out & -> & Xout & Zout). cbn [bind].
  fold max_x. assert (Hm : 0 <= max_x) by (unfold max_x; destruct (is_none awf); lia).
  destruct (collect_x_values_spec f_in f_out balance_in balance_out max_x ltac:(lia) Hm) as (Ha & Hxr & _).
  destruct (collect_x_values_range f_in f_out balance_in balance_out max_x ltac:(lia) Hm) as (x0 & xn & E0 & Ex0 & En & Exn);
    [rewrite Xout; set_solver..|].
  set (xs := _collect_x_values _ _ _ _ _) in *. rewrite Forall_forall in Hxr.
  match goal with |- context [map_res ?g xs] =>
    destruct (map_res_Ok g (fun x y => (y == a + b * x)%Q) xs) as (ys & -> & Hxy) end.
  { intros x Hx. destruct (Hxr x Hx) as [Hx1 Hx2]. destruct (Hline x Hx1 Hx2) as (Hi & Ho & Hsum & _).
    assert (Hbi' : (0 <= inject_Z balance_in)%Q) by (by apply inject_Z_nonneg).
    assert (Hr' : (0 <= inject_Z receivable)%Q) by (apply inject_Z_nonneg; lia).
    destruct (fee_without_penalty s_in f_in balance_in (amount_in x) (balance_in + receivable) Zin) as (r1 & E1 & Hr1);
      [rewrite inject_Z_plus; lra | rewrite inject_Z_plus; lra |].
    destruct (fee_without_penalty s_out f_out balance_out (amount_out x) balance_out Zout) as (r2 & E2 & Hr2);
      [lra | lra |].
    unfold amount_in in E1. unfold amount_out in E2. rewrite E1. cbn [bind]. rewrite E2. cbn [bind].
    eexists. split; [reflexivity|]. rewrite Qred_correct, Hr1, Hr2. exact Hsum. }
  cbn [bind]. destruct (capped_line cap_fees xs ys x0 xn a b Ha E0 En Hxy) as (f & Ef & [Hint Hends] & Hf).
  { intros Hc. apply Forall_forall. intros x Hx. destruct (Hxr x Hx). by apply Hline. }
  exists f. split; [exact Ef|]. split; [|intros x Hx; apply Hf; lra].
  destruct Hends as (z0 & zn & ? & ? & ? & ?). split; [done|]. exists z0, zn. split; [done|]. split; [lra|].
  split; [done|lra].
Qed.

Lemma mediation_fee_func_forward s_in s_out balance_in balance_out receivable amount_with_fees (cap_fees : bool) :
  fs_penalty_func s_in = None -> fs_penalty_func s_out = None ->
  0 <= balance_in -> 0 < balance_out -> 0 < receivable -> 0 <= amount_with_fees <= receivable ->
  (cap_fees = true -> 0 <= fs_flat s_in /\ 0 <= fs_flat s_out /\ (0 <= rate s_in)%Q /\ (0 <= rate s_out)%Q) ->
  exists f,
    mediation_fee_func s_in s_out balance_in balance_out receivable amount_with_fees cap_fees = Ok f /\
    ranges f 0 (inject_Z balance_out) /\
    forall x, (0 <= x <= inject_Z balance_out)%Q ->
      exists r, Interpolate_call f x = Ok r /\
        (r == inject_Z (fs_flat s_in + fs_flat s_out) + rate s_in * inject_Z amount_with_fees + rate s_out * x)%Q.
Proof.
  intros Hin Hout Hbi Hbo Hr Ham Hcap.
  set (a := (inject_Z (fs_flat s_in + fs_flat s_out) + rate s_in * inject_Z amount_with_fees)%Q).
  assert (Ha0 : (0 <= inject_Z amount_with_fees)%Q) by (apply inject_Z_nonneg; lia).
  assert (Ha1 : (inject_Z amount_with_fees <= inject_Z receivable)%Q) by (apply inject_Z_le; lia).
  destruct (mediation_fee_func_line s_in s_out balance_in balance_out receivable (Some amount_with_fees) None
              cap_fees a (rate s_out)) as (f & Ef & [Hint (x0 & xn & E0 & Ex0 & En & Exn)] & Hf); try done.
  - intros x Hx _. split; [lra|]. split; [lra|]. split.
    + rewrite Qabs_pos, Qabs_opp, Qabs_pos by lra. unfold a. rewrite inject_Z_plus. ring.
    + intros Hc. destruct (Hcap Hc) as (F1 & F2 & R1 & R2). unfold a.
      assert (0 <= inject_Z (fs_flat s_in + fs_flat s_out))%Q by (apply inject_Z_nonneg; lia).
      nra.
  - assert (Hb : (0 <= inject_Z balance_out)%Q) by (apply inject_Z_nonneg; lia).
    pose proof (clip_id balance_out balance_out (inject_Z balance_out)). cbn [is_none is_some negb] in *.
    exists f. split; [exact Ef|]. split; [|intros x Hx; apply Hf; lra].
    split; [done|]. exists x0, xn. split; [done|]. split; [done|]. split; [done | lra].
Qed.

(** C37. The fee of an incoming amount.  For two channels without imbalance
    penalty, a positive outgoing balance and a receivable amount that covers the
    incoming one, [mediation_fee_func] returns a function, defined on the whole
    range of outgoing amounts, whose value is the flat fees of both channels plus
    the proportional fee of the incoming channel on the incoming amount and of
    the outgoing channel on the outgoing one.  Capping changes nothing, provided
    the fees are not negative. *)
Theorem mediation_fee_func_correct s_in s_out balance_in balance_out receivable amount_with_fees (cap_fees : bool) :
  fs_penalty_func s_in = None -> fs_penalty_func s_out = None ->
  0 <= balance_in -> 0 < balance_out -> 0 < receivable -> 0 <= amount_with_fees <= receivable ->
  (cap_fees = true -> 0 <= fs_flat s_in /\ 0 <= fs_flat s_out /\ (0 <= rate s_in)%Q /\ (0 <= rate s_out)%Q) ->
  exists f,
    mediation_fee_func s_in s_out balance_in balance_out receivable amount_with_fees cap_fees = Ok f /\
    forall x, (0 <= x <= inject_Z balance_out)%Q ->
      exists r, Interpolate_call f x = Ok r /\
        (r == inject_Z (fs_flat s_in + fs_flat s_out) + rate s_in * inject_Z amount_with_fees + rate s_out * x)%Q.
Proof.
  intros Hin Hout Hbi Hbo Hr Ham Hcap.
  destruct (mediation_fee_func_forward s_in s_out balance_in balance_out receivable amount_with_fees cap_fees)
    as (f & Ef & _ & Hf); try done. by exists f.
Qed.

(** The fee of an outgoing amount.  Under the same conditions
    [mediation_fee_backwards_func] returns the same sum as a function of the
    incoming amount, which may be anything both channels can carry. *)
Theorem mediation_fee_backwards_func_correct s_in s_out balance_in balance_out receivable amount_without_fees
    (cap_fees : bool) :
  fs_penalty_func s_in = None -> fs_penalty_func s_out = None ->
  0 <= balance_in -> 0 < balance_out -> 0 < receivable -> 0 <= amount_without_fees <= balance_out ->
  (cap_fees = true -> 0 <= fs_flat s_in /\ 0 <= fs_flat s_out /\ (0 <= rate s_in)%Q /\ (0 <= rate s_out)%Q) ->
  exists f,
    mediation_fee_backwards_func s_in s_out balance_in balance_out receivable amount_without_fees cap_fees = Ok f /\
    forall x, (0 <= x <= inject_Z balance_out)%Q -> (x <= inject_Z receivable)%Q ->
      exists r, Interpolate_call f x = Ok r /\
        (r == inject_Z (fs_flat s_in + fs_flat s_out) + rate s_out * inject_Z amount_without_fees + rate s_in * x)%Q.
Proof.
  intros Hin Hout Hbi Hbo Hr Ham Hcap.
  set (a := (inject_Z (fs_flat s_in + fs_flat s_out) + rate s_out * inject_Z amount_without_fees)%Q).
  assert (Ha0 : (0 <= inject_Z amount_without_fees)%Q) by (apply inject_Z_nonneg; lia).
  assert (Ha1 : (inject_Z amount_without_fees <= inject_Z balance_out)%Q) by (apply inject_Z_le; lia).
  destruct (mediation_fee_func_line s_in s_out balance_in balance_out receivable None (Some amount_without_fees)
              cap_fees a (rate s_in)) as (f & Ef & _ & Hf); try done.
  - cbn [is_none is_some negb]. intros x Hx Hxr. split; [lra|]. split; [lra|]. split.
    + rewrite Qabs_pos, Qabs_opp, Qabs_pos by lra. unfold a. rewrite inject_Z_plus. ring.
    + intros Hc. destruct (Hcap Hc) as (F1 & F2 & R1 & R2). unfold a.
      assert (0 <= inject_Z (fs_flat s_in + fs_flat s_out))%Q by (apply inject_Z_nonneg; lia).
      nra.
  - exists f. split; [exact Ef|]. intros x Hx Hxr. apply Hf. cbn [is_none is_some negb]. split; [lra|]. clip_cases.
Qed.

(** Capping misses crossings.  The loop of [_cap_fees] visits as many pairs
    as there were points before it inserted any, so after a first sign change the
    last pairs are not looked at: here the crossing at 3/2 is not inserted, and
    the capped fee at 7/4 is 1/4 although the fee itself is negative there. *)
Theorem cap_fees_misses_a_crossing :
  exists f capped_f,
    Interpolate_init [0; 1; 2]%Q [-1; 1; -1]%Q = Ok f /\ Interpolate_call f (7 # 4) = Ok (-1 # 2)%Q /\
    _cap_fees [0; 1; 2]%Q [-1; 1; -1]%Q = Ok ([0; 1 # 2; 1; 2]%Q, [0; 0; 1; 0]%Q) /\
    Interpolate_init [0; 1 # 2; 1; 2]%Q [0; 0; 1; 0]%Q = Ok capped_f /\
    Interpolate_call capped_f (7 # 4) = Ok (1 # 4)%Q.
Proof. do 2 eexists. split; [vm_compute; reflexivity|]. split; [|split; [|split; [vm_compute; reflexivity|]]]; vm_compute; reflexivity. Qed.

Definition curve_points : list Z := Eval vm_compute in
  match linspace 0 (10 ^ 18 + 1) NUM_DISCRETISATION_POINTS with Ok l => l | Raise _ => [] end.

(** The points of the imbalance curve need not reach the capacity.
    [linspace] says that it includes its end, but it multiplies a rounded step:
    for a capacity of 10^18 + 1 the last of the 21 points is 10^18, so a penalty
    function on these points raises for a balance equal to the capacity. *)
Theorem linspace_misses_its_end :
  linspace 0 (10 ^ 18 + 1) NUM_DISCRETISATION_POINTS = Ok curve_points /\
  last curve_points = Some (10 ^ 18) /\
  (let* f := FeeScheduleState_init true 0 0 (Some (map (fun x => (x, 0)) curve_points)) in fee f (10 ^ 18 + 1) (-1))
  = Raise (ValueError "x out of bounds!").
Proof. split; [|split]; vm_compute; reflexivity. Qed.

(** ** Concrete instances *)

(** A U-shaped penalty: 3 tokens at both ends, none in the middle. *)
Definition a_penalty : Interpolate := Eval vm_compute in
  match Interpolate_init [0; 5; 10]%Q [3; 0; 3]%Q with Ok f => f | Raise _ => Build_Interpolate [] [] [] end.

Lemma Interpolate_correct_witness :
  Interpolate_init [0; 5; 10]%Q [3; 0; 3]%Q = Ok a_penalty /\
  Interpolate_call a_penalty 11 = Raise (ValueError "x out of bounds!") /\
  is_Ok (Interpolate_call a_penalty 7) = true /\
  exists r, Interpolate_call a_penalty 7 = Ok r /\ (r == 6 # 5)%Q.
Proof.
  destruct (Interpolate_correct [0; 5; 10]%Q [3; 0; 3]%Q a_penalty 0%Q 10%Q) as (Hout & Hin & Hseg & _);
    try reflexivity.
  split; [reflexivity|]. split; [apply Hout; right; reflexivity|].
  split; [apply Hin; split; discriminate|].
  destruct (Hseg 1%nat 7%Q 5%Q 10%Q 0%Q 3%Q) as (r & E & Hr); try reflexivity; [split; discriminate|].
  exists r. split; [exact E|]. rewrite Hr. reflexivity.
Defined.

Lemma collect_x_values_correct_witness :
  ascending (_collect_x_values a_penalty a_penalty 4 6 6) /\
  exists y, y ∈ _collect_x_values a_penalty a_penalty 4 6 6 /\ (y == 1)%Q.
Proof.
  destruct (collect_x_values_correct a_penalty a_penalty 4 6 6) as (Ha & _ & Hin & _); [discriminate.. |].
  split; [exact Ha|]. destruct (Hin 5%Q) as (y & Hy & Ey); [right; left|].
  exists y. split; [exact Hy|]. rewrite Ey. reflexivity.
Defined.

Lemma cap_fees_correct_witness :
  exists xs' ys', _cap_fees [0; 5; 10]%Q [-2; 1; 3]%Q = Ok (xs', ys') /\ ascending xs' /\
    Forall (fun y => (0 <= y)%Q) ys' /\ exists j, xs' !! j = Some 5%Q /\ ys' !! j = Some 1%Q.
Proof.
  destruct (cap_fees_correct [0; 5; 10]%Q [-2; 1; 3]%Q) as (xs' & ys' & E & Ha & _ & _ & _ & Hpos & Hk & _);
    [by apply strictly_ascending_iff | reflexivity |].
  exists xs', ys'. split; [exact E|]. split; [exact Ha|]. split; [exact Hpos|].
  destruct (Hk 1%nat 5%Q 1%Q eq_refl eq_refl) as (j & Hx & Hy). exists j. split; [exact Hx | exact Hy].
Defined.

(** A flat fee of 2 and a proportional fee of 1%. *)
Definition a_schedule : FeeScheduleState :=
  {| fs_cap_fees := true; fs_flat := 2; fs_proportional := 10000; fs_imbalance_penalty := None; fs_penalty_func := None |}.

(** 100 tokens come in and 90 go out: 4 flat, 1 on the incoming, 0.9 on the
    outgoing amount. *)
Lemma mediation_fee_func_correct_witness :
  exists f, mediation_fee_func a_schedule a_schedule 0 500 200 100 true = Ok f /\
    exists r, Interpolate_call f 90 = Ok r /\ (r == 59 # 10)%Q.
Proof.
  destruct (mediation_fee_func_correct a_schedule a_schedule 0 500 200 100 true) as (f & E & Hf);
    [reflexivity | reflexivity | lia | lia | lia | lia | |].
  - intros _. repeat split; discriminate.
  - exists f. split; [exact E|]. destruct (Hf 90%Q) as (r & Er & Hr); [split; discriminate|].
    exists r. split; [exact Er|]. rewrite Hr. reflexivity.
Defined.

Lemma mediation_fee_backwards_func_correct_witness :
  exists f, mediation_fee_backwards_func a_schedule a_schedule 0 500 200 90 true = Ok f /\
    exists r, Interpolate_call f 100 = Ok r /\ (r == 59 # 10)%Q.
Proof.
  destruct (mediation_fee_backwards_func_correct a_schedule a_schedule 0 500 200 90 true) as (f & E & Hf);
    [reflexivity | reflexivity | lia | lia | lia | lia | |].
  - intros _. repeat split; discriminate.
  - exists f. split; [exact E|]. destruct (Hf 100%Q) as (r & Er & Hr); [split; discriminate | discriminate |].
    exists r. split; [exact Er|]. rewrite Hr. reflexivity.
Defined.
