(* ===== verification/State.v ===== *)
(** * State of the node's channels

    Models the data of [transfer/identifiers.py], [transfer/architecture.py],
    [transfer/state.py] and [transfer/mediated_transfer/state.py] that the
    channel state machine works on.  Constructors with a [__post_init__] that
    can raise are functions into [Res]. *)

From Stdlib Require Import ZArith Lia Strings.Byte.
From stdpp Require Import base gmap list strings pretty.
From S2P Require Import Prelude Encoding MediationFee.

(** ** Identifiers *)

Record CanonicalIdentifier := {
  ci_chain_identifier : Z;
  ci_token_network_address : bytes;
  ci_channel_identifier : Z;
}.

#[export] Instance CanonicalIdentifier_eq_dec : EqDecision CanonicalIdentifier.
Proof. solve_decision. Defined.

(** [CanonicalIdentifier.validate] *)
Definition CanonicalIdentifier_validate (ci : CanonicalIdentifier) : Res unit :=
  if (ci_channel_identifier ci <? 0) || (UINT256_MAX <? ci_channel_identifier ci)
  then Raise (ValueError "channel id is invalid") else Ok tt.

Definition CANONICAL_IDENTIFIER_UNORDERED_QUEUE : CanonicalIdentifier :=
  {| ci_chain_identifier := 0; ci_token_network_address := EMPTY_ADDRESS; ci_channel_identifier := 0 |}.

Record QueueIdentifier := {
  qi_recipient : bytes;
  qi_canonical_identifier : CanonicalIdentifier;
}.

#[export] Instance QueueIdentifier_eq_dec : EqDecision QueueIdentifier.
Proof. solve_decision. Defined.

(** ** Validation results

    [SuccessOrError] is falsy exactly when it carries an error message. *)

Record SuccessOrError := { error_messages : list string }.

Definition Success : SuccessOrError := {| error_messages := [] |}.
Definition Error (msg : string) : SuccessOrError := {| error_messages := [msg] |}.
Definition ok (r : SuccessOrError) : bool := match error_messages r with [] => true | _ => false end.
Definition fail (r : SuccessOrError) : bool := negb (ok r).
Definition as_error_message (r : SuccessOrError) : string := String.concat " / " (error_messages r).

(** [if error_msg:] *)
Definition str_true (s : string) : bool := match s with EmptyString => false | _ => true end.

(** ** Balance proofs *)

Record BalanceProofUnsignedState := {
  bpu_nonce : Z;
  bpu_transferred_amount : Z;
  bpu_locked_amount : Z;
  bpu_locksroot : bytes;
  bpu_canonical_identifier : CanonicalIdentifier;
  bpu_balance_hash : bytes;
}.

#[export] Instance BalanceProofUnsignedState_eq_dec : EqDecision BalanceProofUnsignedState.
Proof. solve_decision. Defined.

Record BalanceProofSignedState := {
  bps_nonce : Z;
  bps_transferred_amount : Z;
  bps_locked_amount : Z;
  bps_locksroot : bytes;
  bps_message_hash : bytes;
  bps_signature : bytes;
  bps_sender : bytes;
  bps_canonical_identifier : CanonicalIdentifier;
  bps_balance_hash : bytes;
}.

#[export] Instance BalanceProofSignedState_eq_dec : EqDecision BalanceProofSignedState.
Proof. solve_decision. Defined.

Definition bps_chain_id bp := ci_chain_identifier (bps_canonical_identifier bp).
Definition bps_token_network_address bp := ci_token_network_address (bps_canonical_identifier bp).
Definition bps_channel_identifier bp := ci_channel_identifier (bps_canonical_identifier bp).

Section BalanceProofs.
Context `{Externals}.

(** The checks both balance proofs' [__post_init__] share, in order. *)
Definition validate_balance_proof (nonce transferred_amount : Z) (locksroot : bytes) : Res unit :=
  if nonce <=? 0 then Raise (ValueError "nonce cannot be zero or negative")
  else if UINT64_MAX <? nonce then Raise (ValueError "nonce is too large")
  else if transferred_amount <? 0 then Raise (ValueError "transferred_amount cannot be negative")
  else if UINT256_MAX <? transferred_amount then Raise (ValueError "transferred_amount is too large")
  else if negb (bool_decide (length locksroot = 32%nat))
  then Raise (ValueError "locksroot must have length 32")
  else Ok tt.

Definition BalanceProofUnsignedState_init (nonce transferred_amount locked_amount : Z)
    (locksroot : bytes) (ci : CanonicalIdentifier) : Res BalanceProofUnsignedState :=
  let* _ := validate_balance_proof nonce transferred_amount locksroot in
  let* _ := CanonicalIdentifier_validate ci in
  let* balance_hash := hash_balance_data transferred_amount locked_amount locksroot in
  Ok {| bpu_nonce := nonce; bpu_transferred_amount := transferred_amount;
        bpu_locked_amount := locked_amount; bpu_locksroot := locksroot;
        bpu_canonical_identifier := ci; bpu_balance_hash := balance_hash |}.

Definition BalanceProofSignedState_init (nonce transferred_amount locked_amount : Z)
    (locksroot message_hash signature sender : bytes) (ci : CanonicalIdentifier)
    : Res BalanceProofSignedState :=
  let* _ := validate_balance_proof nonce transferred_amount locksroot in
  let* _ := if negb (bool_decide (length message_hash = 32%nat))
            then Raise (ValueError "message_hash is an invalid hash") else Ok tt in
  let* _ := if negb (bool_decide (length signature = 65%nat))
            then Raise (ValueError "signature is an invalid signature") else Ok tt in
  let* _ := CanonicalIdentifier_validate ci in
  let* balance_hash := hash_balance_data transferred_amount locked_amount locksroot in
  Ok {| bps_nonce := nonce; bps_transferred_amount := transferred_amount;
        bps_locked_amount := locked_amount; bps_locksroot := locksroot;
        bps_message_hash := message_hash; bps_signature := signature; bps_sender := sender;
        bps_canonical_identifier := ci; bps_balance_hash := balance_hash |}.
End BalanceProofs.

(** [Union[BalanceProofSignedState, BalanceProofUnsignedState]] *)
Inductive BalanceProofState :=
  | BPSigned (bp : BalanceProofSignedState)
  | BPUnsigned (bp : BalanceProofUnsignedState).

Definition bp_transferred_amount (bp : BalanceProofState) : Z :=
  match bp with BPSigned b => bps_transferred_amount b | BPUnsigned b => bpu_transferred_amount b end.
Definition bp_locked_amount (bp : BalanceProofState) : Z :=
  match bp with BPSigned b => bps_locked_amount b | BPUnsigned b => bpu_locked_amount b end.
Definition bp_locksroot (bp : BalanceProofState) : bytes :=
  match bp with BPSigned b => bps_locksroot b | BPUnsigned b => bpu_locksroot b end.
Definition bp_nonce (bp : BalanceProofState) : Z :=
  match bp with BPSigned b => bps_nonce b | BPUnsigned b => bpu_nonce b end.

(** ** Routes *)

(** [Dict[str, Union[UserID, str]]] *)
Abbreviation AddressMetadata := (gmap string string).

(** [Dict[str, Any]]: the values of a JSON document. *)
Inductive Json :=
  | JNull
  | JBool (b : bool)
  | JInt (z : Z)
  | JStr (s : string)
  | JList (l : list Json)
  | JObject (l : list (string * Json)).

(** Equality of documents. *)
Fixpoint Json_eqb (a b : Json) : bool :=
  match a, b with
  | JNull, JNull => true
  | JBool x, JBool y => bool_decide (x = y)
  | JInt x, JInt y => x =? y
  | JStr x, JStr y => bool_decide (x = y)
  | JList l, JList m =>
      (fix eqb l m :=
         match l, m with
         | [], [] => true
         | x :: l, y :: m => Json_eqb x y && eqb l m
         | _, _ => false
         end) l m
  | JObject l, JObject m =>
      (fix eqb l m :=
         match l, m with
         | [], [] => true
         | (j, x) :: l, (k, y) :: m => bool_decide (j = k) && Json_eqb x y && eqb l m
         | _, _ => false
         end) l m
  | _, _ => false
  end.

Lemma Json_eqb_eq : forall a b, Json_eqb a b = true <-> a = b.
Proof.
  fix IH 1. intros [|x|x|x|l|l] [|y|y|y|m|m]; cbn [Json_eqb]; try (split; [discriminate | congruence]).
  - done.
  - rewrite bool_decide_eq_true. split; congruence.
  - rewrite Z.eqb_eq. split; congruence.
  - rewrite bool_decide_eq_true. split; congruence.
  - revert m. induction l as [|x l IHl]; intros [|y m]; try (split; [discriminate | congruence]); [done|].
    rewrite andb_true_iff, IH, IHl. split; [intros [-> [= ->]]; done | intros [= -> ->]; done].
  - revert m. induction l as [|[j x] l IHl]; intros [|[k y] m]; try (split; [discriminate | congruence]); [done|].
    rewrite !andb_true_iff, IH, IHl, bool_decide_eq_true.
    split; [intros [[-> ->] [= ->]]; done | intros [= -> -> ->]; done].
Qed.

#[export] Instance Json_eq_dec : EqDecision Json.
Proof. refine (fun a b => cast_if (decide (Json_eqb a b = true))); by rewrite <- Json_eqb_eq. Defined.

Record RouteState := {
  rs_route : list bytes;
  rs_address_to_metadata : gmap bytes AddressMetadata;
  rs_swaps : gmap bytes bytes;
  rs_estimated_fee : Z;
}.

#[export] Instance RouteState_eq_dec : EqDecision RouteState.
Proof. solve_decision. Defined.

(** [list.index]: [None] stands for the [ValueError] of an absent element. *)
Fixpoint list_index (x : bytes) (l : list bytes) : option nat :=
  match l with
  | [] => None
  | y :: l' => if decide (x = y) then Some 0%nat else S <$> list_index x l'
  end.

(** [RouteState.hop_after]: [None] when the address is absent or the last hop. *)
Definition hop_after (r : RouteState) (address : bytes) : option bytes :=
  idx ← list_index address (rs_route r); rs_route r !! S idx.

Fixpoint get_address_metadata (address : bytes) (route_states : list RouteState)
    : option AddressMetadata :=
  match route_states with
  | [] => None
  | route_state :: rest =>
      match rs_address_to_metadata route_state !! address with
      | Some recipient_metadata => Some recipient_metadata
      | None => get_address_metadata address rest
      end
  end.

Record HopState := {
  hop_node_address : bytes;
  hop_channel_identifier : Z;
}.

(** ** Locks *)

Record HashTimeLockState := {
  lock_amount : Z;
  lock_expiration : Z;
  lock_secrethash : bytes;
  lock_encoded : bytes;
}.

#[export] Instance HashTimeLockState_eq_dec : EqDecision HashTimeLockState.
Proof. solve_decision. Defined.

Definition HashTimeLockState_init (amount expiration : Z) (secrethash : bytes) : Res HashTimeLockState :=
  let* encoded := Lock_encode amount expiration secrethash in
  Ok {| lock_amount := amount; lock_expiration := expiration;
        lock_secrethash := secrethash; lock_encoded := encoded |}.

Record UnlockPartialProofState := {
  upp_lock : HashTimeLockState;
  upp_secret : bytes;
  upp_amount : Z;
  upp_expiration : Z;
  upp_secrethash : bytes;
  upp_encoded : bytes;
}.

(** [UnlockPartialProofState(lock, secret)] with its [__post_init__]. *)
Definition UnlockPartialProofState_init (lock : HashTimeLockState) (secret : bytes) : UnlockPartialProofState :=
  {| upp_lock := lock; upp_secret := secret; upp_amount := lock_amount lock;
     upp_expiration := lock_expiration lock; upp_secrethash := lock_secrethash lock;
     upp_encoded := lock_encoded lock |}.

(** [LockType = Union[HashTimeLockState, UnlockPartialProofState]]: what the
    code reads of either. *)
Class LockType (L : Type) := {
  lt_amount : L -> Z;
  lt_expiration : L -> Z;
  lt_secrethash : L -> bytes;
  lt_encoded : L -> bytes;
}.
#[export] Instance HashTimeLockState_LockType : LockType HashTimeLockState :=
  {| lt_amount := lock_amount; lt_expiration := lock_expiration;
     lt_secrethash := lock_secrethash; lt_encoded := lock_encoded |}.
#[export] Instance UnlockPartialProofState_LockType : LockType UnlockPartialProofState :=
  {| lt_amount := upp_amount; lt_expiration := upp_expiration;
     lt_secrethash := upp_secrethash; lt_encoded := upp_encoded |}.

(** [PendingLocksState.locks]: encoded locks in order of insertion. *)
Abbreviation PendingLocksState := (list bytes).

(** ** Transactions *)

Inductive TransactionResult := SUCCESS | FAILURE.

#[export] Instance TransactionResult_eq_dec : EqDecision TransactionResult.
Proof. solve_decision. Defined.

Record TransactionExecutionStatus := {
  tx_started_block_number : option Z;
  tx_finished_block_number : option Z;
  tx_result : option TransactionResult;
}.

Definition set_tx_finished_block_number (v : option Z) (s : TransactionExecutionStatus) : TransactionExecutionStatus :=
  Build_TransactionExecutionStatus (tx_started_block_number s) v (tx_result s).
Definition set_tx_result (v : option TransactionResult) (s : TransactionExecutionStatus) : TransactionExecutionStatus :=
  Build_TransactionExecutionStatus (tx_started_block_number s) (tx_finished_block_number s) v.

Record SuccessfulTransactionState := {
  stx_finished_block_number : Z;
  stx_started_block_number : option Z;
}.

Record TransactionChannelDeposit := {
  dep_participant_address : bytes;
  dep_contract_balance : Z;
  dep_deposit_block_number : Z;
}.

(** ** Withdraws *)

Record ExpiredWithdrawState := {
  ew_total_withdraw : Z;
  ew_expiration : Z;
  ew_nonce : Z;
  ew_recipient_metadata : option AddressMetadata;
}.

Record PendingWithdrawState := {
  pw_total_withdraw : Z;
  pw_expiration : Z;
  pw_nonce : Z;
  pw_recipient_metadata : option AddressMetadata;
}.

Record CoopSettleState := {
  cs_total_withdraw_initiator : Z;
  cs_total_withdraw_partner : Z;
  cs_expiration : Z;
  cs_partner_signature_request : option bytes;
  cs_partner_signature_confirmation : option bytes;
  cs_transaction : option TransactionExecutionStatus;
}.

Definition set_cs_partner_signature_request (v : option bytes) (s : CoopSettleState) : CoopSettleState :=
  Build_CoopSettleState (cs_total_withdraw_initiator s) (cs_total_withdraw_partner s)
    (cs_expiration s) v (cs_partner_signature_confirmation s) (cs_transaction s).
Definition set_cs_partner_signature_confirmation (v : option bytes) (s : CoopSettleState) : CoopSettleState :=
  Build_CoopSettleState (cs_total_withdraw_initiator s) (cs_total_withdraw_partner s)
    (cs_expiration s) (cs_partner_signature_request s) v (cs_transaction s).
Definition set_cs_transaction (v : option TransactionExecutionStatus) (s : CoopSettleState) : CoopSettleState :=
  Build_CoopSettleState (cs_total_withdraw_initiator s) (cs_total_withdraw_partner s)
    (cs_expiration s) (cs_partner_signature_request s) (cs_partner_signature_confirmation s) v.

(** ** The two ends of a channel *)

Record NettingChannelEndState := {
  es_address : bytes;
  es_contract_balance : Z;
  es_onchain_total_withdraw : Z;
  es_withdraws_pending : list (Z * PendingWithdrawState);
  es_initiated_coop_settle : option CoopSettleState;
  es_expired_coop_settles : list CoopSettleState;
  es_withdraws_expired : list ExpiredWithdrawState;
  es_secrethashes_to_lockedlocks : gmap bytes HashTimeLockState;
  es_secrethashes_to_unlockedlocks : gmap bytes UnlockPartialProofState;
  es_secrethashes_to_onchain_unlockedlocks : gmap bytes UnlockPartialProofState;
  es_balance_proof : option BalanceProofState;
  es_pending_locks : PendingLocksState;
  es_onchain_locksroot : bytes;
  es_nonce : Z;
}.

Definition set_es_contract_balance (v : Z) (s : NettingChannelEndState) : NettingChannelEndState :=
  Build_NettingChannelEndState (es_address s) v (es_onchain_total_withdraw s)
    (es_withdraws_pending s) (es_initiated_coop_settle s) (es_expired_coop_settles s)
    (es_withdraws_expired s) (es_secrethashes_to_lockedlocks s)
    (es_secrethashes_to_unlockedlocks s) (es_secrethashes_to_onchain_unlockedlocks s)
    (es_balance_proof s) (es_pending_locks s) (es_onchain_locksroot s) (es_nonce s).
Definition set_es_onchain_total_withdraw (v : Z) (s : NettingChannelEndState) : NettingChannelEndState :=
  Build_NettingChannelEndState (es_address s) (es_contract_balance s) v (es_withdraws_pending s)
    (es_initiated_coop_settle s) (es_expired_coop_settles s) (es_withdraws_expired s)
    (es_secrethashes_to_lockedlocks s) (es_secrethashes_to_unlockedlocks s)
    (es_secrethashes_to_onchain_unlockedlocks s) (es_balance_proof s) (es_pending_locks s)
    (es_onchain_locksroot s) (es_nonce s).
Definition set_es_withdraws_pending (v : list (Z * PendingWithdrawState)) (s : NettingChannelEndState) : NettingChannelEndState :=
  Build_NettingChannelEndState (es_address s) (es_contract_balance s) (es_onchain_total_withdraw
    s) v (es_initiated_coop_settle s) (es_expired_coop_settles s) (es_withdraws_expired s)
    (es_secrethashes_to_lockedlocks s) (es_secrethashes_to_unlockedlocks s)
    (es_secrethashes_to_onchain_unlockedlocks s) (es_balance_proof s) (es_pending_locks s)
    (es_onchain_locksroot s) (es_nonce s).
Definition set_es_initiated_coop_settle (v : option CoopSettleState) (s : NettingChannelEndState) : NettingChannelEndState :=
  Build_NettingChannelEndState (es_address s) (es_contract_balance s) (es_onchain_total_withdraw
    s) (es_withdraws_pending s) v (es_expired_coop_settles s) (es_withdraws_expired s)
    (es_secrethashes_to_lockedlocks s) (es_secrethashes_to_unlockedlocks s)
    (es_secrethashes_to_onchain_unlockedlocks s) (es_balance_proof s) (es_pending_locks s)
    (es_onchain_locksroot s) (es_nonce s).
Definition set_es_withdraws_expired (v : list ExpiredWithdrawState) (s : NettingChannelEndState) : NettingChannelEndState :=
  Build_NettingChannelEndState (es_address s) (es_contract_balance s) (es_onchain_total_withdraw
    s) (es_withdraws_pending s) (es_initiated_coop_settle s) (es_expired_coop_settles s) v
    (es_secrethashes_to_lockedlocks s) (es_secrethashes_to_unlockedlocks s)
    (es_secrethashes_to_onchain_unlockedlocks s) (es_balance_proof s) (es_pending_locks s)
    (es_onchain_locksroot s) (es_nonce s).
Definition set_es_secrethashes_to_lockedlocks (v : gmap bytes HashTimeLockState) (s : NettingChannelEndState) : NettingChannelEndState :=
  Build_NettingChannelEndState (es_address s) (es_contract_balance s) (es_onchain_total_withdraw
    s) (es_withdraws_pending s) (es_initiated_coop_settle s) (es_expired_coop_settles s)
    (es_withdraws_expired s) v (es_secrethashes_to_unlockedlocks s)
    (es_secrethashes_to_onchain_unlockedlocks s) (es_balance_proof s) (es_pending_locks s)
    (es_onchain_locksroot s) (es_nonce s).
Definition set_es_secrethashes_to_unlockedlocks (v : gmap bytes UnlockPartialProofState) (s : NettingChannelEndState) : NettingChannelEndState :=
  Build_NettingChannelEndState (es_address s) (es_contract_balance s) (es_onchain_total_withdraw
    s) (es_withdraws_pending s) (es_initiated_coop_settle s) (es_expired_coop_settles s)
    (es_withdraws_expired s) (es_secrethashes_to_lockedlocks s) v
    (es_secrethashes_to_onchain_unlockedlocks s) (es_balance_proof s) (es_pending_locks s)
    (es_onchain_locksroot s) (es_nonce s).
Definition set_es_secrethashes_to_onchain_unlockedlocks (v : gmap bytes UnlockPartialProofState) (s : NettingChannelEndState) : NettingChannelEndState :=
  Build_NettingChannelEndState (es_address s) (es_contract_balance s) (es_onchain_total_withdraw
    s) (es_withdraws_pending s) (es_initiated_coop_settle s) (es_expired_coop_settles s)
    (es_withdraws_expired s) (es_secrethashes_to_lockedlocks s)
    (es_secrethashes_to_unlockedlocks s) v (es_balance_proof s) (es_pending_locks s)
    (es_onchain_locksroot s) (es_nonce s).
Definition set_es_balance_proof (v : option BalanceProofState) (s : NettingChannelEndState) : NettingChannelEndState :=
  Build_NettingChannelEndState (es_address s) (es_contract_balance s) (es_onchain_total_withdraw
    s) (es_withdraws_pending s) (es_initiated_coop_settle s) (es_expired_coop_settles s)
    (es_withdraws_expired s) (es_secrethashes_to_lockedlocks s)
    (es_secrethashes_to_unlockedlocks s) (es_secrethashes_to_onchain_unlockedlocks s) v
    (es_pending_locks s) (es_onchain_locksroot s) (es_nonce s).
Definition set_es_pending_locks (v : PendingLocksState) (s : NettingChannelEndState) : NettingChannelEndState :=
  Build_NettingChannelEndState (es_address s) (es_contract_balance s) (es_onchain_total_withdraw
    s) (es_withdraws_pending s) (es_initiated_coop_settle s) (es_expired_coop_settles s)
    (es_withdraws_expired s) (es_secrethashes_to_lockedlocks s)
    (es_secrethashes_to_unlockedlocks s) (es_secrethashes_to_onchain_unlockedlocks s)
    (es_balance_proof s) v (es_onchain_locksroot s) (es_nonce s).
Definition set_es_onchain_locksroot (v : bytes) (s : NettingChannelEndState) : NettingChannelEndState :=
  Build_NettingChannelEndState (es_address s) (es_contract_balance s) (es_onchain_total_withdraw
    s) (es_withdraws_pending s) (es_initiated_coop_settle s) (es_expired_coop_settles s)
    (es_withdraws_expired s) (es_secrethashes_to_lockedlocks s)
    (es_secrethashes_to_unlockedlocks s) (es_secrethashes_to_onchain_unlockedlocks s)
    (es_balance_proof s) (es_pending_locks s) v (es_nonce s).
Definition set_es_nonce (v : Z) (s : NettingChannelEndState) : NettingChannelEndState :=
  Build_NettingChannelEndState (es_address s) (es_contract_balance s) (es_onchain_total_withdraw
    s) (es_withdraws_pending s) (es_initiated_coop_settle s) (es_expired_coop_settles s)
    (es_withdraws_expired s) (es_secrethashes_to_lockedlocks s)
    (es_secrethashes_to_unlockedlocks s) (es_secrethashes_to_onchain_unlockedlocks s)
    (es_balance_proof s) (es_pending_locks s) (es_onchain_locksroot s) v.

(** Properties of the class. *)
Definition offchain_total_withdraw (s : NettingChannelEndState) : Z := max_key (es_withdraws_pending s).
Definition total_withdraw (s : NettingChannelEndState) : Z :=
  Z.max (offchain_total_withdraw s) (es_onchain_total_withdraw s).
Definition transferred_amount (s : NettingChannelEndState) : Z :=
  match es_balance_proof s with Some bp => bp_transferred_amount bp | None => 0 end.

(** [NettingChannelEndState(address, contract_balance)] *)
Definition NettingChannelEndState_init `{Externals} (address : bytes) (contract_balance : Z)
    : Res NettingChannelEndState :=
  if bool_decide (address = EMPTY_ADDRESS) then Raise (ValueError "address cannot be null.")
  else if contract_balance <? 0 then Raise (ValueError "contract_balance cannot be negative.")
  else Ok {| es_address := address; es_contract_balance := contract_balance;
             es_onchain_total_withdraw := 0; es_withdraws_pending := [];
             es_initiated_coop_settle := None; es_expired_coop_settles := [];
             es_withdraws_expired := []; es_secrethashes_to_lockedlocks := ∅;
             es_secrethashes_to_unlockedlocks := ∅; es_secrethashes_to_onchain_unlockedlocks := ∅;
             es_balance_proof := None; es_pending_locks := [];
             es_onchain_locksroot := LOCKSROOT_OF_NO_LOCKS; es_nonce := 0 |}.

(** ** The channel *)

Record NettingChannelState := {
  ch_canonical_identifier : CanonicalIdentifier;
  ch_token_address : bytes;
  ch_token_network_registry_address : bytes;
  ch_reveal_timeout : Z;
  ch_settle_timeout : Z;
  ch_fee_schedule : FeeScheduleState;
  ch_our_state : NettingChannelEndState;
  ch_partner_state : NettingChannelEndState;
  ch_open_transaction : SuccessfulTransactionState;
  ch_close_transaction : option TransactionExecutionStatus;
  ch_settle_transaction : option TransactionExecutionStatus;
  ch_update_transaction : option TransactionExecutionStatus;
}.

Definition set_ch_reveal_timeout (v : Z) (s : NettingChannelState) : NettingChannelState :=
  Build_NettingChannelState (ch_canonical_identifier s) (ch_token_address s)
    (ch_token_network_registry_address s) v (ch_settle_timeout s) (ch_fee_schedule s)
    (ch_our_state s) (ch_partner_state s) (ch_open_transaction s) (ch_close_transaction s)
    (ch_settle_transaction s) (ch_update_transaction s).
Definition set_ch_fee_schedule (v : FeeScheduleState) (s : NettingChannelState) : NettingChannelState :=
  Build_NettingChannelState (ch_canonical_identifier s) (ch_token_address s)
    (ch_token_network_registry_address s) (ch_reveal_timeout s) (ch_settle_timeout s) v
    (ch_our_state s) (ch_partner_state s) (ch_open_transaction s) (ch_close_transaction s)
    (ch_settle_transaction s) (ch_update_transaction s).
Definition set_ch_our_state (v : NettingChannelEndState) (s : NettingChannelState) : NettingChannelState :=
  Build_NettingChannelState (ch_canonical_identifier s) (ch_token_address s)
    (ch_token_network_registry_address s) (ch_reveal_timeout s) (ch_settle_timeout s)
    (ch_fee_schedule s) v (ch_partner_state s) (ch_open_transaction s) (ch_close_transaction s)
    (ch_settle_transaction s) (ch_update_transaction s).
Definition set_ch_partner_state (v : NettingChannelEndState) (s : NettingChannelState) : NettingChannelState :=
  Build_NettingChannelState (ch_canonical_identifier s) (ch_token_address s)
    (ch_token_network_registry_address s) (ch_reveal_timeout s) (ch_settle_timeout s)
    (ch_fee_schedule s) (ch_our_state s) v (ch_open_transaction s) (ch_close_transaction s)
    (ch_settle_transaction s) (ch_update_transaction s).
Definition set_ch_close_transaction (v : option TransactionExecutionStatus) (s : NettingChannelState) : NettingChannelState :=
  Build_NettingChannelState (ch_canonical_identifier s) (ch_token_address s)
    (ch_token_network_registry_address s) (ch_reveal_timeout s) (ch_settle_timeout s)
    (ch_fee_schedule s) (ch_our_state s) (ch_partner_state s) (ch_open_transaction s) v
    (ch_settle_transaction s) (ch_update_transaction s).
Definition set_ch_settle_transaction (v : option TransactionExecutionStatus) (s : NettingChannelState) : NettingChannelState :=
  Build_NettingChannelState (ch_canonical_identifier s) (ch_token_address s)
    (ch_token_network_registry_address s) (ch_reveal_timeout s) (ch_settle_timeout s)
    (ch_fee_schedule s) (ch_our_state s) (ch_partner_state s) (ch_open_transaction s)
    (ch_close_transaction s) v (ch_update_transaction s).
Definition set_ch_update_transaction (v : option TransactionExecutionStatus) (s : NettingChannelState) : NettingChannelState :=
  Build_NettingChannelState (ch_canonical_identifier s) (ch_token_address s)
    (ch_token_network_registry_address s) (ch_reveal_timeout s) (ch_settle_timeout s)
    (ch_fee_schedule s) (ch_our_state s) (ch_partner_state s) (ch_open_transaction s)
    (ch_close_transaction s) (ch_settle_transaction s) v.

(** [channel_state.our_state.<field> = ...] and the partner's counterpart. *)
Definition upd_our (f : NettingChannelEndState -> NettingChannelEndState) (ch : NettingChannelState) :=
  set_ch_our_state (f (ch_our_state ch)) ch.
Definition upd_partner (f : NettingChannelEndState -> NettingChannelEndState) (ch : NettingChannelState) :=
  set_ch_partner_state (f (ch_partner_state ch)) ch.

Definition ch_identifier (ch : NettingChannelState) : Z :=
  ci_channel_identifier (ch_canonical_identifier ch).
Definition ch_token_network_address (ch : NettingChannelState) : bytes :=
  ci_token_network_address (ch_canonical_identifier ch).
Definition ch_chain_id (ch : NettingChannelState) : Z :=
  ci_chain_identifier (ch_canonical_identifier ch).
Definition our_total_deposit (ch : NettingChannelState) : Z := es_contract_balance (ch_our_state ch).
Definition our_total_withdraw (ch : NettingChannelState) : Z := total_withdraw (ch_our_state ch).
Definition partner_total_deposit (ch : NettingChannelState) : Z := es_contract_balance (ch_partner_state ch).
Definition partner_total_withdraw (ch : NettingChannelState) : Z := total_withdraw (ch_partner_state ch).

(** [NettingChannelState(...)] of a channel that was just opened. *)
Definition NettingChannelState_init (ci : CanonicalIdentifier) (token registry : bytes)
    (reveal_timeout settle_timeout : Z) (fee_schedule : FeeScheduleState)
    (our_state partner_state : NettingChannelEndState) (open_transaction : SuccessfulTransactionState)
    : Res NettingChannelState :=
  if bool_decide (es_address our_state = es_address partner_state)
  then Raise (ValueError "it is illegal to open a channel with itself")
  else if reveal_timeout <=? 0 then Raise (ValueError "reveal_timeout must be a positive integer")
  else if settle_timeout <=? 0 then Raise (ValueError "settle_timeout must be a positive integer")
  else if (ci_channel_identifier ci <? 0) || (UINT256_MAX <? ci_channel_identifier ci)
  then Raise (ValueError "channel identifier should be a uint256")
  else Ok {| ch_canonical_identifier := ci; ch_token_address := token;
             ch_token_network_registry_address := registry; ch_reveal_timeout := reveal_timeout;
             ch_settle_timeout := settle_timeout; ch_fee_schedule := fee_schedule;
             ch_our_state := our_state; ch_partner_state := partner_state;
             ch_open_transaction := open_transaction; ch_close_transaction := None;
             ch_settle_transaction := None; ch_update_transaction := None |}.

(** ** Channel status *)

Inductive ChannelState :=
  | STATE_CLOSED | STATE_CLOSING | STATE_OPENED | STATE_SETTLED | STATE_SETTLING | STATE_UNUSABLE.

#[export] Instance ChannelState_eq_dec : EqDecision ChannelState.
Proof. solve_decision. Defined.

Definition CHANNEL_STATES_PRIOR_TO_CLOSED : list ChannelState := [STATE_OPENED; STATE_CLOSING].
Definition CHANNEL_STATES_UP_TO_CLOSED : list ChannelState :=
  CHANNEL_STATES_PRIOR_TO_CLOSED ++ [STATE_CLOSED].
Definition CHANNEL_AFTER_CLOSE_STATES : list ChannelState :=
  [STATE_CLOSED; STATE_SETTLING; STATE_SETTLED].

(** ** Transfers *)

Record LockedTransferUnsignedState := {
  ltu_payment_identifier : Z;
  ltu_token : bytes;
  ltu_lock : HashTimeLockState;
  ltu_initiator : bytes;
  ltu_target : bytes;
  ltu_balance_proof : BalanceProofUnsignedState;
  ltu_route_states : list RouteState;
  ltu_metadata : option Json;
  ltu_secret : option bytes;
}.

#[export] Instance LockedTransferUnsignedState_eq_dec : EqDecision LockedTransferUnsignedState.
Proof. solve_decision. Defined.

Definition LockedTransferUnsignedState_init `{Externals} (payment_identifier : Z) (token : bytes)
    (lock : HashTimeLockState) (initiator target : bytes) (bp : BalanceProofUnsignedState)
    (route_states : list RouteState) (metadata : option Json) (secret : option bytes)
    : Res LockedTransferUnsignedState :=
  if bool_decide (bpu_locksroot bp = LOCKSROOT_OF_NO_LOCKS)
  then Raise (ValueError "balance_proof must not be empty")
  else Ok {| ltu_payment_identifier := payment_identifier; ltu_token := token; ltu_lock := lock;
             ltu_initiator := initiator; ltu_target := target; ltu_balance_proof := bp;
             ltu_route_states := route_states; ltu_metadata := metadata; ltu_secret := secret |}.

Record LockedTransferSignedState := {
  lts_payment_identifier : Z;
  lts_token : bytes;
  lts_lock : HashTimeLockState;
  lts_initiator : bytes;
  lts_target : bytes;
  lts_message_identifier : Z;
  lts_route_states : list RouteState;
  lts_balance_proof : BalanceProofSignedState;
  lts_metadata : option Json;
  lts_secret : option bytes;
}.

Definition LockedTransferSignedState_init `{Externals} (payment_identifier : Z) (token : bytes)
    (lock : HashTimeLockState) (initiator target : bytes) (message_identifier : Z)
    (route_states : list RouteState) (bp : BalanceProofSignedState) (metadata : option Json)
    (secret : option bytes) : Res LockedTransferSignedState :=
  if bool_decide (bps_locksroot bp = LOCKSROOT_OF_NO_LOCKS)
  then Raise (ValueError "balance_proof must not be empty")
  else Ok {| lts_payment_identifier := payment_identifier; lts_token := token; lts_lock := lock;
             lts_initiator := initiator; lts_target := target;
             lts_message_identifier := message_identifier; lts_route_states := route_states;
             lts_balance_proof := bp; lts_metadata := metadata; lts_secret := secret |}.

Definition payer_address (t : LockedTransferSignedState) : bytes := bps_sender (lts_balance_proof t).
Definition payer_address_metadata (t : LockedTransferSignedState) : option AddressMetadata :=
  get_address_metadata (payer_address t) (lts_route_states t).
Definition initiator_address_metadata (t : LockedTransferSignedState) : option AddressMetadata :=
  get_address_metadata (lts_initiator t) (lts_route_states t).

(** [payment_identifier], [amount] without fees, and the [secret] of a payment;
    the empty byte string is the absent secret. *)
Record TransferDescriptionWithSecretState := {
  td_token_network_registry_address : bytes;
  td_payment_identifier : Z;
  td_amount : Z;
  td_token_network_address : bytes;
  td_initiator : bytes;
  td_target : bytes;
  td_secret : bytes;
  td_secrethash : bytes;
  td_lock_timeout : option Z;
}.

Definition TransferDescriptionWithSecretState_init (token_network_registry_address : bytes)
    (payment_identifier amount : Z) (token_network_address initiator target secret secrethash : bytes)
    (lock_timeout : option Z) : TransferDescriptionWithSecretState :=
  {| td_token_network_registry_address := token_network_registry_address;
     td_payment_identifier := payment_identifier; td_amount := amount;
     td_token_network_address := token_network_address; td_initiator := initiator; td_target := target;
     td_secret := secret;
     td_secrethash :=
       if bool_decide (secrethash = EMPTY_SECRETHASH) && negb (bool_decide (secret = []))
       then sha256_secrethash secret else secrethash;
     td_lock_timeout := lock_timeout |}.

(** ** References

    Channels and token networks are objects that several dictionaries and lists
    refer to; a reference is a location of the heap of its kind. *)
Abbreviation Loc := positive.
Abbreviation NetworkLoc := positive.

(** ** Token networks *)

(** [channelidentifiers_to_channels : Dict[ChannelID, NettingChannelState]] and
    [partneraddresses_to_channelidentifiers], a [defaultdict(list)], in the order
    of their insertions. *)
Record TokenNetworkState := {
  tn_address : bytes;
  tn_token_address : bytes;
  tn_channelidentifiers_to_channels : list (Z * Loc);
  tn_partneraddresses_to_channelidentifiers : list (bytes * list Z);
}.

Definition set_tn_channelidentifiers_to_channels (v : list (Z * Loc)) (s : TokenNetworkState) : TokenNetworkState :=
  Build_TokenNetworkState (tn_address s) (tn_token_address s) v (tn_partneraddresses_to_channelidentifiers s).
Definition set_tn_partneraddresses_to_channelidentifiers (v : list (bytes * list Z)) (s : TokenNetworkState)
    : TokenNetworkState :=
  Build_TokenNetworkState (tn_address s) (tn_token_address s) (tn_channelidentifiers_to_channels s) v.

(** [TokenNetworkState(address, token_address)] *)
Definition TokenNetworkState_init (address token_address : bytes) : TokenNetworkState :=
  {| tn_address := address; tn_token_address := token_address;
     tn_channelidentifiers_to_channels := []; tn_partneraddresses_to_channelidentifiers := [] |}.

(** A registry refers to each token network from a list and from a dictionary. *)
Record TokenNetworkRegistryState := {
  tnr_address : bytes;
  tnr_token_network_list : list NetworkLoc;
  tnr_tokenaddresses_to_tokennetworkaddresses : list (bytes * bytes);
  tnr_tokennetworkaddresses_to_tokennetworks : list (bytes * NetworkLoc);
}.

Definition add_token_network (networks : NetworkLoc -> TokenNetworkState) (token_network : NetworkLoc)
    (registry : TokenNetworkRegistryState) : TokenNetworkRegistryState :=
  let tn := networks token_network in
  {| tnr_address := tnr_address registry;
     tnr_token_network_list := tnr_token_network_list registry ++ [token_network];
     tnr_tokenaddresses_to_tokennetworkaddresses :=
       od_set (tn_token_address tn) (tn_address tn) (tnr_tokenaddresses_to_tokennetworkaddresses registry);
     tnr_tokennetworkaddresses_to_tokennetworks :=
       od_set (tn_address tn) token_network (tnr_tokennetworkaddresses_to_tokennetworks registry) |}.

(** [TokenNetworkRegistryState(address, token_network_list, tokennetworkaddresses_to_tokennetworks)];
    the dictionary, of which only the values are read, is [None] by default. *)
Definition TokenNetworkRegistryState_init (networks : NetworkLoc -> TokenNetworkState) (address : bytes)
    (token_network_list : list NetworkLoc)
    (tokennetworkaddresses_to_tokennetworks : option (list (bytes * NetworkLoc))) : TokenNetworkRegistryState :=
  let token_network_list :=
    match token_network_list, tokennetworkaddresses_to_tokennetworks with
    | [], Some ((_ :: _) as d) => d.*2
    | _, _ => token_network_list
    end in
  fold_left (fun registry tn => add_token_network networks tn registry) token_network_list
    {| tnr_address := address; tnr_token_network_list := [];
       tnr_tokenaddresses_to_tokennetworkaddresses := []; tnr_tokennetworkaddresses_to_tokennetworks := [] |}.

Inductive NetworkState := UNKNOWN | UNREACHABLE | REACHABLE.

#[export] Instance NetworkState_eq_dec : EqDecision NetworkState.
Proof. solve_decision. Defined.
