(* ===== verification/Events.v ===== *)
(** * Events and state changes

    The inputs and outputs of the state machines: [transfer/events.py],
    [transfer/mediated_transfer/events.py], [transfer/state_change.py] and
    [transfer/mediated_transfer/state_change.py], one constructor or record per
    class, and the fee configuration of [settings.py] that deposits carry. *)

From Stdlib Require Import ZArith Strings.Byte.
From stdpp Require Import base gmap list strings pretty.
From S2P Require Import Prelude Encoding MediationFee State.

(** ** Events *)

(** The fields of [SendMessageEvent], the base class of protocol messages. *)
Record SendMessageEvent := {
  sm_recipient : bytes;
  sm_recipient_metadata : option AddressMetadata;
  sm_canonical_identifier : CanonicalIdentifier;
  sm_message_identifier : Z;
}.

#[export] Instance SendMessageEvent_eq_dec : EqDecision SendMessageEvent.
Proof. solve_decision. Defined.

Definition queue_identifier (m : SendMessageEvent) : QueueIdentifier :=
  {| qi_recipient := sm_recipient m; qi_canonical_identifier := sm_canonical_identifier m |}.

Inductive Event :=
  (* off-chain messages *)
  | SendProcessed (msg : SendMessageEvent)
  | SendWithdrawRequest (msg : SendMessageEvent) (total_withdraw : Z) (participant : bytes)
      (expiration nonce : Z) (coop_settle : bool)
  | SendWithdrawConfirmation (msg : SendMessageEvent) (total_withdraw : Z) (participant : bytes)
      (expiration nonce : Z)
  | SendWithdrawExpired (msg : SendMessageEvent) (total_withdraw : Z) (participant : bytes)
      (nonce expiration : Z)
  | SendLockedTransfer (msg : SendMessageEvent) (transfer : LockedTransferUnsignedState)
  | SendLockExpired (msg : SendMessageEvent) (balance_proof : BalanceProofUnsignedState)
      (secrethash : bytes)
  | SendUnlock (msg : SendMessageEvent) (payment_identifier : Z) (token_address : bytes)
      (balance_proof : BalanceProofUnsignedState) (secret secrethash : bytes)
  | SendSecretReveal (msg : SendMessageEvent) (secret secrethash : bytes)
  | SendSecretRequest (msg : SendMessageEvent) (payment_identifier amount expiration : Z)
      (secrethash : bytes)
  (* on-chain transactions *)
  | ContractSendChannelWithdraw (triggered_by_block_hash : bytes) (ci : CanonicalIdentifier)
      (total_withdraw expiration : Z) (partner_signature : bytes)
  | ContractSendChannelCoopSettle (triggered_by_block_hash : bytes) (ci : CanonicalIdentifier)
      (our_total_withdraw partner_total_withdraw expiration : Z)
      (signature_our_withdraw signature_partner_withdraw : bytes)
  | ContractSendChannelClose (triggered_by_block_hash : bytes) (ci : CanonicalIdentifier)
      (balance_proof : option BalanceProofSignedState)
  | ContractSendChannelSettle (triggered_by_block_hash : bytes) (ci : CanonicalIdentifier)
  | ContractSendChannelUpdateTransfer (triggered_by_block_hash : bytes) (expiration : Z)
      (balance_proof : BalanceProofSignedState)
  | ContractSendChannelBatchUnlock (triggered_by_block_hash : bytes) (ci : CanonicalIdentifier)
      (sender : bytes)
  | ContractSendSecretReveal (triggered_by_block_hash : bytes) (expiration : Z) (secret : bytes)
  (* notifications *)
  | EventPaymentReceivedSuccess (token_network_registry_address token_network_address : bytes)
      (identifier amount : Z) (initiator : bytes)
  | EventPaymentSentSuccess (token_network_registry_address token_network_address : bytes)
      (identifier amount : Z) (target secret : bytes) (route : list bytes)
  | EventPaymentSentFailed (token_network_registry_address token_network_address : bytes)
      (identifier : Z) (target : bytes) (reason : string)
  | EventRouteFailed (secrethash : bytes) (route : list bytes) (token_network_address : bytes)
  | EventInvalidSecretRequest (payment_identifier intended_amount actual_amount : Z)
  | EventUnlockSuccess (identifier : Z) (secrethash : bytes)
  | EventUnlockFailed (identifier : Z) (secrethash : bytes) (reason : string)
  | EventUnexpectedSecretReveal (secrethash : bytes) (reason : string)
  | EventUnlockClaimSuccess (identifier : Z) (secrethash : bytes)
  | EventUnlockClaimFailed (identifier : Z) (secrethash : bytes) (reason : string)
  | EventInvalidReceivedTransferRefund (payment_identifier : Z) (reason : string)
  | EventInvalidReceivedLockExpired (secrethash : bytes) (reason : string)
  | EventInvalidReceivedLockedTransfer (payment_identifier : Z) (reason : string)
  | EventInvalidReceivedUnlock (secrethash : bytes) (reason : string)
  | EventInvalidReceivedWithdrawRequest (attempted_withdraw : Z) (reason : string)
  | EventInvalidReceivedWithdraw (attempted_withdraw : Z) (reason : string)
  | EventInvalidReceivedWithdrawExpired (attempted_withdraw : Z) (reason : string)
  | EventInvalidActionWithdraw (attempted_withdraw : Z) (reason : string)
  | EventInvalidActionCoopSettle (attempted_withdraw : Z) (reason : string)
  | EventInvalidActionSetRevealTimeout (reveal_timeout : Z) (reason : string)
  | UpdateServicesAddresses (service_address : bytes) (validity : Z).

#[export] Instance Event_eq_dec : EqDecision Event.
Proof. solve_decision. Defined.

(** [SendUnlock(...)] and [SendSecretReveal(...)]: [__post_init__] computes the
    secret hash. *)
Definition SendUnlock_init (msg : SendMessageEvent) (payment_identifier : Z) (token_address : bytes)
    (balance_proof : BalanceProofUnsignedState) (secret : bytes) : Event :=
  SendUnlock msg payment_identifier token_address balance_proof secret (sha256_secrethash secret).

Definition SendSecretReveal_init (msg : SendMessageEvent) (secret : bytes) : Event :=
  SendSecretReveal msg secret (sha256_secrethash secret).

(** [EventPaymentReceivedSuccess(...)], which bounds the amount. *)
Definition EventPaymentReceivedSuccess_init (registry token_network : bytes) (identifier amount : Z)
    (initiator : bytes) : Res Event :=
  if amount <? 0 then Raise (ValueError "transferred_amount cannot be negative")
  else if UINT256_MAX <? amount then Raise (ValueError "transferred_amount is too large")
  else Ok (EventPaymentReceivedSuccess registry token_network identifier amount initiator).

(** ** Fee configuration ([settings.py]) *)

Definition DEFAULT_MEDIATION_FLAT_FEE : Z := 0.
Definition DEFAULT_MEDIATION_PROPORTIONAL_FEE : Z := 4000.
Definition DEFAULT_MEDIATION_PROPORTIONAL_IMBALANCE_FEE : Z := 3000.
Definition DEFAULT_NUMBER_OF_BLOCK_CONFIRMATIONS : Z := 5.

Record MediationFeeConfig := {
  mfc_token_to_flat_fee : gmap bytes Z;
  mfc_token_to_proportional_fee : gmap bytes Z;
  mfc_token_to_proportional_imbalance_fee : gmap bytes Z;
  mfc_cap_mediation_fees : bool;
}.

Definition get_flat_fee (c : MediationFeeConfig) (token_address : bytes) : Z :=
  default DEFAULT_MEDIATION_FLAT_FEE (mfc_token_to_flat_fee c !! token_address).
Definition get_proportional_fee (c : MediationFeeConfig) (token_address : bytes) : Z :=
  default DEFAULT_MEDIATION_PROPORTIONAL_FEE (mfc_token_to_proportional_fee c !! token_address).
Definition get_proportional_imbalance_fee (c : MediationFeeConfig) (token_address : bytes) : Z :=
  default DEFAULT_MEDIATION_PROPORTIONAL_IMBALANCE_FEE
    (mfc_token_to_proportional_imbalance_fee c !! token_address).

(** ** State changes *)

(** [ContractReceiveStateChange]: the fields every on-chain log carries. *)
Record ContractReceive := {
  cr_transaction_hash : bytes;
  cr_block_number : Z;
  cr_block_hash : bytes;
}.

Record Block := {
  block_block_number : Z;
  block_gas_limit : Z;
  block_block_hash : bytes;
}.

Record ActionChannelClose := { acc_canonical_identifier : CanonicalIdentifier }.

Record ActionChannelWithdraw := {
  acw_canonical_identifier : CanonicalIdentifier;
  acw_total_withdraw : Z;
  acw_recipient_metadata : option AddressMetadata;
}.

Record ActionChannelCoopSettle := {
  accs_canonical_identifier : CanonicalIdentifier;
  accs_recipient_metadata : option AddressMetadata;
}.

Record ActionChannelSetRevealTimeout := {
  acsrt_canonical_identifier : CanonicalIdentifier;
  acsrt_reveal_timeout : Z;
}.

Record ContractReceiveChannelClosed := {
  crcc_contract : ContractReceive;
  crcc_transaction_from : bytes;
  crcc_canonical_identifier : CanonicalIdentifier;
}.

Record ContractReceiveChannelDeposit := {
  crcd_contract : ContractReceive;
  crcd_canonical_identifier : CanonicalIdentifier;
  crcd_deposit_transaction : TransactionChannelDeposit;
  crcd_fee_config : MediationFeeConfig;
}.

Record ContractReceiveChannelWithdraw := {
  crcw_contract : ContractReceive;
  crcw_canonical_identifier : CanonicalIdentifier;
  crcw_participant : bytes;
  crcw_total_withdraw : Z;
  crcw_fee_config : MediationFeeConfig;
}.

Record ContractReceiveChannelSettled := {
  crcs_contract : ContractReceive;
  crcs_canonical_identifier : CanonicalIdentifier;
  crcs_our_onchain_locksroot : bytes;
  crcs_our_transferred_amount : Z;
  crcs_partner_onchain_locksroot : bytes;
  crcs_partner_transferred_amount : Z;
}.

Record ContractReceiveChannelBatchUnlock := {
  crbu_contract : ContractReceive;
  crbu_canonical_identifier : CanonicalIdentifier;
  crbu_receiver : bytes;
  crbu_sender : bytes;
  crbu_locksroot : bytes;
  crbu_unlocked_amount : Z;
  crbu_returned_tokens : Z;
}.

Record ContractReceiveUpdateTransfer := {
  crut_contract : ContractReceive;
  crut_canonical_identifier : CanonicalIdentifier;
  crut_nonce : Z;
}.

Record ContractReceiveSecretReveal := {
  crsr_contract : ContractReceive;
  crsr_secret_registry_address : bytes;
  crsr_secrethash : bytes;
  crsr_secret : bytes;
}.

Record ReceiveUnlock := {
  ru_sender : bytes;
  ru_balance_proof : BalanceProofSignedState;
  ru_message_identifier : Z;
  ru_secret : bytes;
  ru_secrethash : bytes;
}.

(** [ReceiveUnlock(...)]: [__post_init__] computes the secret hash. *)
Definition ReceiveUnlock_init (sender : bytes) (bp : BalanceProofSignedState)
    (message_identifier : Z) (secret : bytes) : ReceiveUnlock :=
  {| ru_sender := sender; ru_balance_proof := bp; ru_message_identifier := message_identifier;
     ru_secret := secret; ru_secrethash := sha256_secrethash secret |}.

Record ReceiveWithdrawRequest := {
  rwr_sender : bytes;
  rwr_message_identifier : Z;
  rwr_canonical_identifier : CanonicalIdentifier;
  rwr_total_withdraw : Z;
  rwr_nonce : Z;
  rwr_expiration : Z;
  rwr_signature : bytes;
  rwr_participant : bytes;
  rwr_coop_settle : bool;
  rwr_sender_metadata : option AddressMetadata;
}.

Record ReceiveWithdrawConfirmation := {
  rwc_sender : bytes;
  rwc_message_identifier : Z;
  rwc_canonical_identifier : CanonicalIdentifier;
  rwc_total_withdraw : Z;
  rwc_nonce : Z;
  rwc_expiration : Z;
  rwc_signature : bytes;
  rwc_participant : bytes;
}.

Record ReceiveWithdrawExpired := {
  rwe_sender : bytes;
  rwe_message_identifier : Z;
  rwe_canonical_identifier : CanonicalIdentifier;
  rwe_total_withdraw : Z;
  rwe_expiration : Z;
  rwe_nonce : Z;
  rwe_participant : bytes;
}.

Record ReceiveLockExpired := {
  rle_sender : bytes;
  rle_balance_proof : BalanceProofSignedState;
  rle_secrethash : bytes;
  rle_message_identifier : Z;
}.

Record ReceiveTransferRefund := {
  rtr_sender : bytes;
  rtr_balance_proof : BalanceProofSignedState;
  rtr_transfer : LockedTransferSignedState;
}.

Record ReceiveSecretReveal := {
  rsr_sender : bytes;
  rsr_secret : bytes;
  rsr_secrethash : bytes;
}.

Definition ReceiveSecretReveal_init (sender secret : bytes) : ReceiveSecretReveal :=
  {| rsr_sender := sender; rsr_secret := secret; rsr_secrethash := sha256_secrethash secret |}.

(** [received_valid_secret : Optional[bool]] is only tested for truth. *)
Record ActionInitTarget := {
  ait_sender : bytes;
  ait_balance_proof : BalanceProofSignedState;
  ait_from_hop : HopState;
  ait_transfer : LockedTransferSignedState;
  ait_received_valid_secret : bool;
}.

Record ActionInitMediator := {
  aim_sender : bytes;
  aim_balance_proof : BalanceProofSignedState;
  aim_from_hop : HopState;
  aim_candidate_route_states : list RouteState;
  aim_from_transfer : LockedTransferSignedState;
}.

Record ActionInitInitiator := {
  aii_transfer : TransferDescriptionWithSecretState;
  aii_routes : list RouteState;
}.

Record ActionTransferReroute := {
  atr_sender : bytes;
  atr_balance_proof : BalanceProofSignedState;
  atr_transfer : LockedTransferSignedState;
  atr_secret : bytes;
  atr_secrethash : bytes;
}.

(** [__post_init__] computes the secret hash, whatever was passed for it. *)
Definition ActionTransferReroute_init (sender : bytes) (balance_proof : BalanceProofSignedState)
    (transfer : LockedTransferSignedState) (secret : bytes) : ActionTransferReroute :=
  {| atr_sender := sender; atr_balance_proof := balance_proof; atr_transfer := transfer;
     atr_secret := secret; atr_secrethash := sha256_secrethash secret |}.

Record ReceiveTransferCancelRoute := {
  rtc_sender : bytes;
  rtc_balance_proof : BalanceProofSignedState;
  rtc_transfer : LockedTransferSignedState;
}.

(** [revealsecret] is not read by the state machines. *)
Record ReceiveSecretRequest := {
  rsq_sender : bytes;
  rsq_payment_identifier : Z;
  rsq_amount : Z;
  rsq_expiration : Z;
  rsq_secrethash : bytes;
}.

Record ActionCancelPayment := { acp_payment_identifier : Z }.

(** A new channel or token network comes as an object: a reference. *)
Record ContractReceiveChannelNew := {
  crcn_contract : ContractReceive;
  crcn_channel_state : Loc;
}.

Record ContractReceiveNewTokenNetworkRegistry := {
  crnr_contract : ContractReceive;
  crnr_token_network_registry : TokenNetworkRegistryState;
}.

Record ContractReceiveNewTokenNetwork := {
  crnt_contract : ContractReceive;
  crnt_token_network_registry_address : bytes;
  crnt_token_network : NetworkLoc;
}.

Record ContractReceiveRouteNew := {
  crrn_contract : ContractReceive;
  crrn_canonical_identifier : CanonicalIdentifier;
  crrn_participant1 : bytes;
  crrn_participant2 : bytes;
}.

Record ReceiveDelivered := {
  rd_sender : bytes;
  rd_message_identifier : Z;
}.

Record ReceiveProcessed := {
  rp_sender : bytes;
  rp_message_identifier : Z;
}.

Record UpdateServicesAddressesStateChange := {
  usa_service : bytes;
  usa_valid_till : Z;
}.

(** The classes of state changes. *)
Inductive StateChange :=
  | SCBlock (a : Block)
  | SCActionChannelClose (a : ActionChannelClose)
  | SCActionChannelWithdraw (a : ActionChannelWithdraw)
  | SCActionChannelCoopSettle (a : ActionChannelCoopSettle)
  | SCActionChannelSetRevealTimeout (a : ActionChannelSetRevealTimeout)
  | SCContractReceiveChannelClosed (a : ContractReceiveChannelClosed)
  | SCContractReceiveChannelDeposit (a : ContractReceiveChannelDeposit)
  | SCContractReceiveChannelWithdraw (a : ContractReceiveChannelWithdraw)
  | SCContractReceiveChannelSettled (a : ContractReceiveChannelSettled)
  | SCContractReceiveChannelBatchUnlock (a : ContractReceiveChannelBatchUnlock)
  | SCContractReceiveUpdateTransfer (a : ContractReceiveUpdateTransfer)
  | SCContractReceiveSecretReveal (a : ContractReceiveSecretReveal)
  | SCReceiveWithdrawRequest (a : ReceiveWithdrawRequest)
  | SCReceiveWithdrawConfirmation (a : ReceiveWithdrawConfirmation)
  | SCReceiveWithdrawExpired (a : ReceiveWithdrawExpired)
  | SCReceiveUnlock (a : ReceiveUnlock)
  | SCReceiveLockExpired (a : ReceiveLockExpired)
  | SCReceiveSecretReveal (a : ReceiveSecretReveal)
  | SCReceiveTransferRefund (a : ReceiveTransferRefund)
  | SCActionInitMediator (a : ActionInitMediator)
  | SCActionInitTarget (a : ActionInitTarget)
  | SCActionInitInitiator (a : ActionInitInitiator)
  | SCActionTransferReroute (a : ActionTransferReroute)
  | SCReceiveTransferCancelRoute (a : ReceiveTransferCancelRoute)
  | SCReceiveSecretRequest (a : ReceiveSecretRequest)
  | SCActionCancelPayment (a : ActionCancelPayment)
  | SCContractReceiveChannelNew (a : ContractReceiveChannelNew)
  | SCContractReceiveNewTokenNetworkRegistry (a : ContractReceiveNewTokenNetworkRegistry)
  | SCContractReceiveNewTokenNetwork (a : ContractReceiveNewTokenNetwork)
  | SCContractReceiveRouteNew (a : ContractReceiveRouteNew)
  | SCReceiveDelivered (a : ReceiveDelivered)
  | SCReceiveProcessed (a : ReceiveProcessed)
  | SCUpdateServicesAddressesStateChange (a : UpdateServicesAddressesStateChange).
