(* ===== verification/ChannelViews.v ===== *)
(** * Reading a channel: amounts, locks and status

    The pure queries of [transfer/channel.py] and its small in-place updates of
    one end of the channel. *)

From Stdlib Require Import ZArith Lia Strings.Byte.
From stdpp Require Import base gmap list strings pretty.
From S2P Require Import Prelude Encoding MediationFee State Events.

Definition MAXIMUM_PENDING_TRANSFERS : Z := 160.

Inductive ChannelUsability :=
  | USABLE
  | NOT_OPENED
  | INVALID_SETTLE_TIMEOUT
  | CHANNEL_REACHED_PENDING_LIMIT
  | CHANNEL_DOESNT_HAVE_ENOUGH_DISTRIBUTABLE
  | CHANNEL_BALANCE_PROOF_WOULD_OVERFLOW
  | LOCKTIMEOUT_MISMATCH.

#[export] Instance ChannelUsability_eq_dec : EqDecision ChannelUsability.
Proof. solve_decision. Defined.

(** ** Expirations *)

(** [if lock_timeout:] is false for [None] and for [0]. *)
Definition get_safe_initial_expiration (block_number reveal_timeout : Z) (lock_timeout : option Z) : Z :=
  let expiration :=
    match lock_timeout with
    | Some t => if negb (t =? 0) then block_number + t else block_number + reveal_timeout * 2
    | None => block_number + reveal_timeout * 2
    end in
  expiration - 1.

Definition get_sender_expiration_threshold (expiration : Z) : Z :=
  expiration + DEFAULT_NUMBER_OF_BLOCK_CONFIRMATIONS * 2.

Definition get_receiver_expiration_threshold (expiration : Z) : Z :=
  expiration + DEFAULT_NUMBER_OF_BLOCK_CONFIRMATIONS.

(** ** Locks of one end *)

Abbreviation has_key k m := (is_some (m !! k)).

Definition is_lock_pending (end_state : NettingChannelEndState) (secrethash : bytes) : bool :=
  has_key secrethash (es_secrethashes_to_lockedlocks end_state)
  || has_key secrethash (es_secrethashes_to_unlockedlocks end_state)
  || has_key secrethash (es_secrethashes_to_onchain_unlockedlocks end_state).

Definition is_lock_locked (end_state : NettingChannelEndState) (secrethash : bytes) : bool :=
  has_key secrethash (es_secrethashes_to_lockedlocks end_state).

Definition is_lock_expired {L} `{LockType L} (end_state : NettingChannelEndState) (lock : L)
    (block_number lock_expiration_threshold : Z) : SuccessOrError :=
  if has_key (lt_secrethash lock) (es_secrethashes_to_onchain_unlockedlocks end_state)
  then Error "lock has been unlocked on-chain"
  else if block_number <? lock_expiration_threshold
  then Error ("current block number (" +:+ pretty block_number +:+ ") is not larger than "
              +:+ "lock.expiration + confirmation blocks (" +:+ pretty lock_expiration_threshold +:+ ")")
  else Success.

Definition is_transfer_expired (transfer : LockedTransferSignedState)
    (affected_channel : NettingChannelState) (block_number : Z) : bool :=
  ok (is_lock_expired (ch_our_state affected_channel) (lts_lock transfer) block_number
        (get_sender_expiration_threshold (lock_expiration (lts_lock transfer)))).

Definition is_withdraw_expired (block_number expiration_threshold : Z) : bool :=
  expiration_threshold <=? block_number.

Definition is_secret_known (end_state : NettingChannelEndState) (secrethash : bytes) : bool :=
  has_key secrethash (es_secrethashes_to_unlockedlocks end_state)
  || has_key secrethash (es_secrethashes_to_onchain_unlockedlocks end_state).

Definition is_secret_known_offchain (end_state : NettingChannelEndState) (secrethash : bytes) : bool :=
  has_key secrethash (es_secrethashes_to_unlockedlocks end_state).

Definition is_secret_known_onchain (end_state : NettingChannelEndState) (secrethash : bytes) : bool :=
  has_key secrethash (es_secrethashes_to_onchain_unlockedlocks end_state).

Definition get_secret (end_state : NettingChannelEndState) (secrethash : bytes) : option bytes :=
  let partial_unlock_proof :=
    match es_secrethashes_to_unlockedlocks end_state !! secrethash with
    | Some p => Some p
    | None => es_secrethashes_to_onchain_unlockedlocks end_state !! secrethash
    end in
  upp_secret <$> partial_unlock_proof.

Definition get_lock (end_state : NettingChannelEndState) (secrethash : bytes) : option HashTimeLockState :=
  match es_secrethashes_to_lockedlocks end_state !! secrethash with
  | Some lock => Some lock
  | None =>
      let partial_unlock :=
        match es_secrethashes_to_unlockedlocks end_state !! secrethash with
        | Some p => Some p
        | None => es_secrethashes_to_onchain_unlockedlocks end_state !! secrethash
        end in
      upp_lock <$> partial_unlock
  end.

Definition lock_exists_in_either_channel_side (channel_state : NettingChannelState) (secrethash : bytes)
    : bool :=
  let lock :=
    match get_lock (ch_our_state channel_state) secrethash with
    | Some lock => Some lock
    | None => get_lock (ch_partner_state channel_state) secrethash
    end in
  is_some lock.

(** ** Amounts *)

Definition get_amount_unclaimed_onchain (end_state : NettingChannelEndState) : Z :=
  map_sum (fun unlock => lock_amount (upp_lock unlock)) (es_secrethashes_to_onchain_unlockedlocks end_state).

Definition get_amount_locked (end_state : NettingChannelEndState) : Z :=
  let total_pending := map_sum lock_amount (es_secrethashes_to_lockedlocks end_state) in
  let total_unclaimed :=
    map_sum (fun unlock => lock_amount (upp_lock unlock)) (es_secrethashes_to_unlockedlocks end_state) in
  let total_unclaimed_onchain := get_amount_unclaimed_onchain end_state in
  total_pending + total_unclaimed + total_unclaimed_onchain.

Definition get_capacity (channel_state : NettingChannelState) : Z :=
  our_total_deposit channel_state - our_total_withdraw channel_state
  + partner_total_deposit channel_state - partner_total_withdraw channel_state.

Definition _get_balance (sender receiver : NettingChannelEndState) (subtract_withdraws : bool) : Z :=
  let sender_transferred_amount :=
    match es_balance_proof sender with Some bp => bp_transferred_amount bp | None => 0 end in
  let receiver_transferred_amount :=
    match es_balance_proof receiver with Some bp => bp_transferred_amount bp | None => 0 end in
  let max_withdraw := Z.max (offchain_total_withdraw sender) (es_onchain_total_withdraw sender) in
  let withdraw := if subtract_withdraws then max_withdraw else 0 in
  es_contract_balance sender - withdraw - sender_transferred_amount + receiver_transferred_amount.

Definition get_balance (sender receiver : NettingChannelEndState) : Z := _get_balance sender receiver true.

Definition get_max_withdraw_amount (sender receiver : NettingChannelEndState) : Z :=
  _get_balance sender receiver false.

(** [BalanceProofData = (locksroot, nonce, transferred_amount, locked_amount)] *)
Abbreviation BalanceProofData := (bytes * Z * Z * Z)%type.

Section Views.
Context `{Externals}.

Definition get_current_balanceproof (end_state : NettingChannelEndState) : BalanceProofData :=
  match es_balance_proof end_state with
  | Some balance_proof =>
      (bp_locksroot balance_proof, es_nonce end_state, bp_transferred_amount balance_proof,
       get_amount_locked end_state)
  | None => (LOCKSROOT_OF_NO_LOCKS, 0, 0, 0)
  end.

Definition get_distributable (sender receiver : NettingChannelEndState) : Z :=
  let '(_, _, transferred_amount, locked_amount) := get_current_balanceproof sender in
  let distributable := get_balance sender receiver - get_amount_locked sender in
  let overflow_limit := Z.max (UINT256_MAX - transferred_amount - locked_amount) 0 in
  Z.min overflow_limit distributable.

Definition is_valid_amount (end_state : NettingChannelEndState) (amount : Z) : bool :=
  let '(_, _, current_transferred_amount, current_locked_amount) := get_current_balanceproof end_state in
  let transferred_amount_after_unlock := current_transferred_amount + current_locked_amount + amount in
  transferred_amount_after_unlock <=? UINT256_MAX.
End Views.

Definition get_current_nonce (end_state : NettingChannelEndState) : Z := es_nonce end_state.
Definition get_next_nonce (end_state : NettingChannelEndState) : Z := es_nonce end_state + 1.

Definition get_number_of_pending_transfers (channel_end_state : NettingChannelEndState) : Z :=
  Z.of_nat (length (es_pending_locks channel_end_state)).

Definition is_valid_channel_total_withdraw (channel_total_withdraw : Z) : bool :=
  channel_total_withdraw <=? UINT256_MAX.

Definition is_balance_proof_safe_for_onchain_operations (balance_proof : BalanceProofSignedState) : bool :=
  let total_amount := bps_transferred_amount balance_proof + bps_locked_amount balance_proof in
  total_amount <=? UINT256_MAX.

(** ** Status *)

(** The three-way test [get_status] applies to the settle and to the close
    transaction. *)
Definition transaction_status (t : TransactionExecutionStatus) (finished running : ChannelState)
    : ChannelState :=
  let finished_successfully := bool_decide (tx_result t = Some SUCCESS) in
  let is_running := is_none (tx_finished_block_number t) in
  if finished_successfully then finished else if is_running then running else STATE_UNUSABLE.

Definition get_status (channel_state : NettingChannelState) : ChannelState :=
  match ch_settle_transaction channel_state, ch_close_transaction channel_state with
  | Some t, _ => transaction_status t STATE_SETTLED STATE_SETTLING
  | None, Some t => transaction_status t STATE_CLOSED STATE_CLOSING
  | None, None => STATE_OPENED
  end.

(** ** Usability for new transfers *)

Section Usability.
Context `{Externals}.

Definition is_channel_usable_for_new_transfer (channel_state : NettingChannelState)
    (transfer_amount : Z) (lock_timeout : option Z) : ChannelUsability :=
  let pending_transfers := get_number_of_pending_transfers (ch_our_state channel_state) in
  let distributable := get_distributable (ch_our_state channel_state) (ch_partner_state channel_state) in
  let lock_timeout_valid :=
    match lock_timeout with
    | None => true
    | Some t => (t <=? ch_settle_timeout channel_state) && (ch_reveal_timeout channel_state <? t)
    end in
  let is_valid_settle_timeout :=
    ch_reveal_timeout channel_state * 2 <=? ch_settle_timeout channel_state in
  if negb (bool_decide (get_status channel_state = STATE_OPENED)) then NOT_OPENED
  else if negb is_valid_settle_timeout then INVALID_SETTLE_TIMEOUT
  else if MAXIMUM_PENDING_TRANSFERS <=? pending_transfers then CHANNEL_REACHED_PENDING_LIMIT
  else if distributable <? transfer_amount then CHANNEL_DOESNT_HAVE_ENOUGH_DISTRIBUTABLE
  else if negb (is_valid_amount (ch_our_state channel_state) transfer_amount)
  then CHANNEL_BALANCE_PROOF_WOULD_OVERFLOW
  else if negb lock_timeout_valid then LOCKTIMEOUT_MISMATCH
  else USABLE.

Definition is_channel_usable_for_mediation (channel_state : NettingChannelState)
    (transfer_amount lock_timeout : Z) : bool :=
  bool_decide (is_channel_usable_for_new_transfer channel_state transfer_amount (Some lock_timeout)
               = USABLE).
End Usability.

(** ** Updates of one end *)

Definition _del_unclaimed_lock (secrethash : bytes) (end_state : NettingChannelEndState)
    : NettingChannelEndState :=
  let end_state :=
    set_es_secrethashes_to_lockedlocks
      (delete secrethash (es_secrethashes_to_lockedlocks end_state)) end_state in
  set_es_secrethashes_to_unlockedlocks
    (delete secrethash (es_secrethashes_to_unlockedlocks end_state)) end_state.

Definition _del_lock (secrethash : bytes) (end_state : NettingChannelEndState)
    : Res NettingChannelEndState :=
  assert! is_lock_pending end_state secrethash with "Lock must be pending" in
  let end_state := _del_unclaimed_lock secrethash end_state in
  Ok (set_es_secrethashes_to_onchain_unlockedlocks
        (delete secrethash (es_secrethashes_to_onchain_unlockedlocks end_state)) end_state).

(** Marks a transaction as successfully mined at [block_number], unless it
    already has a (non-zero) block number. *)
Definition mark_success (block_number : Z) (t : option TransactionExecutionStatus)
    : option TransactionExecutionStatus :=
  match t with
  | None => Some {| tx_started_block_number := None;
                    tx_finished_block_number := Some block_number; tx_result := Some SUCCESS |}
  | Some t =>
      if negb (truthy_int (tx_finished_block_number t))
      then Some (set_tx_result (Some SUCCESS) (set_tx_finished_block_number (Some block_number) t))
      else Some t
  end.

Definition set_closed (block_number : Z) (channel_state : NettingChannelState) : NettingChannelState :=
  set_ch_close_transaction (mark_success block_number (ch_close_transaction channel_state)) channel_state.

Definition set_settled (block_number : Z) (channel_state : NettingChannelState) : NettingChannelState :=
  set_ch_settle_transaction (mark_success block_number (ch_settle_transaction channel_state)) channel_state.

Definition set_coop_settled (block_number : Z) (channel_end_state : NettingChannelEndState)
    : Res NettingChannelEndState :=
  match es_initiated_coop_settle channel_end_state with
  | None => Raise (AssertionError "This should only be called on a state where a CoopSettle is initiated")
  | Some coop_settle =>
      Ok (set_es_initiated_coop_settle
            (Some (set_cs_transaction (mark_success block_number (cs_transaction coop_settle)) coop_settle))
            channel_end_state)
  end.

Definition update_contract_balance (contract_balance : Z) (end_state : NettingChannelEndState)
    : NettingChannelEndState :=
  if es_contract_balance end_state <? contract_balance
  then set_es_contract_balance contract_balance end_state
  else end_state.

(** ** Pending locks *)

Definition compute_locks_with {L} `{LockType L} (locks : PendingLocksState) (lock : L)
    : option PendingLocksState :=
  if bool_decide (lt_encoded lock ∈ locks) then None else Some (locks ++ [lt_encoded lock]).

Definition compute_locks_without (locks : PendingLocksState) (lock_encoded : bytes)
    : option PendingLocksState :=
  if bool_decide (lock_encoded ∈ locks) then Some (list_remove_first lock_encoded locks) else None.

Definition compute_locksroot `{Externals} (locks : PendingLocksState) : bytes := keccak (concat locks).

(** ** Secrets *)

Definition register_secret_endstate (secret secrethash : bytes) (end_state : NettingChannelEndState)
    : NettingChannelEndState :=
  match es_secrethashes_to_lockedlocks end_state !! secrethash with
  | None => end_state
  | Some pending_lock =>
      let end_state :=
        set_es_secrethashes_to_lockedlocks
          (delete secrethash (es_secrethashes_to_lockedlocks end_state)) end_state in
      set_es_secrethashes_to_unlockedlocks
        (<[secrethash := UnlockPartialProofState_init pending_lock secret]>
           (es_secrethashes_to_unlockedlocks end_state)) end_state
  end.

(** A lock whose secret is in both maps is taken from the unlocked one. *)
Definition register_onchain_secret_endstate (secret secrethash : bytes)
    (secret_reveal_block_number : Z) (delete_lock : bool) (end_state : NettingChannelEndState)
    : Res NettingChannelEndState :=
  let pending_lock :=
    match es_secrethashes_to_unlockedlocks end_state !! secrethash with
    | Some p => Some (upp_lock p)
    | None => es_secrethashes_to_lockedlocks end_state !! secrethash
    end in
  match pending_lock with
  | None => Ok end_state
  | Some pending_lock =>
      if lock_expiration pending_lock <? secret_reveal_block_number then Ok end_state
      else
        let* end_state := if delete_lock then _del_lock secrethash end_state else Ok end_state in
        Ok (set_es_secrethashes_to_onchain_unlockedlocks
              (<[secrethash := UnlockPartialProofState_init pending_lock secret]>
                 (es_secrethashes_to_onchain_unlockedlocks end_state)) end_state)
  end.

Definition register_offchain_secret (secret secrethash : bytes) (channel_state : NettingChannelState)
    : NettingChannelState :=
  upd_partner (register_secret_endstate secret secrethash)
    (upd_our (register_secret_endstate secret secrethash) channel_state).

Definition register_onchain_secret (secret secrethash : bytes) (secret_reveal_block_number : Z)
    (delete_lock : bool) (channel_state : NettingChannelState) : Res NettingChannelState :=
  let* our_state :=
    register_onchain_secret_endstate secret secrethash secret_reveal_block_number delete_lock
      (ch_our_state channel_state) in
  let* partner_state :=
    register_onchain_secret_endstate secret secrethash secret_reveal_block_number delete_lock
      (ch_partner_state channel_state) in
  Ok (set_ch_partner_state partner_state (set_ch_our_state our_state channel_state)).
