(* ===== verification/ChannelValidation.v ===== *)
(** * Validation of messages and actions

    The predicates of [transfer/channel.py] that decide whether a received
    message or a user action is acceptable.  Each returns a [SuccessOrError], or
    for messages that change the pending locks the triple
    [PendingLocksStateOrError].  The signature check is evaluated first, as in
    the code, so an encoding failure raises before any other test. *)

From Stdlib Require Import ZArith Lia Strings.Byte.
From stdpp Require Import base gmap list strings pretty.
From S2P Require Import Prelude Encoding MediationFee State Events ChannelViews.

(** [Tuple[bool, Optional[str], Optional[PendingLocksState]]] *)
Abbreviation PendingLocksStateOrError := (bool * option string * option PendingLocksState)%type.

Definition invalid (msg : string) : PendingLocksStateOrError := (false, Some msg, None).
Definition valid (locks : PendingLocksState) : PendingLocksStateOrError := (true, None, Some locks).

Section Validation.
Context `{Externals}.

(** ** Signatures *)

(** [utils/packing.py]'s [pack_balance_proof] through
    [gatecoin_contracts/utils/proofs.py]. *)
Definition MessageTypeId_BALANCE_PROOF : Z := 1.

Definition pack_balance_proof (nonce : Z) (balance_hash additional_hash : bytes)
    (ci : CanonicalIdentifier) : Res bytes :=
  let token_network := to_bytes_hexstr (to_hex_address (ci_token_network_address ci)) in
  let* chain := encode_single_uint256 (ci_chain_identifier ci) in
  let* msg_type := encode_single_uint256 MessageTypeId_BALANCE_PROOF in
  let* channel := encode_single_uint256 (ci_channel_identifier ci) in
  let* nonce := encode_single_uint256 nonce in
  Ok (token_network ++ chain ++ msg_type ++ channel ++ balance_hash ++ nonce ++ additional_hash).

Definition pack_withdraw (ci : CanonicalIdentifier) (participant : bytes)
    (total_withdraw expiration_block : Z) : Res bytes :=
  pack_withdraw_message (to_hex_address (ci_token_network_address ci)) (ci_chain_identifier ci)
    (ci_channel_identifier ci) (to_hex_address participant) total_withdraw expiration_block.

Definition is_valid_signature (data signature sender_address : bytes) : SuccessOrError :=
  match recover data signature with
  | Raise _ => Error "Signature invalid, could not be recovered."
  | Ok signer_address =>
      if bool_decide (sender_address = signer_address) then Success
      else Error "Signature was valid but the expected address does not match."
  end.

Definition is_valid_balanceproof_signature (balance_proof : BalanceProofSignedState)
    (sender_address : bytes) : Res SuccessOrError :=
  let* balance_hash :=
    hash_balance_data (bps_transferred_amount balance_proof) (bps_locked_amount balance_proof)
      (bps_locksroot balance_proof) in
  let* data_that_was_signed :=
    pack_balance_proof (bps_nonce balance_proof) balance_hash (bps_message_hash balance_proof)
      {| ci_chain_identifier := bps_chain_id balance_proof;
         ci_token_network_address := bps_token_network_address balance_proof;
         ci_channel_identifier := bps_channel_identifier balance_proof |} in
  Ok (is_valid_signature data_that_was_signed (bps_signature balance_proof) sender_address).

(** The request and the confirmation of a withdraw carry the same signed data. *)
Definition is_valid_withdraw (ci : CanonicalIdentifier) (participant : bytes)
    (total_withdraw expiration : Z) (signature sender : bytes) : Res SuccessOrError :=
  let* packed := pack_withdraw ci participant total_withdraw expiration in
  Ok (is_valid_signature packed signature sender).

(** ** Balance proofs *)

Definition is_balance_proof_usable_onchain (received_balance_proof : BalanceProofSignedState)
    (channel_state : NettingChannelState) (sender_state : NettingChannelEndState)
    : Res SuccessOrError :=
  let bp := received_balance_proof in
  let expected_nonce := get_next_nonce sender_state in
  let* is_valid_signature := is_valid_balanceproof_signature bp (es_address sender_state) in
  Ok (
    if negb (bool_decide (get_status channel_state = STATE_OPENED))
    then Error "The channel is already closed."
    else if negb (bps_channel_identifier bp =? ch_identifier channel_state)
    then Error ("channel_identifier does not match. expected: " +:+ pretty (ch_identifier channel_state)
                +:+ " got: " +:+ pretty (bps_channel_identifier bp) +:+ ".")
    else if negb (bool_decide (bps_token_network_address bp = ch_token_network_address channel_state))
    then Error ("token_network_address does not match. expected: "
                +:+ to_checksum_address (ch_token_network_address channel_state)
                +:+ " got: " +:+ to_checksum_address (bps_token_network_address bp) +:+ ".")
    else if negb (bps_chain_id bp =? ch_chain_id channel_state)
    then Error ("chain_id does not match channel's chain_id. expected: "
                +:+ pretty (ch_chain_id channel_state) +:+ " got: " +:+ pretty (bps_chain_id bp) +:+ ".")
    else if negb (is_balance_proof_safe_for_onchain_operations bp)
    then Error ("Balance proof total transferred amount would overflow onchain. max: "
                +:+ pretty UINT256_MAX +:+ " result would be: "
                +:+ pretty (bps_transferred_amount bp + bps_locked_amount bp))
    else if negb (bps_nonce bp =? expected_nonce)
    then Error ("Nonce did not change sequentially, expected: " +:+ pretty expected_nonce
                +:+ " got: " +:+ pretty (bps_nonce bp) +:+ ".")
    else is_valid_signature).

(** ** Locked transfers and refunds *)

Definition valid_lockedtransfer_check (channel_state : NettingChannelState)
    (sender_state receiver_state : NettingChannelEndState) (message_name : string)
    (received_balance_proof : BalanceProofSignedState) (lock : HashTimeLockState)
    : Res PendingLocksStateOrError :=
  let bp := received_balance_proof in
  let '(_, _, current_transferred_amount, current_locked_amount) :=
    get_current_balanceproof sender_state in
  let pending_locks := compute_locks_with (es_pending_locks sender_state) lock in
  let distributable := get_distributable sender_state receiver_state in
  let expected_locked_amount := current_locked_amount + lock_amount lock in
  let* is_valid_balance_proof := is_balance_proof_usable_onchain bp channel_state sender_state in
  Ok (
    if fail is_valid_balance_proof
    then invalid ("Invalid " +:+ message_name +:+ " message. " +:+ as_error_message is_valid_balance_proof)
    else match pending_locks with
    | None => invalid ("Invalid " +:+ message_name +:+ " message. Same lock handled twice.")
    | Some pending_locks =>
        if MAXIMUM_PENDING_TRANSFERS <? Z.of_nat (length pending_locks)
        then invalid ("Invalid " +:+ message_name
                      +:+ " message. Adding the transfer would exceed the allowed limit of "
                      +:+ pretty MAXIMUM_PENDING_TRANSFERS +:+ " pending transfers per channel.")
        else
          let locksroot_with_lock := compute_locksroot pending_locks in
          if negb (bool_decide (bps_locksroot bp = locksroot_with_lock))
          then invalid ("Invalid " +:+ message_name
                        +:+ " message. Balance proof's locksroot didn't match, expected: "
                        +:+ to_hex locksroot_with_lock +:+ " got: " +:+ to_hex (bps_locksroot bp) +:+ ".")
          else if negb (bps_transferred_amount bp =? current_transferred_amount)
          then invalid ("Invalid " +:+ message_name
                        +:+ " message. Balance proof's transferred_amount changed, expected: "
                        +:+ pretty current_transferred_amount +:+ " got: "
                        +:+ pretty (bps_transferred_amount bp) +:+ ".")
          else if negb (bps_locked_amount bp =? expected_locked_amount)
          then invalid ("Invalid " +:+ message_name
                        +:+ " message. Balance proof's locked_amount is invalid, expected: "
                        +:+ pretty expected_locked_amount +:+ " got: "
                        +:+ pretty (bps_locked_amount bp) +:+ ".")
          else if distributable <? lock_amount lock
          then invalid ("Invalid " +:+ message_name
                        +:+ " message. Lock amount larger than the available distributable, lock amount: "
                        +:+ pretty (lock_amount lock) +:+ " maximum distributable: "
                        +:+ pretty distributable)
          else valid pending_locks
    end).

Definition is_valid_lockedtransfer (transfer_state : LockedTransferSignedState)
    (channel_state : NettingChannelState) (sender_state receiver_state : NettingChannelEndState)
    : Res PendingLocksStateOrError :=
  valid_lockedtransfer_check channel_state sender_state receiver_state "LockedTransfer"
    (lts_balance_proof transfer_state) (lts_lock transfer_state).

Definition refund_transfer_matches_transfer (refund_transfer : LockedTransferSignedState)
    (transfer : LockedTransferUnsignedState) : bool :=
  let refund_transfer_sender := bps_sender (lts_balance_proof refund_transfer) in
  if bool_decide (refund_transfer_sender = ltu_target transfer) then false
  else (ltu_payment_identifier transfer =? lts_payment_identifier refund_transfer)
       && (lock_amount (ltu_lock transfer) =? lock_amount (lts_lock refund_transfer))
       && bool_decide (lock_secrethash (ltu_lock transfer) = lock_secrethash (lts_lock refund_transfer))
       && bool_decide (ltu_target transfer = lts_target refund_transfer)
       && (lock_expiration (ltu_lock transfer) =? lock_expiration (lts_lock refund_transfer))
       && bool_decide (ltu_token transfer = lts_token refund_transfer).

Definition is_valid_refund (refund : ReceiveTransferRefund) (channel_state : NettingChannelState)
    (sender_state receiver_state : NettingChannelEndState)
    (received_transfer : LockedTransferUnsignedState) : Res PendingLocksStateOrError :=
  let* (is_valid_locked_transfer, msg, pending_locks) :=
    valid_lockedtransfer_check channel_state sender_state receiver_state "RefundTransfer"
      (lts_balance_proof (rtr_transfer refund)) (lts_lock (rtr_transfer refund)) in
  if negb is_valid_locked_transfer then Ok (false, msg, None)
  else if negb (refund_transfer_matches_transfer (rtr_transfer refund) received_transfer)
  then Ok (invalid "Refund transfer did not match the received transfer")
  else Ok (true, Some ""%string, pending_locks).

(** ** Unlocks and expired locks *)

Definition is_valid_unlock (unlock : ReceiveUnlock) (channel_state : NettingChannelState)
    (sender_state : NettingChannelEndState) : Res PendingLocksStateOrError :=
  let bp := ru_balance_proof unlock in
  match get_lock sender_state (ru_secrethash unlock) with
  | None => Ok (invalid ("Invalid Unlock message. There is no corresponding lock for "
                         +:+ to_hex (ru_secrethash unlock)))
  | Some lock =>
      match compute_locks_without (es_pending_locks sender_state) (lock_encoded lock) with
      | None => Ok (invalid ("Invalid unlock message. The lock is unknown " +:+ to_hex (lock_encoded lock)))
      | Some pending_locks =>
          let locksroot_without_lock := compute_locksroot pending_locks in
          let '(_, _, current_transferred_amount, current_locked_amount) :=
            get_current_balanceproof sender_state in
          let expected_transferred_amount := current_transferred_amount + lock_amount lock in
          let expected_locked_amount := current_locked_amount - lock_amount lock in
          let* is_valid_balance_proof := is_balance_proof_usable_onchain bp channel_state sender_state in
          Ok (
            if fail is_valid_balance_proof
            then invalid ("Invalid Unlock message. " +:+ as_error_message is_valid_balance_proof)
            else if negb (bool_decide (bps_locksroot bp = locksroot_without_lock))
            then invalid ("Invalid Unlock message. Balance proof's locksroot didn't match, expected: "
                          +:+ to_hex locksroot_without_lock +:+ " got: "
                          +:+ to_hex (bps_locksroot bp) +:+ ".")
            else if negb (bps_transferred_amount bp =? expected_transferred_amount)
            then invalid ("Invalid Unlock message. Balance proof's wrong transferred_amount, expected: "
                          +:+ pretty expected_transferred_amount +:+ " got: "
                          +:+ pretty (bps_transferred_amount bp) +:+ ".")
            else if negb (bps_locked_amount bp =? expected_locked_amount)
            then invalid ("Invalid Unlock message. Balance proof's wrong locked_amount, expected: "
                          +:+ pretty expected_locked_amount +:+ " got: "
                          +:+ pretty (bps_locked_amount bp) +:+ ".")
            else valid pending_locks)
      end
  end.

(** The lock is looked up at the partner's end whatever the sender. *)
Definition is_valid_lock_expired (state_change : ReceiveLockExpired)
    (channel_state : NettingChannelState) (sender_state receiver_state : NettingChannelEndState)
    (block_number : Z) : Res PendingLocksStateOrError :=
  let secrethash := rle_secrethash state_change in
  let bp := rle_balance_proof state_change in
  let partner_state := ch_partner_state channel_state in
  let lock :=
    match es_secrethashes_to_lockedlocks partner_state !! secrethash with
    | Some lock => Some lock
    | None => upp_lock <$> es_secrethashes_to_unlockedlocks partner_state !! secrethash
    end in
  let secret_registered_on_chain :=
    has_key secrethash (es_secrethashes_to_onchain_unlockedlocks partner_state) in
  let '(_, _, current_transferred_amount, current_locked_amount) :=
    get_current_balanceproof sender_state in
  let* is_valid_balance_proof := is_balance_proof_usable_onchain bp channel_state sender_state in
  Ok (
    if secret_registered_on_chain
    then invalid "Invalid LockExpired message. Lock was unlocked on-chain."
    else match lock with
    | None => invalid ("Invalid LockExpired message. Lock with secrethash "
                       +:+ to_hex secrethash +:+ " is not known.")
    | Some lock =>
        let expected_locked_amount := current_locked_amount - lock_amount lock in
        if fail is_valid_balance_proof
        then invalid ("Invalid LockExpired message. " +:+ as_error_message is_valid_balance_proof)
        else match compute_locks_without (es_pending_locks sender_state) (lock_encoded lock) with
        | None => invalid "Invalid LockExpired message. Same lock handled twice."
        | Some pending_locks =>
            let locksroot_without_lock := compute_locksroot pending_locks in
            let check_lock_expired :=
              is_lock_expired receiver_state lock block_number
                (get_receiver_expiration_threshold (lock_expiration lock)) in
            if fail check_lock_expired
            then invalid ("Invalid LockExpired message. " +:+ as_error_message check_lock_expired)
            else if negb (bool_decide (bps_locksroot bp = locksroot_without_lock))
            then invalid ("Invalid LockExpired message. Balance proof's locksroot didn't match, expected: "
                          +:+ to_hex locksroot_without_lock +:+ " got: "
                          +:+ to_hex (bps_locksroot bp) +:+ ".")
            else if negb (bps_transferred_amount bp =? current_transferred_amount)
            then invalid ("Invalid LockExpired message. Balance proof's transferred_amount changed, expected: "
                          +:+ pretty current_transferred_amount +:+ " got: "
                          +:+ pretty (bps_transferred_amount bp) +:+ ".")
            else if negb (bps_locked_amount bp =? expected_locked_amount)
            then invalid ("Invalid LockExpired message. Balance proof's locked_amount is invalid, expected: "
                          +:+ pretty expected_locked_amount +:+ " got: "
                          +:+ pretty (bps_locked_amount bp) +:+ ".")
            else valid pending_locks
        end
    end).

(** ** Withdraws *)

Definition is_valid_total_withdraw (channel_state : NettingChannelState)
    (new_total_withdraw : Z) (allow_zero : bool) : SuccessOrError :=
  let balance := get_balance (ch_our_state channel_state) (ch_partner_state channel_state) in
  let withdraw_overflow :=
    negb (is_valid_channel_total_withdraw (new_total_withdraw + partner_total_withdraw channel_state)) in
  let withdraw_amount := new_total_withdraw - our_total_withdraw channel_state in
  if negb (bool_decide (get_status channel_state = STATE_OPENED))
  then Error "Invalid withdraw, the channel is not opened"
  else if withdraw_amount <? 0
  then Error ("Total withdraw " +:+ pretty new_total_withdraw +:+ " decreased")
  else if negb allow_zero && (withdraw_amount =? 0)
  then Error ("Total withdraw " +:+ pretty new_total_withdraw +:+ " did not increase")
  else if balance <? withdraw_amount
  then Error ("Insufficient balance: " +:+ pretty balance +:+ ". Requested "
              +:+ pretty withdraw_amount +:+ " for withdraw")
  else if withdraw_overflow
  then Error ("The new total_withdraw " +:+ pretty new_total_withdraw +:+ " will cause an overflow")
  else Success.

Definition is_valid_action_coopsettle (channel_state : NettingChannelState)
    (coop_settle : ActionChannelCoopSettle) (new_total_withdraw : Z) : SuccessOrError :=
  let result := is_valid_total_withdraw channel_state new_total_withdraw true in
  if fail result then result
  else if 0 <? get_number_of_pending_transfers (ch_our_state channel_state)
  then Error "Coop-Settle not allowed: We still have pending locks"
  else if 0 <? get_number_of_pending_transfers (ch_partner_state channel_state)
  then Error "Coop-Settle not allowed: Partner still has pending locks"
  else if 0 <? offchain_total_withdraw (ch_our_state channel_state)
  then Error "Coop-Settle not allowed: We still have pending withdraws"
  else if 0 <? offchain_total_withdraw (ch_partner_state channel_state)
  then Error "Coop-Settle not allowed: Partner still has pending withdraws"
  else Success.

Definition is_valid_withdraw_request (channel_state : NettingChannelState)
    (withdraw_request : ReceiveWithdrawRequest) : Res SuccessOrError :=
  let r := withdraw_request in
  let partner_state := ch_partner_state channel_state in
  let expected_nonce := get_next_nonce partner_state in
  let balance := get_balance partner_state (ch_our_state channel_state) in
  let* is_valid :=
    is_valid_withdraw (rwr_canonical_identifier r) (rwr_participant r) (rwr_total_withdraw r)
      (rwr_expiration r) (rwr_signature r) (rwr_sender r) in
  let withdraw_amount := rwr_total_withdraw r - partner_total_withdraw channel_state in
  let withdraw_overflow :=
    negb (is_valid_channel_total_withdraw (rwr_total_withdraw r + our_total_withdraw channel_state)) in
  Ok (
    if negb (bool_decide (ch_canonical_identifier channel_state = rwr_canonical_identifier r))
    then Error "Invalid canonical identifier provided in withdraw request"
    else if negb (bool_decide (rwr_participant r = es_address partner_state))
    then Error "Invalid participant, it must be the partner address"
    else if negb (bool_decide (rwr_sender r = es_address partner_state))
    then Error "Invalid sender, withdraw request must be sent by the partner."
    else if withdraw_amount <? 0
    then Error ("Total withdraw " +:+ pretty (rwr_total_withdraw r) +:+ " decreased")
    else if balance <? withdraw_amount
    then Error ("Insufficient balance: " +:+ pretty balance +:+ ". Requested "
                +:+ pretty withdraw_amount +:+ " for withdraw")
    else if negb (rwr_nonce r =? expected_nonce)
    then Error ("Nonce did not change sequentially, expected: " +:+ pretty expected_nonce
                +:+ " got: " +:+ pretty (rwr_nonce r) +:+ ".")
    else if withdraw_overflow
    then Error ("The new total_withdraw " +:+ pretty (rwr_total_withdraw r) +:+ " will cause an overflow")
    else is_valid).

(** The expiration of the pending, or else of the first matching expired,
    withdraw of our end. *)
Definition find_withdraw_expiration (our_state : NettingChannelEndState) (total : Z) : option Z :=
  match od_get total (es_withdraws_pending our_state) with
  | Some w => Some (pw_expiration w)
  | None =>
      ew_expiration <$>
        head (filter (fun c => ew_total_withdraw c = total) (es_withdraws_expired our_state))
  end.

Definition is_valid_withdraw_confirmation (channel_state : NettingChannelState)
    (received_withdraw : ReceiveWithdrawConfirmation) : Res SuccessOrError :=
  let r := received_withdraw in
  let our_state := ch_our_state channel_state in
  let partner_state := ch_partner_state channel_state in
  let expected_nonce := get_next_nonce partner_state in
  match find_withdraw_expiration our_state (rwc_total_withdraw r) with
  | None => Ok (Error ("Received withdraw confirmation " +:+ pretty (rwc_total_withdraw r)
                       +:+ " was not found in withdraw states"))
  | Some expiration =>
      let withdraw_overflow :=
        negb (is_valid_channel_total_withdraw
                (rwc_total_withdraw r + partner_total_withdraw channel_state)) in
      if negb (bool_decide (ch_canonical_identifier channel_state = rwc_canonical_identifier r))
      then Ok (Error "Invalid canonical identifier provided in withdraw request")
      else if negb (rwc_total_withdraw r =? our_total_withdraw channel_state)
      then Ok (Error ("Total withdraw confirmation " +:+ pretty (rwc_total_withdraw r)
                      +:+ " does not match our total withdraw "
                      +:+ pretty (our_total_withdraw channel_state)))
      else if negb (rwc_nonce r =? expected_nonce)
      then Ok (Error ("Nonce did not change sequentially, expected: " +:+ pretty expected_nonce
                      +:+ " got: " +:+ pretty (rwc_nonce r) +:+ "."))
      else if negb (rwc_expiration r =? expiration)
      then Ok (Error ("Invalid expiration " +:+ pretty (rwc_expiration r)
                      +:+ ", withdraw confirmation must use the same confirmation as the request, "
                      +:+ "otherwise the signatures will not match on-chain."))
      else if negb (bool_decide (rwc_participant r = es_address our_state))
      then Ok (Error ("Invalid participant " +:+ to_checksum_address (rwc_participant r)
                      +:+ ", it must be the same as the sender address "
                      +:+ to_checksum_address (es_address our_state)))
      else if negb (bool_decide (rwc_sender r = es_address partner_state))
      then Ok (Error "Invalid sender, withdraw confirmation must be sent by the partner.")
      else if withdraw_overflow
      then Ok (Error ("The new total_withdraw " +:+ pretty (rwc_total_withdraw r)
                      +:+ " will cause an overflow"))
      else is_valid_withdraw (rwc_canonical_identifier r) (rwc_participant r)
             (rwc_total_withdraw r) (rwc_expiration r) (rwc_signature r) (rwc_sender r)
  end.

Definition is_valid_withdraw_expired (channel_state : NettingChannelState)
    (state_change : ReceiveWithdrawExpired) (withdraw_state : PendingWithdrawState)
    (block_number : Z) : SuccessOrError :=
  let r := state_change in
  let expected_nonce := get_next_nonce (ch_partner_state channel_state) in
  let withdraw_expired :=
    is_withdraw_expired block_number (get_receiver_expiration_threshold (pw_expiration withdraw_state)) in
  if negb withdraw_expired
  then Error ("WithdrawExpired for withdraw that has not yet expired "
              +:+ pretty (rwe_total_withdraw r) +:+ ".")
  else if negb (bool_decide (ch_canonical_identifier channel_state = rwe_canonical_identifier r))
  then Error "Invalid canonical identifier provided in WithdrawExpired"
  else if negb (bool_decide (rwe_sender r = es_address (ch_partner_state channel_state)))
  then Error "Expired withdraw not from partner."
  else if negb (rwe_total_withdraw r =? pw_total_withdraw withdraw_state)
  then Error ("WithdrawExpired and local withdraw amounts do not match. Received "
              +:+ pretty (rwe_total_withdraw r) +:+ ", local amount "
              +:+ pretty (pw_total_withdraw withdraw_state))
  else if negb (rwe_nonce r =? expected_nonce)
  then Error ("Nonce did not change sequentially, expected: " +:+ pretty expected_nonce
              +:+ " got: " +:+ pretty (rwe_nonce r) +:+ ".")
  else Success.
End Validation.
