(* ===== verification/ChannelSend.v ===== *)
(** * Outgoing messages and transactions of a channel

    The functions of [transfer/channel.py] that build messages or on-chain
    transactions and update our end of the channel accordingly.  Mutation is
    explicit: each returns the new channel; the random generator is threaded. *)

From Stdlib Require Import ZArith Lia Strings.Byte.
From stdpp Require Import base gmap list strings pretty.
From S2P Require Import Prelude Encoding MediationFee State Events ChannelViews ChannelValidation.

(** [del d[k]] *)
Definition del_item {K V} `{EqDecision K} (k : K) (d : list (K * V)) : Res (list (K * V)) :=
  match od_get k d with
  | Some _ => Ok (od_del k d)
  | None => Raise KeyError
  end.

Section Send.
Context `{Externals} {Random : Type} `{RandomGen Random}.

(** ** Locked transfers *)

(** The event's base fields, its transfer, and the new pending locks. *)
Definition create_sendlockedtransfer (channel_state : NettingChannelState) (initiator target : bytes)
    (amount message_identifier payment_identifier expiration : Z) (secret : option bytes)
    (secrethash : bytes) (route_states : list RouteState)
    (recipient_metadata : option AddressMetadata) (previous_metadata : option Json)
    : Res (SendMessageEvent * LockedTransferUnsignedState * PendingLocksState) :=
  let our_state := ch_our_state channel_state in
  let partner_state := ch_partner_state channel_state in
  assert! amount <=? get_distributable our_state partner_state
    with "caller must make sure there is enough balance" in
  assert! bool_decide (get_status channel_state = STATE_OPENED)
    with "caller must make sure the channel is open" in
  let* lock := HashTimeLockState_init amount expiration secrethash in
  match compute_locks_with (es_pending_locks our_state) lock with
  | None => Raise (AssertionError "lock is already registered")
  | Some pending_locks =>
      let locksroot := compute_locksroot pending_locks in
      let transferred_amount := transferred_amount our_state in
      assert! transferred_amount + amount <=? UINT256_MAX
        with "caller must make sure the result wont overflow" in
      let token := ch_token_address channel_state in
      let locked_amount := get_amount_locked our_state + amount in
      let nonce := get_next_nonce our_state in
      let* balance_proof :=
        BalanceProofUnsignedState_init nonce transferred_amount locked_amount locksroot
          (ch_canonical_identifier channel_state) in
      let* locked_transfer :=
        LockedTransferUnsignedState_init payment_identifier token lock initiator target balance_proof
          route_states previous_metadata secret in
      let recipient := es_address partner_state in
      let recipient_metadata :=
        match recipient_metadata with
        | Some m => Some m
        | None => get_address_metadata recipient route_states
        end in
      let lockedtransfer :=
        {| sm_recipient := recipient; sm_recipient_metadata := recipient_metadata;
           sm_canonical_identifier := ch_canonical_identifier channel_state;
           sm_message_identifier := message_identifier |} in
      Ok (lockedtransfer, locked_transfer, pending_locks)
  end.

Definition send_lockedtransfer (channel_state : NettingChannelState) (initiator target : bytes)
    (amount message_identifier payment_identifier expiration : Z) (secret : option bytes)
    (secrethash : bytes) (route_states : list RouteState)
    (recipient_metadata : option AddressMetadata) (previous_metadata : option Json)
    : Res (NettingChannelState * Event) :=
  let* (msg, transfer, pending_locks) :=
    create_sendlockedtransfer channel_state initiator target amount message_identifier
      payment_identifier expiration secret secrethash route_states recipient_metadata
      previous_metadata in
  let lock := ltu_lock transfer in
  let channel_state :=
    upd_our (fun our_state =>
      let our_state := set_es_balance_proof (Some (BPUnsigned (ltu_balance_proof transfer))) our_state in
      let our_state := set_es_nonce (bpu_nonce (ltu_balance_proof transfer)) our_state in
      let our_state := set_es_pending_locks pending_locks our_state in
      set_es_secrethashes_to_lockedlocks
        (<[lock_secrethash lock := lock]> (es_secrethashes_to_lockedlocks our_state)) our_state)
      channel_state in
  Ok (channel_state, SendLockedTransfer msg transfer).

(** ** Unlocks *)

(** The nonce of our end is advanced here, the rest by [send_unlock]. *)
Definition create_unlock (channel_state : NettingChannelState)
    (message_identifier payment_identifier : Z) (secret : bytes) (lock : HashTimeLockState)
    (block_number : Z) (recipient_metadata : option AddressMetadata)
    : Res (NettingChannelState * Event * BalanceProofUnsignedState * PendingLocksState) :=
  let our_state := ch_our_state channel_state in
  assert! is_lock_pending our_state (lock_secrethash lock)
    with "caller must make sure the lock is known" in
  assert! bool_decide (get_status channel_state = STATE_OPENED)
    with "caller must make sure the channel is open" in
  let expired := is_lock_expired our_state lock block_number (lock_expiration lock) in
  assert! negb (ok expired) with "caller must make sure the lock is not expired" in
  match es_balance_proof our_state with
  | None => Raise (AssertionError "the lock is pending, it must be in the pending locks")
  | Some our_balance_proof =>
      let transferred_amount := lock_amount lock + bp_transferred_amount our_balance_proof in
      match compute_locks_without (es_pending_locks our_state) (lock_encoded lock) with
      | None => Raise (AssertionError "the lock is pending, it must be in the pending locks")
      | Some pending_locks =>
          let locksroot := compute_locksroot pending_locks in
          let token_address := ch_token_address channel_state in
          let recipient := es_address (ch_partner_state channel_state) in
          let locked_amount := get_amount_locked our_state - lock_amount lock in
          let nonce := get_next_nonce our_state in
          let channel_state := upd_our (set_es_nonce nonce) channel_state in
          let* balance_proof :=
            BalanceProofUnsignedState_init nonce transferred_amount locked_amount locksroot
              (ch_canonical_identifier channel_state) in
          let unlock_lock :=
            SendUnlock_init
              {| sm_recipient := recipient; sm_recipient_metadata := recipient_metadata;
                 sm_canonical_identifier := ch_canonical_identifier channel_state;
                 sm_message_identifier := message_identifier |}
              payment_identifier token_address balance_proof secret in
          Ok (channel_state, unlock_lock, balance_proof, pending_locks)
      end
  end.

Definition send_unlock (channel_state : NettingChannelState)
    (message_identifier payment_identifier : Z) (secret secrethash : bytes) (block_number : Z)
    (recipient_metadata : option AddressMetadata) : Res (NettingChannelState * Event) :=
  match get_lock (ch_our_state channel_state) secrethash with
  | None => Raise (AssertionError "caller must ensure the lock exists")
  | Some lock =>
      let* (channel_state, unlock, balance_proof, pending_locks) :=
        create_unlock channel_state message_identifier payment_identifier secret lock block_number
          recipient_metadata in
      let our_state := ch_our_state channel_state in
      let our_state := set_es_balance_proof (Some (BPUnsigned balance_proof)) our_state in
      let our_state := set_es_pending_locks pending_locks our_state in
      let* our_state := _del_lock (lock_secrethash lock) our_state in
      Ok (set_ch_our_state our_state channel_state, unlock)
  end.

(** ** Expired locks *)

Definition create_sendexpiredlock {L} `{LockType L} (sender_end_state : NettingChannelEndState)
    (locked_lock : L) (prng : Random) (chain_id : Z) (token_network_address : bytes)
    (channel_identifier : Z) (recipient : bytes) (recipient_metadata : option AddressMetadata)
    : Res (option (Event * BalanceProofUnsignedState * PendingLocksState) * Random) :=
  let locked_amount := get_amount_locked sender_end_state in
  let updated_locked_amount := locked_amount - lt_amount locked_lock in
  match es_balance_proof sender_end_state with
  | None => Raise (AssertionError "there should be a balance proof because a lock is expiring")
  | Some balance_proof =>
      let transferred_amount := bp_transferred_amount balance_proof in
      match compute_locks_without (es_pending_locks sender_end_state) (lt_encoded locked_lock) with
      | None => Ok (None, prng)
      | Some pending_locks =>
          let nonce := get_next_nonce sender_end_state in
          let locksroot := compute_locksroot pending_locks in
          let* balance_proof :=
            BalanceProofUnsignedState_init nonce transferred_amount updated_locked_amount locksroot
              {| ci_chain_identifier := chain_id;
                 ci_token_network_address := token_network_address;
                 ci_channel_identifier := channel_identifier |} in
          let '(message_identifier, prng) := message_identifier_from_prng prng in
          let send_lock_expired :=
            SendLockExpired
              {| sm_recipient := recipient; sm_recipient_metadata := recipient_metadata;
                 sm_canonical_identifier := bpu_canonical_identifier balance_proof;
                 sm_message_identifier := message_identifier |}
              balance_proof (lt_secrethash locked_lock) in
          Ok (Some (send_lock_expired, balance_proof, pending_locks), prng)
      end
  end.

Definition send_lock_expired {L} `{LockType L} (channel_state : NettingChannelState)
    (locked_lock : L) (prng : Random) (recipient_metadata : option AddressMetadata)
    : Res (NettingChannelState * list Event * Random) :=
  assert! bool_decide (get_status channel_state = STATE_OPENED)
    with "caller must make sure the channel is open" in
  let* (created, prng) :=
    create_sendexpiredlock (ch_our_state channel_state) locked_lock prng (ch_chain_id channel_state)
      (ch_token_network_address channel_state) (ch_identifier channel_state)
      (es_address (ch_partner_state channel_state)) recipient_metadata in
  match created with
  | Some (send_lock_expired, balance_proof, pending_locks) =>
      let channel_state :=
        upd_our (fun our_state =>
          let our_state := set_es_pending_locks pending_locks our_state in
          let our_state := set_es_balance_proof (Some (BPUnsigned balance_proof)) our_state in
          let our_state := set_es_nonce (bpu_nonce balance_proof) our_state in
          _del_unclaimed_lock (lt_secrethash locked_lock) our_state) channel_state in
      Ok (channel_state, [send_lock_expired], prng)
  | None => Ok (channel_state, [], prng)
  end.

(** ** Closing *)

Definition events_for_close (channel_state : NettingChannelState) (block_number : Z)
    (block_hash : bytes) : Res (NettingChannelState * list Event) :=
  if bool_decide (get_status channel_state ∈ CHANNEL_STATES_PRIOR_TO_CLOSED) then
    let channel_state :=
      set_ch_close_transaction
        (Some {| tx_started_block_number := Some block_number; tx_finished_block_number := None;
                 tx_result := None |}) channel_state in
    let* balance_proof :=
      match es_balance_proof (ch_partner_state channel_state) with
      | None => Ok None
      | Some (BPSigned bp) => Ok (Some bp)
      | Some (BPUnsigned _) => Raise (AssertionError "BP is not signed")
      end in
    Ok (channel_state,
        [ContractSendChannelClose block_hash (ch_canonical_identifier channel_state) balance_proof])
  else Ok (channel_state, []).

(** ** Withdraws *)

Definition send_withdraw_request (channel_state : NettingChannelState) (total_withdraw expiration : Z)
    (prng : Random) (recipient_metadata : option AddressMetadata) (coop_settle : bool)
    : NettingChannelState * list Event * Random :=
  if negb (bool_decide (get_status channel_state ∈ CHANNEL_STATES_PRIOR_TO_CLOSED))
  then (channel_state, [], prng)
  else
    let nonce := get_next_nonce (ch_our_state channel_state) in
    let withdraw_state :=
      {| pw_total_withdraw := total_withdraw; pw_expiration := expiration; pw_nonce := nonce;
         pw_recipient_metadata := recipient_metadata |} in
    let channel_state :=
      upd_our (fun our_state =>
        let our_state := set_es_nonce nonce our_state in
        set_es_withdraws_pending
          (od_set (pw_total_withdraw withdraw_state) withdraw_state (es_withdraws_pending our_state))
          our_state) channel_state in
    let '(message_identifier, prng) := message_identifier_from_prng prng in
    let withdraw_event :=
      SendWithdrawRequest
        {| sm_recipient := es_address (ch_partner_state channel_state);
           sm_recipient_metadata := recipient_metadata;
           sm_canonical_identifier :=
             {| ci_chain_identifier := ch_chain_id channel_state;
                ci_token_network_address := ch_token_network_address channel_state;
                ci_channel_identifier := ch_identifier channel_state |};
           sm_message_identifier := message_identifier |}
        (pw_total_withdraw withdraw_state) (es_address (ch_our_state channel_state))
        (pw_expiration withdraw_state) (es_nonce (ch_our_state channel_state)) coop_settle in
    (channel_state, [withdraw_event], prng).

(** One iteration of the loop of [events_for_expired_withdraws]. *)
Definition expire_withdraw (withdraw_state : PendingWithdrawState)
    (our_state : NettingChannelEndState) : Res NettingChannelEndState :=
  let our_state := set_es_nonce (get_next_nonce our_state) our_state in
  let our_state :=
    match es_initiated_coop_settle our_state with
    | Some coop_settle =>
        if (cs_total_withdraw_initiator coop_settle =? pw_total_withdraw withdraw_state)
           && (cs_expiration coop_settle =? pw_expiration withdraw_state)
        then set_es_initiated_coop_settle None our_state else our_state
    | None => our_state
    end in
  let our_state :=
    set_es_withdraws_expired
      (es_withdraws_expired our_state ++
       [{| ew_total_withdraw := pw_total_withdraw withdraw_state;
           ew_expiration := pw_expiration withdraw_state; ew_nonce := pw_nonce withdraw_state;
           ew_recipient_metadata := pw_recipient_metadata withdraw_state |}]) our_state in
  let* pending := del_item (pw_total_withdraw withdraw_state) (es_withdraws_pending our_state) in
  Ok (set_es_withdraws_pending pending our_state).

(** The loop, over the snapshot [list(withdraws_pending.values())]; it stops
    at the first withdraw that has not expired. *)
Fixpoint expired_withdraws_loop (snapshot : list PendingWithdrawState)
    (channel_state : NettingChannelState) (block_number : Z) (prng : Random)
    : Res (NettingChannelState * list Event * Random) :=
  match snapshot with
  | [] => Ok (channel_state, [], prng)
  | withdraw_state :: rest =>
      if negb (is_withdraw_expired block_number
                 (get_sender_expiration_threshold (pw_expiration withdraw_state)))
      then Ok (channel_state, [], prng)
      else
        let* our_state := expire_withdraw withdraw_state (ch_our_state channel_state) in
        let channel_state := set_ch_our_state our_state channel_state in
        let '(message_identifier, prng) := message_identifier_from_prng prng in
        let event :=
          SendWithdrawExpired
            {| sm_recipient := es_address (ch_partner_state channel_state);
               sm_recipient_metadata := pw_recipient_metadata withdraw_state;
               sm_canonical_identifier := ch_canonical_identifier channel_state;
               sm_message_identifier := message_identifier |}
            (pw_total_withdraw withdraw_state) (es_address our_state) (es_nonce our_state)
            (pw_expiration withdraw_state) in
        let* (channel_state, events, prng) :=
          expired_withdraws_loop rest channel_state block_number prng in
        Ok (channel_state, event :: events, prng)
  end.

Definition events_for_expired_withdraws (channel_state : NettingChannelState) (block_number : Z)
    (prng : Random) : Res (NettingChannelState * list Event * Random) :=
  expired_withdraws_loop (es_withdraws_pending (ch_our_state channel_state)).*2 channel_state
    block_number prng.

(** ** Cooperative settlement *)

Definition events_for_coop_settle (channel_state : NettingChannelState)
    (coop_settle_state : CoopSettleState) (block_number : Z) (block_hash : bytes)
    : Res (NettingChannelState * list Event) :=
  match cs_partner_signature_request coop_settle_state,
        cs_partner_signature_confirmation coop_settle_state with
  | Some signature_request, Some signature_confirmation =>
      if block_number - ch_reveal_timeout channel_state <=? cs_expiration coop_settle_state then
        match es_initiated_coop_settle (ch_our_state channel_state) with
        | None =>
            Raise (AssertionError "CoopSettleState should be present in our state if we initiated it")
        | Some initiated =>
            let send_coop_settle :=
              ContractSendChannelCoopSettle block_hash (ch_canonical_identifier channel_state)
                (cs_total_withdraw_initiator coop_settle_state)
                (cs_total_withdraw_partner coop_settle_state)
                (cs_expiration coop_settle_state) signature_confirmation signature_request in
            let transaction :=
              {| tx_started_block_number := Some block_number; tx_finished_block_number := None;
                 tx_result := None |} in
            Ok (upd_our (set_es_initiated_coop_settle (Some (set_cs_transaction (Some transaction) initiated)))
                  channel_state, [send_coop_settle])
        end
      else Ok (channel_state, [])
  | _, _ => Ok (channel_state, [])
  end.

(** ** Secret reveals on-chain ([transfer/secret_registry.py]) *)

Definition events_for_onchain_secretreveal (channel_state : NettingChannelState) (secret : bytes)
    (expiration : Z) (block_hash : bytes) : list Event :=
  if bool_decide (get_status channel_state ∈ CHANNEL_STATES_UP_TO_CLOSED)
  then [ContractSendSecretReveal block_hash expiration secret]
  else [].
End Send.
