(* ===== verification/ChannelHandlers.v ===== *)
(** * Handlers and the transition function of a channel

    The handlers of [transfer/channel.py]: messages that carry a balance proof,
    withdraw messages, user actions and on-chain logs; [sanity_check]; and
    [state_transition], which dispatches on the state change. *)

From Stdlib Require Import ZArith Lia Strings.Byte.
From stdpp Require Import base gmap list strings pretty.
From S2P Require Import Prelude Encoding MediationFee State Events ChannelViews ChannelValidation ChannelSend.

(** [TransitionResult(new_state, events)] of a channel. *)
Abbreviation ChannelTransition := (option NettingChannelState * list Event)%type.

(** [EventsOrError = Tuple[bool, List[Event], Optional[str]]] *)
Abbreviation EventsOrError := (bool * list Event * option string)%type.

(** [if msg:] on an optional string. *)
Definition msg_true (msg : option string) : bool :=
  match msg with Some m => str_true m | None => false end.

(** [reason=msg] after [assert msg]. *)
Definition msg_get (msg : option string) : string := default ""%string msg.

Section Handlers.
Context `{Externals} {Random : Type} `{RandomGen Random}.

(** A [SendProcessed] for the unordered queue. *)
Definition processed (recipient : bytes) (recipient_metadata : option AddressMetadata)
    (message_identifier : Z) : Event :=
  SendProcessed
    {| sm_recipient := recipient; sm_recipient_metadata := recipient_metadata;
       sm_canonical_identifier := CANONICAL_IDENTIFIER_UNORDERED_QUEUE;
       sm_message_identifier := message_identifier |}.

(** ** Messages with a balance proof *)

(** What every accepted balance proof does to the partner's end. *)
Definition accept_balance_proof (bp : BalanceProofSignedState) (pending_locks : PendingLocksState)
    (partner_state : NettingChannelEndState) : NettingChannelEndState :=
  set_es_pending_locks pending_locks
    (set_es_nonce (bps_nonce bp) (set_es_balance_proof (Some (BPSigned bp)) partner_state)).

Definition add_locked_lock (lock : HashTimeLockState) (end_state : NettingChannelEndState)
    : NettingChannelEndState :=
  set_es_secrethashes_to_lockedlocks
    (<[lock_secrethash lock := lock]> (es_secrethashes_to_lockedlocks end_state)) end_state.

Definition handle_refundtransfer (received_transfer : LockedTransferUnsignedState)
    (channel_state : NettingChannelState) (refund : ReceiveTransferRefund)
    : Res (NettingChannelState * EventsOrError) :=
  let* (is_valid, msg, pending_locks) :=
    is_valid_refund refund channel_state (ch_partner_state channel_state)
      (ch_our_state channel_state) received_transfer in
  if is_valid : bool then
    match pending_locks with
    | None => Raise (AssertionError "is_valid_refund should return pending locks if valid")
    | Some pending_locks =>
        let bp := lts_balance_proof (rtr_transfer refund) in
        let channel_state := upd_partner (accept_balance_proof bp pending_locks) channel_state in
        let channel_state := upd_partner (add_locked_lock (lts_lock (rtr_transfer refund))) channel_state in
        let recipient_metadata :=
          get_address_metadata (es_address (ch_partner_state channel_state))
            (ltu_route_states received_transfer) in
        Ok (channel_state,
            (true, [processed (bps_sender bp) recipient_metadata
                      (lts_message_identifier (rtr_transfer refund))], msg))
    end
  else
    assert! msg_true msg with "is_valid_refund should return error msg if not valid" in
    Ok (channel_state,
        (false, [EventInvalidReceivedTransferRefund (ltu_payment_identifier received_transfer)
                   (msg_get msg)], msg)).

Definition handle_receive_lock_expired (channel_state : NettingChannelState)
    (state_change : ReceiveLockExpired) (block_number : Z)
    (recipient_metadata : option AddressMetadata) : Res ChannelTransition :=
  let* (is_valid, msg, pending_locks) :=
    is_valid_lock_expired state_change channel_state (ch_partner_state channel_state)
      (ch_our_state channel_state) block_number in
  if is_valid : bool then
    match pending_locks with
    | None => Raise (AssertionError "is_valid_lock_expired should return pending locks if valid")
    | Some pending_locks =>
        let bp := rle_balance_proof state_change in
        let channel_state := upd_partner (accept_balance_proof bp pending_locks) channel_state in
        let channel_state := upd_partner (_del_unclaimed_lock (rle_secrethash state_change)) channel_state in
        Ok (Some channel_state,
            [processed (bps_sender bp) recipient_metadata (rle_message_identifier state_change)])
    end
  else
    assert! msg_true msg with "is_valid_lock_expired should return error msg if not valid" in
    Ok (Some channel_state,
        [EventInvalidReceivedLockExpired (rle_secrethash state_change) (msg_get msg)]).

Definition handle_receive_lockedtransfer (channel_state : NettingChannelState)
    (mediated_transfer : LockedTransferSignedState) (recipient_metadata : option AddressMetadata)
    : Res (NettingChannelState * EventsOrError) :=
  let* (is_valid, msg, pending_locks) :=
    is_valid_lockedtransfer mediated_transfer channel_state (ch_partner_state channel_state)
      (ch_our_state channel_state) in
  if is_valid : bool then
    match pending_locks with
    | None => Raise (AssertionError "is_valid_lock_expired should return pending locks if valid")
    | Some pending_locks =>
        let bp := lts_balance_proof mediated_transfer in
        let channel_state := upd_partner (accept_balance_proof bp pending_locks) channel_state in
        let channel_state := upd_partner (add_locked_lock (lts_lock mediated_transfer)) channel_state in
        Ok (channel_state,
            (true, [processed (bps_sender bp) recipient_metadata
                      (lts_message_identifier mediated_transfer)], msg))
    end
  else
    assert! msg_true msg with "is_valid_lock_expired should return error msg if not valid" in
    Ok (channel_state,
        (false, [EventInvalidReceivedLockedTransfer (lts_payment_identifier mediated_transfer)
                   (msg_get msg)], msg)).

Definition handle_unlock (channel_state : NettingChannelState) (unlock : ReceiveUnlock)
    (recipient_metadata : option AddressMetadata) : Res (NettingChannelState * EventsOrError) :=
  let* (is_valid, msg, unlocked_pending_locks) :=
    is_valid_unlock unlock channel_state (ch_partner_state channel_state) in
  if is_valid : bool then
    match unlocked_pending_locks with
    | None => Raise (AssertionError "is_valid_unlock should return pending locks if valid")
    | Some unlocked_pending_locks =>
        let bp := ru_balance_proof unlock in
        let channel_state := upd_partner (accept_balance_proof bp unlocked_pending_locks) channel_state in
        let* partner_state := _del_lock (ru_secrethash unlock) (ch_partner_state channel_state) in
        Ok (set_ch_partner_state partner_state channel_state,
            (true, [processed (bps_sender bp) recipient_metadata (ru_message_identifier unlock)], msg))
    end
  else
    assert! msg_true msg with "is_valid_unlock should return error msg if not valid" in
    Ok (channel_state,
        (false, [EventInvalidReceivedUnlock (ru_secrethash unlock) (msg_get msg)], msg)).

(** ** User actions *)

Definition _handle_action_close (action : ActionChannelClose) (channel_state : NettingChannelState)
    (block_number : Z) (block_hash : bytes) : Res ChannelTransition :=
  assert! ch_identifier channel_state =? ci_channel_identifier (acc_canonical_identifier action)
    with "caller must make sure the ids match" in
  let* (channel_state, events) := events_for_close channel_state block_number block_hash in
  Ok (Some channel_state, events).

Definition _handle_action_coop_settle (action : ActionChannelCoopSettle)
    (channel_state : NettingChannelState) (prng : Random) (block_number : Z)
    : Res (ChannelTransition * Random) :=
  let our_max_total_withdraw :=
    get_max_withdraw_amount (ch_our_state channel_state) (ch_partner_state channel_state) in
  let partner_max_total_withdraw :=
    get_max_withdraw_amount (ch_partner_state channel_state) (ch_our_state channel_state) in
  let valid_coop_settle := is_valid_action_coopsettle channel_state action our_max_total_withdraw in
  if ok valid_coop_settle then
    let expiration := get_safe_initial_expiration block_number (ch_reveal_timeout channel_state) None in
    let coop_settle :=
      {| cs_total_withdraw_initiator := our_max_total_withdraw;
         cs_total_withdraw_partner := partner_max_total_withdraw; cs_expiration := expiration;
         cs_partner_signature_request := None; cs_partner_signature_confirmation := None;
         cs_transaction := None |} in
    let channel_state := upd_our (set_es_initiated_coop_settle (Some coop_settle)) channel_state in
    let '(channel_state, events, prng) :=
      send_withdraw_request channel_state (cs_total_withdraw_initiator coop_settle)
        (cs_expiration coop_settle) prng (accs_recipient_metadata action) true in
    Ok (Some channel_state, events, prng)
  else
    let error_msg := as_error_message valid_coop_settle in
    assert! str_true error_msg
      with "is_valid_action_coopsettle should return error msg if not valid" in
    Ok (Some channel_state, [EventInvalidActionCoopSettle our_max_total_withdraw error_msg], prng).

Definition _handle_action_withdraw (action : ActionChannelWithdraw)
    (channel_state : NettingChannelState) (prng : Random) (block_number : Z)
    : Res (ChannelTransition * Random) :=
  let is_valid_withdraw := is_valid_total_withdraw channel_state (acw_total_withdraw action) false in
  if ok is_valid_withdraw then
    let expiration := get_safe_initial_expiration block_number (ch_reveal_timeout channel_state) None in
    let '(channel_state, events, prng) :=
      send_withdraw_request channel_state (acw_total_withdraw action) expiration prng
        (acw_recipient_metadata action) false in
    Ok (Some channel_state, events, prng)
  else
    let error_msg := as_error_message is_valid_withdraw in
    assert! str_true error_msg with "is_valid_total_withdraw should return error msg if not valid" in
    Ok (Some channel_state, [EventInvalidActionWithdraw (acw_total_withdraw action) error_msg], prng).

Definition _handle_action_set_reveal_timeout (action : ActionChannelSetRevealTimeout)
    (channel_state : NettingChannelState) : ChannelTransition :=
  let is_valid_reveal_timeout :=
    (7 <=? acsrt_reveal_timeout action)
    && (acsrt_reveal_timeout action * 2 <=? ch_settle_timeout channel_state) in
  if is_valid_reveal_timeout
  then (Some (set_ch_reveal_timeout (acsrt_reveal_timeout action) channel_state), [])
  else (Some channel_state,
        [EventInvalidActionSetRevealTimeout (acsrt_reveal_timeout action)
           "Settle timeout should be at least twice as large as reveal timeout"]).

(** ** Withdraw messages *)

(** The inner function [transition_result_invalid]. *)
Definition invalid_withdraw_request (action : ReceiveWithdrawRequest)
    (channel_state : NettingChannelState) (success_or_error : SuccessOrError) : Res ChannelTransition :=
  let error_msg := as_error_message success_or_error in
  assert! str_true error_msg with "is_valid_withdraw_request should return error msg if not valid" in
  Ok (Some channel_state, [EventInvalidReceivedWithdrawRequest (rwr_total_withdraw action) error_msg]).

(** The confirmation every accepted request ends with. *)
Definition confirm_withdraw (action : ReceiveWithdrawRequest) (expiration : Z)
    (channel_state : NettingChannelState) (events : list Event) : ChannelTransition :=
  let channel_state :=
    upd_our (fun our_state => set_es_nonce (get_next_nonce our_state) our_state) channel_state in
  let send_withdraw :=
    SendWithdrawConfirmation
      {| sm_recipient := es_address (ch_partner_state channel_state);
         sm_recipient_metadata := rwr_sender_metadata action;
         sm_canonical_identifier := ch_canonical_identifier channel_state;
         sm_message_identifier := rwr_message_identifier action |}
      (rwr_total_withdraw action) (es_address (ch_partner_state channel_state)) expiration
      (es_nonce (ch_our_state channel_state)) in
  (Some channel_state, events ++ [send_withdraw]).

(** [events.extend(events)] appends a list to itself. *)
Definition _handle_receive_withdraw_request (action : ReceiveWithdrawRequest)
    (channel_state : NettingChannelState) (block_number : Z) (block_hash : bytes) (prng : Random)
    : Res (ChannelTransition * Random) :=
  let reject ch err := let* t := invalid_withdraw_request action ch err in Ok (t, prng) in
  let* is_valid := is_valid_withdraw_request channel_state action in
  if fail is_valid then reject channel_state is_valid
  else
    let withdraw_state :=
      {| pw_total_withdraw := rwr_total_withdraw action; pw_expiration := rwr_expiration action;
         pw_nonce := rwr_nonce action; pw_recipient_metadata := rwr_sender_metadata action |} in
    let channel_state :=
      upd_partner (fun partner_state =>
        let partner_state :=
          set_es_withdraws_pending
            (od_set (pw_total_withdraw withdraw_state) withdraw_state
               (es_withdraws_pending partner_state)) partner_state in
        set_es_nonce (rwr_nonce action) partner_state) channel_state in
    let our_initiated_coop_settle := es_initiated_coop_settle (ch_our_state channel_state) in
    if negb (is_some our_initiated_coop_settle || rwr_coop_settle action)
    then Ok (confirm_withdraw action (pw_expiration withdraw_state) channel_state [], prng)
    else
      let partner_max_total_withdraw :=
        get_max_withdraw_amount (ch_partner_state channel_state) (ch_our_state channel_state) in
      if negb (partner_max_total_withdraw =? rwr_total_withdraw action)
      then reject channel_state
             (Error ("Partner did not withdraw with maximum balance (should="
                     +:+ pretty partner_max_total_withdraw +:+ ")."))
      else if 0 <? get_number_of_pending_transfers (ch_partner_state channel_state)
      then reject channel_state (Error "Partner has pending transfers.")
      else
        match our_initiated_coop_settle with
        | Some coop_settle =>
            if negb (cs_expiration coop_settle =? rwr_expiration action)
            then reject channel_state
                   (Error ("Partner requested withdraw while we initiated a coop-settle: "
                           +:+ "Partner's withdraw has differing expiration."))
            else
              assert! cs_total_withdraw_partner coop_settle =? rwr_total_withdraw action
                with "The expected total withdraw of the partner doesn't match the withdraw-request" in
              let coop_settle := set_cs_partner_signature_request (Some (rwr_signature action)) coop_settle in
              let channel_state := upd_our (set_es_initiated_coop_settle (Some coop_settle)) channel_state in
              let* (channel_state, coop_settle_events) :=
                events_for_coop_settle channel_state coop_settle block_number block_hash in
              Ok (confirm_withdraw action (pw_expiration withdraw_state) channel_state
                    coop_settle_events, prng)
        | None =>
            let our_max_total_withdraw :=
              get_max_withdraw_amount (ch_our_state channel_state) (ch_partner_state channel_state) in
            if 0 <? get_number_of_pending_transfers (ch_our_state channel_state)
            then reject channel_state
                   (Error "Partner initiated coop-settle, but we have pending transfers.")
            else
              let partner_initiated_coop_settle :=
                {| cs_total_withdraw_initiator := rwr_total_withdraw action;
                   cs_total_withdraw_partner := our_max_total_withdraw;
                   cs_expiration := rwr_expiration action;
                   cs_partner_signature_request := Some (rwr_signature action);
                   cs_partner_signature_confirmation := None; cs_transaction := None |} in
              let channel_state :=
                upd_partner (set_es_initiated_coop_settle (Some partner_initiated_coop_settle))
                  channel_state in
              let '(channel_state, events, prng) :=
                send_withdraw_request channel_state our_max_total_withdraw
                  (cs_expiration partner_initiated_coop_settle) prng (rwr_sender_metadata action) false in
              let events := events ++ events in
              Ok (confirm_withdraw action (pw_expiration withdraw_state) channel_state events, prng)
        end.

Definition _handle_receive_withdraw_confirmation (action : ReceiveWithdrawConfirmation)
    (channel_state : NettingChannelState) (block_number : Z) (block_hash : bytes)
    : Res ChannelTransition :=
  let* is_valid := is_valid_withdraw_confirmation channel_state action in
  let recipient_metadata :=
    w ← od_get (rwc_total_withdraw action) (es_withdraws_pending (ch_our_state channel_state));
    pw_recipient_metadata w in
  if ok is_valid then
    let channel_state := upd_partner (set_es_nonce (rwc_nonce action)) channel_state in
    let events :=
      [processed (es_address (ch_partner_state channel_state)) recipient_metadata
         (rwc_message_identifier action)] in
    let our_initiated_coop_settle := es_initiated_coop_settle (ch_our_state channel_state) in
    let partner_initiated_coop_settle := es_initiated_coop_settle (ch_partner_state channel_state) in
    match our_initiated_coop_settle with
    | Some coop_settle =>
        assert! is_none partner_initiated_coop_settle
          with "Only one party can initiate a coop settle" in
        let coop_settle := set_cs_partner_signature_confirmation (Some (rwc_signature action)) coop_settle in
        let channel_state := upd_our (set_es_initiated_coop_settle (Some coop_settle)) channel_state in
        let* (channel_state, coop_settle_events) :=
          events_for_coop_settle channel_state coop_settle block_number block_hash in
        Ok (Some channel_state, events ++ coop_settle_events)
    | None =>
        if is_none partner_initiated_coop_settle
           && (block_number - ch_reveal_timeout channel_state <=? rwc_expiration action)
        then Ok (Some channel_state,
                 events ++ [ContractSendChannelWithdraw block_hash (rwc_canonical_identifier action)
                              (rwc_total_withdraw action) (rwc_expiration action) (rwc_signature action)])
        else Ok (Some channel_state, events)
    end
  else
    let error_msg := as_error_message is_valid in
    assert! str_true error_msg
      with "is_valid_withdraw_confirmation should return error msg if not valid" in
    Ok (Some channel_state, [EventInvalidReceivedWithdraw (rwc_total_withdraw action) error_msg]).

Definition _handle_receive_withdraw_expired (action : ReceiveWithdrawExpired)
    (channel_state : NettingChannelState) (block_number : Z) : Res ChannelTransition :=
  match od_get (rwe_total_withdraw action) (es_withdraws_pending (ch_partner_state channel_state)) with
  | None =>
      Ok (Some channel_state,
          [EventInvalidReceivedWithdrawExpired (rwe_total_withdraw action)
             ("Withdraw expired of " +:+ pretty (rwe_total_withdraw action)
              +:+ " did not correspond to previous withdraw request")])
  | Some withdraw_state =>
      let is_valid := is_valid_withdraw_expired channel_state action withdraw_state block_number in
      if ok is_valid then
        let* pending :=
          del_item (pw_total_withdraw withdraw_state)
            (es_withdraws_pending (ch_partner_state channel_state)) in
        let channel_state :=
          upd_partner (fun partner_state =>
            set_es_nonce (rwe_nonce action) (set_es_withdraws_pending pending partner_state))
            channel_state in
        let channel_state :=
          match es_initiated_coop_settle (ch_partner_state channel_state) with
          | Some coop_settle =>
              if (cs_total_withdraw_initiator coop_settle =? pw_total_withdraw withdraw_state)
                 && (cs_expiration coop_settle =? pw_expiration withdraw_state)
              then upd_partner (set_es_initiated_coop_settle None) channel_state
              else channel_state
          | None => channel_state
          end in
        Ok (Some channel_state,
            [processed (es_address (ch_partner_state channel_state))
               (pw_recipient_metadata withdraw_state) (rwe_message_identifier action)])
      else
        let error_msg := as_error_message is_valid in
        assert! str_true error_msg
          with "is_valid_withdraw_expired should return error msg if not valid" in
        Ok (Some channel_state,
            [EventInvalidReceivedWithdrawExpired (rwe_total_withdraw action) error_msg])
  end.

(** ** Blocks and on-chain logs *)

Definition _handle_block (action : Block) (channel_state : NettingChannelState) (block_number : Z)
    (prng : Random) : Res (ChannelTransition * Random) :=
  assert! block_block_number action =? block_number with "Block number mismatch" in
  let* (channel_state, events, prng) :=
    if bool_decide (get_status channel_state = STATE_OPENED)
    then events_for_expired_withdraws channel_state block_number prng
    else Ok (channel_state, [], prng) in
  if bool_decide (get_status channel_state = STATE_CLOSED) then
    match ch_close_transaction channel_state with
    | None =>
        Raise (AssertionError "channel get_status is STATE_CLOSED, but close_transaction is not set")
    | Some close_transaction =>
        assert! truthy_int (tx_finished_block_number close_transaction)
          with "channel get_status is STATE_CLOSED, but close_transaction block number is missing" in
        let closed_block_number := default 0 (tx_finished_block_number close_transaction) in
        let settlement_end := closed_block_number + ch_settle_timeout channel_state in
        if settlement_end <? block_block_number action then
          let channel_state :=
            set_ch_settle_transaction
              (Some {| tx_started_block_number := Some (block_block_number action);
                       tx_finished_block_number := None; tx_result := None |}) channel_state in
          Ok (Some channel_state,
              events ++ [ContractSendChannelSettle (block_block_hash action)
                           (ch_canonical_identifier channel_state)], prng)
        else Ok (Some channel_state, events, prng)
    end
  else Ok (Some channel_state, events, prng).

Definition _handle_channel_closed (action : ContractReceiveChannelClosed)
    (channel_state : NettingChannelState) : Res ChannelTransition :=
  let block_number := cr_block_number (crcc_contract action) in
  let block_hash := cr_block_hash (crcc_contract action) in
  let just_closed :=
    (ci_channel_identifier (crcc_canonical_identifier action) =? ch_identifier channel_state)
    && bool_decide (get_status channel_state ∈ CHANNEL_STATES_PRIOR_TO_CLOSED) in
  if just_closed then
    let channel_state := set_closed block_number channel_state in
    let balance_proof := es_balance_proof (ch_partner_state channel_state) in
    let call_update :=
      negb (bool_decide (crcc_transaction_from action = es_address (ch_our_state channel_state)))
      && is_some balance_proof && is_none (ch_update_transaction channel_state) in
    if call_update then
      let expiration := block_number + ch_settle_timeout channel_state in
      match balance_proof with
      | Some (BPSigned balance_proof) =>
          let update := ContractSendChannelUpdateTransfer block_hash expiration balance_proof in
          let channel_state :=
            set_ch_update_transaction
              (Some {| tx_started_block_number := Some block_number;
                       tx_finished_block_number := None; tx_result := None |}) channel_state in
          Ok (Some channel_state, [update])
      | _ => Raise (AssertionError "This assert is used to tell mypy what is the type of the variable")
      end
    else Ok (Some channel_state, [])
  else Ok (Some channel_state, []).

Definition _handle_channel_updated_transfer (action : ContractReceiveUpdateTransfer)
    (channel_state : NettingChannelState) (block_number : Z) : ChannelTransition :=
  if ci_channel_identifier (crut_canonical_identifier action) =? ch_identifier channel_state
  then (Some (set_ch_update_transaction
                (Some {| tx_started_block_number := None;
                         tx_finished_block_number := Some block_number;
                         tx_result := Some SUCCESS |}) channel_state), [])
  else (Some channel_state, []).

(** Whether the amounts of a settlement are those of a coop-settle whose
    initiator and partner withdraw [initiator] and [partner]. *)
Definition coop_settle_matches (coop_settle : CoopSettleState) (initiator partner : Z)
    (initiator_lock_check partner_lock_check : bool) : bool :=
  ((cs_total_withdraw_initiator coop_settle =? initiator) && initiator_lock_check)
  && ((cs_total_withdraw_partner coop_settle =? partner) && partner_lock_check).

Definition _handle_channel_settled (action : ContractReceiveChannelSettled)
    (channel_state : NettingChannelState) : Res ChannelTransition :=
  let block_number := cr_block_number (crcs_contract action) in
  if ci_channel_identifier (crcs_canonical_identifier action) =? ch_identifier channel_state then
    let channel_state := set_settled block_number channel_state in
    let our_locksroot := crcs_our_onchain_locksroot action in
    let partner_locksroot := crcs_partner_onchain_locksroot action in
    let our_lock_check := bool_decide (our_locksroot = LOCKSROOT_OF_NO_LOCKS) in
    let partner_lock_check := bool_decide (partner_locksroot = LOCKSROOT_OF_NO_LOCKS) in
    let should_clear_channel := our_lock_check && partner_lock_check in
    let* (channel_state, is_coop_settle) :=
      match es_initiated_coop_settle (ch_our_state channel_state) with
      | Some coop_settle =>
          if coop_settle_matches coop_settle (crcs_our_transferred_amount action)
               (crcs_partner_transferred_amount action) our_lock_check partner_lock_check
          then let* our_state := set_coop_settled block_number (ch_our_state channel_state) in
               Ok (set_ch_our_state our_state channel_state, true)
          else Ok (channel_state, false)
      | None => Ok (channel_state, false)
      end in
    let* (channel_state, is_coop_settle) :=
      match es_initiated_coop_settle (ch_partner_state channel_state) with
      | Some coop_settle =>
          if coop_settle_matches coop_settle (crcs_partner_transferred_amount action)
               (crcs_our_transferred_amount action) our_lock_check partner_lock_check
          then let* partner_state := set_coop_settled block_number (ch_partner_state channel_state) in
               Ok (set_ch_partner_state partner_state channel_state, true)
          else Ok (channel_state, is_coop_settle)
      | None => Ok (channel_state, is_coop_settle)
      end in
    let channel_state :=
      if is_coop_settle : bool then
        upd_our (set_es_onchain_total_withdraw (crcs_our_transferred_amount action))
          (upd_partner (set_es_onchain_total_withdraw (crcs_partner_transferred_amount action))
             channel_state)
      else channel_state in
    if should_clear_channel then Ok (None, [])
    else
      let channel_state := upd_our (set_es_onchain_locksroot our_locksroot) channel_state in
      let channel_state := upd_partner (set_es_onchain_locksroot partner_locksroot) channel_state in
      Ok (Some channel_state,
          [ContractSendChannelBatchUnlock (cr_block_hash (crcs_contract action))
             (ch_canonical_identifier channel_state) (es_address (ch_partner_state channel_state))])
  else Ok (Some channel_state, []).

Definition update_fee_schedule_after_balance_change (channel_state : NettingChannelState)
    (fee_config : MediationFeeConfig) : Res NettingChannelState :=
  let proportional_imbalance_fee :=
    get_proportional_imbalance_fee fee_config (ch_token_address channel_state) in
  let* imbalance_penalty :=
    calculate_imbalance_fees (get_capacity channel_state) proportional_imbalance_fee in
  let old := ch_fee_schedule channel_state in
  let* fee_schedule :=
    FeeScheduleState_init (fs_cap_fees old) (fs_flat old) (fs_proportional old) imbalance_penalty in
  Ok (set_ch_fee_schedule fee_schedule channel_state).

Definition _handle_channel_deposit (action : ContractReceiveChannelDeposit)
    (channel_state : NettingChannelState) : Res ChannelTransition :=
  let participant_address := dep_participant_address (crcd_deposit_transaction action) in
  let contract_balance := dep_contract_balance (crcd_deposit_transaction action) in
  let channel_state :=
    if bool_decide (participant_address = es_address (ch_our_state channel_state))
    then upd_our (update_contract_balance contract_balance) channel_state
    else if bool_decide (participant_address = es_address (ch_partner_state channel_state))
    then upd_partner (update_contract_balance contract_balance) channel_state
    else channel_state in
  let* channel_state :=
    update_fee_schedule_after_balance_change channel_state (crcd_fee_config action) in
  Ok (Some channel_state, []).

(** The update of the withdrawing end. *)
Definition onchain_withdraw (total_withdraw : Z) (end_state : NettingChannelEndState)
    : NettingChannelEndState :=
  let end_state :=
    match od_get total_withdraw (es_withdraws_pending end_state) with
    | Some _ => set_es_withdraws_pending (od_del total_withdraw (es_withdraws_pending end_state)) end_state
    | None => end_state
    end in
  set_es_onchain_total_withdraw total_withdraw end_state.

Definition _handle_channel_withdraw (action : ContractReceiveChannelWithdraw)
    (channel_state : NettingChannelState) : Res ChannelTransition :=
  let participants :=
    [es_address (ch_our_state channel_state); es_address (ch_partner_state channel_state)] in
  if negb (bool_decide (crcw_participant action ∈ participants)) then Ok (Some channel_state, [])
  else
    let channel_state :=
      if bool_decide (crcw_participant action = es_address (ch_our_state channel_state))
      then upd_our (onchain_withdraw (crcw_total_withdraw action)) channel_state
      else upd_partner (onchain_withdraw (crcw_total_withdraw action)) channel_state in
    let* channel_state :=
      update_fee_schedule_after_balance_change channel_state (crcw_fee_config action) in
    Ok (Some channel_state, []).

Definition _handle_channel_batch_unlock (action : ContractReceiveChannelBatchUnlock)
    (channel_state : NettingChannelState) : ChannelTransition :=
  if bool_decide (get_status channel_state = STATE_SETTLED) then
    let channel_state :=
      if bool_decide (crbu_sender action = es_address (ch_our_state channel_state))
      then upd_our (set_es_onchain_locksroot LOCKSROOT_OF_NO_LOCKS) channel_state
      else if bool_decide (crbu_sender action = es_address (ch_partner_state channel_state))
      then upd_partner (set_es_onchain_locksroot LOCKSROOT_OF_NO_LOCKS) channel_state
      else channel_state in
    let no_unlock_left_to_do :=
      bool_decide (es_onchain_locksroot (ch_our_state channel_state) = LOCKSROOT_OF_NO_LOCKS)
      && bool_decide (es_onchain_locksroot (ch_partner_state channel_state) = LOCKSROOT_OF_NO_LOCKS) in
    if no_unlock_left_to_do then (None, []) else (Some channel_state, [])
  else (Some channel_state, []).

(** ** Sanity check *)

(** The loop over our pending withdraws. *)
Fixpoint check_withdraws (coop_settle : bool) (previous : Z)
    (withdraws : list (Z * PendingWithdrawState)) : Res unit :=
  match withdraws with
  | [] => Ok tt
  | (total_withdraw, withdraw_state) :: rest =>
      assert! coop_settle || (previous <? pw_total_withdraw withdraw_state)
        with "total_withdraw must be ordered" in
      assert! total_withdraw =? pw_total_withdraw withdraw_state with "Total withdraw mismatch" in
      check_withdraws coop_settle (pw_total_withdraw withdraw_state) rest
  end.

(** Every lock of the three maps is one of the pending locks. *)
Definition locks_synchronized (end_state : NettingChannelEndState) : bool :=
  let pending := es_pending_locks end_state in
  bool_decide (map_Forall (fun _ lock => lock_encoded lock ∈ pending)
                 (es_secrethashes_to_lockedlocks end_state))
  && bool_decide (map_Forall (fun _ partial_unlock => upp_encoded partial_unlock ∈ pending)
                    (es_secrethashes_to_unlockedlocks end_state))
  && bool_decide (map_Forall (fun _ partial_unlock => upp_encoded partial_unlock ∈ pending)
                    (es_secrethashes_to_onchain_unlockedlocks end_state)).

Definition locked_amount_msg : string :=
  "The sum of the lock's amounts, and the value of the balance proof "
  +:+ "locked_amount must be equal, otherwise settle will not reserve the "
  +:+ "proper amount of tokens.".

Definition locksroot_msg : string :=
  "The balance proof locks root must match the existing locks, otherwise "
  +:+ "it is not possible to prove on-chain that a given lock was pending.".

Definition sanity_check (channel_state : NettingChannelState) : Res unit :=
  let partner_state := ch_partner_state channel_state in
  let our_state := ch_our_state channel_state in
  let coop_settle :=
    is_some (es_initiated_coop_settle our_state) || is_some (es_initiated_coop_settle partner_state) in
  let* _ := check_withdraws coop_settle 0 (es_withdraws_pending our_state) in
  let our_balance := get_balance our_state partner_state in
  let partner_balance := get_balance partner_state our_state in
  assert! 0 <=? our_balance with
    "The balance can never be negative, that would be equivalent to a loan or a double spend." in
  assert! 0 <=? partner_balance with
    "The balance can never be negative, that would be equivalent to a loan or a double spend." in
  assert! our_balance + partner_balance =? get_capacity channel_state with
    "The whole deposit of the channel has to be accounted for." in
  let our_locked := get_amount_locked our_state in
  let partner_locked := get_amount_locked partner_state in
  let '(our_bp_locksroot, _, _, our_bp_locked_amount) := get_current_balanceproof our_state in
  let '(partner_bp_locksroot, _, _, partner_bp_locked_amount) := get_current_balanceproof partner_state in
  assert! partner_locked =? partner_bp_locked_amount with
    locked_amount_msg in
  assert! our_locked =? our_bp_locked_amount with
    locked_amount_msg in
  let our_distributable := get_distributable our_state partner_state in
  let partner_distributable := get_distributable partner_state our_state in
  assert! our_distributable + our_locked <=? our_balance with
    "distributable + locked must not exceed balance (own)" in
  assert! partner_distributable + partner_locked <=? partner_balance with
    "distributable + locked must not exceed balance (partner)" in
  let our_locksroot := compute_locksroot (es_pending_locks our_state) in
  let partner_locksroot := compute_locksroot (es_pending_locks partner_state) in
  assert! bool_decide (our_locksroot = our_bp_locksroot) with
    locksroot_msg in
  assert! bool_decide (partner_locksroot = partner_bp_locksroot) with
    locksroot_msg in
  assert! locks_synchronized partner_state with
    "The lock mappings and the pending locks must be synchronized, otherwise there is a bug" in
  assert! locks_synchronized our_state with
    "The lock mappings and the pending locks must be synchronized, otherwise there is a bug" in
  Ok tt.

(** ** Dispatch *)

Definition keep_prng (prng : Random) (r : Res ChannelTransition) : Res (ChannelTransition * Random) :=
  let* t := r in Ok (t, prng).

Definition handle_state_transitions (action : StateChange) (channel_state : NettingChannelState)
    (block_number : Z) (block_hash : bytes) (prng : Random) : Res (ChannelTransition * Random) :=
  match action with
  | SCActionChannelClose a =>
      keep_prng prng (_handle_action_close a channel_state block_number block_hash)
  | SCActionChannelCoopSettle a => _handle_action_coop_settle a channel_state prng block_number
  | SCActionChannelWithdraw a => _handle_action_withdraw a channel_state prng block_number
  | SCActionChannelSetRevealTimeout a =>
      keep_prng prng (Ok (_handle_action_set_reveal_timeout a channel_state))
  | SCReceiveWithdrawRequest a =>
      _handle_receive_withdraw_request a channel_state block_number block_hash prng
  | SCReceiveWithdrawConfirmation a =>
      keep_prng prng (_handle_receive_withdraw_confirmation a channel_state block_number block_hash)
  | SCReceiveWithdrawExpired a =>
      keep_prng prng (_handle_receive_withdraw_expired a channel_state block_number)
  | SCBlock a => _handle_block a channel_state block_number prng
  | SCContractReceiveChannelClosed a => keep_prng prng (_handle_channel_closed a channel_state)
  | SCContractReceiveUpdateTransfer a =>
      keep_prng prng (Ok (_handle_channel_updated_transfer a channel_state block_number))
  | SCContractReceiveChannelSettled a => keep_prng prng (_handle_channel_settled a channel_state)
  | SCContractReceiveChannelDeposit a => keep_prng prng (_handle_channel_deposit a channel_state)
  | SCContractReceiveChannelWithdraw a => keep_prng prng (_handle_channel_withdraw a channel_state)
  | SCContractReceiveChannelBatchUnlock a =>
      keep_prng prng (Ok (_handle_channel_batch_unlock a channel_state))
  | _ => keep_prng prng (Ok (Some channel_state, []))
  end.

Definition state_transition (channel_state : NettingChannelState) (state_change : StateChange)
    (block_number : Z) (block_hash : bytes) (prng : Random) : Res (ChannelTransition * Random) :=
  let* (iteration, prng) :=
    handle_state_transitions state_change channel_state block_number block_hash prng in
  let* _ := match iteration.1 with
            | Some new_state => sanity_check new_state
            | None => Ok tt
            end in
  Ok (iteration, prng).
End Handlers.
