(* ===== verification/TaskState.v ===== *)
(** * States of the payment tasks

    The dataclasses of [transfer/mediated_transfer/state.py] that the target, the
    mediator and the initiator of a payment keep, and the checks their state
    machines share
    ([transfer/utils/__init__.py] and the head of
    [transfer/mediated_transfer/mediator.py]). *)

From Stdlib Require Import ZArith Lia Strings.Byte.
From stdpp Require Import base gmap list strings pretty.
From S2P Require Import Prelude Encoding MediationFee State Events ChannelViews.

(** ** The target *)

(** The strings that [TargetTransferState.state] ranges over. *)
Inductive TargetState :=
  | EXPIRED
  | OFFCHAIN_SECRET_REVEAL
  | ONCHAIN_SECRET_REVEAL
  | ONCHAIN_UNLOCK
  | SECRET_REQUEST.

#[export] Instance TargetState_eq_dec : EqDecision TargetState.
Proof. solve_decision. Defined.

Record TargetTransferState := {
  tts_from_hop : HopState;
  tts_transfer : LockedTransferSignedState;
  tts_secret : option bytes;
  tts_state : TargetState;
  tts_initiator_address_metadata : option AddressMetadata;
}.

(** [TargetTransferState(from_hop, transfer)]: the other fields have defaults. *)
Definition TargetTransferState_init (from_hop : HopState) (transfer : LockedTransferSignedState)
    : TargetTransferState :=
  {| tts_from_hop := from_hop; tts_transfer := transfer; tts_secret := None;
     tts_state := SECRET_REQUEST; tts_initiator_address_metadata := None |}.

Definition set_tts_state (v : TargetState) (s : TargetTransferState) : TargetTransferState :=
  Build_TargetTransferState (tts_from_hop s) (tts_transfer s) (tts_secret s) v
    (tts_initiator_address_metadata s).
Definition set_tts_secret (v : option bytes) (s : TargetTransferState) : TargetTransferState :=
  Build_TargetTransferState (tts_from_hop s) (tts_transfer s) v (tts_state s)
    (tts_initiator_address_metadata s).

(** The secret hash the task is registered under. *)
Definition tts_secrethash (s : TargetTransferState) : bytes := lock_secrethash (lts_lock (tts_transfer s)).

(** ** The mediator *)

(** The strings that [payer_state] and [payee_state] of a pair range over; which
    of them each field may hold is what [valid_payer_states] and
    [valid_payee_states] say. *)
Inductive MediationState :=
  | payee_pending
  | payee_secret_revealed
  | payee_contract_unlock
  | payee_balance_proof
  | payee_expired
  | payer_pending
  | payer_secret_revealed
  | payer_waiting_unlock
  | payer_waiting_secret_reveal
  | payer_balance_proof
  | payer_expired.

#[export] Instance MediationState_eq_dec : EqDecision MediationState.
Proof. solve_decision. Defined.

Definition valid_payee_states : list MediationState :=
  [payee_pending; payee_secret_revealed; payee_contract_unlock; payee_balance_proof; payee_expired].

Definition valid_payer_states : list MediationState :=
  [payer_pending; payer_secret_revealed; payer_waiting_unlock; payer_waiting_secret_reveal;
   payer_balance_proof; payer_expired].

Record MediationPairState := {
  mp_payer_transfer : LockedTransferSignedState;
  mp_payee_address : bytes;
  mp_payee_transfer : LockedTransferUnsignedState;
  mp_payer_state : MediationState;
  mp_payee_state : MediationState;
}.

Definition MediationPairState_init (payer_transfer : LockedTransferSignedState)
    (payee_address : bytes) (payee_transfer : LockedTransferUnsignedState) : MediationPairState :=
  {| mp_payer_transfer := payer_transfer; mp_payee_address := payee_address;
     mp_payee_transfer := payee_transfer; mp_payer_state := payer_pending;
     mp_payee_state := payee_pending |}.

Definition set_mp_payer_state (v : MediationState) (s : MediationPairState) : MediationPairState :=
  Build_MediationPairState (mp_payer_transfer s) (mp_payee_address s) (mp_payee_transfer s) v
    (mp_payee_state s).
Definition set_mp_payee_state (v : MediationState) (s : MediationPairState) : MediationPairState :=
  Build_MediationPairState (mp_payer_transfer s) (mp_payee_address s) (mp_payee_transfer s)
    (mp_payer_state s) v.

(** The property [MediationPairState.payer_address]. *)
Definition mp_payer_address (s : MediationPairState) : bytes := payer_address (mp_payer_transfer s).

Inductive WaitingState := waiting | waiting_expired.

#[export] Instance WaitingState_eq_dec : EqDecision WaitingState.
Proof. solve_decision. Defined.

Record WaitingTransferState := {
  wt_transfer : LockedTransferSignedState;
  wt_state : WaitingState;
}.

Definition WaitingTransferState_init (transfer : LockedTransferSignedState) : WaitingTransferState :=
  {| wt_transfer := transfer; wt_state := waiting |}.

Definition set_wt_state (v : WaitingState) (s : WaitingTransferState) : WaitingTransferState :=
  Build_WaitingTransferState (wt_transfer s) v.

Record MediatorTransferState := {
  ms_secrethash : bytes;
  ms_routes : list RouteState;
  ms_refunded_channels : list Z;
  ms_secret : option bytes;
  ms_transfers_pair : list MediationPairState;
  ms_waiting_transfer : option WaitingTransferState;
}.

Definition MediatorTransferState_init (secrethash : bytes) (routes : list RouteState)
    : MediatorTransferState :=
  {| ms_secrethash := secrethash; ms_routes := routes; ms_refunded_channels := [];
     ms_secret := None; ms_transfers_pair := []; ms_waiting_transfer := None |}.

Definition set_ms_refunded_channels (v : list Z) (s : MediatorTransferState) : MediatorTransferState :=
  Build_MediatorTransferState (ms_secrethash s) (ms_routes s) v (ms_secret s) (ms_transfers_pair s)
    (ms_waiting_transfer s).
Definition set_ms_secret (v : option bytes) (s : MediatorTransferState) : MediatorTransferState :=
  Build_MediatorTransferState (ms_secrethash s) (ms_routes s) (ms_refunded_channels s) v
    (ms_transfers_pair s) (ms_waiting_transfer s).
Definition set_ms_transfers_pair (v : list MediationPairState) (s : MediatorTransferState) : MediatorTransferState :=
  Build_MediatorTransferState (ms_secrethash s) (ms_routes s) (ms_refunded_channels s) (ms_secret s)
    v (ms_waiting_transfer s).
Definition set_ms_waiting_transfer (v : option WaitingTransferState) (s : MediatorTransferState) : MediatorTransferState :=
  Build_MediatorTransferState (ms_secrethash s) (ms_routes s) (ms_refunded_channels s) (ms_secret s)
    (ms_transfers_pair s) v.

(** ** The initiator *)

Inductive TransferState :=
  | transfer_pending
  | transfer_cancelled
  | transfer_secret_revealed
  | transfer_expired.

#[export] Instance TransferState_eq_dec : EqDecision TransferState.
Proof. solve_decision. Defined.

Record InitiatorTransferState := {
  it_route : RouteState;
  it_transfer_description : TransferDescriptionWithSecretState;
  it_channel_identifier : Z;
  it_transfer : LockedTransferUnsignedState;
  it_received_secret_request : bool;
  it_transfer_state : TransferState;
}.

Definition InitiatorTransferState_init (route : RouteState)
    (transfer_description : TransferDescriptionWithSecretState) (channel_identifier : Z)
    (transfer : LockedTransferUnsignedState) : InitiatorTransferState :=
  {| it_route := route; it_transfer_description := transfer_description;
     it_channel_identifier := channel_identifier; it_transfer := transfer;
     it_received_secret_request := false; it_transfer_state := transfer_pending |}.

Definition set_it_transfer_state (v : TransferState) (s : InitiatorTransferState) : InitiatorTransferState :=
  Build_InitiatorTransferState (it_route s) (it_transfer_description s) (it_channel_identifier s)
    (it_transfer s) (it_received_secret_request s) v.
Definition set_it_received_secret_request (v : bool) (s : InitiatorTransferState) : InitiatorTransferState :=
  Build_InitiatorTransferState (it_route s) (it_transfer_description s) (it_channel_identifier s)
    (it_transfer s) v (it_transfer_state s).

(** [initiator_transfers : Dict[SecretHash, InitiatorTransferState]] in the order
    of its insertions. *)
Record InitiatorPaymentState := {
  ip_routes : list RouteState;
  ip_initiator_transfers : list (bytes * InitiatorTransferState);
  ip_cancelled_channels : list Z;
}.

Definition set_ip_initiator_transfers (v : list (bytes * InitiatorTransferState)) (s : InitiatorPaymentState)
    : InitiatorPaymentState :=
  Build_InitiatorPaymentState (ip_routes s) v (ip_cancelled_channels s).
Definition set_ip_cancelled_channels (v : list Z) (s : InitiatorPaymentState) : InitiatorPaymentState :=
  Build_InitiatorPaymentState (ip_routes s) (ip_initiator_transfers s) v.

(** ** Shared checks *)

(** [is_valid_secret_reveal(state_change, transfer_secrethash)], where
    [secrethash] is the one of the state change: both classes of reveals have it. *)
Definition is_valid_secret_reveal (secrethash transfer_secrethash : bytes) : bool :=
  bool_decide (secrethash = transfer_secrethash).

Definition is_lock_valid (expiration block_number : Z) : bool := block_number <=? expiration.

Definition is_safe_to_wait (lock_expiration reveal_timeout block_number : Z) : Res SuccessOrError :=
  assert! 0 <? block_number with "block_number must be larger than zero" in
  assert! 0 <? reveal_timeout with "reveal_timeout must be larger than zero" in
  assert! reveal_timeout <? lock_expiration with "lock_expiration must be larger than reveal_timeout" in
  let lock_timeout := lock_expiration - block_number in
  if reveal_timeout <? lock_timeout then Ok Success
  else Ok (Error ("lock timeout is unsafe." +:+ " timeout must be larger than "
                  +:+ pretty reveal_timeout +:+ ", but it is " +:+ pretty lock_timeout +:+ "."
                  +:+ " expiration: " +:+ pretty lock_expiration
                  +:+ " block_number: " +:+ pretty block_number)).
