(* ===== verification/Target.v ===== *)
(** * The target of a payment

    [transfer/mediated_transfer/target.py]: the task that receives a payment.
    The channel and the task are objects the handlers mutate; they are passed in
    and returned, next to the events. *)

From Stdlib Require Import ZArith Lia Strings.Byte.
From stdpp Require Import base gmap list strings pretty.
From S2P Require Import Prelude Encoding MediationFee State Events ChannelViews ChannelValidation.
From S2P Require Import ChannelSend ChannelHandlers TaskState.

(** [TransitionResult[Optional[TargetTransferState]]], the channel after the
    call, and the generator of message identifiers. *)
Abbreviation TargetTransition Random :=
  (option TargetTransferState * list Event * NettingChannelState * Random)%type.

Module target.
Section Target.
Context `{Externals} {Random : Type} `{RandomGen Random}.

(** [old_state] and [new_state] are only read for their transfer, which no
    handler changes, so it does not matter that they may be one object. *)
Definition sanity_check (old_state new_state : option TargetTransferState)
    (channel_state : NettingChannelState) : Res unit :=
  match old_state, new_state with
  | Some old_state, None =>
      assert! is_none (get_lock (ch_partner_state channel_state) (tts_secrethash old_state))
        with "The lock must be cleared once the task exists" in Ok tt
  | _, Some new_state =>
      assert! is_some (get_lock (ch_partner_state channel_state) (tts_secrethash new_state))
        with "The lock must not be cleared while the task is running" in Ok tt
  | None, None => Ok tt
  end.

Definition events_for_onchain_secretreveal (target_state : TargetTransferState)
    (channel_state : NettingChannelState) (block_number : Z) (block_hash : bytes)
    : Res (TargetTransferState * list Event) :=
  let transfer := tts_transfer target_state in
  let expiration := lock_expiration (lts_lock transfer) in
  let* safe_to_wait := is_safe_to_wait expiration (ch_reveal_timeout channel_state) block_number in
  let secret_known_offchain :=
    is_secret_known_offchain (ch_partner_state channel_state) (lock_secrethash (lts_lock transfer)) in
  let has_onchain_reveal_started := bool_decide (tts_state target_state = ONCHAIN_SECRET_REVEAL) in
  if negb (ok safe_to_wait) && secret_known_offchain && negb has_onchain_reveal_started then
    let target_state := set_tts_state ONCHAIN_SECRET_REVEAL target_state in
    match get_secret (ch_partner_state channel_state) (lock_secrethash (lts_lock transfer)) with
    | Some ((_ :: _) as secret) =>
        Ok (target_state,
            ChannelSend.events_for_onchain_secretreveal channel_state secret expiration block_hash)
    | _ => Raise (AssertionError "secret should be known at this point")
    end
  else Ok (target_state, []).

Definition handle_inittarget (state_change : ActionInitTarget) (channel_state : NettingChannelState)
    (prng : Random) (block_number : Z) : Res (TargetTransition Random) :=
  let transfer := ait_transfer state_change in
  let from_hop := ait_from_hop state_change in
  assert! ch_identifier channel_state =? bps_channel_identifier (lts_balance_proof transfer)
    with "channel_id mismatch in handle_inittarget" in
  let* (channel_state, (is_valid, channel_events, errormsg)) :=
    handle_receive_lockedtransfer channel_state transfer (payer_address_metadata transfer) in
  if is_valid : bool then
    let target_state := TargetTransferState_init from_hop transfer in
    if ait_received_valid_secret state_change
    then Ok (Some target_state, channel_events, channel_state, prng)
    else
      let* safe_to_wait :=
        is_safe_to_wait (lock_expiration (lts_lock transfer)) (ch_reveal_timeout channel_state)
          block_number in
      if ok safe_to_wait then
        let '(message_identifier, prng) := message_identifier_from_prng prng in
        let secret_request :=
          SendSecretRequest
            {| sm_recipient := lts_initiator transfer;
               sm_recipient_metadata := initiator_address_metadata transfer;
               sm_canonical_identifier := CANONICAL_IDENTIFIER_UNORDERED_QUEUE;
               sm_message_identifier := message_identifier |}
            (lts_payment_identifier transfer) (lock_amount (lts_lock transfer))
            (lock_expiration (lts_lock transfer)) (lock_secrethash (lts_lock transfer)) in
        Ok (Some target_state, channel_events ++ [secret_request], channel_state, prng)
      else Ok (Some target_state, channel_events, channel_state, prng)
  else
    assert! msg_true errormsg
      with "handle_receive_lockedtransfer should return error msg if not valid" in
    let unlock_failed :=
      EventUnlockClaimFailed (lts_payment_identifier transfer) (lock_secrethash (lts_lock transfer))
        (msg_get errormsg) in
    Ok (None, channel_events ++ [unlock_failed], channel_state, prng).

Definition handle_offchain_secretreveal (target_state : TargetTransferState)
    (state_change : ReceiveSecretReveal) (channel_state : NettingChannelState) (prng : Random)
    (block_number : Z) : TargetTransition Random :=
  let valid_secret := is_valid_secret_reveal (rsr_secrethash state_change) (tts_secrethash target_state) in
  let has_transfer_expired :=
    is_transfer_expired (tts_transfer target_state) channel_state block_number in
  if valid_secret && negb has_transfer_expired then
    let channel_state :=
      register_offchain_secret (rsr_secret state_change) (rsr_secrethash state_change) channel_state in
    let from_hop := tts_from_hop target_state in
    let '(message_identifier, prng) := message_identifier_from_prng prng in
    let target_state := set_tts_state OFFCHAIN_SECRET_REVEAL target_state in
    let target_state := set_tts_secret (Some (rsr_secret state_change)) target_state in
    let reveal :=
      SendSecretReveal_init
        {| sm_recipient := hop_node_address from_hop;
           sm_recipient_metadata := payer_address_metadata (tts_transfer target_state);
           sm_canonical_identifier := CANONICAL_IDENTIFIER_UNORDERED_QUEUE;
           sm_message_identifier := message_identifier |}
        (rsr_secret state_change) in
    (Some target_state, [reveal], channel_state, prng)
  else (Some target_state, [], channel_state, prng).

(** [delete_lock] has its default, [True]. *)
Definition handle_onchain_secretreveal (target_state : TargetTransferState)
    (state_change : ContractReceiveSecretReveal) (channel_state : NettingChannelState)
    : Res (option TargetTransferState * list Event * NettingChannelState) :=
  let valid_secret := is_valid_secret_reveal (crsr_secrethash state_change) (tts_secrethash target_state) in
  if valid_secret then
    let* channel_state :=
      register_onchain_secret (crsr_secret state_change) (crsr_secrethash state_change)
        (cr_block_number (crsr_contract state_change)) true channel_state in
    let target_state := set_tts_state ONCHAIN_UNLOCK target_state in
    let target_state := set_tts_secret (Some (crsr_secret state_change)) target_state in
    Ok (Some target_state, [], channel_state)
  else Ok (Some target_state, [], channel_state).

Definition handle_unlock (target_state : TargetTransferState) (state_change : ReceiveUnlock)
    (channel_state : NettingChannelState)
    : Res (option TargetTransferState * list Event * NettingChannelState) :=
  let recipient_metadata := payer_address_metadata (tts_transfer target_state) in
  let* (channel_state, (is_valid, events, _)) :=
    ChannelHandlers.handle_unlock channel_state state_change recipient_metadata in
  if is_valid : bool then
    let transfer := tts_transfer target_state in
    let* payment_received_success :=
      EventPaymentReceivedSuccess_init (ch_token_network_registry_address channel_state)
        (ch_token_network_address channel_state) (lts_payment_identifier transfer)
        (lock_amount (lts_lock transfer)) (lts_initiator transfer) in
    let unlock_success :=
      EventUnlockClaimSuccess (lts_payment_identifier transfer) (lock_secrethash (lts_lock transfer)) in
    Ok (None, events ++ [payment_received_success; unlock_success], channel_state)
  else Ok (Some target_state, events, channel_state).

(** The lock is looked up in our own end's dictionary of on-chain secrets. *)
Definition handle_block (target_state : TargetTransferState) (channel_state : NettingChannelState)
    (block_number : Z) (block_hash : bytes) : Res (TargetTransferState * list Event) :=
  let transfer := tts_transfer target_state in
  let lock := lts_lock transfer in
  let secret_known := is_secret_known (ch_partner_state channel_state) (lock_secrethash lock) in
  let lock_has_expired :=
    is_lock_expired (ch_our_state channel_state) lock block_number
      (get_receiver_expiration_threshold (lock_expiration lock)) in
  if ok lock_has_expired && negb (bool_decide (tts_state target_state = EXPIRED)) then
    let failed :=
      EventUnlockClaimFailed (lts_payment_identifier transfer) (lock_secrethash (lts_lock transfer))
        "lock expired" in
    Ok (set_tts_state EXPIRED target_state, [failed])
  else if secret_known then
    events_for_onchain_secretreveal target_state channel_state block_number block_hash
  else Ok (target_state, []).

Definition handle_lock_expired (target_state : TargetTransferState)
    (state_change : ReceiveLockExpired) (channel_state : NettingChannelState) (block_number : Z)
    : Res (option TargetTransferState * list Event * NettingChannelState) :=
  let recipient_metadata := payer_address_metadata (tts_transfer target_state) in
  let* (new_state, events) :=
    handle_receive_lock_expired channel_state state_change block_number recipient_metadata in
  match new_state with
  | None => Raise (AssertionError "handle_receive_lock_expired should not delete the task")
  | Some channel_state =>
      let transfer := tts_transfer target_state in
      if is_none (get_lock (ch_partner_state channel_state) (lock_secrethash (lts_lock transfer)))
      then
        let unlock_failed :=
          EventUnlockClaimFailed (lts_payment_identifier transfer)
            (lock_secrethash (lts_lock transfer)) "Lock expired" in
        Ok (None, events ++ [unlock_failed], channel_state)
      else Ok (Some target_state, events, channel_state)
  end.

(** The dispatch of [state_transition] on the class of the state change. *)
Definition dispatch (target_state : option TargetTransferState) (state_change : StateChange)
    (channel_state : NettingChannelState) (prng : Random) (block_number : Z)
    : Res (TargetTransition Random) :=
  let with_task (msg : string) (k : TargetTransferState -> Res (TargetTransition Random)) :=
    match target_state with
    | Some target_state => k target_state
    | None => Raise (AssertionError msg)
    end in
  match state_change with
  | SCActionInitTarget a =>
      match target_state with
      | None => handle_inittarget a channel_state prng block_number
      | Some _ => Ok (target_state, [], channel_state, prng)
      end
  | SCBlock a =>
      assert! block_block_number a =? block_number with "Block number mismatch" in
      with_task "Block state changes should be accompanied by a valid target state" (fun ts =>
        let* (ts, events) := handle_block ts channel_state (block_block_number a) (block_block_hash a) in
        Ok (Some ts, events, channel_state, prng))
  | SCReceiveSecretReveal a =>
      with_task "ReceiveSecretReveal should be accompanied by a valid target state" (fun ts =>
        Ok (handle_offchain_secretreveal ts a channel_state prng block_number))
  | SCContractReceiveSecretReveal a =>
      with_task "ContractReceiveSecretReveal should be accompanied by a valid target state" (fun ts =>
        let* r := handle_onchain_secretreveal ts a channel_state in Ok (r, prng))
  | SCReceiveUnlock a =>
      with_task "ReceiveUnlock should be accompanied by a valid target state" (fun ts =>
        let* r := handle_unlock ts a channel_state in Ok (r, prng))
  | SCReceiveLockExpired a =>
      with_task "ReceiveLockExpired should be accompanied by a valid target state" (fun ts =>
        let* r := handle_lock_expired ts a channel_state block_number in Ok (r, prng))
  | _ => Ok (target_state, [], channel_state, prng)
  end.

Definition state_transition (target_state : option TargetTransferState) (state_change : StateChange)
    (channel_state : NettingChannelState) (prng : Random) (block_number : Z)
    : Res (TargetTransition Random) :=
  let* (new_state, events, channel_state, prng) :=
    dispatch target_state state_change channel_state prng block_number in
  let* _ := sanity_check target_state new_state channel_state in
  Ok (new_state, events, channel_state, prng).
End Target.
End target.
