(* ===== verification/World.v ===== *)
(** * The channel objects a payment task works on

    A mediator task touches several channels and its own state, all of them
    Python objects: the dictionary of channels by identifier and the one by
    partner address refer to the same channel objects, and a change made through
    one reference is seen through the other.  The objects live in a heap,
    references are locations, and the code that runs over them is a state monad
    with exceptions. *)

From Stdlib Require Import ZArith Lia Strings.Byte.
From stdpp Require Import base functions gmap list strings pretty.
From S2P Require Import Prelude Encoding MediationFee State Events TaskState.

(** The channel objects.  A reference never dangles, so the heap is total. *)
Abbreviation Heap := (Loc -> NettingChannelState).

(** [channelidentifiers_to_channels : Dict[ChannelID, NettingChannelState]], the
    channels of one token network, and [addresses_to_channel : Dict[Tuple[
    TokenNetworkAddress, Address], NettingChannelState]], those of all. *)
Abbreviation ChannelMap := (gmap Z Loc).
Abbreviation AddressMap := (gmap (bytes * bytes) Loc).

Record World (Random : Type) := {
  w_heap : Heap;
  w_prng : Random;
}.
Arguments Build_World {Random} _ _.
Arguments w_heap {Random} _.
Arguments w_prng {Random} _.

(** Code that reads and changes the world, and may raise. *)
Definition M (Random A : Type) : Type := World Random -> Res (A * World Random).

#[export] Instance M_ret {Random} : MRet (M Random) := fun A a w => Ok (a, w).
#[export] Instance M_bind {Random} : MBind (M Random) :=
  fun A B k m w => let* (a, w) := m w in k a w.

Section Operations.
Context {Random : Type}.

Definition lift {A} (r : Res A) : M Random A := fun w => let* a := r in Ok (a, w).

Definition read (l : Loc) : M Random NettingChannelState := fun w => Ok (w_heap w l, w).

Definition get_heap : M Random Heap := fun w => Ok (w_heap w, w).

Definition write (l : Loc) (ch : NettingChannelState) : M Random unit :=
  fun w => Ok (tt, Build_World (<[l := ch]> (w_heap w)) (w_prng w)).

(** A call that changes the channel object at [l] and returns [A]. *)
Definition with_channel {A} (l : Loc) (f : NettingChannelState -> Res (NettingChannelState * A)) : M Random A :=
  ch ← read l; r ← lift (f ch); _ ← write l r.1; mret r.2.

(** A call that also draws from the generator of message identifiers. *)
Definition with_channel_prng {A} (l : Loc)
    (f : NettingChannelState -> Random -> Res (NettingChannelState * A * Random)) : M Random A :=
  fun w => let* (ch, a, g) := f (w_heap w l) (w_prng w) in Ok (a, Build_World (<[l := ch]> (w_heap w)) g).

Definition fresh_message_identifier `{RandomGen Random} : M Random Z :=
  fun w => let '(i, g) := message_identifier_from_prng (w_prng w) in Ok (i, Build_World (w_heap w) g).

(** [for pair in pairs: ...]: the body may replace the state of the pair, adds
    events, and carries the local variables [acc]. *)
Fixpoint for_pairs {S} (body : S -> MediationPairState -> M Random (S * MediationPairState * list Event))
    (acc : S) (pairs : list MediationPairState) : M Random (S * list MediationPairState * list Event) :=
  match pairs with
  | [] => mret (acc, [], [])
  | p :: rest =>
      '(acc, p, events) ← body acc p;
      '(acc, rest, more) ← for_pairs body acc rest;
      mret (acc, p :: rest, events ++ more)
  end.

(** [for pair in reversed(pairs): ...] *)
Definition for_pairs_reversed {S} (body : S -> MediationPairState -> M Random (S * MediationPairState * list Event))
    (acc : S) (pairs : list MediationPairState) : M Random (S * list MediationPairState * list Event) :=
  '(acc, pairs, events) ← for_pairs body acc (reverse pairs);
  mret (acc, reverse pairs, events).
End Operations.

(** ** Routes ([transfer/routes.py]) *)

(** [if not next_hop] *)
Definition truthy_bytes (b : option bytes) : option bytes :=
  match b with Some (_ :: _) => b | _ => None end.

Definition filter_reachable_routes (route_states : list RouteState)
    (nodeaddresses_to_networkstates : gmap bytes NetworkState) (our_address : bytes) : list RouteState :=
  List.filter (fun route =>
    match truthy_bytes (hop_after route our_address) with
    | None => false
    | Some next_hop => bool_decide (nodeaddresses_to_networkstates !! next_hop = Some REACHABLE)
    end) route_states.

Definition filter_acceptable_routes (heap : Heap) (route_states : list RouteState)
    (blacklisted_channel_ids : list Z) (addresses_to_channel : AddressMap)
    (token_network_address our_address : bytes) : list RouteState :=
  List.filter (fun route =>
    match truthy_bytes (hop_after route our_address) with
    | None => false
    | Some next_hop =>
        match addresses_to_channel !! (token_network_address, next_hop) with
        | None => false
        | Some channel => negb (bool_decide (ch_identifier (heap channel) ∈ blacklisted_channel_ids))
        end
    end) route_states.
