(* ===== verification/Mediator.v ===== *)
(** * The mediator of a payment

    [transfer/mediated_transfer/mediator.py]: the task that forwards a payment.
    One definition per function, under its name, in the module [mediator].  The
    channels are objects of the world ([World]); the task's own state, its pairs
    and its waiting transfer are mutated in place in the code and returned
    updated here. *)

From Stdlib Require Import ZArith Lia QArith Strings.Byte.
From stdpp Require Import base functions gmap list strings pretty.
From S2P Require Import Prelude Encoding MediationFee State Events ChannelViews ChannelValidation.
From S2P Require Import ChannelSend ChannelHandlers TaskState World.

Open Scope Z_scope.

(** ** Python's arithmetic *)

(** [l[i]], where a negative index counts from the end. *)
Definition py_get {A} (l : list A) (i : Z) : Res A :=
  let n := Z.of_nat (length l) in
  let j := if i <? 0 then n + i else i in
  if (j <? 0) || (n <=? j) then Raise IndexError
  else match l !! Z.to_nat j with Some x => Ok x | None => Raise IndexError end.

(** Division of [Fraction]s. *)
Definition py_div (x y : Q) : Res Q := if Qeq_bool y 0 then Raise ZeroDivisionError else Ok (Qred (x / y)).

(** [round(x)] of a [Fraction]: the nearest integer, ties to even. *)
Definition py_round (x : Q) : Z :=
  let n := Qnum x in
  let d := Zpos (Qden x) in
  let floor := n / d in
  let remainder := n mod d in
  if 2 * remainder <? d then floor
  else if d <? 2 * remainder then floor + 1
  else if Z.even floor then floor else floor + 1.

(** ** Constants *)

Definition STATE_SECRET_KNOWN : list MediationState :=
  [payee_secret_revealed; payee_contract_unlock; payee_balance_proof;
   payer_secret_revealed; payer_waiting_unlock; payer_balance_proof].

Definition STATE_TRANSFER_PAID : list MediationState :=
  [payee_contract_unlock; payee_balance_proof; payer_balance_proof].

Definition STATE_TRANSFER_FINAL : list MediationState :=
  [payee_contract_unlock; payee_balance_proof; payee_expired; payer_balance_proof; payer_expired].

Abbreviation in_states s l := (bool_decide (s ∈ l)).

(** ** Queries *)

Definition is_send_transfer_almost_equal (send : LockedTransferUnsignedState)
    (received : LockedTransferSignedState) : bool :=
  (ltu_payment_identifier send =? lts_payment_identifier received)
  && bool_decide (ltu_token send = lts_token received)
  && (lock_expiration (ltu_lock send) =? lock_expiration (lts_lock received))
  && bool_decide (lock_secrethash (ltu_lock send) = lock_secrethash (lts_lock received))
  && bool_decide (ltu_initiator send = lts_initiator received)
  && bool_decide (ltu_target send = lts_target received).

Definition has_secret_registration_started (channel_states : list NettingChannelState)
    (transfers_pair : list MediationPairState) (secrethash : bytes) : bool :=
  let is_secret_registered_onchain :=
    existsb (fun payer_channel => is_secret_known_onchain (ch_partner_state payer_channel) secrethash)
      channel_states in
  let has_pending_transaction :=
    existsb (fun p => bool_decide (mp_payer_state p = payer_waiting_secret_reveal)) transfers_pair in
  is_secret_registered_onchain || has_pending_transaction.

(** [transfer.balance_proof.channel_identifier] *)
Definition lts_channel_identifier (t : LockedTransferSignedState) : Z :=
  bps_channel_identifier (lts_balance_proof t).
Definition ltu_channel_identifier (t : LockedTransferUnsignedState) : Z :=
  ci_channel_identifier (bpu_canonical_identifier (ltu_balance_proof t)).

Definition get_payee_channel (channelidentifiers_to_channels : ChannelMap) (transfer_pair : MediationPairState)
    : option Loc :=
  channelidentifiers_to_channels !! ltu_channel_identifier (mp_payee_transfer transfer_pair).

Definition get_payer_channel (channelidentifiers_to_channels : ChannelMap) (transfer_pair : MediationPairState)
    : option Loc :=
  channelidentifiers_to_channels !! lts_channel_identifier (mp_payer_transfer transfer_pair).

(** The condition of [get_pending_transfer_pairs].  Where the code loops over
    that list and changes only the pair at hand, the model tests the condition
    when it reaches the pair. *)
Definition is_pending_pair (p : MediationPairState) : bool :=
  negb (in_states (mp_payee_state p) STATE_TRANSFER_FINAL)
  || negb (in_states (mp_payer_state p) STATE_TRANSFER_FINAL).

Definition get_pending_transfer_pairs (transfers_pair : list MediationPairState) : list MediationPairState :=
  List.filter is_pending_pair transfers_pair.

(** [Union[HashTimeLockState, UnlockPartialProofState]] as a value. *)
#[export] Instance either_LockType : LockType (HashTimeLockState + UnlockPartialProofState) :=
  {| lt_amount := sum_rect _ lock_amount upp_amount;
     lt_expiration := sum_rect _ lock_expiration upp_expiration;
     lt_secrethash := sum_rect _ lock_secrethash upp_secrethash;
     lt_encoded := sum_rect _ lock_encoded upp_encoded |}.

(** ** Fees *)

Section FindIntersection.
Context (fee_func : Interpolate) (line : Z -> Res Q).

(** The [while] loop; it ends because [i] grows to [len(fee_func.x_list)]. *)
Fixpoint find_section (fuel : nat) (compare : Q -> Q -> bool) (i : Z) (y : Q) : Res (option Z) :=
  match fuel with
  | O => Ok None
  | S fuel =>
      let* l := line i in
      if compare y l then
        let i := i + 1 in
        if i =? Z.of_nat (length (ip_x_list fee_func)) then Ok None
        else let* y := py_get (ip_y_list fee_func) i in find_section fuel compare i y
      else Ok (Some i)
  end.

Definition find_intersection : Res (option Q) :=
  let* y := py_get (ip_y_list fee_func) 0 in
  let* l := line 0 in
  let compare := if Qlt_bool y l then Qlt_bool else (fun a b => Qlt_bool b a) in
  let* section := find_section (length (ip_x_list fee_func)) compare 0 y in
  match section with
  | None => Ok None
  | Some i =>
      let* x1 := py_get (ip_x_list fee_func) (i - 1) in
      let* x2 := py_get (ip_x_list fee_func) i in
      let* yf1 := py_get (ip_y_list fee_func) (i - 1) in
      let* yf2 := py_get (ip_y_list fee_func) i in
      let* yl1 := line (i - 1) in
      let* yl2 := line i in
      let* d := py_div ((yl1 - yf1) * (x2 - x1)) ((yf2 - yf1) - (yl2 - yl1)) in
      Ok (Some (Qred (d + x1)))
  end.
End FindIntersection.

Definition get_amount_without_fees (amount_with_fees : Z) (channel_in channel_out : NettingChannelState)
    : Res (option Z) :=
  let balance_in := get_balance (ch_our_state channel_in) (ch_partner_state channel_in) in
  let balance_out := get_balance (ch_our_state channel_out) (ch_partner_state channel_out) in
  let receivable := our_total_deposit channel_in + partner_total_deposit channel_in - balance_in in
  let cap_fees := fs_cap_fees (ch_fee_schedule channel_in) in
  assert! Bool.eqb cap_fees (fs_cap_fees (ch_fee_schedule channel_out))
    with "Both channels must have the same cap_fees setting for the same mediator." in
  let amount_without_fees :=
    let* fee_func :=
      mediation_fee_func (ch_fee_schedule channel_in) (ch_fee_schedule channel_out) balance_in balance_out
        receivable amount_with_fees cap_fees in
    find_intersection fee_func (fun i =>
      let* x := py_get (ip_x_list fee_func) i in Ok (inject_Z amount_with_fees - x)%Q) in
  match amount_without_fees with
  | Raise UndefinedMediationFee => Ok None
  | Raise e => Raise e
  | Ok None => Ok None
  | Ok (Some x) => if Qle_bool x 0 then Ok None else Ok (Some (py_round x))
  end.

(** ** Invariants of the task *)

(** A loop of assertions. *)
Fixpoint check_each {A} (check : A -> Res unit) (l : list A) : Res unit :=
  match l with
  | [] => Ok tt
  | x :: l => let* _ := check x in check_each check l
  end.

Module mediator.
Section Mediator.
Context `{Externals} {Random : Type} `{RandomGen Random}.

Definition sanity_check (state : MediatorTransferState) (channelidentifiers_to_channels : ChannelMap)
    : Res unit :=
  let pairs := ms_transfers_pair state in
  let all_transfers_states := map mp_payee_state pairs ++ map mp_payer_state pairs in
  let* _ :=
    if existsb (fun s => in_states s STATE_TRANSFER_PAID) all_transfers_states
    then assert! is_some (ms_secret state) with "Mediator's state must have secret" in Ok tt
    else Ok tt in
  let* _ :=
    match pairs with
    | first_pair :: _ =>
        assert! bool_decide (ms_secrethash state = lock_secrethash (lts_lock (mp_payer_transfer first_pair)))
          with "Secret hash mismatch" in Ok tt
    | [] => Ok tt
    end in
  let* _ :=
    check_each (fun p =>
      match get_payee_channel channelidentifiers_to_channels p with
      | None => Ok tt
      | Some _ =>
          assert! is_send_transfer_almost_equal (mp_payee_transfer p) (mp_payer_transfer p)
            with "Payee and payer transfers are too different" in
          assert! in_states (mp_payer_state p) valid_payer_states
            with "payer_state not in valid payer states" in
          assert! in_states (mp_payee_state p) valid_payee_states
            with "payee_state not in valid payee states" in
          Ok tt
      end) pairs in
  let* _ :=
    check_each (fun '(original, refund) =>
      assert! bool_decide (mp_payee_address original = mp_payer_address refund)
        with "payee/payer address mismatch" in
      match get_payer_channel channelidentifiers_to_channels refund with
      | None => Ok tt
      | Some _ =>
          assert! is_send_transfer_almost_equal (mp_payee_transfer original) (mp_payer_transfer refund)
            with "Payee and payer transfers are too different (refund)" in
          Ok tt
      end) (zip (removelast pairs) (tail pairs)) in
  match ms_waiting_transfer state, last pairs with
  | Some waiting_transfer, Some last_transfer_pair =>
      match get_payee_channel channelidentifiers_to_channels last_transfer_pair with
      | None => Ok tt
      | Some _ =>
          assert! is_send_transfer_almost_equal (mp_payee_transfer last_transfer_pair)
                    (wt_transfer waiting_transfer)
            with "Payee and payer transfers are too different (waiting transfer)" in
          Ok tt
      end
  | _, _ => Ok tt
  end.

(** [if channel and is_lock_pending(...)] for a reference that may be [None]. *)
Definition holds_lock (heap : Heap) (channel : option Loc)
    (end_state : NettingChannelState -> NettingChannelEndState) (secrethash : bytes) : bool :=
  match channel with
  | Some l => is_lock_pending (end_state (heap l)) secrethash
  | None => false
  end.

Definition clear_if_finalized (new_state : option MediatorTransferState)
    (channelidentifiers_to_channels : ChannelMap) (heap : Heap) : option MediatorTransferState :=
  match new_state with
  | None => None
  | Some state =>
      let secrethash := ms_secrethash state in
      if existsb (fun p =>
           holds_lock heap (get_payer_channel channelidentifiers_to_channels p) ch_partner_state secrethash
           || holds_lock heap (get_payee_channel channelidentifiers_to_channels p) ch_our_state secrethash)
           (ms_transfers_pair state)
      then Some state
      else
        match ms_waiting_transfer state with
        | Some waiting_transfer =>
            let waiting_channel :=
              channelidentifiers_to_channels !! lts_channel_identifier (wt_transfer waiting_transfer) in
            if holds_lock heap waiting_channel ch_partner_state secrethash then Some state else None
        | None => None
        end
  end.

(** ** Forwarding *)

(** [MessageEvent.transfer] of the event [send_lockedtransfer] returns. *)
Definition sent_transfer (event : Event) : Res LockedTransferUnsignedState :=
  match event with
  | SendLockedTransfer _ transfer => Ok transfer
  | _ => Raise (AssertionError "send_lockedtransfer returns a SendLockedTransfer")
  end.

Definition forward_transfer_pair (payer_transfer : LockedTransferSignedState)
    (payer_channel payee_channel : Loc) (block_number : Z)
    : M Random (option MediationPairState * list Event) :=
  channel_in ← read payer_channel;
  channel_out ← read payee_channel;
  amount_after_fees ← lift (get_amount_without_fees (lock_amount (lts_lock payer_transfer)) channel_in channel_out);
  match amount_after_fees with
  | None | Some 0 => mret (None, [])
  | Some amount_after_fees =>
      let lock_timeout := lock_expiration (lts_lock payer_transfer) - block_number in
      if negb (is_channel_usable_for_mediation channel_out amount_after_fees lock_timeout)
      then mret (None, [])
      else
        _ ← lift (assert! lock_timeout <=? ch_settle_timeout channel_out
                    with "settle_timeout must be >= lock_timeout" in Ok tt);
        message_identifier ← fresh_message_identifier;
        let recipient_address := es_address (ch_partner_state channel_out) in
        let recipient_metadata := get_address_metadata recipient_address (lts_route_states payer_transfer) in
        lockedtransfer_event ←
          with_channel payee_channel (fun ch =>
            send_lockedtransfer ch (lts_initiator payer_transfer) (lts_target payer_transfer)
              amount_after_fees message_identifier (lts_payment_identifier payer_transfer)
              (lock_expiration (lts_lock payer_transfer)) (lts_secret payer_transfer)
              (lock_secrethash (lts_lock payer_transfer)) (lts_route_states payer_transfer)
              recipient_metadata (lts_metadata payer_transfer));
        payee_transfer ← lift (sent_transfer lockedtransfer_event);
        mret (Some (MediationPairState_init payer_transfer recipient_address payee_transfer),
              [lockedtransfer_event])
  end.

(** ** Learning the secret *)

Definition register_at (channel : option Loc) (register : NettingChannelState -> Res NettingChannelState)
    : M Random unit :=
  match channel with
  | Some l => with_channel l (fun ch => let* ch := register ch in Ok (ch, tt))
  | None => mret tt
  end.

(** The loop over the pairs that [set_offchain_secret] and [set_onchain_secret]
    share, and the case of a waiting transfer. *)
Fixpoint register_at_pairs (channelidentifiers_to_channels : ChannelMap)
    (register : NettingChannelState -> Res NettingChannelState) (pairs : list MediationPairState)
    : M Random unit :=
  match pairs with
  | [] => mret tt
  | p :: rest =>
      _ ← register_at (channelidentifiers_to_channels !! lts_channel_identifier (mp_payer_transfer p)) register;
      _ ← register_at (channelidentifiers_to_channels !! ltu_channel_identifier (mp_payee_transfer p)) register;
      register_at_pairs channelidentifiers_to_channels register rest
  end.

Definition set_secret (state : MediatorTransferState) (channelidentifiers_to_channels : ChannelMap)
    (register : NettingChannelState -> Res NettingChannelState) (secret secrethash : bytes)
    : M Random (MediatorTransferState * list Event) :=
  let state := set_ms_secret (Some secret) state in
  _ ← register_at_pairs channelidentifiers_to_channels register (ms_transfers_pair state);
  match ms_waiting_transfer state with
  | Some waiting_transfer =>
      _ ← register_at (channelidentifiers_to_channels !! lts_channel_identifier (wt_transfer waiting_transfer))
            register;
      mret (state, [EventUnexpectedSecretReveal secrethash "The mediator has a waiting transfer."])
  | None => mret (state, [])
  end.

Definition set_offchain_secret (state : MediatorTransferState) (channelidentifiers_to_channels : ChannelMap)
    (secret secrethash : bytes) : M Random (MediatorTransferState * list Event) :=
  set_secret state channelidentifiers_to_channels
    (fun ch => Ok (register_offchain_secret secret secrethash ch)) secret secrethash.

Definition set_onchain_secret (state : MediatorTransferState) (channelidentifiers_to_channels : ChannelMap)
    (secret secrethash : bytes) (block_number : Z) : M Random (MediatorTransferState * list Event) :=
  set_secret state channelidentifiers_to_channels
    (register_onchain_secret secret secrethash block_number true) secret secrethash.

Definition set_offchain_reveal_state (transfers_pair : list MediationPairState) (payee_address : bytes)
    : list MediationPairState :=
  map (fun p => if bool_decide (mp_payee_address p = payee_address)
                then set_mp_payee_state payee_secret_revealed p else p) transfers_pair.

(** ** Events of a block *)

Definition events_for_expired_pairs (channelidentifiers_to_channels : ChannelMap)
    (transfers_pair : list MediationPairState) (waiting_transfer : option WaitingTransferState)
    (block_number : Z)
    : M Random (list MediationPairState * option WaitingTransferState * list Event) :=
  '(_, transfers_pair, events) ←
    for_pairs (fun _ p =>
      if negb (is_pending_pair p) then mret (tt, p, [])
      else
        match channelidentifiers_to_channels !! lts_channel_identifier (mp_payer_transfer p) with
        | None => mret (tt, p, [])
        | Some payer_channel =>
            ch ← read payer_channel;
            let has_payer_transfer_expired := is_transfer_expired (mp_payer_transfer p) ch block_number in
            if has_payer_transfer_expired
            then mret (tt, set_mp_payer_state payer_expired p,
                       [EventUnlockClaimFailed (lts_payment_identifier (mp_payer_transfer p))
                          (lock_secrethash (lts_lock (mp_payer_transfer p))) "lock expired"])
            else mret (tt, p, [])
        end) tt transfers_pair;
  match waiting_transfer with
  | None => mret (transfers_pair, None, events)
  | Some wt =>
      let expiration_threshold :=
        get_receiver_expiration_threshold (lock_expiration (lts_lock (wt_transfer wt))) in
      let should_waiting_transfer_expire :=
        negb (bool_decide (wt_state wt = waiting_expired)) && (expiration_threshold <=? block_number) in
      if should_waiting_transfer_expire
      then mret (transfers_pair, Some (set_wt_state waiting_expired wt),
                 events ++ [EventUnlockClaimFailed (lts_payment_identifier (wt_transfer wt))
                              (lock_secrethash (lts_lock (wt_transfer wt))) "lock expired"])
      else mret (transfers_pair, Some wt, events)
  end.

Definition events_for_secretreveal (transfers_pair : list MediationPairState) (secret : bytes)
    : M Random (list MediationPairState * list Event) :=
  '(_, transfers_pair, events) ←
    for_pairs_reversed (fun _ p =>
      let payee_knows_secret := in_states (mp_payee_state p) STATE_SECRET_KNOWN in
      let payer_knows_secret := in_states (mp_payer_state p) STATE_SECRET_KNOWN in
      let is_transfer_pending := bool_decide (mp_payer_state p = payer_pending) in
      let should_send_secret := payee_knows_secret && negb payer_knows_secret && is_transfer_pending in
      if should_send_secret then
        message_identifier ← fresh_message_identifier;
        let payer_transfer := mp_payer_transfer p in
        let revealsecret :=
          SendSecretReveal_init
            {| sm_recipient := bps_sender (lts_balance_proof payer_transfer);
               sm_recipient_metadata := payer_address_metadata payer_transfer;
               sm_canonical_identifier := CANONICAL_IDENTIFIER_UNORDERED_QUEUE;
               sm_message_identifier := message_identifier |} secret in
        mret (tt, set_mp_payer_state payer_secret_revealed p, [revealsecret])
      else mret (tt, p, [])) tt transfers_pair;
  mret (transfers_pair, events).

(** [payer_channel and is_safe_to_wait(...).ok] *)
Definition is_safe_to_send_balanceproof (heap : Heap) (payer_channel : option Loc)
    (lock : HashTimeLockState) (block_number : Z) : Res bool :=
  match payer_channel with
  | None => Ok false
  | Some l =>
      let* safe := is_safe_to_wait (lock_expiration lock) (ch_reveal_timeout (heap l)) block_number in
      Ok (ok safe)
  end.

Definition events_for_balanceproof (channelidentifiers_to_channels : ChannelMap)
    (transfers_pair : list MediationPairState) (block_number : Z) (secret secrethash : bytes)
    : M Random (list MediationPairState * list Event) :=
  '(_, transfers_pair, events) ←
    for_pairs_reversed (fun _ p =>
      let payee_knows_secret := in_states (mp_payee_state p) STATE_SECRET_KNOWN in
      let payee_payed := in_states (mp_payee_state p) STATE_TRANSFER_PAID in
      let payee_channel := get_payee_channel channelidentifiers_to_channels p in
      let payer_channel := get_payer_channel channelidentifiers_to_channels p in
      heap ← get_heap;
      safe ← lift (is_safe_to_send_balanceproof heap payer_channel (lts_lock (mp_payer_transfer p)) block_number);
      match payee_channel with
      | Some payee_channel =>
          if bool_decide (get_status (heap payee_channel) = STATE_OPENED)
             && payee_knows_secret && negb payee_payed && safe
          then
            message_identifier ← fresh_message_identifier;
            let recipient_metadata :=
              get_address_metadata (mp_payee_address p) (ltu_route_states (mp_payee_transfer p)) in
            unlock_lock ←
              with_channel payee_channel (fun ch =>
                send_unlock ch message_identifier (ltu_payment_identifier (mp_payee_transfer p)) secret
                  secrethash block_number recipient_metadata);
            let unlock_success :=
              EventUnlockSuccess (lts_payment_identifier (mp_payer_transfer p))
                (lock_secrethash (lts_lock (mp_payer_transfer p))) in
            mret (tt, set_mp_payee_state payee_balance_proof p, [unlock_lock; unlock_success])
          else mret (tt, p, [])
      | None => mret (tt, p, [])
      end) tt transfers_pair;
  mret (transfers_pair, events).

(** The channels of the payers that still exist. *)
Definition all_payer_channels (channelmap : ChannelMap) (heap : Heap) (transfers_pair : list MediationPairState)
    : list NettingChannelState :=
  omap (fun p => heap <$> get_payer_channel channelmap p) transfers_pair.

Definition events_for_onchain_secretreveal_if_dangerzone (channelmap : ChannelMap) (secrethash : bytes)
    (transfers_pair : list MediationPairState) (block_number : Z) (block_hash : bytes)
    : M Random (list MediationPairState * list Event) :=
  heap ← get_heap;
  let transaction_sent :=
    has_secret_registration_started (all_payer_channels channelmap heap transfers_pair) transfers_pair
      secrethash in
  '(_, transfers_pair, events) ←
    for_pairs (fun transaction_sent p =>
      if negb (is_pending_pair p) then mret (transaction_sent, p, [])
      else
        match get_payer_channel channelmap p with
        | None => mret (transaction_sent, p, [])
        | Some payer_channel =>
            let lock := lts_lock (mp_payer_transfer p) in
            payer_channel ← read payer_channel;
            safe_to_wait ←
              lift (is_safe_to_wait (lock_expiration lock) (ch_reveal_timeout payer_channel) block_number);
            let secret_known :=
              is_secret_known (ch_partner_state payer_channel) (lock_secrethash lock) in
            if negb (ok safe_to_wait) && secret_known then
              let p := set_mp_payer_state payer_waiting_secret_reveal p in
              if negb transaction_sent then
                match get_secret (ch_partner_state payer_channel) (lock_secrethash lock) with
                | Some ((_ :: _) as secret) =>
                    mret (true, p,
                          ChannelSend.events_for_onchain_secretreveal payer_channel secret
                            (lock_expiration lock) block_hash)
                | _ => lift (Raise (AssertionError "the secret should be known at this point"))
                end
              else mret (transaction_sent, p, [])
            else mret (transaction_sent, p, [])
        end) transaction_sent transfers_pair;
  mret (transfers_pair, events).

Definition events_for_onchain_secretreveal_if_closed (channelmap : ChannelMap)
    (transfers_pair : list MediationPairState) (secret secrethash block_hash : bytes)
    : M Random (list MediationPairState * list Event) :=
  heap ← get_heap;
  let transaction_sent :=
    has_secret_registration_started (all_payer_channels channelmap heap transfers_pair) transfers_pair
      secrethash in
  '(_, transfers_pair, events) ←
    for_pairs (fun transaction_sent p =>
      if negb (is_pending_pair p) then mret (transaction_sent, p, [])
      else
        match get_payer_channel channelmap p with
        | None => mret (transaction_sent, p, [])
        | Some payer_channel =>
            payer_channel ← read payer_channel;
            if bool_decide (get_status payer_channel = STATE_CLOSED) then
              let p := set_mp_payer_state payer_waiting_secret_reveal p in
              if negb transaction_sent then
                match get_lock (ch_partner_state payer_channel) secrethash with
                | Some lock =>
                    mret (true, p,
                          ChannelSend.events_for_onchain_secretreveal payer_channel secret
                            (lock_expiration lock) block_hash)
                | None => mret (transaction_sent, p, [])
                end
              else mret (transaction_sent, p, [])
            else mret (transaction_sent, p, [])
        end) transaction_sent transfers_pair;
  mret (transfers_pair, events).

(** The lock [events_to_remove_expired_locks] finds, as a hash-time lock or as
    one whose secret is known off-chain. *)
Definition expirable_lock (our_state : NettingChannelEndState) (secrethash : bytes)
    : Res (option (HashTimeLockState + UnlockPartialProofState)) :=
  match es_secrethashes_to_lockedlocks our_state !! secrethash with
  | Some lock =>
      assert! negb (has_key secrethash (es_secrethashes_to_unlockedlocks our_state))
        with "Locks for secrethash are already unlocked" in
      Ok (Some (inl lock))
  | None => Ok (inr <$> es_secrethashes_to_unlockedlocks our_state !! secrethash)
  end.

(** One iteration of its loop, for a channel that exists. *)
Definition remove_expired_lock (secrethash : bytes) (block_number : Z) (initial_routes : list RouteState)
    (channel : Loc) (p : MediationPairState) : M Random (MediationPairState * list Event) :=
  channel_state ← read channel;
  lock ← lift (expirable_lock (ch_our_state channel_state) secrethash);
  match lock with
  | None => mret (p, [])
  | Some lock =>
      let lock_expiration_threshold := get_sender_expiration_threshold (lt_expiration lock) in
      let has_lock_expired :=
        is_lock_expired (ch_our_state channel_state) lock block_number lock_expiration_threshold in
      let is_channel_open := bool_decide (get_status channel_state = STATE_OPENED) in
      let payee_address_metadata := get_address_metadata (mp_payee_address p) initial_routes in
      if ok has_lock_expired && is_channel_open then
        let p := set_mp_payee_state payee_expired p in
        expired_lock_events ←
          with_channel_prng channel (fun ch prng =>
            send_lock_expired ch lock prng payee_address_metadata);
        let unlock_failed :=
          EventUnlockFailed (ltu_payment_identifier (mp_payee_transfer p))
            (lock_secrethash (ltu_lock (mp_payee_transfer p))) "lock expired" in
        mret (p, expired_lock_events ++ [unlock_failed])
      else mret (p, [])
  end.

Definition events_to_remove_expired_locks (mediator_state : MediatorTransferState)
    (channelidentifiers_to_channels : ChannelMap) (block_number : Z)
    : M Random (MediatorTransferState * list Event) :=
  match ms_transfers_pair mediator_state with
  | [] => mret (mediator_state, [])
  | first_pair :: _ =>
      let initial_payer_transfer := mp_payer_transfer first_pair in
      '(_, pairs, events) ←
        for_pairs (fun _ p =>
          match get_payee_channel channelidentifiers_to_channels p with
          | None => mret (tt, p, [])
          | Some channel =>
              '(p, events) ←
                remove_expired_lock (ms_secrethash mediator_state) block_number
                  (lts_route_states initial_payer_transfer) channel p;
              mret (tt, p, events)
          end) tt (ms_transfers_pair mediator_state);
      mret (set_ms_transfers_pair pairs mediator_state, events)
  end.

(** ** Handlers *)

Definition secret_learned (state : MediatorTransferState) (channelidentifiers_to_channels : ChannelMap)
    (block_number : Z) (block_hash secret secrethash payee_address : bytes)
    : M Random (MediatorTransferState * list Event) :=
  '(state, secret_reveal_events) ← set_offchain_secret state channelidentifiers_to_channels secret secrethash;
  let pairs := set_offchain_reveal_state (ms_transfers_pair state) payee_address in
  '(pairs, onchain_secret_reveal) ←
    events_for_onchain_secretreveal_if_closed channelidentifiers_to_channels pairs secret secrethash block_hash;
  '(pairs, offchain_secret_reveal) ← events_for_secretreveal pairs secret;
  '(pairs, balance_proof) ←
    events_for_balanceproof channelidentifiers_to_channels pairs block_number secret secrethash;
  mret (set_ms_transfers_pair pairs state,
        secret_reveal_events ++ offchain_secret_reveal ++ balance_proof ++ onchain_secret_reveal).

(** The loop over the candidate routes: the first pair that can be forwarded. *)
Fixpoint mediate_over_routes (payer_channel : Loc) (addresses_to_channel : AddressMap)
    (token_network_address our_address : bytes) (payer_transfer : LockedTransferSignedState)
    (block_number : Z) (candidate_route_states : list RouteState)
    : M Random (option (MediationPairState * list Event)) :=
  match candidate_route_states with
  | [] => mret None
  | route_state :: rest =>
      let next := mediate_over_routes payer_channel addresses_to_channel token_network_address our_address
                    payer_transfer block_number rest in
      match truthy_bytes (hop_after route_state our_address) with
      | None => next
      | Some next_hop =>
          let target_token_network :=
            default token_network_address (rs_swaps route_state !! our_address) in
          match addresses_to_channel !! (target_token_network, next_hop) with
          | None => next
          | Some payee_channel =>
              '(mediation_transfer_pair, mediation_events) ←
                forward_transfer_pair payer_transfer payer_channel payee_channel block_number;
              match mediation_transfer_pair with
              | Some p => mret (Some (p, mediation_events))
              | None => next
              end
          end
      end
  end.

Definition mediate_transfer (state : MediatorTransferState) (payer_channel : Loc)
    (addresses_to_channel : AddressMap) (payer_transfer : LockedTransferSignedState) (block_number : Z)
    : M Random (MediatorTransferState * list Event) :=
  ch ← read payer_channel;
  _ ← lift (assert! bool_decide (es_address (ch_partner_state ch) = bps_sender (lts_balance_proof payer_transfer))
              with "Transfer must be signed by sender" in Ok tt);
  let our_address := es_address (ch_our_state ch) in
  heap ← get_heap;
  let candidate_route_states :=
    filter_acceptable_routes heap (ms_routes state) (ms_refunded_channels state) addresses_to_channel
      (ch_token_network_address ch) our_address in
  forwarded ←
    mediate_over_routes payer_channel addresses_to_channel (ch_token_network_address ch) our_address
      payer_transfer block_number candidate_route_states;
  match forwarded with
  | Some (p, mediation_events) =>
      mret (set_ms_transfers_pair (ms_transfers_pair state ++ [p]) state, mediation_events)
  | None => mret (set_ms_waiting_transfer (Some (WaitingTransferState_init payer_transfer)) state, [])
  end.

Definition handle_init (state_change : ActionInitMediator) (channelidentifiers_to_channels : ChannelMap)
    (addresses_to_channel : AddressMap) (block_number : Z)
    : M Random (option MediatorTransferState * list Event) :=
  let from_transfer := aim_from_transfer state_change in
  match channelidentifiers_to_channels !! hop_channel_identifier (aim_from_hop state_change) with
  | None => mret (None, [])
  | Some payer_channel =>
      let mediator_state :=
        MediatorTransferState_init (lock_secrethash (lts_lock from_transfer))
          (aim_candidate_route_states state_change) in
      '(is_valid, events, _) ←
        with_channel payer_channel (fun ch =>
          handle_receive_lockedtransfer ch from_transfer (payer_address_metadata from_transfer));
      if is_valid : bool then
        '(mediator_state, more) ←
          mediate_transfer mediator_state payer_channel addresses_to_channel from_transfer block_number;
        mret (Some mediator_state, events ++ more)
      else mret (None, events)
  end.

(** The [success_filter]: a transfer with our secret hash was sent. *)
Definition is_forwarded (secrethash : bytes) (event : Event) : bool :=
  match event with
  | SendLockedTransfer _ transfer => bool_decide (lock_secrethash (ltu_lock transfer) = secrethash)
  | _ => false
  end.

(** The retry of a waiting transfer at the beginning of [handle_block]. *)
Definition retry_waiting_transfer (mediator_state : MediatorTransferState)
    (channelidentifiers_to_channels : ChannelMap) (addresses_to_channel : AddressMap) (block_number : Z)
    : M Random (MediatorTransferState * list Event) :=
  match ms_waiting_transfer mediator_state with
  | None => mret (mediator_state, [])
  | Some waiting_transfer =>
      let secrethash := lock_secrethash (lts_lock (wt_transfer waiting_transfer)) in
      match channelidentifiers_to_channels !! lts_channel_identifier (wt_transfer waiting_transfer) with
      | None => mret (mediator_state, [])
      | Some payer_channel =>
          '(mediator_state, mediate_events) ←
            mediate_transfer mediator_state payer_channel addresses_to_channel
              (wt_transfer waiting_transfer) block_number;
          let mediation_happened := existsb (is_forwarded secrethash) mediate_events in
          mret (if mediation_happened then set_ms_waiting_transfer None mediator_state else mediator_state,
                mediate_events)
      end
  end.

Definition handle_block (mediator_state : MediatorTransferState) (state_change : Block)
    (channelidentifiers_to_channels : ChannelMap) (addresses_to_channel : AddressMap)
    : M Random (MediatorTransferState * list Event) :=
  let block_number := block_block_number state_change in
  '(mediator_state, mediate_events) ←
    retry_waiting_transfer mediator_state channelidentifiers_to_channels addresses_to_channel block_number;
  '(mediator_state, expired_locks_events) ←
    events_to_remove_expired_locks mediator_state channelidentifiers_to_channels block_number;
  '(pairs, secret_reveal_events) ←
    events_for_onchain_secretreveal_if_dangerzone channelidentifiers_to_channels
      (ms_secrethash mediator_state) (ms_transfers_pair mediator_state) block_number
      (block_block_hash state_change);
  '(pairs, waiting_transfer, unlock_fail_events) ←
    events_for_expired_pairs channelidentifiers_to_channels pairs (ms_waiting_transfer mediator_state)
      block_number;
  mret (set_ms_waiting_transfer waiting_transfer (set_ms_transfers_pair pairs mediator_state),
        mediate_events ++ unlock_fail_events ++ secret_reveal_events ++ expired_locks_events).

Definition handle_refundtransfer (mediator_state : MediatorTransferState)
    (mediator_state_change : ReceiveTransferRefund) (channelidentifiers_to_channels : ChannelMap)
    (addresses_to_channel : AddressMap) (block_number : Z)
    : M Random (MediatorTransferState * list Event) :=
  match ms_secret mediator_state with
  | Some _ => mret (mediator_state, [])
  | None =>
      transfer_pair ← lift (py_get (ms_transfers_pair mediator_state) (-1));
      let payee_transfer := mp_payee_transfer transfer_pair in
      let payer_transfer := rtr_transfer mediator_state_change in
      match channelidentifiers_to_channels !! lts_channel_identifier payer_transfer with
      | None => mret (mediator_state, [])
      | Some payer_channel =>
          '(is_valid, channel_events, _) ←
            with_channel payer_channel (fun ch =>
              ChannelHandlers.handle_refundtransfer payee_transfer ch mediator_state_change);
          if is_valid : bool then
            ch ← read payer_channel;
            let mediator_state :=
              set_ms_refunded_channels (ms_refunded_channels mediator_state ++ [ch_identifier ch])
                mediator_state in
            '(mediator_state, more) ←
              mediate_transfer mediator_state payer_channel addresses_to_channel payer_transfer block_number;
            mret (mediator_state, channel_events ++ more)
          else mret (mediator_state, channel_events)
      end
  end.

Definition handle_offchain_secretreveal (mediator_state : MediatorTransferState)
    (mediator_state_change : ReceiveSecretReveal) (channelidentifiers_to_channels : ChannelMap)
    (block_number : Z) (block_hash : bytes) : M Random (MediatorTransferState * list Event) :=
  let is_valid_reveal :=
    is_valid_secret_reveal (rsr_secrethash mediator_state_change) (ms_secrethash mediator_state) in
  let is_secret_unknown := is_none (ms_secret mediator_state) in
  match last (ms_transfers_pair mediator_state) with
  | None => mret (mediator_state, [])
  | Some transfer_pair =>
      match channelidentifiers_to_channels !! lts_channel_identifier (mp_payer_transfer transfer_pair) with
      | None => mret (mediator_state, [])
      | Some payer_channel =>
          ch ← read payer_channel;
          let has_payer_transfer_expired :=
            is_transfer_expired (mp_payer_transfer transfer_pair) ch block_number in
          if is_secret_unknown && is_valid_reveal && negb has_payer_transfer_expired
          then
            secret_learned mediator_state channelidentifiers_to_channels block_number block_hash
              (rsr_secret mediator_state_change) (rsr_secrethash mediator_state_change)
              (rsr_sender mediator_state_change)
          else mret (mediator_state, [])
      end
  end.

(** The block number of the call is replaced by the one of the log. *)
Definition handle_onchain_secretreveal (mediator_state : MediatorTransferState)
    (onchain_secret_reveal : ContractReceiveSecretReveal) (channelidentifiers_to_channels : ChannelMap)
    : M Random (MediatorTransferState * list Event) :=
  let secrethash := crsr_secrethash onchain_secret_reveal in
  if is_valid_secret_reveal secrethash (ms_secrethash mediator_state) then
    let secret := crsr_secret onchain_secret_reveal in
    let block_number := cr_block_number (crsr_contract onchain_secret_reveal) in
    '(mediator_state, secret_reveal) ←
      set_onchain_secret mediator_state channelidentifiers_to_channels secret secrethash block_number;
    '(pairs, balance_proof) ←
      events_for_balanceproof channelidentifiers_to_channels (ms_transfers_pair mediator_state)
        block_number secret secrethash;
    mret (set_ms_transfers_pair pairs mediator_state, secret_reveal ++ balance_proof)
  else mret (mediator_state, []).

Definition handle_unlock (mediator_state : MediatorTransferState) (state_change : ReceiveUnlock)
    (channelidentifiers_to_channels : ChannelMap) : M Random (MediatorTransferState * list Event) :=
  let balance_proof_sender := bps_sender (ru_balance_proof state_change) in
  let channel_identifier := bps_channel_identifier (ru_balance_proof state_change) in
  '(_, pairs, events) ←
    for_pairs (fun _ p =>
      if bool_decide (bps_sender (lts_balance_proof (mp_payer_transfer p)) = balance_proof_sender) then
        match channelidentifiers_to_channels !! channel_identifier with
        | None => mret (tt, p, [])
        | Some channel_state =>
            let recipient_metadata :=
              get_address_metadata balance_proof_sender (ms_routes mediator_state) in
            '(is_valid, channel_events, _) ←
              with_channel channel_state (fun ch =>
                ChannelHandlers.handle_unlock ch state_change recipient_metadata);
            if is_valid : bool then
              let unlock :=
                EventUnlockClaimSuccess (ltu_payment_identifier (mp_payee_transfer p))
                  (lock_secrethash (ltu_lock (mp_payee_transfer p))) in
              mret (tt, set_mp_payer_state payer_balance_proof p, channel_events ++ [unlock])
            else mret (tt, p, channel_events)
        end
      else mret (tt, p, [])) tt (ms_transfers_pair mediator_state);
  mret (set_ms_transfers_pair pairs mediator_state, events).

(** [channel.handle_receive_lock_expired] at a channel object, followed by the
    assertion on its result (which the call for the waiting transfer does not
    have; the handler always returns a channel). *)
Definition receive_lock_expired_at (channel : Loc) (state_change : ReceiveLockExpired) (block_number : Z)
    (routes : list RouteState) : M Random (list Event) :=
  with_channel channel (fun ch =>
    let recipient_metadata := get_address_metadata (es_address (ch_partner_state ch)) routes in
    let* (new_state, events) := handle_receive_lock_expired ch state_change block_number recipient_metadata in
    match new_state with
    | Some ch => Ok (ch, events)
    | None => Raise (AssertionError "Handling a receive_lock_expire should never delete the channel task")
    end).

(** The loop over the pairs.  A pair whose channel is gone makes the handler
    return at once, without the events collected so far ([None]); the changes of
    the pairs before it stay. *)
Fixpoint expire_pairs (channelidentifiers_to_channels : ChannelMap) (state_change : ReceiveLockExpired)
    (block_number : Z) (routes : list RouteState) (secrethash : bytes) (pairs : list MediationPairState)
    : M Random (list MediationPairState * option (list Event)) :=
  match pairs with
  | [] => mret ([], Some [])
  | p :: rest =>
      match channelidentifiers_to_channels !! lts_channel_identifier (mp_payer_transfer p) with
      | None => mret (p :: rest, None)
      | Some channel =>
          events ← receive_lock_expired_at channel state_change block_number routes;
          ch ← read channel;
          let p :=
            if is_none (get_lock (ch_partner_state ch) secrethash)
            then set_mp_payer_state payer_expired p else p in
          '(rest, more) ←
            expire_pairs channelidentifiers_to_channels state_change block_number routes secrethash rest;
          mret (p :: rest, (fun more => events ++ more) <$> more)
      end
  end.

Definition handle_lock_expired (mediator_state : MediatorTransferState) (state_change : ReceiveLockExpired)
    (channelidentifiers_to_channels : ChannelMap) (block_number : Z)
    : M Random (MediatorTransferState * list Event) :=
  '(pairs, events) ←
    expire_pairs channelidentifiers_to_channels state_change block_number (ms_routes mediator_state)
      (ms_secrethash mediator_state) (ms_transfers_pair mediator_state);
  let mediator_state := set_ms_transfers_pair pairs mediator_state in
  match events with
  | None => mret (mediator_state, [])
  | Some events =>
      let waiting_channel :=
        waiting_transfer ← ms_waiting_transfer mediator_state;
        channelidentifiers_to_channels !! lts_channel_identifier (wt_transfer waiting_transfer) in
      match waiting_channel with
      | None => mret (mediator_state, events)
      | Some waiting_channel =>
          more ← receive_lock_expired_at waiting_channel state_change block_number (ms_routes mediator_state);
          mret (mediator_state, events ++ more)
      end
  end.

(** ** The state machine *)

Definition dispatch (mediator_state : option MediatorTransferState) (state_change : StateChange)
    (channelidentifiers_to_channels : ChannelMap) (addresses_to_channel : AddressMap)
    (block_number : Z) (block_hash : bytes) : M Random (option MediatorTransferState * list Event) :=
  let with_task (msg : string) (k : MediatorTransferState -> M Random (MediatorTransferState * list Event)) :=
    match mediator_state with
    | Some mediator_state => '(state, events) ← k mediator_state; mret (Some state, events)
    | None => lift (Raise (AssertionError msg))
    end in
  match state_change with
  | SCActionInitMediator a =>
      match mediator_state with
      | None => handle_init a channelidentifiers_to_channels addresses_to_channel block_number
      | Some _ => mret (mediator_state, [])
      end
  | SCBlock a =>
      with_task "Block should be accompanied by a valid mediator state" (fun st =>
        handle_block st a channelidentifiers_to_channels addresses_to_channel)
  | SCReceiveTransferRefund a =>
      with_task "ReceiveTransferRefund should be accompanied by a valid mediator state" (fun st =>
        handle_refundtransfer st a channelidentifiers_to_channels addresses_to_channel block_number)
  | SCReceiveSecretReveal a =>
      with_task "ReceiveSecretReveal should be accompanied by a valid mediator state" (fun st =>
        handle_offchain_secretreveal st a channelidentifiers_to_channels block_number block_hash)
  | SCContractReceiveSecretReveal a =>
      with_task "ContractReceiveSecretReveal should be accompanied by a valid mediator state" (fun st =>
        handle_onchain_secretreveal st a channelidentifiers_to_channels)
  | SCReceiveUnlock a =>
      with_task "ReceiveUnlock should be accompanied by a valid mediator state" (fun st =>
        handle_unlock st a channelidentifiers_to_channels)
  | SCReceiveLockExpired a =>
      with_task "ReceiveLockExpired should be accompanied by a valid mediator state" (fun st =>
        handle_lock_expired st a channelidentifiers_to_channels block_number)
  | _ => mret (mediator_state, [])
  end.

Definition state_transition (mediator_state : option MediatorTransferState) (state_change : StateChange)
    (channelidentifiers_to_channels : ChannelMap) (addresses_to_channel : AddressMap)
    (block_number : Z) (block_hash : bytes) : M Random (option MediatorTransferState * list Event) :=
  '(new_state, events) ←
    dispatch mediator_state state_change channelidentifiers_to_channels addresses_to_channel block_number
      block_hash;
  _ ← lift (match new_state with
            | Some state => sanity_check state channelidentifiers_to_channels
            | None => Ok tt
            end);
  heap ← get_heap;
  mret (clear_if_finalized new_state channelidentifiers_to_channels heap, events).
End Mediator.
End mediator.
