(* ===== verification/Initiator.v ===== *)
(** * The initiator of a payment

    [transfer/mediated_transfer/initiator.py] (module [initiator]): one transfer
    of a payment.  A call works on one channel, which is passed in and returned,
    except [try_new_route], which chooses among the channel objects of the world
    ([World]).

    The task object of a transfer is mutated in place; a call also tells whether
    it is the [new_state] of the result, or [None] is. *)

From Stdlib Require Import ZArith Lia Strings.Byte SpecFloat.
From stdpp Require Import base functions gmap list strings pretty.
From S2P Require Import Prelude Encoding MediationFee State Events ChannelViews ChannelValidation ChannelSend.
From S2P Require Import ChannelHandlers TaskState World Mediator.

Open Scope Z_scope.

(** ** Amounts *)

(** The [float] literal that denotes [a / b]: the nearest double. *)
Definition float_literal (a b : Z) : spec_float :=
  SFdiv float_prec float_emax (exact_float a) (exact_float b).

Definition float_add (x y : spec_float) : spec_float := SFadd float_prec float_emax x y.

(** [n * x] and [x * n] of an [int] and a [float]. *)
Definition int_float_mul (n : Z) (x : spec_float) : Res spec_float :=
  let* n := float_of_int n in Ok (float_mul n x).

(** The integer part of a conversion, given the rounding of [m / 2^k]. *)
Definition float_to_int (rounded : Z -> Z -> Z) (x : spec_float) : Res Z :=
  match x with
  | S754_zero _ => Ok 0
  | S754_infinity _ => Raise (OverflowError "cannot convert float infinity to integer")
  | S754_nan => Raise (ValueError "cannot convert float NaN to integer")
  | S754_finite s m e =>
      let m := if s then Zneg m else Zpos m in
      Ok (if 0 <=? e then Z.shiftl m e else rounded m (- e))
  end.

(** [math.ceil(x)] and [int(x)]. *)
Definition float_ceil : spec_float -> Res Z := float_to_int (fun m k => - Z.shiftr (- m) k).
Definition float_trunc : spec_float -> Res Z := float_to_int (fun m k => Z.quot m (2 ^ k)).

Definition DEFAULT_MEDIATION_FEE_MARGIN : spec_float := float_literal 3 100.
Definition PAYMENT_AMOUNT_BASED_FEE_MARGIN : spec_float := float_literal 5 10000.
Definition MAX_MEDIATION_FEE_PERC : spec_float := float_literal 2 10.
Definition DEFAULT_WAIT_BEFORE_LOCK_REMOVAL : Z := 2 * DEFAULT_NUMBER_OF_BLOCK_CONFIRMATIONS.

Definition calculate_fee_margin (payment_amount estimated_fee : Z) : Res Z :=
  if estimated_fee =? 0 then Ok 0
  else
    let* fee_part := int_float_mul (Z.abs estimated_fee) DEFAULT_MEDIATION_FEE_MARGIN in
    let* amount_part := int_float_mul payment_amount PAYMENT_AMOUNT_BASED_FEE_MARGIN in
    float_ceil (float_add fee_part amount_part).

Definition calculate_safe_amount_with_fee (payment_amount estimated_fee : Z) : Res Z :=
  let* margin := calculate_fee_margin payment_amount estimated_fee in
  Ok (payment_amount + estimated_fee + margin).

(** [max_amount_limit] of [try_new_route] *)
Definition max_amount_limit (amount : Z) : Res Z :=
  let* x := int_float_mul amount MAX_MEDIATION_FEE_PERC in
  let* extra := float_trunc x in
  Ok (amount + extra).

(** [addresses_to_channel] as the dictionary it is, in the order of its
    insertions: [try_new_route] looks at its first channel. *)
Abbreviation AddressDict := (list ((bytes * bytes) * Loc)).

(** The task's object after a call and whether it is the new state, the events,
    the channel after the call, and the generator. *)
Abbreviation InitiatorTransition Random :=
  (InitiatorTransferState * bool * list Event * NettingChannelState * Random)%type.

Definition NO_ROUTE_REASON : string := "None of the available routes could be used".
Definition FEE_LIMIT_REASON : string :=
  " and at least one of them exceeded the maximum fee limit " +:+
  "(see https://gatecoin.readthedocs.io/en/stable/using-gatecoin-on-mainnet/overview.html#frequently-asked-questions)".

Module initiator.
Section Initiator.
Context `{Externals} {Random : Type} `{RandomGen Random}.

(** ** Unlocking *)

Definition events_for_unlock_lock (initiator_state : InitiatorTransferState)
    (channel_state : NettingChannelState) (secret secrethash : bytes) (prng : Random)
    (block_number : Z) : Res (list Event * NettingChannelState * Random) :=
  let transfer_description := it_transfer_description initiator_state in
  let '(message_identifier, prng) := message_identifier_from_prng prng in
  let recipient_address := es_address (ch_partner_state channel_state) in
  let recipient_metadata := get_address_metadata recipient_address [it_route initiator_state] in
  let* (channel_state, unlock_lock) :=
    send_unlock channel_state message_identifier (td_payment_identifier transfer_description) secret
      secrethash block_number recipient_metadata in
  let payment_sent_success :=
    EventPaymentSentSuccess (ch_token_network_registry_address channel_state)
      (ch_token_network_address channel_state) (td_payment_identifier transfer_description)
      (td_amount transfer_description) (td_target transfer_description) secret
      (rs_route (it_route initiator_state)) in
  let unlock_success :=
    EventUnlockSuccess (td_payment_identifier transfer_description) (td_secrethash transfer_description) in
  Ok ([unlock_lock; payment_sent_success; unlock_success], channel_state, prng).

(** ** Blocks *)

Definition handle_block (initiator_state : InitiatorTransferState) (state_change : Block)
    (channel_state : NettingChannelState) (prng : Random) : Res (InitiatorTransition Random) :=
  let secrethash := lock_secrethash (ltu_lock (it_transfer initiator_state)) in
  match es_secrethashes_to_lockedlocks (ch_our_state channel_state) !! secrethash with
  | None =>
      let partner_has_lock :=
        has_key secrethash (es_secrethashes_to_lockedlocks (ch_partner_state channel_state)) in
      Ok (initiator_state, partner_has_lock, [], channel_state, prng)
  | Some locked_lock =>
      let lock_expiration_threshold := lock_expiration locked_lock + DEFAULT_WAIT_BEFORE_LOCK_REMOVAL in
      let lock_has_expired :=
        is_lock_expired (ch_our_state channel_state) locked_lock (block_block_number state_change)
          lock_expiration_threshold in
      if ok lock_has_expired && negb (bool_decide (it_transfer_state initiator_state = transfer_expired))
      then
        let is_channel_open := bool_decide (get_status channel_state = STATE_OPENED) in
        let* (channel_state, events, prng) :=
          if is_channel_open then
            let recipient_address := es_address (ch_partner_state channel_state) in
            let recipient_metadata := get_address_metadata recipient_address [it_route initiator_state] in
            send_lock_expired channel_state locked_lock prng recipient_metadata
          else Ok (channel_state, [], prng) in
        let reason :=
          if it_received_secret_request initiator_state
          then "lock expired, despite receiving secret request" else "lock expired" in
        let transfer_description := it_transfer_description initiator_state in
        let payment_identifier := td_payment_identifier transfer_description in
        let payment_failed :=
          EventPaymentSentFailed (td_token_network_registry_address transfer_description)
            (td_token_network_address transfer_description) payment_identifier
            (td_target transfer_description) reason in
        let route_failed :=
          EventRouteFailed secrethash (rs_route (it_route initiator_state))
            (td_token_network_address transfer_description) in
        let unlock_failed :=
          EventUnlockFailed payment_identifier (td_secrethash transfer_description) reason in
        let lock_exists := lock_exists_in_either_channel_side channel_state secrethash in
        let initiator_state := set_it_transfer_state transfer_expired initiator_state in
        Ok (initiator_state, lock_exists, events ++ [payment_failed; route_failed; unlock_failed],
            channel_state, prng)
      else Ok (initiator_state, true, [], channel_state, prng)
  end.

(** ** Sending the transfer *)

Definition send_lockedtransfer (transfer_description : TransferDescriptionWithSecretState)
    (channel_state : NettingChannelState) (message_identifier block_number : Z)
    (route_state : RouteState) (route_states : list RouteState) : Res (NettingChannelState * Event) :=
  assert! bool_decide (ch_token_network_address channel_state = td_token_network_address transfer_description)
    with "token_network_address mismatch" in
  let lock_expiration :=
    get_safe_initial_expiration block_number (ch_reveal_timeout channel_state)
      (td_lock_timeout transfer_description) in
  let* total_amount :=
    calculate_safe_amount_with_fee (td_amount transfer_description) (rs_estimated_fee route_state) in
  let recipient_address := es_address (ch_partner_state channel_state) in
  let recipient_metadata := get_address_metadata recipient_address route_states in
  ChannelSend.send_lockedtransfer channel_state (td_initiator transfer_description)
    (td_target transfer_description) total_amount message_identifier
    (td_payment_identifier transfer_description) lock_expiration
    (Some (td_secret transfer_description)) (td_secrethash transfer_description) route_states
    recipient_metadata None.

(** The loop over the candidates: the first usable channel with its route, and
    whether a route before it exceeded the fee limit. *)
Fixpoint choose_route (heap : Heap) (addresses_to_channel : AddressDict) (our_address : bytes)
    (transfer_description : TransferDescriptionWithSecretState) (route_fee_exceeds_max : bool)
    (candidate_route_states : list RouteState) : Res (option (Loc * RouteState) * bool) :=
  match candidate_route_states with
  | [] => Ok (None, route_fee_exceeds_max)
  | route_state :: rest =>
      let continue route_fee_exceeds_max :=
        choose_route heap addresses_to_channel our_address transfer_description route_fee_exceeds_max rest in
      match truthy_bytes (hop_after route_state our_address) with
      | None => continue route_fee_exceeds_max
      | Some next_hop =>
          match od_get (td_token_network_address transfer_description, next_hop) addresses_to_channel with
          | None => continue route_fee_exceeds_max
          | Some candidate_channel_state =>
              let* amount_with_fee :=
                calculate_safe_amount_with_fee (td_amount transfer_description) (rs_estimated_fee route_state) in
              let* limit := max_amount_limit (td_amount transfer_description) in
              if limit <? amount_with_fee then continue true
              else if bool_decide (is_channel_usable_for_new_transfer (heap candidate_channel_state)
                                     amount_with_fee (td_lock_timeout transfer_description) = USABLE)
              then Ok (Some (candidate_channel_state, route_state), route_fee_exceeds_max)
              else continue route_fee_exceeds_max
          end
      end
  end.

Definition try_new_route (addresses_to_channel : AddressDict) (candidate_route_states : list RouteState)
    (transfer_description : TransferDescriptionWithSecretState) (block_number : Z)
    : M Random (option InitiatorTransferState * list Event) :=
  heap ← get_heap;
  '(chosen, route_fee_exceeds_max) ←
    match addresses_to_channel with
    | [] => mret (None, false)
    | (_, any_channel) :: _ =>
        let our_address := es_address (ch_our_state (heap any_channel)) in
        lift (choose_route heap addresses_to_channel our_address transfer_description false
                candidate_route_states)
    end;
  match chosen with
  | None =>
      let reason :=
        if route_fee_exceeds_max : bool then NO_ROUTE_REASON +:+ FEE_LIMIT_REASON else NO_ROUTE_REASON in
      mret (None,
            [EventPaymentSentFailed (td_token_network_registry_address transfer_description)
               (td_token_network_address transfer_description) (td_payment_identifier transfer_description)
               (td_target transfer_description) reason])
  | Some (channel_state, chosen_route_state) =>
      message_identifier ← fresh_message_identifier;
      lockedtransfer_event ←
        with_channel channel_state (fun ch =>
          send_lockedtransfer transfer_description ch message_identifier block_number chosen_route_state
            candidate_route_states);
      transfer ← lift (mediator.sent_transfer lockedtransfer_event);
      ch ← read channel_state;
      mret (Some (InitiatorTransferState_init chosen_route_state transfer_description (ch_identifier ch)
                    transfer),
            [lockedtransfer_event])
  end.

(** ** The secret *)

Definition handle_secretrequest (initiator_state : InitiatorTransferState)
    (state_change : ReceiveSecretRequest) (channel_state : NettingChannelState) (prng : Random)
    : Res (InitiatorTransition Random) :=
  let transfer_description := it_transfer_description initiator_state in
  let is_message_from_target :=
    bool_decide (rsq_sender state_change = td_target transfer_description)
    && bool_decide (rsq_secrethash state_change = td_secrethash transfer_description)
    && (rsq_payment_identifier state_change =? td_payment_identifier transfer_description) in
  if negb is_message_from_target then Ok (initiator_state, true, [], channel_state, prng)
  else
    match get_lock (ch_our_state channel_state) (td_secrethash transfer_description) with
    | None => Raise (AssertionError "channel is does not have the transfer's lock")
    | Some lock =>
        if it_received_secret_request initiator_state
        then Ok (initiator_state, true, [], channel_state, prng)
        else
          let is_valid_secretrequest :=
            (td_amount transfer_description <=? rsq_amount state_change)
            && (rsq_expiration state_change =? lock_expiration lock)
            && negb (bool_decide (td_secret transfer_description = [])) in
          if is_valid_secretrequest then
            let '(message_identifier, prng) := message_identifier_from_prng prng in
            let recipient := td_target transfer_description in
            let recipient_metadata := get_address_metadata recipient [it_route initiator_state] in
            let revealsecret :=
              SendSecretReveal_init
                {| sm_recipient := recipient; sm_recipient_metadata := recipient_metadata;
                   sm_canonical_identifier := CANONICAL_IDENTIFIER_UNORDERED_QUEUE;
                   sm_message_identifier := message_identifier |}
                (td_secret transfer_description) in
            let initiator_state := set_it_transfer_state transfer_secret_revealed initiator_state in
            let initiator_state := set_it_received_secret_request true initiator_state in
            Ok (initiator_state, true, [revealsecret], channel_state, prng)
          else
            let initiator_state := set_it_received_secret_request true initiator_state in
            let invalid_request :=
              EventInvalidSecretRequest (rsq_payment_identifier state_change)
                (td_amount transfer_description) (rsq_amount state_change) in
            Ok (initiator_state, true, [invalid_request], channel_state, prng)
    end.

Definition handle_offchain_secretreveal (initiator_state : InitiatorTransferState)
    (state_change : ReceiveSecretReveal) (channel_state : NettingChannelState) (prng : Random)
    (block_number : Z) : Res (InitiatorTransition Random) :=
  let valid_reveal :=
    is_valid_secret_reveal (rsr_secrethash state_change)
      (td_secrethash (it_transfer_description initiator_state)) in
  let sent_by_partner := bool_decide (rsr_sender state_change = es_address (ch_partner_state channel_state)) in
  let is_channel_open := bool_decide (get_status channel_state = STATE_OPENED) in
  let lock := ltu_lock (it_transfer initiator_state) in
  let expired := is_lock_expired (ch_our_state channel_state) lock block_number (lock_expiration lock) in
  if valid_reveal && is_channel_open && sent_by_partner && negb (ok expired) then
    let* (events, channel_state, prng) :=
      events_for_unlock_lock initiator_state channel_state (rsr_secret state_change)
        (rsr_secrethash state_change) prng block_number in
    Ok (initiator_state, false, events, channel_state, prng)
  else Ok (initiator_state, true, [], channel_state, prng).

(** [delete_lock] has its default, [True]. *)
Definition handle_onchain_secretreveal (initiator_state : InitiatorTransferState)
    (state_change : ContractReceiveSecretReveal) (channel_state : NettingChannelState) (prng : Random)
    (block_number : Z) : Res (InitiatorTransition Random) :=
  let secret := crsr_secret state_change in
  let secrethash := td_secrethash (it_transfer_description initiator_state) in
  let is_valid_secret := is_valid_secret_reveal (crsr_secrethash state_change) secrethash in
  let is_channel_open := bool_decide (get_status channel_state = STATE_OPENED) in
  let reveal_block_number := cr_block_number (crsr_contract state_change) in
  let lock := ltu_lock (it_transfer initiator_state) in
  let is_lock_expired' := lock_expiration lock <? reveal_block_number in
  let is_lock_unlocked := is_valid_secret && negb is_lock_expired' in
  let* channel_state :=
    if is_lock_unlocked
    then register_onchain_secret secret secrethash reveal_block_number true channel_state
    else Ok channel_state in
  let expired := is_lock_expired (ch_our_state channel_state) lock block_number (lock_expiration lock) in
  if is_lock_unlocked && is_channel_open && negb (ok expired) then
    let* (events, channel_state, prng) :=
      events_for_unlock_lock initiator_state channel_state (crsr_secret state_change)
        (crsr_secrethash state_change) prng block_number in
    Ok (initiator_state, false, events, channel_state, prng)
  else Ok (initiator_state, true, [], channel_state, prng).

Definition state_transition (initiator_state : InitiatorTransferState) (state_change : StateChange)
    (channel_state : NettingChannelState) (prng : Random) (block_number : Z)
    : Res (InitiatorTransition Random) :=
  match state_change with
  | SCBlock a => handle_block initiator_state a channel_state prng
  | SCReceiveSecretRequest a => handle_secretrequest initiator_state a channel_state prng
  | SCReceiveSecretReveal a =>
      handle_offchain_secretreveal initiator_state a channel_state prng block_number
  | SCContractReceiveSecretReveal a =>
      handle_onchain_secretreveal initiator_state a channel_state prng block_number
  | _ => Ok (initiator_state, true, [], channel_state, prng)
  end.
End Initiator.
End initiator.
