(* ===== verification/InitiatorManager.v ===== *)
(** * The payments of an initiator

    [transfer/mediated_transfer/initiator_manager.py] (module
    [initiator_manager]): a payment and its transfers, one per secret hash.  The
    task's own state is returned updated, the channels are objects of the
    world. *)

From Stdlib Require Import ZArith Lia Strings.Byte.
From stdpp Require Import base functions gmap list strings pretty.
From S2P Require Import Prelude Encoding MediationFee State Events ChannelViews ChannelValidation ChannelSend.
From S2P Require Import ChannelHandlers TaskState World Mediator Initiator.

Open Scope Z_scope.

Module initiator_manager.
Section Manager.
Context `{Externals} {Random : Type} `{RandomGen Random}.

Definition clear_if_finalized (new_state : option InitiatorPaymentState) (events : list Event)
    : option InitiatorPaymentState * list Event :=
  match new_state with
  | None => (None, events)
  | Some state =>
      if (length (ip_initiator_transfers state) =? 0)%nat then (None, events) else (Some state, events)
  end.

Definition transfer_exists (payment_state : InitiatorPaymentState) (secrethash : bytes) : bool :=
  is_some (od_get secrethash (ip_initiator_transfers payment_state)).

Definition cancel_other_transfers (payment_state : InitiatorPaymentState) : InitiatorPaymentState :=
  set_ip_initiator_transfers
    (map (fun '(k, it) => (k, set_it_transfer_state transfer_cancelled it))
       (ip_initiator_transfers payment_state)) payment_state.

Definition can_cancel (initiator : InitiatorTransferState) : bool :=
  negb (bool_decide (it_transfer_state initiator = transfer_secret_revealed)).

Definition events_for_cancel_current_route (route_state : RouteState)
    (transfer_description : TransferDescriptionWithSecretState) : list Event :=
  [EventUnlockFailed (td_payment_identifier transfer_description) (td_secrethash transfer_description)
     "route was canceled";
   EventRouteFailed (td_secrethash transfer_description) (rs_route route_state)
     (td_token_network_address transfer_description)].

Definition cancel_current_route (payment_state : InitiatorPaymentState)
    (initiator_state : InitiatorTransferState) : Res (InitiatorPaymentState * list Event) :=
  assert! can_cancel initiator_state with "Cannot cancel a route after the secret is revealed" in
  Ok (set_ip_cancelled_channels
        (ip_cancelled_channels payment_state ++ [it_channel_identifier initiator_state]) payment_state,
      events_for_cancel_current_route (it_route initiator_state) (it_transfer_description initiator_state)).

(** The transfer object stored under [key] after it was changed. *)
Definition put_transfer (key : bytes) (initiator_state : InitiatorTransferState)
    (payment_state : InitiatorPaymentState) : InitiatorPaymentState :=
  set_ip_initiator_transfers (od_set key initiator_state (ip_initiator_transfers payment_state))
    payment_state.

(** [del payment_state.initiator_transfers[secrethash]] *)
Definition del_transfer (secrethash : bytes) (payment_state : InitiatorPaymentState)
    : Res InitiatorPaymentState :=
  if transfer_exists payment_state secrethash
  then Ok (set_ip_initiator_transfers (od_del secrethash (ip_initiator_transfers payment_state))
             payment_state)
  else Raise KeyError.

(** The transfer is the object found under [key]. *)
Definition subdispatch_to_initiatortransfer (payment_state : InitiatorPaymentState) (key : bytes)
    (initiator_state : InitiatorTransferState) (state_change : StateChange)
    (channelidentifiers_to_channels : ChannelMap) (block_number : Z)
    : M Random (InitiatorPaymentState * list Event) :=
  match channelidentifiers_to_channels !! it_channel_identifier initiator_state with
  | None => mret (payment_state, [])
  | Some channel_state =>
      '(initiator_state, is_new_state, events) ←
        with_channel_prng channel_state (fun ch prng =>
          let* (initiator_state, is_new_state, events, ch, prng) :=
            initiator.state_transition initiator_state state_change ch prng block_number in
          Ok (ch, (initiator_state, is_new_state, events), prng));
      let payment_state := put_transfer key initiator_state payment_state in
      if is_new_state : bool then mret (payment_state, events)
      else
        payment_state ←
          lift (del_transfer (lock_secrethash (ltu_lock (it_transfer initiator_state))) payment_state);
        mret (payment_state, events)
  end.

(** The loop over the copied list of keys. *)
Fixpoint subdispatch_to_transfers (payment_state : InitiatorPaymentState) (secrethashes : list bytes)
    (state_change : StateChange) (channelidentifiers_to_channels : ChannelMap) (block_number : Z)
    : M Random (InitiatorPaymentState * list Event) :=
  match secrethashes with
  | [] => mret (payment_state, [])
  | secrethash :: rest =>
      match od_get secrethash (ip_initiator_transfers payment_state) with
      | None => lift (Raise KeyError)
      | Some initiator_state =>
          '(payment_state, events) ←
            subdispatch_to_initiatortransfer payment_state secrethash initiator_state state_change
              channelidentifiers_to_channels block_number;
          '(payment_state, more) ←
            subdispatch_to_transfers payment_state rest state_change channelidentifiers_to_channels
              block_number;
          mret (payment_state, events ++ more)
      end
  end.

Definition subdispatch_to_all_initiatortransfer (payment_state : InitiatorPaymentState)
    (state_change : StateChange) (channelidentifiers_to_channels : ChannelMap) (block_number : Z)
    : M Random (InitiatorPaymentState * list Event) :=
  subdispatch_to_transfers payment_state (ip_initiator_transfers payment_state).*1 state_change
    channelidentifiers_to_channels block_number.

Definition handle_block (payment_state : InitiatorPaymentState) (state_change : Block)
    (channelidentifiers_to_channels : ChannelMap) (block_number : Z)
    : M Random (InitiatorPaymentState * list Event) :=
  subdispatch_to_all_initiatortransfer payment_state (SCBlock state_change)
    channelidentifiers_to_channels block_number.

Definition handle_init (payment_state : option InitiatorPaymentState) (state_change : ActionInitInitiator)
    (addresses_to_channel : AddressDict) (block_number : Z)
    : M Random (option InitiatorPaymentState * list Event) :=
  match payment_state with
  | Some _ => mret (payment_state, [])
  | None =>
      '(new_state, events) ←
        initiator.try_new_route addresses_to_channel (aii_routes state_change) (aii_transfer state_change)
          block_number;
      match new_state with
      | Some new_state =>
          let payment_state :=
            {| ip_routes := aii_routes state_change;
               ip_initiator_transfers :=
                 [(lock_secrethash (ltu_lock (it_transfer new_state)), new_state)];
               ip_cancelled_channels := [] |} in
          mret (Some payment_state, events)
      | None => mret (None, events)
      end
  end.

(** The loop of [handle_cancelpayment] over the items of the dictionary. *)
Fixpoint cancel_transfers (heap : Heap) (channelidentifiers_to_channels : ChannelMap)
    (payment_state : InitiatorPaymentState) (transfers : list (bytes * InitiatorTransferState))
    : Res (InitiatorPaymentState * list Event) :=
  match transfers with
  | [] => Ok (payment_state, [])
  | (key, initiator_state) :: rest =>
      match channelidentifiers_to_channels !! it_channel_identifier initiator_state with
      | None => cancel_transfers heap channelidentifiers_to_channels payment_state rest
      | Some channel_state =>
          let channel_state := heap channel_state in
          if can_cancel initiator_state then
            let transfer_description := it_transfer_description initiator_state in
            let* (payment_state, cancel_events) := cancel_current_route payment_state initiator_state in
            let initiator_state := set_it_transfer_state transfer_cancelled initiator_state in
            let payment_state := put_transfer key initiator_state payment_state in
            let cancel :=
              EventPaymentSentFailed (ch_token_network_registry_address channel_state)
                (ch_token_network_address channel_state) (td_payment_identifier transfer_description)
                (td_target transfer_description) "user canceled payment" in
            let* (payment_state, more) :=
              cancel_transfers heap channelidentifiers_to_channels payment_state rest in
            Ok (payment_state, (cancel_events ++ [cancel]) ++ more)
          else cancel_transfers heap channelidentifiers_to_channels payment_state rest
      end
  end.

Definition handle_cancelpayment (payment_state : InitiatorPaymentState)
    (channelidentifiers_to_channels : ChannelMap) : M Random (InitiatorPaymentState * list Event) :=
  heap ← get_heap;
  lift (cancel_transfers heap channelidentifiers_to_channels payment_state
          (ip_initiator_transfers payment_state)).

Definition handle_failroute (payment_state : InitiatorPaymentState)
    (state_change : ReceiveTransferCancelRoute) : Res (InitiatorPaymentState * list Event) :=
  match od_get (lock_secrethash (lts_lock (rtc_transfer state_change))) (ip_initiator_transfers payment_state) with
  | Some initiator_state =>
      if can_cancel initiator_state then cancel_current_route payment_state initiator_state
      else Ok (payment_state, [])
  | None => Ok (payment_state, [])
  end.

Definition handle_transferreroute (payment_state : InitiatorPaymentState)
    (state_change : ActionTransferReroute) (channelidentifiers_to_channels : ChannelMap)
    (addresses_to_channel : AddressDict) (block_number : Z)
    : M Random (InitiatorPaymentState * list Event) :=
  let looked_up :=
    initiator_state ←
      od_get (lock_secrethash (lts_lock (atr_transfer state_change))) (ip_initiator_transfers payment_state);
    channel_state ← channelidentifiers_to_channels !! it_channel_identifier initiator_state;
    Some (initiator_state, channel_state) in
  match looked_up with
  | None => mret (payment_state, [])
  | Some (initiator_state, channel_state) =>
      let refund_transfer := atr_transfer state_change in
      let original_transfer := it_transfer initiator_state in
      let is_valid_lock :=
        bool_decide (lock_secrethash (lts_lock refund_transfer) = lock_secrethash (ltu_lock original_transfer))
        && (lock_amount (lts_lock refund_transfer) =? lock_amount (ltu_lock original_transfer))
        && (lock_expiration (lts_lock refund_transfer) =? lock_expiration (ltu_lock original_transfer)) in
      let is_valid_refund := refund_transfer_matches_transfer refund_transfer original_transfer in
      '(is_valid, channel_events, _) ←
        with_channel channel_state (fun ch =>
          let recipient_address := es_address (ch_partner_state ch) in
          let recipient_metadata := get_address_metadata recipient_address (ip_routes payment_state) in
          handle_receive_lockedtransfer ch refund_transfer recipient_metadata);
      if negb is_valid_lock || negb is_valid_refund || negb is_valid then mret (payment_state, [])
      else
        let old_description := it_transfer_description initiator_state in
        heap ← get_heap;
        let filtered_route_states :=
          filter_acceptable_routes heap (ip_routes payment_state) (ip_cancelled_channels payment_state)
            (list_to_map addresses_to_channel) (td_token_network_address old_description)
            (es_address (ch_our_state (heap channel_state))) in
        let transfer_description :=
          TransferDescriptionWithSecretState_init (td_token_network_registry_address old_description)
            (td_payment_identifier old_description) (td_amount old_description)
            (td_token_network_address old_description) (td_initiator old_description)
            (td_target old_description) (atr_secret state_change) (atr_secrethash state_change) None in
        '(new_state, more) ←
          initiator.try_new_route addresses_to_channel filtered_route_states transfer_description block_number;
        let events := channel_events ++ more in
        match new_state with
        | None => mret (payment_state, events)
        | Some new_state =>
            let new_transfer := it_transfer new_state in
            mret (put_transfer (lock_secrethash (ltu_lock new_transfer)) new_state payment_state, events)
        end
  end.

Definition handle_lock_expired (payment_state : InitiatorPaymentState) (state_change : ReceiveLockExpired)
    (channelidentifiers_to_channels : ChannelMap) (block_number : Z)
    : M Random (InitiatorPaymentState * list Event) :=
  match od_get (rle_secrethash state_change) (ip_initiator_transfers payment_state) with
  | None => mret (payment_state, [])
  | Some initiator_state =>
      match channelidentifiers_to_channels !! it_channel_identifier initiator_state with
      | None => mret (payment_state, [])
      | Some channel_state =>
          let secrethash := lock_secrethash (ltu_lock (it_transfer initiator_state)) in
          events ←
            with_channel channel_state (fun ch =>
              let recipient_address := es_address (ch_partner_state ch) in
              let recipient_metadata := get_address_metadata recipient_address (ip_routes payment_state) in
              let* (new_state, events) :=
                handle_receive_lock_expired ch state_change block_number recipient_metadata in
              match new_state with
              | Some ch => Ok (ch, events)
              | None => Raise (AssertionError "handle_receive_lock_expired should not delete the task")
              end);
          ch ← read channel_state;
          if is_none (get_lock (ch_partner_state ch) secrethash) then
            let transfer := it_transfer initiator_state in
            let unlock_failed :=
              EventUnlockClaimFailed (ltu_payment_identifier transfer) (lock_secrethash (ltu_lock transfer))
                "Lock expired" in
            mret (payment_state, events ++ [unlock_failed])
          else mret (payment_state, events)
      end
  end.

(** What [handle_offchain_secretreveal] and [handle_onchain_secretreveal] share:
    they differ in the class of the state change and the message. *)
Definition handle_secretreveal (payment_state : InitiatorPaymentState) (state_change : StateChange)
    (secrethash : bytes) (msg : string) (channelidentifiers_to_channels : ChannelMap) (block_number : Z)
    : M Random (InitiatorPaymentState * list Event) :=
  match od_get secrethash (ip_initiator_transfers payment_state) with
  | None => mret (payment_state, [])
  | Some initiator_state =>
      _ ← lift (assert! negb (bool_decide (it_transfer_state initiator_state = transfer_cancelled))
                  with msg in Ok tt);
      '(payment_state, events) ←
        subdispatch_to_initiatortransfer payment_state secrethash initiator_state state_change
          channelidentifiers_to_channels block_number;
      let payment_state :=
        if negb (transfer_exists payment_state secrethash)
        then cancel_other_transfers payment_state else payment_state in
      mret (payment_state, events)
  end.

Definition handle_offchain_secretreveal (payment_state : InitiatorPaymentState)
    (state_change : ReceiveSecretReveal) (channelidentifiers_to_channels : ChannelMap) (block_number : Z)
    : M Random (InitiatorPaymentState * list Event) :=
  handle_secretreveal payment_state (SCReceiveSecretReveal state_change) (rsr_secrethash state_change)
    "Can't handle reveal for cancelled transfer" channelidentifiers_to_channels block_number.

Definition handle_onchain_secretreveal (payment_state : InitiatorPaymentState)
    (state_change : ContractReceiveSecretReveal) (channelidentifiers_to_channels : ChannelMap)
    (block_number : Z) : M Random (InitiatorPaymentState * list Event) :=
  handle_secretreveal payment_state (SCContractReceiveSecretReveal state_change)
    (crsr_secrethash state_change) "Must not reveal secret for cancelled payment"
    channelidentifiers_to_channels block_number.

Definition handle_secretrequest (payment_state : InitiatorPaymentState)
    (state_change : ReceiveSecretRequest) (channelidentifiers_to_channels : ChannelMap)
    (block_number : Z) : M Random (InitiatorPaymentState * list Event) :=
  match od_get (rsq_secrethash state_change) (ip_initiator_transfers payment_state) with
  | None => mret (payment_state, [])
  | Some initiator_state =>
      if bool_decide (it_transfer_state initiator_state = transfer_cancelled)
      then mret (payment_state, [])
      else
        subdispatch_to_initiatortransfer payment_state (rsq_secrethash state_change) initiator_state
          (SCReceiveSecretRequest state_change) channelidentifiers_to_channels block_number
  end.

(** The dispatch of [state_transition] on the class of the state change. *)
Definition dispatch (payment_state : option InitiatorPaymentState) (state_change : StateChange)
    (channelidentifiers_to_channels : ChannelMap) (addresses_to_channel : AddressDict) (block_number : Z)
    : M Random (option InitiatorPaymentState * list Event) :=
  let with_task (msg : string) (k : InitiatorPaymentState -> M Random (InitiatorPaymentState * list Event)) :=
    match payment_state with
    | Some payment_state => '(state, events) ← k payment_state; mret (Some state, events)
    | None => lift (Raise (AssertionError msg))
    end in
  match state_change with
  | SCBlock a =>
      with_task "Block state changes should be accompanied by a valid payment state" (fun st =>
        handle_block st a channelidentifiers_to_channels block_number)
  | SCActionInitInitiator a => handle_init payment_state a addresses_to_channel block_number
  | SCReceiveTransferCancelRoute a =>
      with_task "ReceiveTransferCancelRoute should be accompanied by a valid payment state" (fun st =>
        lift (handle_failroute st a))
  | SCActionTransferReroute a =>
      with_task "ActionTransferReroute should be accompanied by a valid payment state" (fun st =>
        handle_transferreroute st a channelidentifiers_to_channels addresses_to_channel block_number)
  | SCReceiveSecretRequest a =>
      with_task "ReceiveSecretRequest should be accompanied by a valid payment state" (fun st =>
        handle_secretrequest st a channelidentifiers_to_channels block_number)
  | SCActionCancelPayment _ =>
      with_task "ActionCancelPayment should be accompanied by a valid payment state" (fun st =>
        handle_cancelpayment st channelidentifiers_to_channels)
  | SCReceiveSecretReveal a =>
      with_task "ReceiveSecretReveal should be accompanied by a valid payment state" (fun st =>
        handle_offchain_secretreveal st a channelidentifiers_to_channels block_number)
  | SCReceiveLockExpired a =>
      with_task "ReceiveLockExpired should be accompanied by a valid payment state" (fun st =>
        handle_lock_expired st a channelidentifiers_to_channels block_number)
  | SCContractReceiveSecretReveal a =>
      with_task "ContractReceiveSecretReveal should be accompanied by a valid payment state" (fun st =>
        handle_onchain_secretreveal st a channelidentifiers_to_channels block_number)
  | _ => mret (payment_state, [])
  end.

Definition state_transition (payment_state : option InitiatorPaymentState) (state_change : StateChange)
    (channelidentifiers_to_channels : ChannelMap) (addresses_to_channel : AddressDict) (block_number : Z)
    : M Random (option InitiatorPaymentState * list Event) :=
  '(new_state, events) ←
    dispatch payment_state state_change channelidentifiers_to_channels addresses_to_channel block_number;
  mret (clear_if_finalized new_state events).
End Manager.
End initiator_manager.
