(* ===== verification/NodeState.v ===== *)
(** * The state of a node

    The tasks of [transfer/mediated_transfer/tasks.py], the [ChainState] of
    [transfer/state.py], and the objects a node works on.  The chain state is one
    object that is changed in place: the code of the node is a state monad [N]
    with exceptions over the chain state, the heap of token networks, and the
    [World] of channels and of the generator of message identifiers. *)

From Stdlib Require Import ZArith Lia Strings.Byte.
From stdpp Require Import base gmap list strings pretty.
From S2P Require Import Prelude Encoding MediationFee State Events ChannelHandlers TaskState World Initiator.

(** ** Tasks *)

Inductive TransferRole := INITIATOR | MEDIATOR | TARGET.

#[export] Instance TransferRole_eq_dec : EqDecision TransferRole.
Proof. solve_decision. Defined.

Inductive TransferTask :=
  | InitiatorTask (token_network_address : bytes) (manager_state : InitiatorPaymentState)
  | MediatorTask (token_network_address : bytes) (mediator_state : MediatorTransferState)
  | TargetTask (canonical_identifier : CanonicalIdentifier) (target_state : TargetTransferState).

(** [task.role] *)
Definition task_role (task : TransferTask) : TransferRole :=
  match task with
  | InitiatorTask _ _ => INITIATOR
  | MediatorTask _ _ => MEDIATOR
  | TargetTask _ _ => TARGET
  end.

(** [task.token_network_address]; that of a target's task is the one of its
    channel. *)
Definition task_token_network_address (task : TransferTask) : bytes :=
  match task with
  | InitiatorTask a _ | MediatorTask a _ => a
  | TargetTask ci _ => ci_token_network_address ci
  end.

(** ** The chain state *)

(** Dictionaries are in the order of their insertions; [cs_secrethashes_to_task]
    is the one of the payment mapping.  The generator is part of the [World]. *)
Record ChainState := {
  cs_block_number : Z;
  cs_block_hash : bytes;
  cs_our_address : bytes;
  cs_chain_id : Z;
  cs_identifiers_to_tokennetworkregistries : list (bytes * TokenNetworkRegistryState);
  cs_secrethashes_to_task : list (bytes * TransferTask);
  cs_pending_transactions : list Event;
  cs_queueids_to_queues : list (QueueIdentifier * list Event);
  cs_tokennetworkaddresses_to_tokennetworkregistryaddresses : list (bytes * bytes);
}.

Definition set_cs_block_number (v : Z) (s : ChainState) : ChainState :=
  Build_ChainState v (cs_block_hash s) (cs_our_address s) (cs_chain_id s)
    (cs_identifiers_to_tokennetworkregistries s) (cs_secrethashes_to_task s) (cs_pending_transactions s)
    (cs_queueids_to_queues s) (cs_tokennetworkaddresses_to_tokennetworkregistryaddresses s).
Definition set_cs_block_hash (v : bytes) (s : ChainState) : ChainState :=
  Build_ChainState (cs_block_number s) v (cs_our_address s) (cs_chain_id s)
    (cs_identifiers_to_tokennetworkregistries s) (cs_secrethashes_to_task s) (cs_pending_transactions s)
    (cs_queueids_to_queues s) (cs_tokennetworkaddresses_to_tokennetworkregistryaddresses s).
Definition set_cs_identifiers_to_tokennetworkregistries (v : list (bytes * TokenNetworkRegistryState))
    (s : ChainState) : ChainState :=
  Build_ChainState (cs_block_number s) (cs_block_hash s) (cs_our_address s) (cs_chain_id s) v
    (cs_secrethashes_to_task s) (cs_pending_transactions s) (cs_queueids_to_queues s)
    (cs_tokennetworkaddresses_to_tokennetworkregistryaddresses s).
Definition set_cs_secrethashes_to_task (v : list (bytes * TransferTask)) (s : ChainState) : ChainState :=
  Build_ChainState (cs_block_number s) (cs_block_hash s) (cs_our_address s) (cs_chain_id s)
    (cs_identifiers_to_tokennetworkregistries s) v (cs_pending_transactions s) (cs_queueids_to_queues s)
    (cs_tokennetworkaddresses_to_tokennetworkregistryaddresses s).
Definition set_cs_pending_transactions (v : list Event) (s : ChainState) : ChainState :=
  Build_ChainState (cs_block_number s) (cs_block_hash s) (cs_our_address s) (cs_chain_id s)
    (cs_identifiers_to_tokennetworkregistries s) (cs_secrethashes_to_task s) v (cs_queueids_to_queues s)
    (cs_tokennetworkaddresses_to_tokennetworkregistryaddresses s).
Definition set_cs_queueids_to_queues (v : list (QueueIdentifier * list Event)) (s : ChainState) : ChainState :=
  Build_ChainState (cs_block_number s) (cs_block_hash s) (cs_our_address s) (cs_chain_id s)
    (cs_identifiers_to_tokennetworkregistries s) (cs_secrethashes_to_task s) (cs_pending_transactions s) v
    (cs_tokennetworkaddresses_to_tokennetworkregistryaddresses s).
Definition set_cs_tokennetworkaddresses_to_tokennetworkregistryaddresses (v : list (bytes * bytes))
    (s : ChainState) : ChainState :=
  Build_ChainState (cs_block_number s) (cs_block_hash s) (cs_our_address s) (cs_chain_id s)
    (cs_identifiers_to_tokennetworkregistries s) (cs_secrethashes_to_task s) (cs_pending_transactions s)
    (cs_queueids_to_queues s) v.

(** The token network objects. *)
Abbreviation Networks := (NetworkLoc -> TokenNetworkState).

(** [ChainState.addresses_to_channel]: the channels by token network and partner,
    in the order in which the comprehension meets the keys first. *)
Definition addresses_to_channel (chain : ChainState) (networks : Networks) (heap : Heap) : AddressDict :=
  let channels :=
    '(_, registry) ← cs_identifiers_to_tokennetworkregistries chain;
    network ← tnr_token_network_list registry;
    '(_, channel) ← tn_channelidentifiers_to_channels (networks network);
    mret ((tn_address (networks network), es_address (ch_partner_state (heap channel))), channel) in
  fold_left (fun d '(key, channel) => od_set key channel d) channels [].

(** [ChainState(pseudo_random_generator, block_number, block_hash, our_address,
    chain_id)] *)
Definition ChainState_init (block_number : Z) (block_hash our_address : bytes) (chain_id : Z) : ChainState :=
  {| cs_block_number := block_number; cs_block_hash := block_hash; cs_our_address := our_address;
     cs_chain_id := chain_id; cs_identifiers_to_tokennetworkregistries := [];
     cs_secrethashes_to_task := []; cs_pending_transactions := []; cs_queueids_to_queues := [];
     cs_tokennetworkaddresses_to_tokennetworkregistryaddresses := [] |}.

(** ** The node *)

Record Node (Random : Type) := {
  n_chain : ChainState;
  n_networks : Networks;
  n_world : World Random;
}.
Arguments Build_Node {Random} _ _ _.
Arguments n_chain {Random} _.
Arguments n_networks {Random} _.
Arguments n_world {Random} _.

Definition N (Random A : Type) : Type := Node Random -> Res (A * Node Random).

#[export] Instance N_ret {Random} : MRet (N Random) := fun A a n => Ok (a, n).
#[export] Instance N_bind {Random} : MBind (N Random) :=
  fun A B k m n => let* (a, n) := m n in k a n.

Section Operations.
Context {Random : Type}.

Definition raise_or {A} (r : Res A) : N Random A := fun n => let* a := r in Ok (a, n).

Definition get_node : N Random (Node Random) := fun n => Ok (n, n).

Definition get_chain : N Random ChainState := fun n => Ok (n_chain n, n).

Definition update_chain (f : ChainState -> ChainState) : N Random unit :=
  fun n => Ok (tt, Build_Node (f (n_chain n)) (n_networks n) (n_world n)).

Definition read_network (l : NetworkLoc) : N Random TokenNetworkState := fun n => Ok (n_networks n l, n).

Definition update_network (l : NetworkLoc) (f : TokenNetworkState -> TokenNetworkState) : N Random unit :=
  fun n => Ok (tt, Build_Node (n_chain n) (<[l := f (n_networks n l)]> (n_networks n)) (n_world n)).

(** A call that works on the channels and draws message identifiers. *)
Definition in_world {A} (m : M Random A) : N Random A :=
  fun n => let* (a, w) := m (n_world n) in Ok (a, Build_Node (n_chain n) (n_networks n) w).

(** [for x in l: events.extend(body(x))] *)
Fixpoint for_events {A} (body : A -> N Random (list Event)) (l : list A) : N Random (list Event) :=
  match l with
  | [] => mret []
  | x :: rest =>
      events ← body x;
      more ← for_events body rest;
      mret (events ++ more)
  end.

(** [channel.state_transition] on a channel object; whether the channel still
    exists.  The object of a channel that is gone is not referred to any more. *)
Definition channel_transition `{Externals} `{RandomGen Random} (channel_state : Loc) (state_change : StateChange)
    (block_number : Z) (block_hash : bytes) : M Random (bool * list Event) :=
  with_channel_prng channel_state (fun ch prng =>
    let* (new_state, events, prng) := state_transition ch state_change block_number block_hash prng in
    Ok (default ch new_state, (is_some new_state, events), prng)).
End Operations.
