(* ===== verification/Views.v ===== *)
(** * Views

    Models [transfer/views.py], in the module [views]: queries of the chain state.
    A function that indexes a [defaultdict] adds the key it misses, so it is a
    call of the monad [N]; the others only read. *)

From Stdlib Require Import ZArith Lia Strings.Byte.
From stdpp Require Import base gmap list strings pretty.
From S2P Require Import Prelude Encoding MediationFee State Events ChannelViews TaskState World NodeState.

(** [d[key]] on a [defaultdict(list)]: the value, and the dictionary after. *)
Definition defaultdict_get {A} (key : bytes) (d : list (bytes * list A)) : list A * list (bytes * list A) :=
  match od_get key d with
  | Some l => (l, d)
  | None => ([], od_set key [] d)
  end.

(** [d[key]] on a dictionary. *)
Definition dict_get {A} (key : Z) (d : list (Z * A)) : Res A :=
  match od_get key d with
  | Some a => Ok a
  | None => Raise KeyError
  end.

(** [[d[key] for key in keys]] *)
Fixpoint dict_get_all {A} (keys : list Z) (d : list (Z * A)) : Res (list A) :=
  match keys with
  | [] => Ok []
  | key :: keys =>
      let* a := dict_get key d in
      let* rest := dict_get_all keys d in
      Ok (a :: rest)
  end.

Module views.
Section Reads.
Context (chain_state : ChainState) (networks : Networks) (heap : Heap).

Definition block_number : Z := cs_block_number chain_state.
Definition get_pending_transactions : list Event := cs_pending_transactions chain_state.
Definition get_all_messagequeues : list (QueueIdentifier * list Event) := cs_queueids_to_queues chain_state.
Definition get_node_network_status (node_address : bytes) : NetworkState := UNKNOWN.

(** [for token_network_registry in ...: for token_network in ...]: the token
    networks in the dictionaries of the registries. *)
Definition all_token_networks : list NetworkLoc :=
  '(_, token_network_registry) ← cs_identifiers_to_tokennetworkregistries chain_state;
  (tnr_tokennetworkaddresses_to_tokennetworks token_network_registry).*2.

Definition channels_of (token_network : NetworkLoc) : list Loc :=
  (tn_channelidentifiers_to_channels (networks token_network)).*2.

Definition list_all_channelstate : list Loc := all_token_networks ≫= channels_of.

Definition all_neighbour_nodes : gset bytes :=
  list_to_set (map (fun channel_state => es_address (ch_partner_state (heap channel_state))) list_all_channelstate).

Definition get_token_network_by_token_address (token_network_registry_address token_address : bytes)
    : option NetworkLoc :=
  token_network_registry ← od_get token_network_registry_address (cs_identifiers_to_tokennetworkregistries chain_state);
  token_network_address ←
    truthy_bytes (od_get token_address (tnr_tokenaddresses_to_tokennetworkaddresses token_network_registry));
  od_get token_network_address (tnr_tokennetworkaddresses_to_tokennetworks token_network_registry).

Definition get_participants_addresses (token_network_registry_address token_address : bytes) : gset bytes :=
  match get_token_network_by_token_address token_network_registry_address token_address with
  | None => ∅
  | Some token_network =>
      list_to_set (channel_state ← channels_of token_network;
                   [es_address (ch_partner_state (heap channel_state)); es_address (ch_our_state (heap channel_state))])
  end.

Definition get_token_network_registry_address : list bytes :=
  (cs_identifiers_to_tokennetworkregistries chain_state).*1.

Definition get_token_network_registry_by_token_network_address (token_network_address : bytes)
    : option TokenNetworkRegistryState :=
  snd <$> List.find (fun '(_, token_network_registry) =>
      is_some (od_get token_network_address (tnr_tokennetworkaddresses_to_tokennetworks token_network_registry)))
    (cs_identifiers_to_tokennetworkregistries chain_state).

Definition get_token_network_address_by_token_address (token_network_registry_address token_address : bytes)
    : option bytes :=
  (fun token_network => tn_address (networks token_network))
    <$> get_token_network_by_token_address token_network_registry_address token_address.

Definition get_token_network_addresses (token_network_registry_address : bytes) : list bytes :=
  match od_get token_network_registry_address (cs_identifiers_to_tokennetworkregistries chain_state) with
  | Some token_network_registry =>
      map (fun token_network => tn_address (networks token_network))
        (tnr_tokennetworkaddresses_to_tokennetworks token_network_registry).*2
  | None => []
  end.

Definition get_token_identifiers (token_network_registry_address : bytes) : list bytes :=
  match od_get token_network_registry_address (cs_identifiers_to_tokennetworkregistries chain_state) with
  | Some token_network_registry => (tnr_tokenaddresses_to_tokennetworkaddresses token_network_registry).*1
  | None => []
  end.

Definition total_token_network_channels (token_network_registry_address token_address : bytes) : Z :=
  match get_token_network_by_token_address token_network_registry_address token_address with
  | Some token_network => Z.of_nat (length (tn_channelidentifiers_to_channels (networks token_network)))
  | None => 0
  end.

(** The loop over the registries in [get_token_network_by_address]. *)
Fixpoint find_token_network (token_network_address : bytes) (registries : list (bytes * TokenNetworkRegistryState))
    : option NetworkLoc :=
  match registries with
  | [] => None
  | (_, token_network_registry_state) :: rest =>
      match od_get token_network_address
              (tnr_tokennetworkaddresses_to_tokennetworks token_network_registry_state) with
      | Some token_network_state => Some token_network_state
      | None => find_token_network token_network_address rest
      end
  end.

Definition get_token_network_by_address (token_network_address : bytes) : option NetworkLoc :=
  find_token_network token_network_address (cs_identifiers_to_tokennetworkregistries chain_state).

Definition get_channelstate_by_canonical_identifier (canonical_identifier : CanonicalIdentifier) : option Loc :=
  token_network ← get_token_network_by_address (ci_token_network_address canonical_identifier);
  od_get (ci_channel_identifier canonical_identifier) (tn_channelidentifiers_to_channels (networks token_network)).

Definition get_channelstate_filter (token_network_registry_address token_address : bytes)
    (filter_fn : NettingChannelState -> bool) : list Loc :=
  match get_token_network_by_token_address token_network_registry_address token_address with
  | None => []
  | Some token_network => List.filter (fun channel_state => filter_fn (heap channel_state)) (channels_of token_network)
  end.

Definition get_channelstate_open (token_network_registry_address token_address : bytes) : list Loc :=
  get_channelstate_filter token_network_registry_address token_address
    (fun channel_state => bool_decide (get_status channel_state = STATE_OPENED)).
Definition get_channelstate_closing (token_network_registry_address token_address : bytes) : list Loc :=
  get_channelstate_filter token_network_registry_address token_address
    (fun channel_state => bool_decide (get_status channel_state = STATE_CLOSING)).
Definition get_channelstate_closed (token_network_registry_address token_address : bytes) : list Loc :=
  get_channelstate_filter token_network_registry_address token_address
    (fun channel_state => bool_decide (get_status channel_state = STATE_CLOSED)).
Definition get_channelstate_settling (token_network_registry_address token_address : bytes) : list Loc :=
  get_channelstate_filter token_network_registry_address token_address
    (fun channel_state => bool_decide (get_status channel_state = STATE_SETTLING)).
Definition get_channelstate_settled (token_network_registry_address token_address : bytes) : list Loc :=
  get_channelstate_filter token_network_registry_address token_address
    (fun channel_state => bool_decide (get_status channel_state = STATE_SETTLED)).

Definition get_our_deposits_for_token_network (token_network_registry_address token_address : bytes) : Z :=
  fold_left (fun total_deposit channel_state =>
      total_deposit + es_contract_balance (ch_our_state (heap channel_state)))
    (get_channelstate_open token_network_registry_address token_address) 0.

(** Only an initiator knows the secret from its task. *)
Definition secret_from_transfer_task (transfer_task : TransferTask) (secrethash : bytes) : Res (option bytes) :=
  match transfer_task with
  | InitiatorTask _ manager_state =>
      Ok ((fun transfer_state => td_secret (it_transfer_description transfer_state))
            <$> od_get secrethash (ip_initiator_transfers manager_state))
  | _ => Raise (AssertionError "mypy")
  end.

Definition get_transfer_role (secrethash : bytes) : option TransferRole :=
  task_role <$> od_get secrethash (cs_secrethashes_to_task chain_state).

Definition get_transfer_secret (secrethash : bytes) : Res (option bytes) :=
  match od_get secrethash (cs_secrethashes_to_task chain_state) with
  | None => Ok None
  | Some transfer_task => secret_from_transfer_task transfer_task secrethash
  end.

Definition get_all_transfer_tasks : list (bytes * TransferTask) := cs_secrethashes_to_task chain_state.

Definition list_channelstate_for_tokennetwork (token_network_registry_address token_address : bytes) : list Loc :=
  match get_token_network_by_token_address token_network_registry_address token_address with
  | Some token_network => channels_of token_network
  | None => []
  end.

Definition filter_channels_by_status (channel_states : list Loc) (exclude_states : list ChannelState) : list Loc :=
  List.filter (fun channel_state => negb (bool_decide (get_status (heap channel_state) ∈ exclude_states)))
    channel_states.

Definition get_networks (token_network_registry_address token_address : bytes)
    : option TokenNetworkRegistryState * option NetworkLoc :=
  let tn_registry_state :=
    od_get token_network_registry_address (cs_identifiers_to_tokennetworkregistries chain_state) in
  let token_network_state :=
    tn_registry ← tn_registry_state;
    token_network_address ← truthy_bytes (od_get token_address (tnr_tokenaddresses_to_tokennetworkaddresses tn_registry));
    od_get token_network_address (tnr_tokennetworkaddresses_to_tokennetworks tn_registry) in
  (tn_registry_state, token_network_state).
End Reads.

Section DefaultDict.
Context {Random : Type}.

(** [states[-1]] of the usable channels with a partner, or [None]. *)
Definition last_usable_channel (token_network : NetworkLoc) (partner_address : bytes) : N Random (option Loc) :=
  tn ← read_network token_network;
  let '(channel_ids, partneraddresses_to_channelidentifiers) :=
    defaultdict_get partner_address (tn_partneraddresses_to_channelidentifiers tn) in
  _ ← update_network token_network
        (set_tn_partneraddresses_to_channelidentifiers partneraddresses_to_channelidentifiers);
  channels ← raise_or (dict_get_all channel_ids (tn_channelidentifiers_to_channels tn));
  n ← get_node;
  mret (last (filter_channels_by_status (w_heap (n_world n)) channels [STATE_UNUSABLE])).

Definition get_channelstate_for (token_network_registry_address token_address partner_address : bytes)
    : N Random (option Loc) :=
  chain_state ← get_chain;
  match get_token_network_by_token_address chain_state token_network_registry_address token_address with
  | None => mret None
  | Some token_network => last_usable_channel token_network partner_address
  end.

Definition get_channelstate_by_token_network_and_partner (token_network_address partner_address : bytes)
    : N Random (option Loc) :=
  chain_state ← get_chain;
  match get_token_network_by_address chain_state token_network_address with
  | None => mret None
  | Some token_network => last_usable_channel token_network partner_address
  end.

(** The loop over [partner_addresses]. *)
Fixpoint usable_channels (token_network : NetworkLoc) (partner_addresses : list bytes) : N Random (list Loc) :=
  match partner_addresses with
  | [] => mret []
  | partner :: rest =>
      channel_state ← last_usable_channel token_network partner;
      result ← usable_channels token_network rest;
      mret (match channel_state with Some c => [c] | None => [] end ++ result)
  end.

Definition filter_channels_by_partneraddress (token_network_registry_address token_address : bytes)
    (partner_addresses : list bytes) : N Random (list Loc) :=
  chain_state ← get_chain;
  match get_token_network_by_token_address chain_state token_network_registry_address token_address with
  | None => mret []
  | Some token_network => usable_channels token_network partner_addresses
  end.
End DefaultDict.
End views.
