(* ===== verification/ForwardingFees.v ===== *)
(** * What a mediator forwards

    [find_intersection] and [get_amount_without_fees]: the amount that leaves
    through the outgoing channel so that it and its fee make up the amount that
    came in. *)

From Stdlib Require Import ZArith Lia QArith Qabs Lqa.
From stdpp Require Import base functions gmap list strings pretty.
From S2P Require Import Prelude Encoding MediationFee MediationFeeTheorems State Events ChannelViews.
From S2P Require Import TaskState World Mediator.

Open Scope Z_scope.

(** ** Indexing and rounding *)

Lemma py_get_nat {A} (l : list A) (i : nat) (x : A) : l !! i = Some x -> py_get l (Z.of_nat i) = Ok x.
Proof.
  intros Hx. pose proof (lookup_lt_Some _ _ _ Hx). unfold py_get.
  cbv zeta. destruct (Z.ltb_spec (Z.of_nat i) 0); [lia|].
  destruct (Z.leb_spec (Z.of_nat (length l)) (Z.of_nat i)); [lia|].
  destruct (Z.ltb_spec (Z.of_nat i) 0); [lia|]. cbn [orb]. by rewrite Nat2Z.id, Hx.
Qed.

Lemma py_get_last {A} (l : list A) (x : A) : last l = Some x -> py_get l (-1) = Ok x.
Proof.
  intros Hx. rewrite last_lookup in Hx. pose proof (lookup_lt_Some _ _ _ Hx). unfold py_get.
  cbv zeta. change (-1 <? 0) with true. cbv iota.
  destruct (Z.ltb_spec (Z.of_nat (length l) + -1) 0); [lia|].
  destruct (Z.leb_spec (Z.of_nat (length l)) (Z.of_nat (length l) + -1)); [lia|]. cbn [orb].
  replace (Z.to_nat (Z.of_nat (length l) + -1)) with (pred (length l)) by lia. by rewrite Hx.
Qed.

Lemma py_get_last_inv {A} (l : list A) (x : A) : py_get l (-1) = Ok x -> last l = Some x.
Proof.
  destruct (last l) as [y|] eqn:Hl; [rewrite (py_get_last _ _ Hl); by intros [= ->]|].
  apply last_None in Hl as ->. discriminate.
Qed.

(** Rounding is within one half and never crosses an integer. *)
Lemma py_round_cases x :
  let floor := Qnum x / Zpos (Qden x) in
  py_round x = floor \/ (py_round x = floor + 1 /\ 0 < Qnum x mod Zpos (Qden x)).
Proof.
  unfold py_round. cbv zeta. pose proof (Z.mod_pos_bound (Qnum x) (Zpos (Qden x)) ltac:(lia)) as Hm.
  split_ifs; zbool; try (by left); right; lia.
Qed.

Lemma py_round_le x z : (x <= inject_Z z)%Q -> py_round x <= z.
Proof.
  unfold Qle. cbn. rewrite Z.mul_1_r. intros Hx.
  pose proof (Z.div_mod (Qnum x) (Zpos (Qden x)) ltac:(lia)) as Hd.
  pose proof (Z.mod_pos_bound (Qnum x) (Zpos (Qden x)) ltac:(lia)) as Hm.
  destruct (py_round_cases x) as [->|[-> Hpos]]; nia.
Qed.

Lemma py_round_ge x z : (inject_Z z <= x)%Q -> z <= py_round x.
Proof.
  unfold Qle. cbn. rewrite Z.mul_1_r. intros Hx.
  pose proof (Z.div_mod (Qnum x) (Zpos (Qden x)) ltac:(lia)) as Hd.
  pose proof (Z.mod_pos_bound (Qnum x) (Zpos (Qden x)) ltac:(lia)) as Hm.
  destruct (py_round_cases x) as [->|[-> Hpos]]; nia.
Qed.

(** ** The intersection *)

(** The line [find_intersection] is called with. *)
Definition amount_line (amount : Q) (f : Interpolate) (i : Z) : Res Q :=
  let* x := py_get (ip_x_list f) i in Ok (amount - x)%Q.

Section Intersection.
Context (f : Interpolate) (xs ys : list Q) (amount : Q) (Hf : interpolates f xs ys).

Lemma amount_line_nat i x : xs !! i = Some x -> amount_line amount f (Z.of_nat i) = Ok (amount - x)%Q.
Proof. intros Hx. unfold amount_line. rewrite (in_x _ _ _ Hf). by rewrite (py_get_nat _ _ _ Hx). Qed.

Lemma find_section_spec (compare : Q -> Q -> bool) fuel i y :
  (i + fuel = length xs)%nat -> (0 < fuel)%nat -> ys !! i = Some y ->
  exists r, find_section f (amount_line amount f) fuel compare (Z.of_nat i) y = Ok r /\
  match r with
  | None => forall j xj yj, (i <= j)%nat -> xs !! j = Some xj -> ys !! j = Some yj -> compare yj (amount - xj)%Q = true
  | Some k => exists n xn yn, k = Z.of_nat n /\ (i <= n)%nat /\ xs !! n = Some xn /\ ys !! n = Some yn /\
      compare yn (amount - xn)%Q = false /\
      forall j xj yj, (i <= j < n)%nat -> xs !! j = Some xj -> ys !! j = Some yj -> compare yj (amount - xj)%Q = true
  end.
Proof.
  revert i y. induction fuel as [|fuel IH]; intros i y Hl Hpos Hy; [lia|]. cbn [find_section].
  destruct (lookup_lt_is_Some_2 xs i) as [x Hx]; [lia|]. rewrite (amount_line_nat i x Hx). cbn [bind].
  destruct (compare y (amount - x)%Q) eqn:Hc.
  2:{ eexists. split; [reflexivity|]. exists i, x, y. do 4 (split; [done|]). split; [done|]. intros; lia. }
  replace (Z.of_nat i + 1) with (Z.of_nat (S i)) by lia. rewrite (in_x _ _ _ Hf).
  destruct (Z.eqb_spec (Z.of_nat (S i)) (Z.of_nat (length xs))) as [Heq|Hne].
  { eexists. split; [reflexivity|]. intros j xj yj Hj Hxj Hyj. pose proof (lookup_lt_Some _ _ _ Hxj).
    assert (j = i) as -> by lia. by simplify_eq. }
  destruct (lookup_lt_is_Some_2 ys (S i)) as [y' Hy']; [rewrite <- (in_length _ _ _ Hf); lia|].
  rewrite (in_y _ _ _ Hf), (py_get_nat _ _ _ Hy'). cbn [bind].
  destruct (IH (S i) y') as (r & Er & Hr); [lia | lia | done |]. exists r. split; [exact Er|].
  assert (Hthis : forall j xj yj, j = i -> xs !! j = Some xj -> ys !! j = Some yj -> compare yj (amount - xj)%Q = true)
    by (intros; by simplify_eq).
  destruct r as [k|].
  - destruct Hr as (n & xn & yn & -> & Hn & Hxn & Hyn & Hcn & Hbelow). exists n, xn, yn.
    do 5 (split; [first [done|lia]|]). intros j xj yj Hj. destruct (decide (j = i)); [eauto|]. apply Hbelow. lia.
  - intros j xj yj Hj. destruct (decide (j = i)); [eauto|]. apply Hr. lia.
Qed.

(** On a segment whose ends lie on different sides of the line. *)
Lemma Interpolate_call_closed i x x1 x2 y1 y2 :
  xs !! i = Some x1 -> xs !! S i = Some x2 -> ys !! i = Some y1 -> ys !! S i = Some y2 -> (x1 <= x <= x2)%Q ->
  exists r, Interpolate_call f x = Ok r /\ (r == y1 + (y2 - y1) / (x2 - x1) * (x - x1))%Q.
Proof.
  intros Hx1 Hx2 Hy1 Hy2 Hx.
  pose proof (ascending_lookup xs i (S i) x1 x2 (in_ascending _ _ _ Hf) Hx1 Hx2 ltac:(lia)).
  destruct (Qlt_le_dec x x2) as [Hlt|Hge]; 
    [apply (Interpolate_call_between f xs ys i x x1 x2 y1 y2 Hf Hx1 Hx2 Hy1 Hy2); lra|].
  destruct (Interpolate_call_at f xs ys (S i) x x2 y2 Hf Hx2 Hy2) as (r & E & Hr); [lra|].
  exists r. split; [done|]. rewrite Hr. assert (Hxe : (x == x2)%Q) by lra. rewrite Hxe. field. lra.
Qed.

Lemma intersect_segment i x1 x2 y1 y2 d :
  xs !! i = Some x1 -> xs !! S i = Some x2 -> ys !! i = Some y1 -> ys !! S i = Some y2 ->
  (y1 < amount - x1 /\ amount - x2 <= y2 \/ amount - x1 < y1 /\ y2 <= amount - x2)%Q ->
  (d == ((amount - x1) - y1) * (x2 - x1) / ((y2 - y1) - ((amount - x2) - (amount - x1))) + x1)%Q ->
  ~ ((y2 - y1) - ((amount - x2) - (amount - x1)) == 0)%Q /\ (x1 <= d <= x2)%Q /\
  exists r, Interpolate_call f d = Ok r /\ (r == amount - d)%Q.
Proof.
  intros Hx1 Hx2 Hy1 Hy2 Hside Hd.
  pose proof (ascending_lookup xs i (S i) x1 x2 (in_ascending _ _ _ Hf) Hx1 Hx2 ltac:(lia)) as Hx.
  set (s1 := (y1 - (amount - x1))%Q). set (s2 := (y2 - (amount - x2))%Q).
  assert (Hne : ~ (s2 - s1 == 0)%Q) by (unfold s1, s2; lra).
  set (t := (- s1 / (s2 - s1))%Q).
  assert (Ht : (t * (s2 - s1) == - s1)%Q) by (unfold t; field; exact Hne).
  assert (Hdt : (d == t * (x2 - x1) + x1)%Q).
  { rewrite Hd. unfold t, s1, s2. field.
    repeat split; unfold s1, s2 in Hne; intros Hz; apply Hne; lra. }
  assert (Ht01 : (0 <= t <= 1)%Q).
  { destruct Hside as [[H1 H2]|[H1 H2]].
    - assert (s1 < 0)%Q by (unfold s1; lra). assert (0 <= s2)%Q by (unfold s2; lra). split; nra.
    - assert (0 < s1)%Q by (unfold s1; lra). assert (s2 <= 0)%Q by (unfold s2; lra). split; nra. }
  assert (Hrange : (x1 <= d <= x2)%Q) by (rewrite Hdt; split; nra).
  split; [unfold s1, s2 in Hne; intros Hz; apply Hne; lra|]. split; [done|].
  destruct (Interpolate_call_closed i d x1 x2 y1 y2 Hx1 Hx2 Hy1 Hy2 Hrange) as (r & E & Hr).
  exists r. split; [done|]. rewrite Hr, Hdt.
  assert (Hsimp : (y1 + (y2 - y1) / (x2 - x1) * (t * (x2 - x1) + x1 - x1) == y1 + t * (y2 - y1))%Q) by (field; lra).
  rewrite Hsimp. unfold s1, s2 in Ht. lra.
Qed.
End Intersection.

(** ** The theorems *)

(** The points of a function that is defined somewhere. *)
Lemma interpolates_ends f xs ys x0 :
  interpolates f xs ys -> head xs = Some x0 ->
  exists xn y0 yn, last xs = Some xn /\ head ys = Some y0 /\ last ys = Some yn /\
    xs !! 0%nat = Some x0 /\ ys !! 0%nat = Some y0 /\ (0 < length xs)%nat.
Proof.
  intros Hf H0. pose proof (in_length _ _ _ Hf) as Hl. destruct xs as [|x xs]; [done|]. injection H0 as ->.
  destruct ys as [|y ys]; [done|].
  destruct (last (x0 :: xs)) as [xn|] eqn:En; [|by apply last_None in En].
  destruct (last (y :: ys)) as [yn|] eqn:Fn; [|by apply last_None in Fn].
  exists xn, y, yn. repeat split; try done. cbn. lia.
Qed.

(** Results are in lowest terms. *)
Lemma find_intersection_reduced f line x : find_intersection f line = Ok (Some x) -> Qred x = x.
Proof.
  unfold find_intersection.
  intros (? & _ & (? & _ & (o & _ & Hrun)%bind_Ok_inv)%bind_Ok_inv)%bind_Ok_inv. destruct o; [|discriminate].
  do 7 apply bind_Ok_inv in Hrun as (? & _ & Hrun). injection Hrun as <-.
  apply Qred_complete, Qred_correct.
Qed.

(** Where all points lie on one side of the line, so does the function. *)
Lemma no_intersection f xs ys amount (side : bool) x r :
  interpolates f xs ys ->
  (forall j xj yj, xs !! j = Some xj -> ys !! j = Some yj ->
     if side then (yj < amount - xj)%Q else (amount - xj < yj)%Q) ->
  Interpolate_call f x = Ok r -> ~ (r == amount - x)%Q.
Proof.
  intros Hf Hside Hcall Heq.
  destruct (head xs) as [x0|] eqn:H0.
  2:{ unfold Interpolate_call in Hcall. by rewrite (in_x _ _ _ Hf), H0 in Hcall. }
  destruct (interpolates_ends f xs ys x0 Hf H0) as (xn & y0 & yn & Hn & _).
  assert (Hx : (x0 <= x <= xn)%Q).
  { destruct (Qlt_le_dec x x0); [by rewrite (Interpolate_call_outside f xs ys x x0 xn) in Hcall by auto|].
    destruct (Qlt_le_dec xn x); [by rewrite (Interpolate_call_outside f xs ys x x0 xn) in Hcall by auto|]. done. }
  destruct (ascending_locate xs x x0 xn (in_ascending _ _ _ Hf) H0 Hn Hx) as (i & x1 & Hx1 & Hcase).
  destruct (lookup_lt_is_Some_2 ys i) as [y1 Hy1]; [rewrite <- (in_length _ _ _ Hf); by eapply lookup_lt_Some|].
  pose proof (Hside i x1 y1 Hx1 Hy1) as S1. destruct Hcase as [He|(x2 & Hx2 & Hb)].
  - destruct (Interpolate_call_at f xs ys i x x1 y1 Hf Hx1 Hy1 He) as (r' & E & Hr).
    rewrite Hcall in E. injection E as <-. destruct side; lra.
  - destruct (lookup_lt_is_Some_2 ys (S i)) as [y2 Hy2]; [rewrite <- (in_length _ _ _ Hf); by eapply lookup_lt_Some|].
    pose proof (Hside (S i) x2 y2 Hx2 Hy2) as S2.
    destruct (Interpolate_call_between f xs ys i x x1 x2 y1 y2 Hf Hx1 Hx2 Hy1 Hy2 Hb) as (r' & E & Hr).
    rewrite Hcall in E. injection E as <-. set (t := ((x - x1) / (x2 - x1))%Q).
    assert (Ht : (t * (x2 - x1) == x - x1)%Q) by (unfold t; field; lra).
    assert (Ht01 : (0 <= t < 1)%Q) by (split; nra).
    assert (Hr2 : (r == y1 + t * (y2 - y1))%Q) by (rewrite Hr; unfold t; field; lra).
    destruct side; nra.
Qed.

(** What [find_intersection] returns, and when it raises. *)
Lemma find_intersection_cases f xs ys x0 amount :
  interpolates f xs ys -> head xs = Some x0 ->
  exists y0 xn yn, head ys = Some y0 /\ last xs = Some xn /\ last ys = Some yn /\
  ((find_intersection f (amount_line amount f) = Raise ZeroDivisionError /\
    (y0 == amount - x0)%Q /\ (yn == amount - xn)%Q) \/
   exists r, find_intersection f (amount_line amount f) = Ok r /\
   match r with
   | Some x => (x0 <= x <= xn)%Q /\ exists y, Interpolate_call f x = Ok y /\ (y == amount - x)%Q
   | None => forall x y, Interpolate_call f x = Ok y -> ~ (y == amount - x)%Q
   end).
Proof.
  intros Hf H0. destruct (interpolates_ends f xs ys x0 Hf H0) as (xn & y0 & yn & Hn & F0 & Fn & Hx0 & Hy0 & Hlen).
  exists y0, xn, yn. do 3 (split; [done|]). unfold find_intersection. rewrite (in_x _ _ _ Hf), (in_y _ _ _ Hf).
  rewrite (py_get_nat ys 0 y0 Hy0 : py_get ys 0 = _). cbn [bind].
  rewrite (amount_line_nat f xs ys amount Hf 0 x0 Hx0 : amount_line amount f 0 = _). cbn [bind].
  set (compare := if Qlt_bool y0 (amount - x0) then Qlt_bool else fun a b => Qlt_bool b a).
  destruct (find_section_spec f xs ys amount Hf compare (length xs) 0 y0) as (r & Er & Hr); [lia | done | done |].
  change (Z.of_nat 0) with 0 in Er. rewrite Er. cbn [bind]. destruct r as [k|].
  2:{ right. exists None. split; [done|]. intros x y Hcall.
      apply (no_intersection f xs ys amount (Qlt_bool y0 (amount - x0)) x y Hf); [|done].
      intros j xj yj Hxj Hyj. pose proof (Hr j xj yj ltac:(lia) Hxj Hyj) as Hc. unfold compare in Hc.
      destruct (Qlt_bool y0 _); by apply Qlt_bool_iff. }
  destruct Hr as (n & x2 & y2 & -> & _ & Hx2 & Hy2 & Hc & Hbelow).
  rewrite (py_get_nat xs n x2 Hx2), (py_get_nat ys n y2 Hy2), (amount_line_nat f xs ys amount Hf n x2 Hx2).
  destruct n as [|n].
  - assert (y2 = y0) as -> by congruence. assert (x2 = x0) as -> by congruence.
    assert (Hzero : (y0 == amount - x0)%Q).
    { unfold compare in Hc. destruct (Qlt_bool y0 (amount - x0)) eqn:E; [congruence|].
      apply Qlt_bool_false in Hc, E. lra. }
    change (Z.of_nat 0 - 1) with (-1). rewrite (py_get_last xs xn Hn), (py_get_last ys yn Fn).
    unfold amount_line. rewrite (in_x _ _ _ Hf), (py_get_last xs xn Hn). cbn [bind]. unfold py_div.
    destruct (Qeq_bool _ 0) eqn:Ed; cbn [bind].
    + left. split; [done|]. split; [done|]. apply Qeq_bool_iff in Ed. lra.
    + apply Qeq_bool_false in Ed.
      set (d := Qred (Qred ((amount - xn - yn) * (x0 - xn) / (y0 - yn - (amount - x0 - (amount - xn)))) + xn)).
      assert (Hd : (d == x0)%Q).
      { unfold d. rewrite !Qred_correct, Hzero. field. intros Hz. apply Ed. rewrite Hzero. lra. }
      right. exists (Some d). split; [done|].
      pose proof (ascending_bounds xs x0 x0 xn (in_ascending _ _ _ Hf) H0 Hn (list_elem_of_lookup_2 _ _ _ Hx0)).
      split; [lra|]. destruct (Interpolate_call_at f xs ys 0 d x0 y0 Hf Hx0 Hy0 Hd) as (r & E & Hr).
      exists r. split; [exact E|]. rewrite Hr, Hzero, Hd. reflexivity.
  - replace (Z.of_nat (S n) - 1) with (Z.of_nat n) by lia.
    destruct (lookup_lt_is_Some_2 xs n) as [x1 Hx1]; [apply lookup_lt_Some in Hx2; lia|].
    destruct (lookup_lt_is_Some_2 ys n) as [y1 Hy1]; [apply lookup_lt_Some in Hy2; lia|].
    rewrite (py_get_nat xs n x1 Hx1), (py_get_nat ys n y1 Hy1), (amount_line_nat f xs ys amount Hf n x1 Hx1).
    cbn [bind]. pose proof (Hbelow n x1 y1 ltac:(lia) Hx1 Hy1) as Hc1.
    assert (Hside : (y1 < amount - x1 /\ amount - x2 <= y2 \/ amount - x1 < y1 /\ y2 <= amount - x2)%Q).
    { unfold compare in Hc, Hc1. destruct (Qlt_bool y0 _); apply Qlt_bool_iff in Hc1; apply Qlt_bool_false in Hc; auto. }
    set (d := Qred (Qred ((amount - x1 - y1) * (x2 - x1) / (y2 - y1 - (amount - x2 - (amount - x1)))) + x1)).
    destruct (intersect_segment f xs ys amount Hf n x1 x2 y1 y2 d Hx1 Hx2 Hy1 Hy2 Hside) as (Hne & Hrange & Hcall);
      [unfold d; by rewrite !Qred_correct|].
    unfold py_div. rewrite (proj2 (Qeq_bool_false _ _) Hne). cbn [bind]. fold d. right. exists (Some d).
    split; [done|]. split; [|done].
    pose proof (ascending_bounds xs x1 x0 xn (in_ascending _ _ _ Hf) H0 Hn (list_elem_of_lookup_2 _ _ _ Hx1)).
    pose proof (ascending_bounds xs x2 x0 xn (in_ascending _ _ _ Hf) H0 Hn (list_elem_of_lookup_2 _ _ _ Hx2)). lra.
Qed.

(** A capped fee function never goes below zero. *)
Lemma mediation_fee_func_capped s_in s_out balance_in balance_out receivable amount f :
  mediation_fee_func s_in s_out balance_in balance_out receivable amount true = Ok f ->
  exists xs ys, interpolates f xs ys /\ Forall (fun y => (0 <= y)%Q) ys.
Proof.
  unfold mediation_fee_func, _mediation_fee_func. cbn [is_none is_some negb orb py_assert].
  destruct (_ || _); [discriminate|].
  intros ([s1 f1] & _ & ([s2 f2] & _ & (ys & Hys & ([xs' ys'] & Hcap & Hinit)%bind_Ok_inv)%bind_Ok_inv)%bind_Ok_inv)%bind_Ok_inv.
  set (xs := _collect_x_values _ _ _ _ _) in *.
  assert (Hl : length xs = length ys).
  { destruct (map_res _ xs) as [l|e] eqn:E; [|by destruct e]. injection Hys as ->.
    clear -E. revert ys E. induction xs as [|x xs IH]; intros ys; cbn [map_res]; [by intros [= <-]|].
    intros (y & _ & (ys0 & E & [= <-])%bind_Ok_inv)%bind_Ok_inv. cbn. f_equal. by apply IH. }
  assert (Ha : ascending xs) by (unfold xs, _collect_x_values; apply sorted_set_spec).
  unfold _cap_fees in Hcap. apply bind_Ok_inv in Hcap as ([xs1 ys1] & Eloop & [= <- <-]).
  destruct (cap_loop_spec (length xs - 1) 0 xs ys Ha Hl) as (xs2 & ys2 & E2 & Hc); [lia|].
  rewrite E2 in Eloop. injection Eloop as <- <-.
  eexists _, _. split.
  - eapply Interpolate_init_interpolates; [exact Hinit|]. cbn. rewrite length_map. apply (cp_length _ _ _ _ Hc).
  - apply Forall_fmap, Forall_forall. intros y _. cbn. unfold Qmax2.
    destruct (Qlt_bool y 0) eqn:E; [lra | by apply Qlt_bool_false in E].
Qed.

Lemma nonnegative_between f xs ys x r :
  interpolates f xs ys -> Forall (fun y => (0 <= y)%Q) ys -> Interpolate_call f x = Ok r -> (0 <= r)%Q.
Proof.
  intros Hf Hy Hcall. destruct (Qlt_le_dec r 0) as [Hneg|]; [|done]. exfalso.
  rewrite Forall_lookup in Hy. destruct (head xs) as [x0|] eqn:H0.
  2:{ unfold Interpolate_call in Hcall. by rewrite (in_x _ _ _ Hf), H0 in Hcall. }
  destruct (interpolates_ends f xs ys x0 Hf H0) as (xn & _ & _ & Hn & _).
  assert (Hx : (x0 <= x <= xn)%Q).
  { destruct (Qlt_le_dec x x0); [by rewrite (Interpolate_call_outside f xs ys x x0 xn) in Hcall by auto|].
    destruct (Qlt_le_dec xn x); [by rewrite (Interpolate_call_outside f xs ys x x0 xn) in Hcall by auto|]. done. }
  destruct (ascending_locate xs x x0 xn (in_ascending _ _ _ Hf) H0 Hn Hx) as (i & x1 & Hx1 & Hcase).
  destruct (lookup_lt_is_Some_2 ys i) as [y1 Hy1]; [rewrite <- (in_length _ _ _ Hf); by eapply lookup_lt_Some|].
  pose proof (Hy _ _ Hy1) as P1. cbn in P1. destruct Hcase as [He|(x2 & Hx2 & Hb)].
  - destruct (Interpolate_call_at f xs ys i x x1 y1 Hf Hx1 Hy1 He) as (r' & E & Hr).
    rewrite Hcall in E. injection E as <-. lra.
  - destruct (lookup_lt_is_Some_2 ys (S i)) as [y2 Hy2]; [rewrite <- (in_length _ _ _ Hf); by eapply lookup_lt_Some|].
    pose proof (Hy _ _ Hy2) as P2. cbn in P2.
    destruct (Interpolate_call_between f xs ys i x x1 x2 y1 y2 Hf Hx1 Hx2 Hy1 Hy2 Hb) as (r' & E & Hr).
    rewrite Hcall in E. injection E as <-. set (t := ((x - x1) / (x2 - x1))%Q).
    assert (Ht : (t * (x2 - x1) == x - x1)%Q) by (unfold t; field; lra).
    assert (Ht01 : (0 <= t < 1)%Q) by (split; nra).
    assert (Hr2 : (r == y1 + t * (y2 - y1))%Q) by (rewrite Hr; unfold t; field; lra). nra.
Qed.

(** A result of [get_amount_without_fees], unfolded. *)
Lemma get_amount_without_fees_inv amount c_in c_out n :
  get_amount_without_fees amount c_in c_out = Ok (Some n) ->
  let balance_in := get_balance (ch_our_state c_in) (ch_partner_state c_in) in
  exists f x,
    mediation_fee_func (ch_fee_schedule c_in) (ch_fee_schedule c_out) balance_in
      (get_balance (ch_our_state c_out) (ch_partner_state c_out))
      (our_total_deposit c_in + partner_total_deposit c_in - balance_in) amount
      (fs_cap_fees (ch_fee_schedule c_in)) = Ok f /\
    find_intersection f (amount_line (inject_Z amount) f) = Ok (Some x) /\ (0 < x)%Q /\ n = py_round x.
Proof.
  unfold get_amount_without_fees. cbv zeta. intros [_ Hrun]%py_assert_Ok_inv.
  destruct (bind _ _) as [[x|]|e] eqn:E; [|discriminate | by destruct e].
  apply bind_Ok_inv in E as (f & Ef & Ex). destruct (Qle_bool x 0) eqn:Hx; [discriminate|].
  injection Hrun as <-. exists f, x. split; [exact Ef|]. split; [exact Ex|]. split; [|done].
  apply Qnot_le_lt. by rewrite <- Qle_bool_iff, Hx.
Qed.

(** C28. Finding the amount.  [find_intersection] finds the argument at which the
    fee function and the line [amount - x] meet: an argument in the domain whose
    fee makes up the difference to the amount.  It returns [None] exactly when
    there is none, and it returns unless both end points lie on the line. *)
Theorem find_intersection_correct f xs ys amount x0 xn y0 yn :
  interpolates f xs ys -> head xs = Some x0 -> last xs = Some xn -> head ys = Some y0 -> last ys = Some yn ->
  ~ (y0 == amount - x0)%Q \/ ~ (yn == amount - xn)%Q ->
  exists r, find_intersection f (amount_line amount f) = Ok r /\
  match r with
  | Some x => (x0 <= x <= xn)%Q /\ exists y, Interpolate_call f x = Ok y /\ (x + y == amount)%Q
  | None => forall x y, Interpolate_call f x = Ok y -> ~ (x + y == amount)%Q
  end.
Proof.
  intros Hf H0 Hn F0 Fn Hends.
  destruct (find_intersection_cases f xs ys x0 amount Hf H0) as (y0' & xn' & yn' & F0' & Hn' & Fn' & Hc).
  simplify_eq. destruct Hc as [(_ & E0 & En)|([x|] & E & Hr)]; [by destruct Hends| |].
  - exists (Some x). split; [exact E|]. destruct Hr as (Hx & y & Ey & Hy). split; [done|]. exists y. split; [done|lra].
  - exists None. split; [exact E|]. intros x y Ey Hxy. apply (Hr x y Ey). lra.
Qed.

(** A mediator that caps its fees never forwards more than it received: for
    whatever fee schedules, imbalance penalties included, the amount that
    [get_amount_without_fees] returns lies between 0 and the incoming one. *)
Lemma forwarded_amount_within_received amount c_in c_out n :
  get_amount_without_fees amount c_in c_out = Ok (Some n) ->
  fs_cap_fees (ch_fee_schedule c_in) = true -> 0 <= n <= amount.
Proof.
  intros Hrun Hcap. apply get_amount_without_fees_inv in Hrun as (f & x & Ef & Ex & Hpos & ->).
  rewrite Hcap in Ef. apply mediation_fee_func_capped in Ef as (xs & ys & Hf & Hy).
  split; [apply py_round_ge; change (0 <= x)%Q; lra|]. apply py_round_le.
  destruct (head xs) as [x0|] eqn:H0.
  2:{ destruct xs; [|done]. pose proof (in_length _ _ _ Hf) as Hl. destruct ys; [|done].
      unfold find_intersection in Ex. by rewrite (in_y _ _ _ Hf) in Ex. }
  destruct (find_intersection_cases f xs ys x0 (inject_Z amount) Hf H0) as (y0 & xn & yn & _ & _ & _ & Hc).
  destruct Hc as [(E & _)|(r & E & Hr)]; rewrite Ex in E; [discriminate|]. injection E as <-.
  destruct Hr as (_ & y & Ey & Heq). pose proof (nonnegative_between f xs ys x y Hf Hy Ey). lra.
Qed.

(** C27. What is forwarded between two channels without imbalance penalties: with
    [flat] and the rates of the two channels the incoming amount is split into
    [x] and the fee [flat + rate_in * amount + rate_out * x]; the rounded [x] is
    forwarded if it is positive and the outgoing balance covers it, and nothing
    otherwise. *)
Theorem get_amount_without_fees_correct amount c_in c_out :
  let s_in := ch_fee_schedule c_in in
  let s_out := ch_fee_schedule c_out in
  let balance_in := get_balance (ch_our_state c_in) (ch_partner_state c_in) in
  let balance_out := get_balance (ch_our_state c_out) (ch_partner_state c_out) in
  let receivable := our_total_deposit c_in + partner_total_deposit c_in - balance_in in
  let x := ((inject_Z amount - inject_Z (fs_flat s_in + fs_flat s_out) - rate s_in * inject_Z amount)
            / (1 + rate s_out))%Q in
  fs_penalty_func s_in = None -> fs_penalty_func s_out = None -> fs_cap_fees s_in = fs_cap_fees s_out ->
  0 <= balance_in -> 0 < balance_out -> 0 < receivable -> 0 <= amount <= receivable ->
  0 <= fs_flat s_in -> 0 <= fs_flat s_out -> (0 <= rate s_in)%Q -> (0 <= rate s_out)%Q ->
  get_amount_without_fees amount c_in c_out
    = Ok (if Qlt_bool 0 x && Qle_bool x (inject_Z balance_out) then Some (py_round (Qred x)) else None).
Proof.
  intros s_in s_out balance_in balance_out receivable x Hin Hout Hcap Hbi Hbo Hr Ham F1 F2 R1 R2.
  unfold get_amount_without_fees. cbv zeta. fold s_in s_out balance_in balance_out receivable.
  rewrite py_assert_true by (rewrite Hcap; apply Bool.eqb_reflx).
  destruct (mediation_fee_func_forward s_in s_out balance_in balance_out receivable amount (fs_cap_fees s_in))
    as (f & -> & [Hf (x0 & xn & H0 & E0 & Hn & En)] & Hline); try done. cbn [bind].
  change (fun i => let* x := py_get (ip_x_list f) i in Ok (inject_Z amount - x)%Q)
    with (amount_line (inject_Z amount) f).
  set (fee0 := (inject_Z (fs_flat s_in + fs_flat s_out) + rate s_in * inject_Z amount)%Q) in *.
  assert (Hx : (x * (1 + rate s_out) == inject_Z amount - fee0)%Q) by (unfold x, fee0; field; lra).
  assert (Hb : (0 < inject_Z balance_out)%Q) by (change 0%Q with (inject_Z 0); by rewrite <- Zlt_Qlt).
  assert (Hval : forall z y, (x0 <= z <= xn)%Q -> Interpolate_call f z = Ok y -> (y == fee0 + rate s_out * z)%Q).
  { intros z y Hz Ey. destruct (Hline z) as (y' & Ey' & Hy'); [lra|]. rewrite Ey in Ey'. by injection Ey' as ->. }
  destruct (find_intersection_cases f _ _ x0 (inject_Z amount) Hf H0) as (y0 & xn' & yn & G0 & Hn' & Gn & Hc).
  rewrite Hn in Hn'. injection Hn' as <-.
  destruct Hc as [(_ & Z0 & Zn)|([z|] & Hfind & Hz)]; [|rewrite Hfind..].
  - exfalso. destruct (interpolates_ends f _ _ x0 Hf H0) as (xn' & y0' & yn' & An & B0 & Bn & L0 & M0 & Hlen).
    rewrite Hn in An. injection An as <-. rewrite G0 in B0. injection B0 as <-. rewrite Gn in Bn. injection Bn as <-.
    destruct (Interpolate_call_at f _ _ 0 x0 x0 y0 Hf L0 M0 (Qeq_refl _)) as (r0 & C0 & D0).
    rewrite last_lookup in Hn, Gn. rewrite <- (in_length _ _ _ Hf) in Gn.
    destruct (Interpolate_call_at f _ _ _ xn xn yn Hf Hn Gn (Qeq_refl _)) as (rn & Cn & Dn).
    pose proof (Hval x0 r0 ltac:(lra) C0). pose proof (Hval xn rn ltac:(lra) Cn). nra.
  - destruct Hz as (Hrange & y & Ey & Hy). pose proof (Hval z y Hrange Ey) as Hfee.
    assert (Hzx : (z == x)%Q) by nra.
    destruct (Qle_bool z 0) eqn:Hle.
    + apply Qle_bool_iff in Hle. replace (Qlt_bool 0 x) with false; [done|]. symmetry. apply Qlt_bool_false. lra.
    + assert (Hzpos : (0 < z)%Q) by (apply Qnot_le_lt; by rewrite <- Qle_bool_iff, Hle).
      rewrite (proj2 (Qlt_bool_iff 0 x)) by lra. rewrite (proj2 (Qle_bool_iff x _)) by lra. cbn [andb].
      pose proof (find_intersection_reduced _ _ _ Hfind) as Hred. do 2 f_equal. rewrite <- Hred. f_equal.
      by apply Qred_complete.
  - replace (Qlt_bool 0 x && Qle_bool x (inject_Z balance_out)) with false; [done|]. symmetry.
    destruct (Qlt_bool 0 x) eqn:Hp; [|done]. apply Qlt_bool_iff in Hp. cbn [andb].
    destruct (Qle_bool x (inject_Z balance_out)) eqn:Hq; [|done]. apply Qle_bool_iff in Hq. exfalso.
    destruct (Hline x) as (y & Ey & Hy); [lra|]. apply (Hz x y Ey). lra.
Qed.
