(* ===== verification/LockSets.v ===== *)
(** * The set of locks of one end of a channel

    One end keeps its pending locks three times: as the ordered list of
    encodings the locksroot is computed from, and as three dictionaries (locked,
    unlocked off-chain, unlocked on-chain).  [all_locks] is the abstraction the
    proofs use, one finite map from secret hashes to locks; [locks_inv] says
    that all the copies and the balance proof agree on it.  The lemmas say what
    each update of an end does to [all_locks]. *)

From Stdlib Require Import ZArith Lia Strings.Byte.
From stdpp Require Import base gmap list strings pretty.
From S2P Require Import Prelude Encoding MediationFee State Events ChannelViews.

(** ** The abstraction *)

(** A lock built by [HashTimeLockState(amount, expiration, secrethash)]. *)
Definition lock_wf (l : HashTimeLockState) : Prop :=
  HashTimeLockState_init (lock_amount l) (lock_expiration l) (lock_secrethash l) = Ok l.

(** An unlock proof built by [UnlockPartialProofState(lock, secret)]. *)
Definition partial_wf (p : UnlockPartialProofState) : Prop :=
  p = UnlockPartialProofState_init (upp_lock p) (upp_secret p).

Abbreviation lockmap := (gmap bytes HashTimeLockState).

Definition locked_of (es : NettingChannelEndState) : lockmap := es_secrethashes_to_lockedlocks es.
Definition unlocked_of (es : NettingChannelEndState) : lockmap :=
  upp_lock <$> es_secrethashes_to_unlockedlocks es.
Definition onchain_of (es : NettingChannelEndState) : lockmap :=
  upp_lock <$> es_secrethashes_to_onchain_unlockedlocks es.

Definition all_locks (es : NettingChannelEndState) : lockmap :=
  locked_of es ∪ (unlocked_of es ∪ onchain_of es).

(** The encodings of a set of locks, in the map's order. *)
Definition encodings (m : lockmap) : list bytes := (fun p => lock_encoded p.2) <$> map_to_list m.

Record maps_disjoint (es : NettingChannelEndState) : Prop := {
  md_locked_unlocked : locked_of es ##ₘ unlocked_of es;
  md_locked_onchain : locked_of es ##ₘ onchain_of es;
  md_unlocked_onchain : unlocked_of es ##ₘ onchain_of es;
}.

(** What the balance proof of an end says about its locks. *)
Definition balance_proof_inv `{Externals} (es : NettingChannelEndState) : Prop :=
  match es_balance_proof es with
  | None => es_pending_locks es = []
  | Some bp =>
      bp_locksroot bp = compute_locksroot (es_pending_locks es) /\
      bp_locked_amount bp = get_amount_locked es /\
      0 <= bp_transferred_amount bp /\
      bp_transferred_amount bp + get_amount_locked es <= UINT256_MAX
  end.

Record locks_inv `{Externals} (es : NettingChannelEndState) : Prop := {
  li_disjoint : maps_disjoint es;
  li_wf : map_Forall (fun h l => lock_wf l /\ lock_secrethash l = h) (all_locks es);
  li_unlocked : map_Forall (fun _ p => partial_wf p) (es_secrethashes_to_unlockedlocks es);
  li_onchain : map_Forall (fun _ p => partial_wf p) (es_secrethashes_to_onchain_unlockedlocks es);
  li_pending : es_pending_locks es ≡ₚ encodings (all_locks es);
  li_bp : balance_proof_inv es;
}.

(** ** Locks *)

Lemma HashTimeLockState_init_wf a e h l :
  HashTimeLockState_init a e h = Ok l ->
  lock_wf l /\ lock_amount l = a /\ lock_expiration l = e /\ lock_secrethash l = h.
Proof.
  unfold lock_wf, HashTimeLockState_init. intros (enc & Henc & [= <-])%bind_Ok_inv.
  cbn. by rewrite Henc.
Qed.

Lemma lock_wf_inv l :
  lock_wf l ->
  0 <= lock_amount l <= UINT256_MAX /\ 0 <= lock_expiration l <= UINT256_MAX /\
  length (lock_secrethash l) = 32%nat /\
  lock_encoded l = lock_as_bytes (lock_amount l) (lock_expiration l) (lock_secrethash l).
Proof.
  unfold lock_wf, HashTimeLockState_init. intros (enc & Henc & Hl)%bind_Ok_inv.
  apply (f_equal (fun r => match r with Ok x => x | Raise _ => l end)) in Hl. cbn in Hl.
  pose proof (Lock_encode_inv _ _ _ _ Henc) as (? & ? & ? & Henc').
  apply (f_equal lock_encoded) in Hl. cbn in Hl. by rewrite <- Henc', Hl.
Qed.

Lemma lock_wf_amount l : lock_wf l -> 0 <= lock_amount l.
Proof. intros ?%lock_wf_inv. lia. Qed.

Lemma lock_wf_encoded_inj l l' :
  lock_wf l -> lock_wf l' -> lock_encoded l = lock_encoded l' -> l = l'.
Proof.
  intros Hl Hl' Henc.
  pose proof (lock_wf_inv l Hl) as (? & ? & _ & El).
  pose proof (lock_wf_inv l' Hl') as (? & ? & _ & El').
  rewrite El, El' in Henc. apply lock_as_bytes_inj in Henc as (Ea & Ee & Eh); [|done..].
  unfold lock_wf in *. rewrite Ea, Ee, Eh, Hl' in Hl. by simplify_eq.
Qed.

(** ** Lookups *)

Lemma all_locks_get_lock es h : all_locks es !! h = get_lock es h.
Proof.
  unfold all_locks, get_lock, locked_of, unlocked_of, onchain_of.
  rewrite lookup_union. destruct (es_secrethashes_to_lockedlocks es !! h); simpl.
  - by destruct (_ !! h).
  - rewrite (left_id_L None (∪)), lookup_union, !lookup_fmap.
    destruct (es_secrethashes_to_unlockedlocks es !! h); simpl; [by destruct (_ <$> _)|].
    by rewrite (left_id_L None (∪)).
Qed.

Lemma is_lock_pending_get_lock es h : is_lock_pending es h = is_some (get_lock es h).
Proof.
  unfold is_lock_pending, get_lock.
  destruct (es_secrethashes_to_lockedlocks es !! h); simpl; [done|].
  destruct (es_secrethashes_to_unlockedlocks es !! h); simpl; [done|].
  by destruct (es_secrethashes_to_onchain_unlockedlocks es !! h).
Qed.

(** [get_lock], and everything computed from it, only reads the three maps. *)
Lemma get_lock_ext es es' h :
  es_secrethashes_to_lockedlocks es' !! h = es_secrethashes_to_lockedlocks es !! h ->
  es_secrethashes_to_unlockedlocks es' !! h = es_secrethashes_to_unlockedlocks es !! h ->
  es_secrethashes_to_onchain_unlockedlocks es' !! h = es_secrethashes_to_onchain_unlockedlocks es !! h ->
  get_lock es' h = get_lock es h.
Proof. unfold get_lock. by intros -> -> ->. Qed.

Lemma all_locks_ext es es' : (forall h, get_lock es' h = get_lock es h) -> all_locks es' = all_locks es.
Proof. intros Heq. apply map_eq. intros h. by rewrite !all_locks_get_lock. Qed.

(** ** Amounts *)

Lemma get_amount_locked_all_locks es :
  maps_disjoint es -> get_amount_locked es = map_sum lock_amount (all_locks es).
Proof.
  intros [D1 D2 D3]. unfold get_amount_locked, get_amount_unclaimed_onchain, all_locks.
  rewrite map_sum_union by (by apply map_disjoint_union_r_2).
  rewrite map_sum_union by done.
  unfold unlocked_of, onchain_of. rewrite !map_sum_fmap. unfold locked_of. lia.
Qed.

Lemma all_locks_amount_nonneg es h l :
  map_Forall (fun h l => lock_wf l /\ lock_secrethash l = h) (all_locks es) ->
  all_locks es !! h = Some l -> 0 <= lock_amount l.
Proof. intros Hwf [Hl _]%Hwf. by apply lock_wf_amount. Qed.

(** ** Encodings *)

Lemma encodings_empty : encodings ∅ = [].
Proof. unfold encodings. by rewrite map_to_list_empty. Qed.

Lemma encodings_insert h l m :
  m !! h = None -> encodings (<[h:=l]> m) ≡ₚ lock_encoded l :: encodings m.
Proof.
  intros Hh. unfold encodings. by rewrite (map_to_list_insert m h l Hh).
Qed.

Lemma encodings_delete h l m :
  m !! h = Some l -> encodings m ≡ₚ lock_encoded l :: encodings (delete h m).
Proof.
  intros Hh. rewrite <- encodings_insert by apply lookup_delete_eq.
  by rewrite insert_delete_id.
Qed.

Lemma elem_of_encodings bs m :
  bs ∈ encodings m <-> exists h l, m !! h = Some l /\ bs = lock_encoded l.
Proof.
  unfold encodings. rewrite list_elem_of_fmap. split.
  - intros ((h & l) & -> & Hin). apply elem_of_map_to_list in Hin. eauto.
  - intros (h & l & Hl & ->). exists (h, l). split; [done|]. by apply elem_of_map_to_list.
Qed.

Lemma list_remove_first_permutation {A} `{EqDecision A} (x : A) l :
  x ∈ l -> l ≡ₚ x :: list_remove_first x l.
Proof.
  induction l as [|y l IH]; simpl; [set_solver|].
  intros Hin. case_decide; subst; [done|].
  etransitivity; [apply perm_skip, IH; apply elem_of_cons in Hin as [?|?]; done | apply perm_swap].
Qed.

(** ** Adding a lock *)

(** [es'] is [es] with the lock [l] added to the locked ones. *)
Record lock_added (l : HashTimeLockState) (es es' : NettingChannelEndState) : Prop := {
  la_locked : es_secrethashes_to_lockedlocks es'
              = <[lock_secrethash l := l]> (es_secrethashes_to_lockedlocks es);
  la_unlocked : es_secrethashes_to_unlockedlocks es' = es_secrethashes_to_unlockedlocks es;
  la_onchain : es_secrethashes_to_onchain_unlockedlocks es' = es_secrethashes_to_onchain_unlockedlocks es;
  la_pending : es_pending_locks es' = es_pending_locks es ++ [lock_encoded l];
}.

(** [es'] is [es] without the lock [l]. *)
Record lock_removed (l : HashTimeLockState) (es es' : NettingChannelEndState) : Prop := {
  lr_locked : es_secrethashes_to_lockedlocks es'
              = delete (lock_secrethash l) (es_secrethashes_to_lockedlocks es);
  lr_unlocked : es_secrethashes_to_unlockedlocks es'
                = delete (lock_secrethash l) (es_secrethashes_to_unlockedlocks es);
  lr_onchain : es_secrethashes_to_onchain_unlockedlocks es'
               = delete (lock_secrethash l) (es_secrethashes_to_onchain_unlockedlocks es);
  lr_pending : es_pending_locks es' = list_remove_first (lock_encoded l) (es_pending_locks es);
}.

Lemma get_lock_None es h :
  get_lock es h = None <->
  locked_of es !! h = None /\ unlocked_of es !! h = None /\ onchain_of es !! h = None.
Proof.
  rewrite <- all_locks_get_lock. unfold all_locks. rewrite !lookup_union_None. done.
Qed.

Lemma all_locks_added l es es' :
  lock_added l es es' -> all_locks es' = <[lock_secrethash l := l]> (all_locks es).
Proof.
  intros [E1 E2 E3 _]. unfold all_locks, locked_of, unlocked_of, onchain_of.
  by rewrite E1, E2, E3, insert_union_l.
Qed.

Lemma all_locks_removed l es es' :
  lock_removed l es es' -> all_locks es' = delete (lock_secrethash l) (all_locks es).
Proof.
  intros [E1 E2 E3 _]. unfold all_locks, locked_of, unlocked_of, onchain_of.
  by rewrite E1, E2, E3, !fmap_delete, !delete_union.
Qed.

Lemma maps_disjoint_added l es es' :
  get_lock es (lock_secrethash l) = None -> lock_added l es es' -> maps_disjoint es -> maps_disjoint es'.
Proof.
  intros (? & ? & ?)%get_lock_None [E1 E2 E3 _] [D1 D2 D3].
  split; unfold locked_of, unlocked_of, onchain_of in *; rewrite ?E1, ?E2, ?E3.
  - by apply map_disjoint_insert_l_2.
  - by apply map_disjoint_insert_l_2.
  - done.
Qed.

Lemma maps_disjoint_removed l es es' : lock_removed l es es' -> maps_disjoint es -> maps_disjoint es'.
Proof.
  intros [E1 E2 E3 _] [D1 D2 D3].
  split; unfold locked_of, unlocked_of, onchain_of in *; rewrite ?E1, ?E2, ?E3, ?fmap_delete;
    by apply map_disjoint_delete_l, map_disjoint_delete_r.
Qed.

Section LockSetOps.
Context `{Externals}.

Lemma amount_added l es es' :
  locks_inv es -> get_lock es (lock_secrethash l) = None -> lock_added l es es' ->
  get_amount_locked es' = get_amount_locked es + lock_amount l.
Proof.
  intros Hinv Hnew Hadd.
  rewrite !get_amount_locked_all_locks by eauto using maps_disjoint_added, li_disjoint.
  rewrite (all_locks_added _ _ _ Hadd), map_sum_insert by (by rewrite all_locks_get_lock). lia.
Qed.

Lemma amount_removed l es es' :
  locks_inv es -> get_lock es (lock_secrethash l) = Some l -> lock_removed l es es' ->
  get_amount_locked es' = get_amount_locked es - lock_amount l.
Proof.
  intros Hinv Hl Hrem.
  rewrite !get_amount_locked_all_locks by eauto using maps_disjoint_removed, li_disjoint.
  rewrite (all_locks_removed _ _ _ Hrem).
  rewrite (map_sum_delete _ _ l) by (by rewrite all_locks_get_lock). lia.
Qed.

(** A known lock has its key as secret hash, is well formed and is pending. *)
Lemma get_lock_inv es h l :
  locks_inv es -> get_lock es h = Some l ->
  lock_wf l /\ lock_secrethash l = h /\ lock_encoded l ∈ es_pending_locks es.
Proof.
  intros Hinv Hl. rewrite <- all_locks_get_lock in Hl.
  destruct (li_wf es Hinv _ _ Hl) as [? ?]. split; [done|]. split; [done|].
  rewrite (li_pending es Hinv). apply elem_of_encodings. eauto.
Qed.

Lemma new_lock_not_pending es l :
  locks_inv es -> lock_wf l -> get_lock es (lock_secrethash l) = None ->
  lock_encoded l ∉ es_pending_locks es.
Proof.
  intros Hinv Hwf Hnew. rewrite (li_pending es Hinv), elem_of_encodings.
  intros (h & l' & Hl' & Henc). destruct (li_wf es Hinv _ _ Hl') as [Hwf' Hh].
  apply lock_wf_encoded_inj in Henc; [subst|done..].
  rewrite all_locks_get_lock in Hl'. congruence.
Qed.

(** A pending encoding comes from a known lock. *)
Lemma pending_get_lock es bs :
  locks_inv es -> bs ∈ es_pending_locks es ->
  exists l, get_lock es (lock_secrethash l) = Some l /\ bs = lock_encoded l.
Proof.
  intros Hinv. rewrite (li_pending es Hinv), elem_of_encodings.
  intros (h & l & Hl & ->). exists l. split; [|done].
  destruct (li_wf es Hinv _ _ Hl) as [_ ->]. by rewrite <- all_locks_get_lock.
Qed.

Lemma get_amount_locked_nonneg es : locks_inv es -> 0 <= get_amount_locked es.
Proof.
  intros Hinv. rewrite get_amount_locked_all_locks by apply Hinv.
  apply map_sum_nonneg. eauto using all_locks_amount_nonneg, li_wf.
Qed.

Lemma lock_amount_le_locked es h l :
  locks_inv es -> get_lock es h = Some l -> lock_amount l <= get_amount_locked es.
Proof.
  intros Hinv Hl. rewrite get_amount_locked_all_locks by apply Hinv.
  rewrite <- all_locks_get_lock in Hl.
  eapply (map_sum_lookup_le lock_amount); [|done]. eauto using all_locks_amount_nonneg, li_wf.
Qed.

Lemma no_pending_no_locks es : locks_inv es -> es_pending_locks es = [] -> all_locks es = ∅.
Proof.
  intros Hinv Hnil. apply map_eq. intros h. rewrite lookup_empty.
  destruct (all_locks es !! h) as [l|] eqn:Hl; [|done].
  assert (Hin : lock_encoded l ∈ es_pending_locks es).
  { rewrite (li_pending es Hinv). apply elem_of_encodings. eauto. }
  rewrite Hnil in Hin. set_solver.
Qed.

Lemma no_pending_amount es : locks_inv es -> es_pending_locks es = [] -> get_amount_locked es = 0.
Proof.
  intros Hinv Hnil. rewrite get_amount_locked_all_locks by apply Hinv.
  rewrite no_pending_no_locks by done. apply map_sum_empty.
Qed.
End LockSetOps.

(** ** The updates preserve the invariant *)

Section LockSetInvariant.
Context `{Externals}.

(** The invariant only reads the lock fields and the balance proof. *)
Record same_locks (es es' : NettingChannelEndState) : Prop := {
  sl_locked : es_secrethashes_to_lockedlocks es' = es_secrethashes_to_lockedlocks es;
  sl_unlocked : es_secrethashes_to_unlockedlocks es' = es_secrethashes_to_unlockedlocks es;
  sl_onchain : es_secrethashes_to_onchain_unlockedlocks es' = es_secrethashes_to_onchain_unlockedlocks es;
  sl_pending : es_pending_locks es' = es_pending_locks es;
  sl_bp : es_balance_proof es' = es_balance_proof es;
}.

Lemma same_locks_amount es es' : same_locks es es' -> get_amount_locked es' = get_amount_locked es.
Proof.
  intros [E1 E2 E3 _ _]. unfold get_amount_locked, get_amount_unclaimed_onchain. by rewrite E1, E2, E3.
Qed.

Lemma locks_inv_same es es' : same_locks es es' -> locks_inv es -> locks_inv es'.
Proof.
  intros Hs [[D1 D2 D3] Hwf Hu Ho Hp Hbp]. pose proof (same_locks_amount _ _ Hs) as Ea.
  destruct Hs as [E1 E2 E3 E4 E5].
  unfold all_locks, locked_of, unlocked_of, onchain_of, balance_proof_inv in *.
  split; [split|..];
    unfold all_locks, locked_of, unlocked_of, onchain_of, balance_proof_inv;
    rewrite ?E1, ?E2, ?E3, ?E4, ?E5, ?Ea; assumption.
Qed.

Lemma locks_inv_added l bp es es' :
  locks_inv es -> lock_wf l -> get_lock es (lock_secrethash l) = None -> lock_added l es es' ->
  es_balance_proof es' = Some bp ->
  bp_locksroot bp = compute_locksroot (es_pending_locks es') ->
  bp_locked_amount bp = get_amount_locked es + lock_amount l ->
  0 <= bp_transferred_amount bp ->
  bp_transferred_amount bp + get_amount_locked es + lock_amount l <= UINT256_MAX ->
  locks_inv es'.
Proof.
  intros Hinv Hwf Hnew Hadd Ebp Hroot Hamount Ht Hmax.
  pose proof (amount_added _ _ _ Hinv Hnew Hadd) as Eamount.
  pose proof (all_locks_added _ _ _ Hadd) as Eall.
  split.
  - eapply maps_disjoint_added; eauto using li_disjoint.
  - rewrite Eall. apply map_Forall_insert_2; [done | apply Hinv].
  - rewrite (la_unlocked _ _ _ Hadd). apply Hinv.
  - rewrite (la_onchain _ _ _ Hadd). apply Hinv.
  - rewrite (la_pending _ _ _ Hadd), Eall, encodings_insert by (by rewrite all_locks_get_lock).
    rewrite (li_pending _ Hinv). by rewrite Permutation_app_comm.
  - unfold balance_proof_inv. rewrite Ebp, Eamount. split; [done|]. split; [done|]. split; [done|lia].
Qed.

Lemma locks_inv_removed l bp es es' :
  locks_inv es -> get_lock es (lock_secrethash l) = Some l -> lock_removed l es es' ->
  es_balance_proof es' = Some bp ->
  bp_locksroot bp = compute_locksroot (es_pending_locks es') ->
  bp_locked_amount bp = get_amount_locked es - lock_amount l ->
  0 <= bp_transferred_amount bp ->
  bp_transferred_amount bp + get_amount_locked es - lock_amount l <= UINT256_MAX ->
  locks_inv es'.
Proof.
  intros Hinv Hl Hrem Ebp Hroot Hamount Ht Hmax.
  pose proof (amount_removed _ _ _ Hinv Hl Hrem) as Eamount.
  pose proof (all_locks_removed _ _ _ Hrem) as Eall.
  pose proof (get_lock_inv _ _ _ Hinv Hl) as (_ & _ & Hpend).
  split.
  - eapply maps_disjoint_removed; eauto using li_disjoint.
  - rewrite Eall. apply map_Forall_delete, Hinv.
  - rewrite (lr_unlocked _ _ _ Hrem). apply map_Forall_delete, Hinv.
  - rewrite (lr_onchain _ _ _ Hrem). apply map_Forall_delete, Hinv.
  - rewrite (lr_pending _ _ _ Hrem), Eall.
    apply (Permutation_cons_inv (a := lock_encoded l)).
    rewrite <- list_remove_first_permutation by done.
    rewrite <- encodings_delete by (by rewrite all_locks_get_lock). apply Hinv.
  - unfold balance_proof_inv. rewrite Ebp, Eamount. split; [done|]. split; [done|]. split; [done|lia].
Qed.

Lemma locks_inv_empty es :
  es_secrethashes_to_lockedlocks es = ∅ -> es_secrethashes_to_unlockedlocks es = ∅ ->
  es_secrethashes_to_onchain_unlockedlocks es = ∅ -> es_pending_locks es = [] ->
  es_balance_proof es = None -> locks_inv es.
Proof.
  intros E1 E2 E3 Ep Eb.
  assert (Eall : all_locks es = ∅).
  { unfold all_locks, locked_of, unlocked_of, onchain_of. by rewrite E1, E2, E3, !fmap_empty, !(left_id_L ∅ _). }
  split; rewrite ?Eall, ?E2, ?E3, ?Ep; try done.
  - split; unfold locked_of, unlocked_of, onchain_of; rewrite ?E1, ?E2, ?fmap_empty; apply map_disjoint_empty_l.
  - unfold balance_proof_inv. by rewrite Eb.
Qed.

(** Moving locks between the three maps changes neither their set nor their sum. *)
Lemma locks_inv_moved es es' :
  maps_disjoint es' -> all_locks es' = all_locks es ->
  map_Forall (fun _ p => partial_wf p) (es_secrethashes_to_unlockedlocks es') ->
  map_Forall (fun _ p => partial_wf p) (es_secrethashes_to_onchain_unlockedlocks es') ->
  es_pending_locks es' = es_pending_locks es -> es_balance_proof es' = es_balance_proof es ->
  locks_inv es -> locks_inv es' /\ get_amount_locked es' = get_amount_locked es.
Proof.
  intros Hd Eall Hu Ho Ep Eb Hinv.
  assert (Ea : get_amount_locked es' = get_amount_locked es).
  { rewrite !get_amount_locked_all_locks, Eall by (done || apply Hinv). done. }
  split; [|done]. split; [done| | done | done | |].
  - rewrite Eall. apply Hinv.
  - rewrite Ep, Eall. apply Hinv.
  - unfold balance_proof_inv. rewrite Eb, Ep, Ea. apply Hinv.
Qed.

Lemma register_secret_endstate_locks secret h es :
  locks_inv es ->
  let es' := register_secret_endstate secret h es in
  locks_inv es' /\ get_amount_locked es' = get_amount_locked es /\ all_locks es' = all_locks es.
Proof.
  intros Hinv. unfold register_secret_endstate.
  destruct (es_secrethashes_to_lockedlocks es !! h) as [l|] eqn:Hl; [|done].
  destruct (li_disjoint _ Hinv) as [D1 D2 D3]. simpl.
  set (es' := set_es_secrethashes_to_unlockedlocks _ _).
  assert (Hno : unlocked_of es !! h = None /\ onchain_of es !! h = None).
  { split; eapply map_disjoint_Some_l; [exact D1| |exact D2|]; done. }
  assert (Eall : all_locks es' = all_locks es).
  { apply all_locks_ext. intros h'. unfold get_lock, es'. simpl.
    destruct (decide (h = h')) as [<-|Hne]; [by simplify_map_eq|].
    rewrite lookup_delete_ne, lookup_insert_ne by done. done. }
  destruct (locks_inv_moved es es') as [? ?]; try done.
  - split; unfold locked_of, unlocked_of, onchain_of, es'; simpl; rewrite ?fmap_insert.
    + apply map_disjoint_insert_r_2; [apply lookup_delete_eq | by apply map_disjoint_delete_l].
    + by apply map_disjoint_delete_l.
    + apply map_disjoint_insert_l_2; [apply Hno | done].
  - apply map_Forall_insert_2; [done | apply Hinv].
  - apply Hinv.
Qed.

(** Where the lock of a pending secret hash that is not on-chain yet is kept. *)
Lemma unclaimed_lock_get_lock es h l :
  match es_secrethashes_to_unlockedlocks es !! h with
  | Some p => Some (upp_lock p)
  | None => es_secrethashes_to_lockedlocks es !! h
  end = Some l ->
  maps_disjoint es -> get_lock es h = Some l /\ onchain_of es !! h = None.
Proof.
  intros Hl [D1 D2 D3]. unfold get_lock.
  destruct (es_secrethashes_to_unlockedlocks es !! h) as [p|] eqn:Hp.
  - simplify_eq. assert (Hun : unlocked_of es !! h = Some (upp_lock p)).
    { unfold unlocked_of. by rewrite lookup_fmap, Hp. }
    assert (Hlk : locked_of es !! h = None) by (by exact (map_disjoint_Some_r _ _ _ _ D1 Hun)).
    unfold locked_of in Hlk. rewrite Hlk. split; [done|].
    by exact (map_disjoint_Some_l _ _ _ _ D3 Hun).
  - rewrite Hl. split; [done|]. eapply map_disjoint_Some_l; [exact D2|]. done.
Qed.

Lemma register_onchain_secret_endstate_locks secret h block es :
  locks_inv es ->
  exists es', register_onchain_secret_endstate secret h block true es = Ok es' /\
    locks_inv es' /\ get_amount_locked es' = get_amount_locked es /\ all_locks es' = all_locks es.
Proof.
  intros Hinv. unfold register_onchain_secret_endstate.
  destruct (match es_secrethashes_to_unlockedlocks es !! h with
            | Some p => Some (upp_lock p) | None => _ end) as [l|] eqn:Hl; [|by exists es].
  destruct (lock_expiration l <? block); [by exists es|].
  destruct (unclaimed_lock_get_lock _ _ _ Hl (li_disjoint _ Hinv)) as [Hget Hon].
  unfold _del_lock. rewrite is_lock_pending_get_lock, Hget. simpl. eexists. split; [reflexivity|].
  set (es' := set_es_secrethashes_to_onchain_unlockedlocks _ _).
  assert (Eall : all_locks es' = all_locks es).
  { apply all_locks_ext. intros h'.
    destruct (decide (h = h')) as [<-|Hne].
    - rewrite Hget. unfold get_lock, es'. simpl. by simplify_map_eq.
    - unfold get_lock, es'. simpl. by rewrite lookup_insert_ne, !lookup_delete_ne. }
  destruct (li_disjoint _ Hinv) as [D1 D2 D3].
  destruct (locks_inv_moved es es') as [? ?]; try done.
  - split; unfold locked_of, unlocked_of, onchain_of, es'; simpl;
      rewrite ?fmap_insert, ?fmap_delete, ?insert_delete_eq.
    + by apply map_disjoint_delete_l, map_disjoint_delete_r.
    + apply map_disjoint_insert_r_2; [apply lookup_delete_eq | by apply map_disjoint_delete_l].
    + apply map_disjoint_insert_r_2; [apply lookup_delete_eq | by apply map_disjoint_delete_l].
  - apply map_Forall_delete, Hinv.
  - apply map_Forall_insert_2; [done | apply map_Forall_delete, Hinv].
Qed.
End LockSetInvariant.
