(* ===== verification/ChannelInvariant.v ===== *)
(** * The invariant of a channel

    [channel_inv] is what every reachable channel satisfies and what makes
    [sanity_check] succeed: at both ends the copies of the pending locks agree
    ([locks_inv]), the balance covers the locked amount, and the withdraws are
    ordered.  [sanity_check_spec] says exactly what the code's own check tests. *)

From Stdlib Require Import ZArith Lia Strings.Byte Sorting.Sorted.
From stdpp Require Import base gmap list strings pretty sorting.
From S2P Require Import Prelude Encoding MediationFee State Events ChannelViews ChannelValidation ChannelSend ChannelHandlers LockSets.

(** ** Definitions *)

(** The pending withdraws of one end: stored under their own total, in
    increasing order, never negative. *)
Record withdraws_inv (es : NettingChannelEndState) : Prop := {
  wi_onchain : 0 <= es_onchain_total_withdraw es;
  wi_entries : Forall (fun p => p.1 = pw_total_withdraw p.2 /\ 0 <= p.1) (es_withdraws_pending es);
  wi_sorted : StronglySorted Z.lt (es_withdraws_pending es).*1;
}.

(** The locked amount of [sender] is covered by its balance. *)
Definition solvent (sender receiver : NettingChannelEndState) : Prop :=
  get_amount_locked sender <= get_balance sender receiver.

Definition signed_balance_proof (es : NettingChannelEndState) : Prop :=
  match es_balance_proof es with Some (BPUnsigned _) => False | _ => True end.

Definition coop_settling (ch : NettingChannelState) : bool :=
  is_some (es_initiated_coop_settle (ch_our_state ch))
  || is_some (es_initiated_coop_settle (ch_partner_state ch)).

Definition positive_withdraws (es : NettingChannelEndState) : Prop :=
  Forall (fun p => 0 < p.1) (es_withdraws_pending es).

Record channel_inv `{Externals} (ch : NettingChannelState) : Prop := {
  ci_our : locks_inv (ch_our_state ch);
  ci_partner : locks_inv (ch_partner_state ch);
  ci_our_solvent : solvent (ch_our_state ch) (ch_partner_state ch);
  ci_partner_solvent : solvent (ch_partner_state ch) (ch_our_state ch);
  ci_partner_signed : signed_balance_proof (ch_partner_state ch);
  ci_our_withdraws : withdraws_inv (ch_our_state ch);
  ci_partner_withdraws : withdraws_inv (ch_partner_state ch);
  ci_positive : coop_settling ch = false -> positive_withdraws (ch_our_state ch);
  ci_closed : forall t, ch_close_transaction ch = Some t -> tx_result t = Some SUCCESS ->
              truthy_int (tx_finished_block_number t) = true;
}.

#[export] Hint Resolve ci_our ci_partner ci_our_solvent ci_partner_solvent ci_partner_signed
  ci_our_withdraws ci_partner_withdraws li_disjoint : channel.

(** What [sanity_check] tests. *)
Record sane `{Externals} (ch : NettingChannelState) : Prop := {
  sane_keys : Forall (fun p => p.1 = pw_total_withdraw p.2) (es_withdraws_pending (ch_our_state ch));
  sane_order : coop_settling ch = true \/
               Sorted Z.lt (0 :: (es_withdraws_pending (ch_our_state ch)).*1);
  sane_our_balance : 0 <= get_balance (ch_our_state ch) (ch_partner_state ch);
  sane_partner_balance : 0 <= get_balance (ch_partner_state ch) (ch_our_state ch);
  sane_our_locked : es_balance_proof (ch_our_state ch) = None -> get_amount_locked (ch_our_state ch) = 0;
  sane_partner_locked :
    es_balance_proof (ch_partner_state ch) = None -> get_amount_locked (ch_partner_state ch) = 0;
  sane_our_locksroot : compute_locksroot (es_pending_locks (ch_our_state ch))
                       = (get_current_balanceproof (ch_our_state ch)).1.1.1;
  sane_partner_locksroot : compute_locksroot (es_pending_locks (ch_partner_state ch))
                           = (get_current_balanceproof (ch_partner_state ch)).1.1.1;
  sane_our_sync : locks_synchronized (ch_our_state ch) = true;
  sane_partner_sync : locks_synchronized (ch_partner_state ch) = true;
}.

(** ** The order of withdraws *)

Lemma py_assert_Ok_iff {A} (b : bool) msg (k : Res A) (a : A) :
  py_assert b msg k = Ok a <-> b = true /\ k = Ok a.
Proof. unfold py_assert. destruct b; naive_solver. Qed.

Lemma check_withdraws_iff coop prev d :
  check_withdraws coop prev d = Ok tt <->
  Forall (fun p => p.1 = pw_total_withdraw p.2) d /\ (coop = true \/ Sorted Z.lt (prev :: d.*1)).
Proof.
  revert prev. induction d as [|[k w] d IH]; intros prev; csimpl.
  - split; [|done]. intros _. split; [constructor|]. right. repeat constructor.
  - rewrite !py_assert_Ok_iff, IH, orb_true_iff, Z.ltb_lt, Z.eqb_eq, Forall_cons. simpl.
    split.
    + intros (Ho & -> & Hf & Hs). split; [done|].
      destruct Ho as [|Ho]; [by left|]. destruct Hs as [|Hs]; [by left|].
      right. constructor; [done|]. by constructor.
    + intros ((-> & Hf) & [->|Hs]); [tauto|].
      apply Sorted_inv in Hs as [Hs Hr]. apply HdRel_inv in Hr. tauto.
Qed.

(** Three of the assertions of [sanity_check] are consequences of how the
    amounts are computed: they hold of every state. *)
Lemma balances_sum_to_capacity ch :
  get_balance (ch_our_state ch) (ch_partner_state ch)
  + get_balance (ch_partner_state ch) (ch_our_state ch) = get_capacity ch.
Proof.
  unfold get_balance, _get_balance, get_capacity, our_total_deposit, partner_total_deposit,
    our_total_withdraw, partner_total_withdraw, total_withdraw. lia.
Qed.

Lemma distributable_within_balance `{Externals} s r :
  get_distributable s r + get_amount_locked s <= get_balance s r.
Proof. unfold get_distributable. destruct (get_current_balanceproof s) as [[[? ?] ?] ?]. lia. Qed.

Lemma current_locked_amount `{Externals} es :
  get_amount_locked es = (get_current_balanceproof es).2 <->
  (es_balance_proof es = None -> get_amount_locked es = 0).
Proof. unfold get_current_balanceproof. destruct (es_balance_proof es); naive_solver. Qed.

Lemma sanity_check_iff `{Externals} ch : sanity_check ch = Ok tt <-> sane ch.
Proof.
  pose proof (balances_sum_to_capacity ch) as Hcap.
  pose proof (distributable_within_balance (ch_our_state ch) (ch_partner_state ch)) as Hd1.
  pose proof (distributable_within_balance (ch_partner_state ch) (ch_our_state ch)) as Hd2.
  pose proof (current_locked_amount (ch_our_state ch)) as Hl1.
  pose proof (current_locked_amount (ch_partner_state ch)) as Hl2.
  unfold sanity_check. fold (coop_settling ch).
  assert (Hbind : forall (m : Res unit) (k : Res unit),
             bind m (fun _ => k) = Ok tt <-> m = Ok tt /\ k = Ok tt).
  { intros [[]|] k; simpl; naive_solver. }
  rewrite Hbind, check_withdraws_iff.
  destruct (get_current_balanceproof (ch_our_state ch)) as [[[r1 n1] t1] l1] eqn:E1.
  destruct (get_current_balanceproof (ch_partner_state ch)) as [[[r2 n2] t2] l2] eqn:E2.
  simpl in Hl1, Hl2.
  rewrite !py_assert_Ok_iff, !Z.leb_le, !Z.eqb_eq, !bool_decide_eq_true, Hl1, Hl2.
  split.
  - intros ([? ?] & ? & ? & _ & ? & ? & _ & _ & ? & ? & ? & ? & _).
    split; rewrite ?E1, ?E2; assumption.
  - intros [? ? ? ? ? ? Hr1 Hr2 ? ?]. rewrite E1 in Hr1. rewrite E2 in Hr2. tauto.
Qed.

(** ** The invariant implies that the sanity check passes *)

Section InvariantSane.
Context `{Externals}.

Lemma locks_inv_synchronized es : locks_inv es -> locks_synchronized es = true.
Proof.
  intros Hinv. unfold locks_synchronized. rewrite !andb_true_iff, !bool_decide_eq_true.
  assert (Hall : forall h l, get_lock es h = Some l -> lock_encoded l ∈ es_pending_locks es).
  { intros h l Hl. by apply (get_lock_inv es h l Hinv Hl). }
  destruct (li_disjoint _ Hinv) as [D1 D2 D3].
  assert (Hl : forall h l, all_locks es !! h = Some l -> lock_encoded l ∈ es_pending_locks es).
  { intros h l. rewrite all_locks_get_lock. apply Hall. }
  unfold all_locks in Hl. split; [split|].
  - intros h l Hh. apply (Hl h). by apply lookup_union_Some_l.
  - intros h p Hp. rewrite (li_unlocked _ Hinv _ _ Hp). simpl. apply (Hl h).
    assert (unlocked_of es !! h = Some (upp_lock p)) by (unfold unlocked_of; by rewrite lookup_fmap, Hp).
    apply lookup_union_Some_r; [by apply map_disjoint_union_r_2|]. by apply lookup_union_Some_l.
  - intros h p Hp. rewrite (li_onchain _ Hinv _ _ Hp). simpl. apply (Hl h).
    assert (onchain_of es !! h = Some (upp_lock p)) by (unfold onchain_of; by rewrite lookup_fmap, Hp).
    apply lookup_union_Some_r; [by apply map_disjoint_union_r_2|]. by apply lookup_union_Some_r.
Qed.

Lemma locks_inv_locksroot es :
  locks_inv es -> compute_locksroot (es_pending_locks es) = (get_current_balanceproof es).1.1.1.
Proof.
  intros [_ _ _ _ _ Hbp]. unfold balance_proof_inv, get_current_balanceproof in *.
  destruct (es_balance_proof es); [naive_solver|]. by rewrite Hbp.
Qed.

Lemma locks_inv_no_balance_proof es :
  locks_inv es -> es_balance_proof es = None -> es_pending_locks es = [] /\ get_amount_locked es = 0.
Proof.
  intros Hinv E. pose proof (li_bp _ Hinv) as Hbp. unfold balance_proof_inv in Hbp. rewrite E in Hbp.
  split; [done|]. by apply no_pending_amount.
Qed.

Lemma locks_inv_transferred es : locks_inv es -> 0 <= transferred_amount es.
Proof.
  intros Hinv. pose proof (li_bp _ Hinv) as Hbp. unfold balance_proof_inv, transferred_amount in *.
  destruct (es_balance_proof es); [tauto | done].
Qed.

(** The amounts of the current balance proof, whether there is one or not. *)
Lemma get_current_balanceproof_amounts es :
  locks_inv es ->
  get_current_balanceproof es
  = (compute_locksroot (es_pending_locks es),
     match es_balance_proof es with Some _ => es_nonce es | None => 0 end,
     transferred_amount es, get_amount_locked es).
Proof.
  intros Hinv. pose proof (locks_inv_locksroot _ Hinv) as Hr.
  unfold get_current_balanceproof, transferred_amount in *.
  destruct (es_balance_proof es) eqn:E; simpl in *; [by rewrite Hr|].
  destruct (locks_inv_no_balance_proof _ Hinv E) as [_ ->]. by rewrite Hr.
Qed.

Lemma locks_inv_overflow es :
  locks_inv es -> transferred_amount es + get_amount_locked es <= UINT256_MAX.
Proof.
  intros Hinv. pose proof (li_bp _ Hinv) as Hbp. unfold balance_proof_inv, transferred_amount in *.
  destruct (es_balance_proof es) eqn:E; [tauto|].
  destruct (locks_inv_no_balance_proof _ Hinv E) as [_ ->]. done.
Qed.

Lemma solvent_balance_nonneg s r : locks_inv s -> solvent s r -> 0 <= get_balance s r.
Proof. intros Hinv Hs. pose proof (get_amount_locked_nonneg s Hinv). unfold solvent in Hs. lia. Qed.

Lemma channel_inv_sane ch : channel_inv ch -> sane ch.
Proof.
  intros [Ho Hp Hso Hsp _ [_ We Ws] _ Hpos _]. split;
    eauto using solvent_balance_nonneg, locks_inv_synchronized, locks_inv_locksroot;
    try (intros E; eapply locks_inv_no_balance_proof; eassumption).
  - eapply Forall_impl; [exact We|]. simpl. tauto.
  - destruct (coop_settling ch); [by left|]. right. specialize (Hpos eq_refl).
    apply StronglySorted_Sorted. constructor; [done|].
    apply Forall_fmap. eapply Forall_impl; [exact Hpos|]. done.
Qed.
End InvariantSane.

(** ** Amounts of one end *)

(** [get_balance] and [get_max_withdraw_amount] in terms of the end's totals. *)
Lemma get_balance_eq s r :
  get_balance s r = get_max_withdraw_amount s r - total_withdraw s.
Proof. unfold get_balance, get_max_withdraw_amount, _get_balance, total_withdraw. lia. Qed.

Lemma get_max_withdraw_amount_eq s r :
  get_max_withdraw_amount s r = es_contract_balance s - transferred_amount s + transferred_amount r.
Proof. unfold get_max_withdraw_amount, _get_balance, transferred_amount. lia. Qed.

Lemma max_key_nonneg es : withdraws_inv es -> 0 <= offchain_total_withdraw es.
Proof.
  intros [_ We _]. unfold offchain_total_withdraw.
  destruct (max_key_elem (es_withdraws_pending es)) as [E|E].
  - unfold max_key. by rewrite E.
  - apply list_elem_of_fmap in E as (p & -> & Hp). rewrite Forall_forall in We. by apply We.
Qed.

Lemma total_withdraw_nonneg es : withdraws_inv es -> 0 <= total_withdraw es.
Proof. intros Hw. pose proof (wi_onchain _ Hw). unfold total_withdraw. lia. Qed.

Lemma sublist_StronglySorted (l l' : list Z) :
  l' `sublist_of` l -> StronglySorted Z.lt l -> StronglySorted Z.lt l'.
Proof.
  induction 1 as [|x l1 l2 Hs IH|x l1 l2 Hs IH]; intros Hsort; [done|..];
    apply StronglySorted_inv in Hsort as [Hsort Hall]; [|auto].
  constructor; [auto|]. rewrite Forall_forall in *. intros y Hy. eapply Hall, elem_of_sublist; eauto.
Qed.

Lemma od_del_keys_sublist (k : Z) (d : list (Z * PendingWithdrawState)) :
  (od_del k d).*1 `sublist_of` d.*1.
Proof. apply fmap_sublist, od_del_sublist. Qed.

(** Recording a withdraw that is not below the current total. *)
Lemma withdraws_inv_set (w : PendingWithdrawState) es es' :
  es_withdraws_pending es' = od_set (pw_total_withdraw w) w (es_withdraws_pending es) ->
  es_onchain_total_withdraw es' = es_onchain_total_withdraw es ->
  total_withdraw es <= pw_total_withdraw w ->
  withdraws_inv es -> withdraws_inv es' /\ total_withdraw es' = pw_total_withdraw w.
Proof.
  intros Ep Eo Hw Hinv. pose proof (total_withdraw_nonneg es Hinv) as Hpos.
  assert (Ht : total_withdraw es' = pw_total_withdraw w).
  { unfold total_withdraw, offchain_total_withdraw in *. rewrite Ep, Eo, max_key_set by lia. lia. }
  split; [|done]. destruct Hinv as [Wo We Ws]. split; [by rewrite Eo|..]; rewrite Ep.
  - rewrite Forall_forall in *. intros p [->|Hp]%od_set_elem_inv; [simpl; lia | auto].
  - destruct (decide (pw_total_withdraw w ∈ (es_withdraws_pending es).*1)) as [Hin|Hin].
    + by rewrite od_set_keys.
    + rewrite od_set_new, fmap_app by done. apply StronglySorted_app_2; [|done | repeat constructor].
      intros x y Hx ->%list_elem_of_singleton. simpl.
      pose proof (max_key_ge _ _ Hx). unfold total_withdraw, offchain_total_withdraw in *.
      assert (x <> pw_total_withdraw w) by set_solver. lia.
Qed.

(** Dropping a pending withdraw. *)
Lemma withdraws_inv_del k es es' :
  es_withdraws_pending es' = od_del k (es_withdraws_pending es) ->
  es_onchain_total_withdraw es' = es_onchain_total_withdraw es ->
  withdraws_inv es -> withdraws_inv es' /\ total_withdraw es' <= total_withdraw es.
Proof.
  intros Ep Eo Hinv. pose proof (max_key_nonneg es Hinv) as Hm.
  assert (Hs := od_del_sublist k (es_withdraws_pending es)).
  destruct Hinv as [Wo We Ws]. split; [split; [by rewrite Eo|..]; rewrite Ep|].
  - rewrite Forall_forall in *. intros p Hp. eapply We, elem_of_sublist; eauto.
  - eapply sublist_StronglySorted; [apply od_del_keys_sublist | done].
  - unfold total_withdraw, offchain_total_withdraw in *. rewrite Ep, Eo.
    pose proof (max_key_sublist _ _ Hs Hm). lia.
Qed.

Lemma positive_withdraws_del k es es' :
  es_withdraws_pending es' = od_del k (es_withdraws_pending es) ->
  positive_withdraws es -> positive_withdraws es'.
Proof.
  unfold positive_withdraws. intros ->. rewrite !Forall_forall. intros Hall p Hp.
  eapply Hall, elem_of_sublist; eauto using od_del_sublist.
Qed.

Lemma withdraws_inv_same es es' :
  es_withdraws_pending es' = es_withdraws_pending es ->
  es_onchain_total_withdraw es' = es_onchain_total_withdraw es ->
  withdraws_inv es -> withdraws_inv es'.
Proof. intros Ep Eo [Wo We Ws]. split; by rewrite ?Ep, ?Eo. Qed.
