(* ===== verification/BalanceProofMessages.v ===== *)
(** * Messages that carry a balance proof

    What the receiver of a locked transfer, an unlock or an expired lock
    accepts, as propositions ([usable_balance_proof], [acceptable_lock],
    [acceptable_unlock], [acceptable_lock_expired]), with the proofs that the
    executable checks of the code decide them; and what the functions that
    build these messages compute. *)

From Stdlib Require Import ZArith Lia Strings.Byte.
From stdpp Require Import base gmap list strings pretty.
From S2P Require Import Prelude Encoding MediationFee State Events ChannelViews ChannelValidation ChannelSend ChannelHandlers LockSets ChannelInvariant.

(** ** Definitions *)

(** A balance proof the node could use on-chain against the sender. *)
Record usable_balance_proof `{Externals} (bp : BalanceProofSignedState) (ch : NettingChannelState)
    (sender : NettingChannelEndState) : Prop := {
  ubp_opened : get_status ch = STATE_OPENED;
  ubp_channel : bps_channel_identifier bp = ch_identifier ch;
  ubp_token_network : bps_token_network_address bp = ch_token_network_address ch;
  ubp_chain : bps_chain_id bp = ch_chain_id ch;
  ubp_overflow : bps_transferred_amount bp + bps_locked_amount bp <= UINT256_MAX;
  ubp_nonce : bps_nonce bp = es_nonce sender + 1;
  ubp_signature : exists r, is_valid_balanceproof_signature bp (es_address sender) = Ok r /\ ok r = true;
}.

(** A balance proof that adds [lock] to the locks of [sender]. *)
Record acceptable_lock `{Externals} (bp : BalanceProofSignedState) (lock : HashTimeLockState)
    (ch : NettingChannelState) (sender receiver : NettingChannelEndState) : Prop := {
  al_usable : usable_balance_proof bp ch sender;
  al_new : lock_encoded lock ∉ es_pending_locks sender;
  al_limit : Z.of_nat (length (es_pending_locks sender)) < MAXIMUM_PENDING_TRANSFERS;
  al_locksroot : bps_locksroot bp = compute_locksroot (es_pending_locks sender ++ [lock_encoded lock]);
  al_transferred : bps_transferred_amount bp = (get_current_balanceproof sender).1.2;
  al_locked : bps_locked_amount bp = (get_current_balanceproof sender).2 + lock_amount lock;
  al_distributable : lock_amount lock <= get_distributable sender receiver;
}.

(** A balance proof that pays out [lock]. *)
Record acceptable_unlock `{Externals} (bp : BalanceProofSignedState) (lock : HashTimeLockState)
    (ch : NettingChannelState) (sender : NettingChannelEndState) : Prop := {
  au_usable : usable_balance_proof bp ch sender;
  au_pending : lock_encoded lock ∈ es_pending_locks sender;
  au_locksroot : bps_locksroot bp
                 = compute_locksroot (list_remove_first (lock_encoded lock) (es_pending_locks sender));
  au_transferred : bps_transferred_amount bp = (get_current_balanceproof sender).1.2 + lock_amount lock;
  au_locked : bps_locked_amount bp = (get_current_balanceproof sender).2 - lock_amount lock;
}.

(** A balance proof that drops [lock] because it expired. *)
Record acceptable_lock_expired `{Externals} (bp : BalanceProofSignedState) (lock : HashTimeLockState)
    (ch : NettingChannelState) (sender receiver : NettingChannelEndState) (block_number : Z) : Prop := {
  ae_usable : usable_balance_proof bp ch sender;
  ae_pending : lock_encoded lock ∈ es_pending_locks sender;
  ae_expired : ok (is_lock_expired receiver lock block_number
                     (get_receiver_expiration_threshold (lock_expiration lock))) = true;
  ae_locksroot : bps_locksroot bp
                 = compute_locksroot (list_remove_first (lock_encoded lock) (es_pending_locks sender));
  ae_transferred : bps_transferred_amount bp = (get_current_balanceproof sender).1.2;
  ae_locked : bps_locked_amount bp = (get_current_balanceproof sender).2 - lock_amount lock;
}.

(** The lock an expiration message may drop. *)
Definition unclaimed_lock (es : NettingChannelEndState) (secrethash : bytes) : option HashTimeLockState :=
  match es_secrethashes_to_onchain_unlockedlocks es !! secrethash with
  | Some _ => None
  | None => get_lock es secrethash
  end.

(** ** Pending locks *)

Lemma compute_locks_with_iff (locks locks' : PendingLocksState) (l : HashTimeLockState) :
  compute_locks_with locks l = Some locks' <->
  (lock_encoded l ∉ locks) /\ locks' = locks ++ [lock_encoded l].
Proof. unfold compute_locks_with. simpl. case_bool_decide; naive_solver. Qed.

Lemma compute_locks_without_iff (locks locks' : PendingLocksState) bs :
  compute_locks_without locks bs = Some locks' <-> bs ∈ locks /\ locks' = list_remove_first bs locks.
Proof. unfold compute_locks_without. case_bool_decide; naive_solver. Qed.

Section Accept.
Context `{Externals}.

Lemma is_balance_proof_usable_onchain_iff bp ch sender r :
  is_balance_proof_usable_onchain bp ch sender = Ok r ->
  (ok r = true) <-> usable_balance_proof bp ch sender.
Proof.
  unfold is_balance_proof_usable_onchain.
  intros (sig & Hsig & [= <-])%bind_Ok_inv.
  unfold is_balance_proof_safe_for_onchain_operations, get_next_nonce.
  split.
  - split_ifs; try discriminate; zbool. intros Hok. split; eauto.
  - intros [E1 E2 E3 E4 E5 E6 (r & Hr & Hok)]. rewrite Hsig in Hr. simplify_eq.
    rewrite !bool_decide_true by done. rewrite E2, E4, E6, !Z.eqb_refl. simpl.
    rewrite (proj2 (Z.leb_le _ _) E5). done.
Qed.

(** The receiver's check either raises (the balance data cannot be encoded) or
    decides [acceptable_lock]; a rejection always has a message. *)
Lemma valid_lockedtransfer_check_spec ch sender receiver name bp lock v msg locks :
  valid_lockedtransfer_check ch sender receiver name bp lock = Ok (v, msg, locks) ->
  (v = true /\ msg = None /\ locks = Some (es_pending_locks sender ++ [lock_encoded lock]) /\
   acceptable_lock bp lock ch sender receiver) \/
  (v = false /\ msg_true msg = true /\ locks = None /\ ~ acceptable_lock bp lock ch sender receiver).
Proof.
  unfold valid_lockedtransfer_check, invalid, valid.
  destruct (get_current_balanceproof sender) as [[[cr cn] ct] cl] eqn:Ecur.
  intros (r & Hr & Heq)%bind_Ok_inv.
  pose proof (is_balance_proof_usable_onchain_iff _ _ _ _ Hr) as Hiff.
  pose proof (compute_locks_with_iff (es_pending_locks sender)) as Hcw.
  unfold fail in Heq. destruct (ok r) eqn:Hok; cbn [negb] in Heq; cbv iota in Heq; simplify_eq.
  2:{ right. do 3 (split; [done|]). intros [Hu]. rewrite <- Hiff in Hu. discriminate. }
  destruct (compute_locks_with (es_pending_locks sender) lock) as [pl|] eqn:Hpl; cbv iota in Heq; simplify_eq.
  2:{ right. do 3 (split; [done|]). intros [_ Hnew]. unfold compute_locks_with in Hpl. simpl in Hpl.
      case_bool_decide; [done|discriminate]. }
  apply Hcw in Hpl as [Hnew ->].
  assert (Hlen : length (es_pending_locks sender ++ [lock_encoded lock])
                 = S (length (es_pending_locks sender))) by (rewrite length_app; simpl; lia).
  rewrite Hlen in Heq. revert Heq. split_ifs; intros Heq; simplify_eq; zbool;
    try (right; do 3 (split; [done|]); intros [_ _ Hlim Hroot Ht Hl Hd]; rewrite Ecur in *; simpl in *;
         first [lia | congruence]).
  left. do 3 (split; [done|]). split; rewrite ?Ecur; simpl; solve [tauto | lia].
Qed.

Lemma is_valid_unlock_spec u ch sender v msg locks :
  is_valid_unlock u ch sender = Ok (v, msg, locks) ->
  (exists lock, get_lock sender (ru_secrethash u) = Some lock /\ v = true /\ msg = None /\
     locks = Some (list_remove_first (lock_encoded lock) (es_pending_locks sender)) /\
     acceptable_unlock (ru_balance_proof u) lock ch sender) \/
  (v = false /\ msg_true msg = true /\ locks = None /\
   forall lock, get_lock sender (ru_secrethash u) = Some lock ->
                ~ acceptable_unlock (ru_balance_proof u) lock ch sender).
Proof.
  unfold is_valid_unlock, invalid, valid.
  destruct (get_lock sender (ru_secrethash u)) as [lock|] eqn:Hlock; [|intros [= <- <- <-]; naive_solver].
  pose proof (compute_locks_without_iff (es_pending_locks sender)) as Hcw.
  destruct (compute_locks_without _ _) as [pl|] eqn:Hpl.
  2:{ intros [= <- <- <-]. right. repeat split; try done. intros l [= <-] [_ Hpend].
      unfold compute_locks_without in Hpl. case_bool_decide; [discriminate|done]. }
  apply Hcw in Hpl as [Hpend ->].
  destruct (get_current_balanceproof sender) as [[[cr cn] ct] cl] eqn:Ecur.
  intros (r & Hr & Heq)%bind_Ok_inv.
  pose proof (is_balance_proof_usable_onchain_iff _ _ _ _ Hr) as Hiff.
  unfold fail in Heq. destruct (ok r) eqn:Hok; cbn [negb] in Heq; cbv iota in Heq; simplify_eq.
  2:{ right. do 3 (split; [done|]). intros l [= <-] [Hu]. rewrite <- Hiff in Hu. discriminate. }
  revert Heq. split_ifs; intros Heq; simplify_eq; zbool;
    try (right; do 3 (split; [done|]); intros l [= <-] [_ _ Hroot Ht Hl]; rewrite Ecur in *; simpl in *;
         congruence).
  left. exists lock. do 4 (split; [done|]). split; rewrite ?Ecur; simpl; solve [tauto | lia].
Qed.

Lemma is_valid_lock_expired_spec m ch receiver block_number v msg locks :
  let sender := ch_partner_state ch in
  is_valid_lock_expired m ch sender receiver block_number = Ok (v, msg, locks) ->
  (exists lock, unclaimed_lock sender (rle_secrethash m) = Some lock /\ v = true /\ msg = None /\
     locks = Some (list_remove_first (lock_encoded lock) (es_pending_locks sender)) /\
     acceptable_lock_expired (rle_balance_proof m) lock ch sender receiver block_number) \/
  (v = false /\ msg_true msg = true /\ locks = None /\
   forall lock, unclaimed_lock sender (rle_secrethash m) = Some lock ->
                ~ acceptable_lock_expired (rle_balance_proof m) lock ch sender receiver block_number).
Proof.
  intros sender. unfold is_valid_lock_expired, unclaimed_lock, get_lock, invalid, valid. fold sender.
  destruct (get_current_balanceproof sender) as [[[cr cn] ct] cl] eqn:Ecur.
  intros (r & Hr & Heq)%bind_Ok_inv.
  pose proof (is_balance_proof_usable_onchain_iff _ _ _ _ Hr) as Hiff.
  pose proof (compute_locks_without_iff (es_pending_locks sender)) as Hcw.
  destruct (es_secrethashes_to_onchain_unlockedlocks sender !! rle_secrethash m);
    cbn [is_some] in Heq; cbv iota in Heq; [simplify_eq; naive_solver|].
  assert (Hgl : match es_secrethashes_to_unlockedlocks sender !! rle_secrethash m with
                | Some p => Some p | None => None end
                = es_secrethashes_to_unlockedlocks sender !! rle_secrethash m) by (by destruct (es_secrethashes_to_unlockedlocks sender !! rle_secrethash m)).
  rewrite Hgl. clear Hgl.
  destruct (match es_secrethashes_to_lockedlocks sender !! rle_secrethash m with
            | Some lock => Some lock | None => upp_lock <$> _ end) as [lock|] eqn:Hlock;
    cbv iota in Heq; [|simplify_eq; naive_solver].
  unfold fail in Heq. destruct (ok r) eqn:Hok; cbn [negb] in Heq; cbv iota in Heq; simplify_eq.
  2:{ right. do 3 (split; [done|]). intros l [= <-] [Hu]. rewrite <- Hiff in Hu. discriminate. }
  destruct (compute_locks_without _ _) as [pl|] eqn:Hpl; cbv iota in Heq; simplify_eq.
  2:{ right. do 3 (split; [done|]). intros l [= <-] [_ Hpend].
      unfold compute_locks_without in Hpl. case_bool_decide; [discriminate|done]. }
  apply Hcw in Hpl as [Hpend ->].
  revert Heq. unfold fail. split_ifs; intros Heq; simplify_eq; zbool;
    try (right; do 3 (split; [done|]); intros l [= <-] [_ _ He Hroot Ht Hl]; rewrite Ecur in *; simpl in *;
         congruence).
  left. exists lock. do 4 (split; [done|]). split; rewrite ?Ecur; simpl; solve [tauto | lia].
Qed.

(** ** Messages the node sends *)

Lemma validate_balance_proof_inv nonce transferred locksroot :
  validate_balance_proof nonce transferred locksroot = Ok tt ->
  0 < nonce <= UINT64_MAX /\ 0 <= transferred <= UINT256_MAX /\ length locksroot = 32%nat.
Proof. unfold validate_balance_proof. split_ifs; try discriminate. zbool. intros _. split; [lia|]. split; [lia|done]. Qed.

Lemma BalanceProofUnsignedState_init_inv nonce transferred locked locksroot ci bp :
  BalanceProofUnsignedState_init nonce transferred locked locksroot ci = Ok bp ->
  0 < nonce <= UINT64_MAX /\ 0 <= transferred <= UINT256_MAX /\ length locksroot = 32%nat /\
  bpu_nonce bp = nonce /\ bpu_transferred_amount bp = transferred /\ bpu_locked_amount bp = locked /\
  bpu_locksroot bp = locksroot /\ bpu_canonical_identifier bp = ci /\
  hash_balance_data transferred locked locksroot = Ok (bpu_balance_hash bp).
Proof.
  unfold BalanceProofUnsignedState_init.
  intros ([] & Hv & ([] & _ & (h & Hh & [= <-])%bind_Ok_inv)%bind_Ok_inv)%bind_Ok_inv.
  apply validate_balance_proof_inv in Hv. cbn. tauto.
Qed.

(** Our end after sending a locked transfer. *)
Definition sent_lock (bp : BalanceProofUnsignedState) (locks : PendingLocksState)
    (lock : HashTimeLockState) (our_state : NettingChannelEndState) : NettingChannelEndState :=
  add_locked_lock lock
    (set_es_pending_locks locks
      (set_es_nonce (bpu_nonce bp) (set_es_balance_proof (Some (BPUnsigned bp)) our_state))).

Lemma send_lockedtransfer_inv ch initiator target amount mid pid expiration secret secrethash routes
    meta prev ch' ev :
  send_lockedtransfer ch initiator target amount mid pid expiration secret secrethash routes meta prev
    = Ok (ch', ev) ->
  let our := ch_our_state ch in
  exists lock bp msg transfer,
    HashTimeLockState_init amount expiration secrethash = Ok lock /\
    (lock_encoded lock ∉ es_pending_locks our) /\
    let locks := es_pending_locks our ++ [lock_encoded lock] in
    BalanceProofUnsignedState_init (es_nonce our + 1) (transferred_amount our)
      (get_amount_locked our + amount) (compute_locksroot locks) (ch_canonical_identifier ch) = Ok bp /\
    amount <= get_distributable our (ch_partner_state ch) /\
    transferred_amount our + amount <= UINT256_MAX /\
    get_status ch = STATE_OPENED /\
    ev = SendLockedTransfer msg transfer /\ ltu_lock transfer = lock /\ ltu_balance_proof transfer = bp /\
    sm_recipient msg = es_address (ch_partner_state ch) /\ sm_message_identifier msg = mid /\
    ch' = upd_our (sent_lock bp locks lock) ch.
Proof.
  unfold send_lockedtransfer, create_sendlockedtransfer.
  intros ([[msg transfer] locks] & Hc & [= <- <-])%bind_Ok_inv.
  apply py_assert_Ok_inv in Hc as [Hd%Z.leb_le Hc].
  apply py_assert_Ok_inv in Hc as [Hs%bool_decide_eq_true Hc].
  apply bind_Ok_inv in Hc as (lock & Hlock & Hc).
  destruct (compute_locks_with _ _) as [pl|] eqn:Hpl; [|discriminate].
  apply compute_locks_with_iff in Hpl as [Hnew ->].
  apply py_assert_Ok_inv in Hc as [Ho%Z.leb_le Hc].
  apply bind_Ok_inv in Hc as (bp & Hbp & Hc).
  apply bind_Ok_inv in Hc as (t & Ht & [= <- <- <-]).
  unfold LockedTransferUnsignedState_init in Ht. case_bool_decide; [discriminate|].
  simplify_eq. cbn. eexists lock, bp, _, _. repeat (split; [done|]). done.
Qed.

(** Our end after sending the unlock of a lock; [_del_lock] then drops it. *)
Definition sent_unlock (bp : BalanceProofUnsignedState) (locks : PendingLocksState)
    (nonce : Z) (our_state : NettingChannelEndState) : NettingChannelEndState :=
  set_es_pending_locks locks
    (set_es_balance_proof (Some (BPUnsigned bp)) (set_es_nonce nonce our_state)).

Lemma send_unlock_inv ch mid pid secret secrethash block_number meta ch' ev :
  send_unlock ch mid pid secret secrethash block_number meta = Ok (ch', ev) ->
  let our := ch_our_state ch in
  exists lock bp msg our',
    get_lock our secrethash = Some lock /\ (lock_encoded lock ∈ es_pending_locks our) /\
    get_status ch = STATE_OPENED /\
    ok (is_lock_expired our lock block_number (lock_expiration lock)) = false /\
    let locks := list_remove_first (lock_encoded lock) (es_pending_locks our) in
    BalanceProofUnsignedState_init (es_nonce our + 1) (lock_amount lock + transferred_amount our)
      (get_amount_locked our - lock_amount lock) (compute_locksroot locks)
      (ch_canonical_identifier ch) = Ok bp /\
    ev = SendUnlock_init msg pid (ch_token_address ch) bp secret /\
    sm_recipient msg = es_address (ch_partner_state ch) /\ sm_message_identifier msg = mid /\
    _del_lock (lock_secrethash lock) (sent_unlock bp locks (es_nonce our + 1) our) = Ok our' /\
    ch' = set_ch_our_state our' ch.
Proof.
  unfold send_unlock, create_unlock. intros Hrun.
  destruct (get_lock _ _) as [lock|] eqn:Hlock; [|discriminate].
  apply bind_Ok_inv in Hrun as ([[[ch1 ev1] bp] locks] & Hc & Hrun).
  apply py_assert_Ok_inv in Hc as [_ Hc].
  apply py_assert_Ok_inv in Hc as [Hs%bool_decide_eq_true Hc].
  apply py_assert_Ok_inv in Hc as [He%negb_true_iff Hc].
  destruct (es_balance_proof (ch_our_state ch)) as [obp|] eqn:Ebp; [|discriminate].
  destruct (compute_locks_without _ _) as [pl|] eqn:Hpl; [|discriminate].
  apply compute_locks_without_iff in Hpl as [Hin ->].
  apply bind_Ok_inv in Hc as (bp' & Hbp & [= <- <- <- <-]).
  apply bind_Ok_inv in Hrun as (our' & Hdel & [= <- <-]).
  eexists lock, bp', _, our'. unfold transferred_amount. rewrite Ebp.
  repeat (split; [done|]). destruct ch; done.
Qed.

(** Our end after announcing that a lock expired. *)
Definition sent_expired (bp : BalanceProofUnsignedState) (locks : PendingLocksState) (secrethash : bytes)
    (our_state : NettingChannelEndState) : NettingChannelEndState :=
  _del_unclaimed_lock secrethash
    (set_es_nonce (bpu_nonce bp)
      (set_es_balance_proof (Some (BPUnsigned bp)) (set_es_pending_locks locks our_state))).

Lemma send_lock_expired_inv {Random} `{RandomGen Random} {L} `{LockType L} ch (lock : L)
    (prng : Random) meta ch' evs prng' :
  send_lock_expired ch lock prng meta = Ok (ch', evs, prng') ->
  let our := ch_our_state ch in
  get_status ch = STATE_OPENED /\
  ((ch' = ch /\ evs = [] /\ prng' = prng /\ (lt_encoded lock ∉ es_pending_locks our)) \/
   exists bp msg, (lt_encoded lock ∈ es_pending_locks our) /\
    let locks := list_remove_first (lt_encoded lock) (es_pending_locks our) in
    BalanceProofUnsignedState_init (es_nonce our + 1) (transferred_amount our)
      (get_amount_locked our - lt_amount lock) (compute_locksroot locks)
      (ch_canonical_identifier ch) = Ok bp /\
    evs = [SendLockExpired msg bp (lt_secrethash lock)] /\
    sm_recipient msg = es_address (ch_partner_state ch) /\
    ch' = upd_our (sent_expired bp locks (lt_secrethash lock)) ch).
Proof.
  unfold send_lock_expired, create_sendexpiredlock. intros Hrun.
  apply py_assert_Ok_inv in Hrun as [Hs%bool_decide_eq_true Hrun]. split; [done|].
  destruct (es_balance_proof (ch_our_state ch)) as [obp|] eqn:Ebp; [|discriminate].
  unfold transferred_amount. rewrite Ebp.
  destruct (compute_locks_without _ _) as [pl|] eqn:Hpl; simpl in Hrun.
  - right. apply compute_locks_without_iff in Hpl as [Hin ->].
    apply bind_Ok_inv in Hrun as ([created prng1] & Hc & Hrun).
    apply bind_Ok_inv in Hc as (bp & Hbp & Hc).
    destruct (message_identifier_from_prng prng) as [mid g]. simplify_eq.
    eexists bp, _. split; [done|]. split; [destruct ch as [[] ?]; exact Hbp|]. done.
  - left. simplify_eq. repeat (split; [done|]).
    unfold compute_locks_without in Hpl. case_bool_decide; [discriminate|done].
Qed.
End Accept.
