(* ===== verification/LockOperations.v ===== *)
(** * Locks are never lost, created or double counted

    Every operation on the locks of a channel, at either end: sending and
    receiving locked transfers, refunds, unlocks and expired locks, and
    registering secrets.  Each preserves [channel_inv]; the statements give its
    effect on balances and locked amounts.  Rejected messages change nothing. *)

From Stdlib Require Import ZArith Lia Strings.Byte Sorting.Sorted.
From stdpp Require Import base gmap list strings pretty.
From S2P Require Import Prelude Encoding MediationFee State Events ChannelViews ChannelValidation ChannelSend ChannelHandlers LockSets ChannelInvariant BalanceProofMessages.

(** Everything about an end that is not a lock, a nonce or a balance proof. *)
Record same_funds (es es' : NettingChannelEndState) : Prop := {
  sf_address : es_address es' = es_address es;
  sf_deposit : es_contract_balance es' = es_contract_balance es;
  sf_onchain : es_onchain_total_withdraw es' = es_onchain_total_withdraw es;
  sf_withdraws : es_withdraws_pending es' = es_withdraws_pending es;
  sf_coop : es_initiated_coop_settle es' = es_initiated_coop_settle es;
}.

Lemma same_funds_total_withdraw es es' : same_funds es es' -> total_withdraw es' = total_withdraw es.
Proof. intros [_ _ Eo Ew _]. unfold total_withdraw, offchain_total_withdraw. by rewrite Eo, Ew. Qed.

(** Balances move by the change of the transferred amounts only. *)
Lemma same_funds_balance s s' r r' :
  same_funds s s' -> same_funds r r' ->
  get_balance s' r' = get_balance s r - (transferred_amount s' - transferred_amount s)
                      + (transferred_amount r' - transferred_amount r).
Proof.
  intros Hs Hr. rewrite !get_balance_eq, !get_max_withdraw_amount_eq.
  rewrite (same_funds_total_withdraw _ _ Hs), (sf_deposit _ _ Hs). lia.
Qed.

Lemma same_funds_refl es : same_funds es es.
Proof. by split. Qed.

Section Replace.
Context `{Externals}.

(** Replacing our end, or the partner's, by one with the same funds. *)
Lemma channel_inv_set_our ch our :
  channel_inv ch -> locks_inv our -> same_funds (ch_our_state ch) our ->
  get_amount_locked our + (transferred_amount our - transferred_amount (ch_our_state ch))
    <= get_balance (ch_our_state ch) (ch_partner_state ch) ->
  transferred_amount (ch_our_state ch) <= transferred_amount our ->
  channel_inv (set_ch_our_state our ch).
Proof.
  intros [Ho Hp Hso Hsp Hsig Hwo Hwp Hpos Hcl] Hour Hf Hsolv Ht.
  pose proof (same_funds_balance _ _ _ _ Hf (same_funds_refl (ch_partner_state ch))) as B1.
  pose proof (same_funds_balance _ _ _ _ (same_funds_refl (ch_partner_state ch)) Hf) as B2.
  unfold solvent in *.
  split; cbn; try done; unfold solvent; try lia.
  - eapply withdraws_inv_same; [apply (sf_withdraws _ _ Hf) | apply (sf_onchain _ _ Hf) | done].
  - unfold coop_settling, positive_withdraws in *. cbn. rewrite (sf_coop _ _ Hf), (sf_withdraws _ _ Hf). done.
Qed.

Lemma channel_inv_set_partner ch partner :
  channel_inv ch -> locks_inv partner -> same_funds (ch_partner_state ch) partner ->
  signed_balance_proof partner ->
  get_amount_locked partner + (transferred_amount partner - transferred_amount (ch_partner_state ch))
    <= get_balance (ch_partner_state ch) (ch_our_state ch) ->
  transferred_amount (ch_partner_state ch) <= transferred_amount partner ->
  channel_inv (set_ch_partner_state partner ch).
Proof.
  intros [Ho Hp Hso Hsp Hsig Hwo Hwp Hpos Hcl] Hpar Hf Hsp' Hsolv Ht.
  pose proof (same_funds_balance _ _ _ _ Hf (same_funds_refl (ch_our_state ch))) as B1.
  pose proof (same_funds_balance _ _ _ _ (same_funds_refl (ch_our_state ch)) Hf) as B2.
  unfold solvent in *.
  split; cbn; try done; unfold solvent; try lia.
  - eapply withdraws_inv_same; [apply (sf_withdraws _ _ Hf) | apply (sf_onchain _ _ Hf) | done].
  - unfold coop_settling in *. cbn. rewrite (sf_coop _ _ Hf). done.
Qed.

(** Amounts that fit into [get_distributable] fit into the balance and do not
    overflow. *)
Lemma distributable_bounds s r amount :
  locks_inv s -> 0 <= amount -> amount <= get_distributable s r ->
  get_amount_locked s + amount <= get_balance s r /\
  transferred_amount s + get_amount_locked s + amount <= UINT256_MAX.
Proof.
  intros Hinv Ha. pose proof (locks_inv_overflow s Hinv) as Hover.
  unfold get_distributable. rewrite (get_current_balanceproof_amounts s Hinv). lia.
Qed.

(** ** Sending *)

Lemma sent_lock_added bp lock es :
  lock_added lock es (sent_lock bp (es_pending_locks es ++ [lock_encoded lock]) lock es).
Proof. by split. Qed.

Lemma removed_unclaimed l es es' :
  locks_inv es -> onchain_of es !! lock_secrethash l = None ->
  es_secrethashes_to_lockedlocks es' = delete (lock_secrethash l) (es_secrethashes_to_lockedlocks es) ->
  es_secrethashes_to_unlockedlocks es' = delete (lock_secrethash l) (es_secrethashes_to_unlockedlocks es) ->
  es_secrethashes_to_onchain_unlockedlocks es' = es_secrethashes_to_onchain_unlockedlocks es ->
  es_pending_locks es' = list_remove_first (lock_encoded l) (es_pending_locks es) ->
  lock_removed l es es'.
Proof.
  intros Hinv Hon E1 E2 E3 E4. split; [done..| |done].
  rewrite E3, delete_id; [done|]. unfold onchain_of in Hon. rewrite lookup_fmap in Hon.
  by destruct (_ !! _).
Qed.

(** Whether the balance proof is ours or the partner's. *)
Lemma locks_inv_add_with l bp es es' :
  locks_inv es -> lock_wf l -> get_lock es (lock_secrethash l) = None -> lock_added l es es' ->
  es_balance_proof es' = Some bp ->
  bp_locksroot bp = compute_locksroot (es_pending_locks es ++ [lock_encoded l]) ->
  bp_transferred_amount bp = transferred_amount es ->
  bp_locked_amount bp = get_amount_locked es + lock_amount l ->
  transferred_amount es + get_amount_locked es + lock_amount l <= UINT256_MAX ->
  locks_inv es' /\ transferred_amount es' = transferred_amount es /\
  get_amount_locked es' = get_amount_locked es + lock_amount l.
Proof.
  intros Hinv Hwf Hnew Hadd Ebp Er Et El Hover.
  pose proof (locks_inv_transferred es Hinv).
  split; [|split; [by unfold transferred_amount at 1; rewrite Ebp | by eapply amount_added]].
  eapply (locks_inv_added l bp es); eauto; try lia.
  by rewrite (la_pending _ _ _ Hadd).
Qed.

Lemma locks_inv_remove_with l bp es es' delta :
  locks_inv es -> get_lock es (lock_secrethash l) = Some l -> lock_removed l es es' ->
  es_balance_proof es' = Some bp ->
  bp_locksroot bp = compute_locksroot (list_remove_first (lock_encoded l) (es_pending_locks es)) ->
  bp_transferred_amount bp = transferred_amount es + delta ->
  bp_locked_amount bp = get_amount_locked es - lock_amount l ->
  0 <= delta <= lock_amount l ->
  locks_inv es' /\ transferred_amount es' = transferred_amount es + delta /\
  get_amount_locked es' = get_amount_locked es - lock_amount l.
Proof.
  intros Hinv Hl Hrem Ebp Er Et El Hd.
  pose proof (locks_inv_transferred es Hinv). pose proof (locks_inv_overflow es Hinv).
  split; [|split; [by unfold transferred_amount at 1; rewrite Ebp | by eapply amount_removed]].
  eapply (locks_inv_removed l bp es); eauto; try lia.
  by rewrite (lr_pending _ _ _ Hrem).
Qed.
End Replace.

(** ** What each operation does

    [lock_effect our ch ch' paid locked] describes a step at our end ([our =
    true]) or the partner's: the invariant is kept, [paid] tokens move from that
    end's balance to the other's, and its locked amount changes by [locked]. *)

Definition end_of (our : bool) (ch : NettingChannelState) : NettingChannelEndState :=
  if our then ch_our_state ch else ch_partner_state ch.

Record lock_effect `{Externals} (our : bool) (ch ch' : NettingChannelState) (paid locked : Z) : Prop := {
  le_inv : channel_inv ch';
  le_sender : get_balance (end_of our ch') (end_of (negb our) ch')
              = get_balance (end_of our ch) (end_of (negb our) ch) - paid;
  le_receiver : get_balance (end_of (negb our) ch') (end_of our ch')
                = get_balance (end_of (negb our) ch) (end_of our ch) + paid;
  le_locked : get_amount_locked (end_of our ch') = get_amount_locked (end_of our ch) + locked;
  le_other : end_of (negb our) ch' = end_of (negb our) ch;
  le_nonce : es_nonce (end_of our ch') = es_nonce (end_of our ch) + 1;
  le_capacity : get_capacity ch' = get_capacity ch;
}.

Section Effects.
Context `{Externals}.

Lemma lock_effect_our ch our paid locked :
  channel_inv ch -> locks_inv our -> same_funds (ch_our_state ch) our ->
  transferred_amount our = transferred_amount (ch_our_state ch) + paid ->
  get_amount_locked our = get_amount_locked (ch_our_state ch) + locked ->
  0 <= paid -> get_amount_locked (ch_our_state ch) + locked + paid
               <= get_balance (ch_our_state ch) (ch_partner_state ch) ->
  es_nonce our = es_nonce (ch_our_state ch) + 1 ->
  lock_effect true ch (set_ch_our_state our ch) paid locked.
Proof.
  intros Hinv Hour Hf Et El Hp Hs Hn.
  pose proof (same_funds_balance _ _ _ _ Hf (same_funds_refl (ch_partner_state ch))) as B1.
  pose proof (same_funds_balance _ _ _ _ (same_funds_refl (ch_partner_state ch)) Hf) as B2.
  split; cbn; try lia; try done.
  - apply channel_inv_set_our; auto; lia.
  - rewrite <- !balances_sum_to_capacity. cbn. lia.
Qed.

Lemma lock_effect_partner ch partner paid locked :
  channel_inv ch -> locks_inv partner -> same_funds (ch_partner_state ch) partner ->
  signed_balance_proof partner ->
  transferred_amount partner = transferred_amount (ch_partner_state ch) + paid ->
  get_amount_locked partner = get_amount_locked (ch_partner_state ch) + locked ->
  0 <= paid -> get_amount_locked (ch_partner_state ch) + locked + paid
               <= get_balance (ch_partner_state ch) (ch_our_state ch) ->
  es_nonce partner = es_nonce (ch_partner_state ch) + 1 ->
  lock_effect false ch (set_ch_partner_state partner ch) paid locked.
Proof.
  intros Hinv Hpar Hf Hsig Et El Hp Hs Hn.
  pose proof (same_funds_balance _ _ _ _ Hf (same_funds_refl (ch_our_state ch))) as B1.
  pose proof (same_funds_balance _ _ _ _ (same_funds_refl (ch_our_state ch)) Hf) as B2.
  split; cbn; try lia; try done.
  - apply channel_inv_set_partner; auto; lia.
  - rewrite <- !balances_sum_to_capacity. cbn. lia.
Qed.

Lemma send_lockedtransfer_effect ch initiator target amount mid pid expiration secret secrethash routes
    meta prev ch' ev :
  channel_inv ch -> get_lock (ch_our_state ch) secrethash = None ->
  send_lockedtransfer ch initiator target amount mid pid expiration secret secrethash routes meta prev
    = Ok (ch', ev) ->
  lock_effect true ch ch' 0 amount.
Proof.
  intros Hinv Hnew Hsend.
  apply send_lockedtransfer_inv in Hsend as (lock & bp & msg & t & Hl & Hp & Hbp & Hd & _ & _ & _ & _ & _ & _ & _ & ->).
  apply HashTimeLockState_init_wf in Hl as (Hwf & Ha & _ & <-). subst amount.
  apply BalanceProofUnsignedState_init_inv in Hbp as (_ & _ & _ & En & Et & El & Er & _).
  pose proof (lock_wf_amount _ Hwf).
  destruct (distributable_bounds _ _ _ (ci_our _ Hinv) ltac:(eassumption) Hd) as [Hb Ho].
  pose proof (sent_lock_added bp lock (ch_our_state ch)) as Hadd.
  destruct (locks_inv_add_with lock (BPUnsigned bp) _ _ (ci_our _ Hinv) Hwf Hnew Hadd) as (Hi & Ht & Hl); try done.
  apply lock_effect_our; try done; lia.
Qed.

(** An accepted lock at the partner's end: locked transfers and refunds. *)
Lemma receive_lock_effect ch bp lock :
  channel_inv ch -> lock_wf lock -> get_lock (ch_partner_state ch) (lock_secrethash lock) = None ->
  acceptable_lock bp lock ch (ch_partner_state ch) (ch_our_state ch) ->
  lock_effect false ch
    (upd_partner (add_locked_lock lock)
      (upd_partner (accept_balance_proof bp (es_pending_locks (ch_partner_state ch) ++ [lock_encoded lock])) ch))
    0 (lock_amount lock).
Proof.
  intros Hinv Hwf Hnew [Hu _ _ Er Et El Hd].
  rewrite (get_current_balanceproof_amounts _ (ci_partner _ Hinv)) in Et, El. simpl in Et, El.
  pose proof (lock_wf_amount _ Hwf).
  destruct (distributable_bounds _ _ _ (ci_partner _ Hinv) ltac:(eassumption) Hd) as [Hb Ho].
  set (es' := add_locked_lock lock (accept_balance_proof bp
                (es_pending_locks (ch_partner_state ch) ++ [lock_encoded lock]) (ch_partner_state ch))).
  assert (Hadd : lock_added lock (ch_partner_state ch) es') by done.
  destruct (locks_inv_add_with lock (BPSigned bp) _ es' (ci_partner _ Hinv) Hwf Hnew Hadd) as (Hi & Ht & Hl);
    try done.
  change (lock_effect false ch (set_ch_partner_state es' ch) 0 (lock_amount lock)).
  apply lock_effect_partner; try done; try lia. apply Hu.
Qed.

Lemma send_unlock_effect ch mid pid secret secrethash block_number meta ch' ev lock :
  channel_inv ch -> get_lock (ch_our_state ch) secrethash = Some lock ->
  send_unlock ch mid pid secret secrethash block_number meta = Ok (ch', ev) ->
  lock_effect true ch ch' (lock_amount lock) (- lock_amount lock).
Proof.
  intros Hinv Hlock Hsend.
  apply send_unlock_inv in Hsend as (l & bp & msg & our' & Hl & Hin & _ & _ & Hbp & _ & _ & _ & Hdel & ->).
  assert (l = lock) as -> by congruence. pose proof (get_lock_inv _ _ _ (ci_our _ Hinv) Hlock) as (Hwf & <- & _).
  apply BalanceProofUnsignedState_init_inv in Hbp as (_ & _ & _ & En & Et & El & Er & _).
  apply py_assert_Ok_inv in Hdel as [_ [= <-]].
  pose proof (lock_wf_amount _ Hwf). pose proof (ci_our_solvent _ Hinv) as Hs. unfold solvent in Hs.
  set (es' := set_es_secrethashes_to_onchain_unlockedlocks _ _).
  assert (Hrem : lock_removed lock (ch_our_state ch) es') by (by split).
  destruct (locks_inv_remove_with lock (BPUnsigned bp) _ _ (lock_amount lock) (ci_our _ Hinv) Hlock Hrem)
    as (Hi & Ht & Ha); try done; try lia. { cbn. lia. }
  apply lock_effect_our; try done; lia.
Qed.

Lemma receive_unlock_effect ch bp lock :
  channel_inv ch -> get_lock (ch_partner_state ch) (lock_secrethash lock) = Some lock ->
  acceptable_unlock bp lock ch (ch_partner_state ch) ->
  exists es',
    _del_lock (lock_secrethash lock)
      (accept_balance_proof bp (list_remove_first (lock_encoded lock)
                                  (es_pending_locks (ch_partner_state ch))) (ch_partner_state ch)) = Ok es' /\
    lock_effect false ch (set_ch_partner_state es' ch) (lock_amount lock) (- lock_amount lock).
Proof.
  intros Hinv Hl [Hu _ Er Et El].
  rewrite (get_current_balanceproof_amounts _ (ci_partner _ Hinv)) in Et, El. simpl in Et, El.
  pose proof (get_lock_inv _ _ _ (ci_partner _ Hinv) Hl) as (Hwf & _ & _).
  pose proof (lock_wf_amount _ Hwf). pose proof (ci_partner_solvent _ Hinv) as Hs. unfold solvent in Hs.
  unfold _del_lock. rewrite py_assert_true.
  2:{ rewrite is_lock_pending_get_lock. unfold get_lock in *. cbn. by rewrite Hl. }
  eexists. split; [reflexivity|]. set (es' := set_es_secrethashes_to_onchain_unlockedlocks _ _).
  assert (Hrem : lock_removed lock (ch_partner_state ch) es') by (by split).
  destruct (locks_inv_remove_with lock (BPSigned bp) _ _ (lock_amount lock) (ci_partner _ Hinv) Hl Hrem)
    as (Hi & Ht & Ha); try done; try lia.
  apply lock_effect_partner; try done; try lia. apply Hu.
Qed.

Lemma unclaimed_lock_inv es h l :
  unclaimed_lock es h = Some l -> get_lock es h = Some l /\ onchain_of es !! h = None.
Proof.
  unfold unclaimed_lock, onchain_of. rewrite lookup_fmap.
  by destruct (es_secrethashes_to_onchain_unlockedlocks es !! h).
Qed.

Lemma send_lock_expired_effect {Random} `{RandomGen Random} {L} `{LockType L} ch (locked_lock : L)
    (prng : Random) meta ch' evs prng' lock :
  channel_inv ch -> unclaimed_lock (ch_our_state ch) (lt_secrethash locked_lock) = Some lock ->
  lt_encoded locked_lock = lock_encoded lock -> lt_amount locked_lock = lock_amount lock ->
  send_lock_expired ch locked_lock prng meta = Ok (ch', evs, prng') ->
  lock_effect true ch ch' 0 (- lock_amount lock).
Proof.
  intros Hinv [Hl Hon]%unclaimed_lock_inv Eenc Eamt Hsend.
  pose proof (get_lock_inv _ _ _ (ci_our _ Hinv) Hl) as (Hwf & Eh & Hpend).
  apply send_lock_expired_inv in Hsend as [_ [(_ & _ & _ & Hno)|(bp & msg & _ & Hbp & _ & _ & ->)]].
  { rewrite Eenc in Hno. done. }
  rewrite Eenc, Eamt, <- Eh in *.
  apply BalanceProofUnsignedState_init_inv in Hbp as (_ & _ & _ & En & Et & El & Er & _).
  pose proof (lock_wf_amount _ Hwf). pose proof (ci_our_solvent _ Hinv) as Hs. unfold solvent in Hs.
  unfold upd_our. set (es' := sent_expired _ _ _ _).
  assert (Hrem : lock_removed lock (ch_our_state ch) es').
  { apply removed_unclaimed; try done. apply Hinv. }
  destruct (locks_inv_remove_with lock (BPUnsigned bp) _ _ 0 (ci_our _ Hinv) Hl Hrem)
    as (Hi & Ht & Ha); try done; try lia. { cbn. lia. }
  apply lock_effect_our; try done; lia.
Qed.

Lemma receive_lock_expired_effect ch bp lock block_number :
  channel_inv ch -> unclaimed_lock (ch_partner_state ch) (lock_secrethash lock) = Some lock ->
  acceptable_lock_expired bp lock ch (ch_partner_state ch) (ch_our_state ch) block_number ->
  lock_effect false ch
    (upd_partner (_del_unclaimed_lock (lock_secrethash lock))
      (upd_partner (accept_balance_proof bp (list_remove_first (lock_encoded lock)
                                              (es_pending_locks (ch_partner_state ch)))) ch))
    0 (- lock_amount lock).
Proof.
  intros Hinv [Hl Hon]%unclaimed_lock_inv [Hu _ _ Er Et El].
  rewrite (get_current_balanceproof_amounts _ (ci_partner _ Hinv)) in Et, El. simpl in Et, El.
  pose proof (get_lock_inv _ _ _ (ci_partner _ Hinv) Hl) as (Hwf & _ & _).
  pose proof (lock_wf_amount _ Hwf). pose proof (ci_partner_solvent _ Hinv) as Hs. unfold solvent in Hs.
  set (es' := _del_unclaimed_lock (lock_secrethash lock) (accept_balance_proof bp
                (list_remove_first (lock_encoded lock) (es_pending_locks (ch_partner_state ch)))
                (ch_partner_state ch))).
  assert (Hrem : lock_removed lock (ch_partner_state ch) es').
  { apply removed_unclaimed; try done. apply Hinv. }
  destruct (locks_inv_remove_with lock (BPSigned bp) _ es' 0 (ci_partner _ Hinv) Hl Hrem)
    as (Hi & Ht & Ha); try done; try lia. { cbn. lia. }
  change (lock_effect false ch (set_ch_partner_state es' ch) 0 (- lock_amount lock)).
  apply lock_effect_partner; try done; try lia. apply Hu.
Qed.
End Effects.
