(* ===== verification/StateTransition.v ===== *)
(** * The transition function keeps the invariant

    [state_transition] returns for every admissible state change, its sanity
    check passes, and the new channel satisfies [channel_inv].  [admissible]
    lists, per state change, the facts the code relies on from its callers, the
    chain, or the partner. *)

From Stdlib Require Import ZArith Lia Strings.Byte Sorting.Sorted.
From stdpp Require Import base gmap list strings pretty.
From S2P Require Import Prelude Encoding MediationFee State Events ChannelViews ChannelValidation ChannelSend ChannelHandlers LockSets ChannelInvariant BalanceProofMessages LockOperations.

(** ** Admissible state changes *)

(** What an end can still withdraw without touching its locked amount. *)
Definition max_unlocked_withdraw (sender receiver : NettingChannelEndState) : Z :=
  get_max_withdraw_amount sender receiver - get_amount_locked sender.

(** The fee schedule can be recomputed at the given deposits and withdraws. *)
Definition fees_computable `{Externals} (ch : NettingChannelState) (c : MediationFeeConfig) : Prop :=
  is_Ok (update_fee_schedule_after_balance_change ch c) = true.

(** The channel after the deposit of a log, before the fees are recomputed. *)
Definition deposited (a : ContractReceiveChannelDeposit) (ch : NettingChannelState) : NettingChannelState :=
  let participant_address := dep_participant_address (crcd_deposit_transaction a) in
  let contract_balance := dep_contract_balance (crcd_deposit_transaction a) in
  if bool_decide (participant_address = es_address (ch_our_state ch))
  then upd_our (update_contract_balance contract_balance) ch
  else if bool_decide (participant_address = es_address (ch_partner_state ch))
  then upd_partner (update_contract_balance contract_balance) ch
  else ch.

(** The channel after the on-chain withdraw of a log. *)
Definition withdrawn (a : ContractReceiveChannelWithdraw) (ch : NettingChannelState) : NettingChannelState :=
  if bool_decide (crcw_participant a = es_address (ch_our_state ch))
  then upd_our (onchain_withdraw (crcw_total_withdraw a)) ch
  else upd_partner (onchain_withdraw (crcw_total_withdraw a)) ch.

Definition admissible `{Externals} (ch : NettingChannelState) (block_number : Z) (sc : StateChange) : Prop :=
  let our := ch_our_state ch in
  let partner := ch_partner_state ch in
  match sc with
  | SCActionChannelClose a => ch_identifier ch = ci_channel_identifier (acc_canonical_identifier a)
  | SCActionChannelWithdraw a => acw_total_withdraw a <= max_unlocked_withdraw our partner
  | SCReceiveWithdrawRequest a =>
      is_Ok (pack_withdraw (rwr_canonical_identifier a) (rwr_participant a) (rwr_total_withdraw a)
               (rwr_expiration a)) = true /\
      rwr_total_withdraw a <= max_unlocked_withdraw partner our /\
      (forall cs, es_initiated_coop_settle our = Some cs -> cs_expiration cs = rwr_expiration a ->
                  cs_total_withdraw_partner cs = rwr_total_withdraw a)
  | SCReceiveWithdrawConfirmation a =>
      is_Ok (pack_withdraw (rwc_canonical_identifier a) (rwc_participant a) (rwc_total_withdraw a)
               (rwc_expiration a)) = true /\
      (es_initiated_coop_settle our = None \/ es_initiated_coop_settle partner = None)
  | SCReceiveWithdrawExpired _ => is_some (es_initiated_coop_settle our) = true \/ positive_withdraws our
  | SCBlock b => block_block_number b = block_number
  | SCContractReceiveChannelClosed a => cr_block_number (crcc_contract a) <> 0
  | SCContractReceiveChannelDeposit a => fees_computable (deposited a ch) (crcd_fee_config a)
  | SCContractReceiveChannelWithdraw a =>
      0 <= crcw_total_withdraw a /\
      (crcw_participant a = es_address our -> crcw_total_withdraw a <= max_unlocked_withdraw our partner) /\
      (crcw_participant a = es_address partner -> crcw_total_withdraw a <= max_unlocked_withdraw partner our) /\
      fees_computable (withdrawn a ch) (crcw_fee_config a)
  | _ => True
  end.

Section Transition.
Context `{Externals} {Random : Type} `{RandomGen Random}.

(** ** Changing funds *)

(** Channel fields other than the two ends. *)
Lemma channel_inv_frame ch ch' :
  channel_inv ch -> ch_our_state ch' = ch_our_state ch -> ch_partner_state ch' = ch_partner_state ch ->
  (forall t, ch_close_transaction ch' = Some t -> tx_result t = Some SUCCESS ->
             truthy_int (tx_finished_block_number t) = true) ->
  channel_inv ch'.
Proof.
  intros [] Eo Ep Hc. split; unfold coop_settling in *; rewrite ?Eo, ?Ep; try assumption.
Qed.

Lemma same_locks_transferred es es' : same_locks es es' -> transferred_amount es' = transferred_amount es.
Proof. intros Hs. unfold transferred_amount. by rewrite (sl_bp _ _ Hs). Qed.

Lemma channel_inv_funds_our ch our :
  channel_inv ch -> same_locks (ch_our_state ch) our -> withdraws_inv our ->
  get_amount_locked (ch_our_state ch) <= get_balance our (ch_partner_state ch) ->
  (coop_settling (set_ch_our_state our ch) = false -> positive_withdraws our) ->
  channel_inv (set_ch_our_state our ch).
Proof.
  intros [Ho Hp Hso Hsp Hsig Hwo Hwp Hpos Hcl] Hs Hw Hb Hpos'.
  pose proof (same_locks_amount _ _ Hs) as Ea. pose proof (same_locks_transferred _ _ Hs) as Et.
  unfold solvent in *. split; cbn; try done; unfold solvent.
  - by eapply locks_inv_same.
  - lia.
  - rewrite get_balance_eq, get_max_withdraw_amount_eq in *. lia.
Qed.

Lemma channel_inv_funds_partner ch partner :
  channel_inv ch -> same_locks (ch_partner_state ch) partner -> withdraws_inv partner ->
  get_amount_locked (ch_partner_state ch) <= get_balance partner (ch_our_state ch) ->
  (coop_settling (set_ch_partner_state partner ch) = false -> positive_withdraws (ch_our_state ch)) ->
  channel_inv (set_ch_partner_state partner ch).
Proof.
  intros [Ho Hp Hso Hsp Hsig Hwo Hwp Hpos Hcl] Hs Hw Hb Hpos'.
  pose proof (same_locks_amount _ _ Hs) as Ea. pose proof (same_locks_transferred _ _ Hs) as Et.
  unfold solvent in *. split; cbn; try done; unfold solvent.
  - by eapply locks_inv_same.
  - rewrite get_balance_eq, get_max_withdraw_amount_eq in *. lia.
  - lia.
  - unfold signed_balance_proof. by rewrite (sl_bp _ _ Hs).
Qed.

(** Changing only nonces, coop-settles, expired withdraws or locksroots. *)
Record same_money (es es' : NettingChannelEndState) : Prop := {
  sm_locks : same_locks es es';
  sm_deposit : es_contract_balance es' = es_contract_balance es;
  sm_onchain : es_onchain_total_withdraw es' = es_onchain_total_withdraw es;
  sm_pending : es_withdraws_pending es' = es_withdraws_pending es;
}.

Lemma same_money_balance s s' r : same_money s s' -> get_balance s' r = get_balance s r.
Proof.
  intros [Hl Hd Ho Hp]. rewrite !get_balance_eq, !get_max_withdraw_amount_eq, (same_locks_transferred _ _ Hl), Hd.
  unfold total_withdraw, offchain_total_withdraw. by rewrite Ho, Hp.
Qed.

Lemma channel_inv_money_our ch our :
  channel_inv ch -> same_money (ch_our_state ch) our ->
  (coop_settling (set_ch_our_state our ch) = false -> positive_withdraws (ch_our_state ch)) ->
  channel_inv (set_ch_our_state our ch).
Proof.
  intros Hinv Hm Hpos. apply channel_inv_funds_our; [done | apply Hm | | |].
  - eapply withdraws_inv_same; [apply (sm_pending _ _ Hm) | apply (sm_onchain _ _ Hm) | apply Hinv].
  - rewrite (same_money_balance _ _ _ Hm). apply Hinv.
  - unfold positive_withdraws in *. by rewrite (sm_pending _ _ Hm).
Qed.

Lemma channel_inv_money_partner ch partner :
  channel_inv ch -> same_money (ch_partner_state ch) partner ->
  (coop_settling (set_ch_partner_state partner ch) = false -> positive_withdraws (ch_our_state ch)) ->
  channel_inv (set_ch_partner_state partner ch).
Proof.
  intros Hinv Hm Hpos. apply channel_inv_funds_partner; [done | apply Hm | | |done].
  - eapply withdraws_inv_same; [apply (sm_pending _ _ Hm) | apply (sm_onchain _ _ Hm) | apply Hinv].
  - rewrite (same_money_balance _ _ _ Hm). apply Hinv.
Qed.

(** Recording a withdraw that respects the locked amount. *)
Lemma balance_after_withdraw s s' r w :
  same_locks s s' -> es_contract_balance s' = es_contract_balance s -> total_withdraw s' = w ->
  w <= max_unlocked_withdraw s r -> get_amount_locked s <= get_balance s' r.
Proof.
  intros Hl Ed Ew. unfold max_unlocked_withdraw.
  rewrite get_balance_eq, !get_max_withdraw_amount_eq, (same_locks_transferred _ _ Hl), Ed, Ew. lia.
Qed.

(** ** Sending a withdraw request *)

Lemma send_withdraw_request_preserves ch total expiration (prng : Random) meta coop ch' evs prng' :
  send_withdraw_request ch total expiration prng meta coop = (ch', evs, prng') ->
  channel_inv ch -> total_withdraw (ch_our_state ch) <= total ->
  total <= max_unlocked_withdraw (ch_our_state ch) (ch_partner_state ch) ->
  (coop_settling ch = true \/ total_withdraw (ch_our_state ch) < total) ->
  channel_inv ch'.
Proof.
  unfold send_withdraw_request. case_bool_decide; cbn [negb]; [|by intros [= <- <- <-]].
  destruct (message_identifier_from_prng prng). intros [= <- <- <-] Hinv Hge Hmax Hpos.
  set (w := {| pw_total_withdraw := total |}).
  unfold upd_our. set (our := set_es_withdraws_pending _ _).
  assert (Hl : same_locks (ch_our_state ch) our) by (by split).
  destruct (withdraws_inv_set w (ch_our_state ch) our) as [Hw Et]; try done. { apply Hinv. }
  apply channel_inv_funds_our; try done.
  - by eapply (balance_after_withdraw _ _ _ total).
  - change (coop_settling (set_ch_our_state our ch)) with (coop_settling ch).
    intros Hc. destruct Hpos as [|Hpos]; [congruence|].
    pose proof (ci_positive _ Hinv Hc) as Hp. pose proof (total_withdraw_nonneg _ (ci_our_withdraws _ Hinv)).
    unfold positive_withdraws in *. rewrite Forall_forall in *. cbn.
    intros p [->|Hin]%od_set_elem_inv; [cbn; lia | auto].
Qed.

(** A handler that returns a channel satisfying the invariant. *)
Definition returns_inv (r : Res ChannelTransition) : Prop :=
  exists ch' evs, r = Ok (Some ch', evs) /\ channel_inv ch'.
Definition returns_inv_prng (r : Res (ChannelTransition * Random)) : Prop :=
  exists ch' evs prng', r = Ok (Some ch', evs, prng') /\ channel_inv ch'.

(** ** User actions *)

Lemma ok_error_message r : ok r = false -> error_messages r <> [] .
Proof. destruct r as [[|]]; done. Qed.

Lemma handle_action_close_preserves ch a block_number block_hash :
  channel_inv ch -> admissible ch block_number (SCActionChannelClose a) ->
  returns_inv (_handle_action_close a ch block_number block_hash).
Proof.
  intros Hinv Hid. cbn in Hid. unfold _handle_action_close, events_for_close.
  rewrite py_assert_true by (by apply Z.eqb_eq).
  case_bool_decide; [|by do 2 eexists].
  pose proof (ci_partner_signed _ Hinv) as Hs. unfold signed_balance_proof in Hs. cbn.
  destruct (es_balance_proof (ch_partner_state ch)) as [[bp|bp]|]; [|done|]; cbn;
    (do 2 eexists; split; [reflexivity|]; apply (channel_inv_frame ch); try done; intros ? [= <-]; done).
Qed.

(** What [is_valid_total_withdraw] guarantees of an accepted total. *)
Lemma is_valid_total_withdraw_ok ch total allow_zero :
  ok (is_valid_total_withdraw ch total allow_zero) = true ->
  get_status ch = STATE_OPENED /\ total_withdraw (ch_our_state ch) <= total /\
  (allow_zero = false -> total_withdraw (ch_our_state ch) < total).
Proof.
  unfold is_valid_total_withdraw, our_total_withdraw. split_ifs; try discriminate. zbool. intros _.
  split; [done|]. split; [lia|]. intros ->. cbn in *. zbool. lia.
Qed.

Lemma str_true_error_total_withdraw ch total allow_zero :
  ok (is_valid_total_withdraw ch total allow_zero) = false ->
  str_true (as_error_message (is_valid_total_withdraw ch total allow_zero)) = true.
Proof. unfold is_valid_total_withdraw. split_ifs; try discriminate; reflexivity. Qed.

Lemma handle_action_withdraw_preserves ch a (prng : Random) block_number :
  channel_inv ch -> admissible ch block_number (SCActionChannelWithdraw a) ->
  returns_inv_prng (_handle_action_withdraw a ch prng block_number).
Proof.
  intros Hinv Hmax. cbn in Hmax. unfold _handle_action_withdraw.
  destruct (ok _) eqn:Hok.
  - destruct (send_withdraw_request _ _ _ _ _ _) as [[ch' evs] prng'] eqn:Hs.
    do 3 eexists. split; [reflexivity|].
    apply is_valid_total_withdraw_ok in Hok as (_ & Hge & Hgt). specialize (Hgt eq_refl).
    eapply send_withdraw_request_preserves; eauto.
  - rewrite py_assert_true by (by apply str_true_error_total_withdraw). by do 3 eexists.
Qed.

(** An accepted coop-settle: open, nothing pending on either side. *)
Lemma is_valid_action_coopsettle_ok ch a total :
  ok (is_valid_action_coopsettle ch a total) = true ->
  total_withdraw (ch_our_state ch) <= total /\
  es_pending_locks (ch_our_state ch) = [] /\ es_pending_locks (ch_partner_state ch) = [].
Proof.
  unfold is_valid_action_coopsettle, get_number_of_pending_transfers, fail.
  destruct (ok (is_valid_total_withdraw _ _ _)) eqn:Hok; cbn [negb]; [|congruence].
  apply is_valid_total_withdraw_ok in Hok as (_ & Hge & _).
  split_ifs; try discriminate. zbool. intros _. split; [done|].
  split; apply nil_length_inv; lia.
Qed.

Lemma handle_action_coop_settle_preserves ch a (prng : Random) block_number :
  channel_inv ch -> returns_inv_prng (_handle_action_coop_settle a ch prng block_number).
Proof.
  intros Hinv. unfold _handle_action_coop_settle.
  set (total := get_max_withdraw_amount (ch_our_state ch) (ch_partner_state ch)).
  destruct (ok _) eqn:Hok.
  - destruct (send_withdraw_request _ _ _ _ _ _) as [[ch' evs] prng'] eqn:Hs.
    do 3 eexists. split; [reflexivity|].
    apply is_valid_action_coopsettle_ok in Hok as (Hge & Hno & _).
    eapply send_withdraw_request_preserves; [exact Hs | | done | | by left].
    + apply channel_inv_money_our; [done | by split | done].
    + unfold max_unlocked_withdraw. cbn. change (total <= total - get_amount_locked (ch_our_state ch)).
      rewrite (no_pending_amount (ch_our_state ch)); [lia | apply Hinv | done].
  - rewrite py_assert_true; [by do 3 eexists|].
    revert Hok. unfold is_valid_action_coopsettle, fail.
    destruct (ok (is_valid_total_withdraw _ _ _)) eqn:Hv; cbn [negb].
    + split_ifs; try discriminate; reflexivity.
    + intros _. by apply str_true_error_total_withdraw.
Qed.

Lemma handle_action_set_reveal_timeout_preserves ch a :
  channel_inv ch -> returns_inv (Ok (_handle_action_set_reveal_timeout a ch)).
Proof.
  intros Hinv. unfold _handle_action_set_reveal_timeout. destruct (_ && _); do 2 eexists; (split; [reflexivity|]);
    [|done]. apply (channel_inv_frame ch); try done. apply Hinv.
Qed.

(** ** Withdraw messages *)

Lemma is_valid_withdraw_request_spec ch a :
  is_Ok (pack_withdraw (rwr_canonical_identifier a) (rwr_participant a) (rwr_total_withdraw a)
           (rwr_expiration a)) = true ->
  exists r, is_valid_withdraw_request ch a = Ok r /\
    (ok r = true -> total_withdraw (ch_partner_state ch) <= rwr_total_withdraw a) /\
    (ok r = false -> str_true (as_error_message r) = true).
Proof.
  unfold is_valid_withdraw_request, is_valid_withdraw, partner_total_withdraw.
  destruct (pack_withdraw _ _ _ _) as [packed|]; [|discriminate]. intros _. cbn [bind].
  eexists. split; [reflexivity|]. unfold is_valid_signature.
  split; split_ifs; try discriminate; zbool; try (intros _; lia); try (intros _; reflexivity);
    destruct (recover _ _); try case_bool_decide; try discriminate; intros _; solve [reflexivity | lia].
Qed.

Lemma confirm_withdraw_preserves a expiration ch evs :
  channel_inv ch ->
  exists ch' evs', confirm_withdraw a expiration ch evs = (Some ch', evs') /\ channel_inv ch'.
Proof.
  intros Hinv. do 2 eexists. split; [reflexivity|].
  apply channel_inv_money_our; [done | by split | apply Hinv].
Qed.

(** The coop-settle transaction is only sent for our own coop-settle. *)
Lemma events_for_coop_settle_preserves ch cs block_number block_hash :
  channel_inv ch -> is_some (es_initiated_coop_settle (ch_our_state ch)) = true ->
  exists ch' evs, events_for_coop_settle ch cs block_number block_hash = Ok (ch', evs) /\ channel_inv ch'.
Proof.
  intros Hinv Hc. unfold events_for_coop_settle.
  destruct (cs_partner_signature_request cs), (cs_partner_signature_confirmation cs); try (by do 2 eexists).
  destruct (_ <=? _); [|by do 2 eexists].
  destruct (es_initiated_coop_settle (ch_our_state ch)); [|discriminate].
  do 2 eexists. split; [reflexivity|]. apply channel_inv_money_our; [done | by split | done].
Qed.

(** The partner's end once its request has been recorded. *)
Lemma record_withdraw_request ch a :
  channel_inv ch -> total_withdraw (ch_partner_state ch) <= rwr_total_withdraw a ->
  rwr_total_withdraw a <= max_unlocked_withdraw (ch_partner_state ch) (ch_our_state ch) ->
  let w := {| pw_total_withdraw := rwr_total_withdraw a; pw_expiration := rwr_expiration a;
              pw_nonce := rwr_nonce a; pw_recipient_metadata := rwr_sender_metadata a |} in
  channel_inv
    (upd_partner (fun partner_state =>
       set_es_nonce (rwr_nonce a)
         (set_es_withdraws_pending (od_set (pw_total_withdraw w) w (es_withdraws_pending partner_state))
            partner_state)) ch).
Proof.
  intros Hinv Hge Hmax w. unfold upd_partner. set (partner := set_es_nonce _ _).
  assert (Hl : same_locks (ch_partner_state ch) partner) by (by split).
  destruct (withdraws_inv_set w (ch_partner_state ch) partner) as [Hw Et]; try done. { apply Hinv. }
  apply channel_inv_funds_partner; try done; [by eapply balance_after_withdraw | apply Hinv].
Qed.

Lemma handle_receive_withdraw_request_preserves ch a block_number block_hash (prng : Random) :
  channel_inv ch -> admissible ch block_number (SCReceiveWithdrawRequest a) ->
  returns_inv_prng (_handle_receive_withdraw_request a ch block_number block_hash prng).
Proof.
  intros Hinv (Hpack & Hmax & Hcoop). unfold _handle_receive_withdraw_request, invalid_withdraw_request.
  destruct (is_valid_withdraw_request_spec ch a Hpack) as (r & Hr & Hge & Herr). rewrite Hr. cbn [bind].
  unfold fail. destruct (ok r) eqn:Hok; cbn [negb].
  2:{ rewrite py_assert_true by auto. by do 3 eexists. }
  pose proof (record_withdraw_request ch a Hinv (Hge eq_refl) Hmax) as Hinv1. cbv zeta in Hinv1 |- *.
  set (ch1 := upd_partner _ ch) in *.
  change (es_initiated_coop_settle (ch_our_state ch1)) with (es_initiated_coop_settle (ch_our_state ch)).
  destruct (negb _) eqn:Hneg.
  { destruct (confirm_withdraw_preserves a (rwr_expiration a) ch1 [] Hinv1) as (ch' & evs & E & ?).
    cbn [pw_expiration]. rewrite E. by do 3 eexists. }
  destruct (negb (_ =? _)); [by do 3 eexists|].
  destruct (0 <? get_number_of_pending_transfers _); [by do 3 eexists|].
  destruct (es_initiated_coop_settle (ch_our_state ch)) as [cs|] eqn:Hcs.
  - destruct (cs_expiration cs =? rwr_expiration a) eqn:He; cbn [negb]; [zbool | by do 3 eexists].
    rewrite py_assert_true by (apply Z.eqb_eq; by apply Hcoop).
    set (ch2 := upd_our _ ch1).
    assert (Hinv2 : channel_inv ch2) by (apply channel_inv_money_our; [done | by split | done]).
    destruct (events_for_coop_settle_preserves ch2
                (set_cs_partner_signature_request (Some (rwr_signature a)) cs) block_number block_hash)
      as (ch3 & evs & E & Hinv3); [done | done |].
    rewrite E. cbn [bind]. destruct (confirm_withdraw_preserves a (rwr_expiration a) ch3 evs Hinv3) as (ch' & evs' & E' & ?).
    cbn [pw_expiration]. rewrite E'. by do 3 eexists.
  - destruct (0 <? get_number_of_pending_transfers (ch_our_state ch1)) eqn:Hpend; [by do 3 eexists|].
    set (ch2 := upd_partner (set_es_initiated_coop_settle _) ch1).
    assert (Hinv2 : channel_inv ch2) by (apply channel_inv_money_partner; [done | by split |];
      unfold coop_settling; cbn; by rewrite orb_true_r).
    destruct (send_withdraw_request ch2 _ _ _ _ _) as [[ch3 evs] prng'] eqn:Hs.
    assert (Hnil : es_pending_locks (ch_our_state ch2) = []).
    { zbool. apply nil_length_inv. unfold get_number_of_pending_transfers in Hpend. cbn in *. lia. }
    assert (Hinv3 : channel_inv ch3).
    { eapply send_withdraw_request_preserves; [exact Hs | done | | |].
      - pose proof (solvent_balance_nonneg _ _ (ci_our _ Hinv2) (ci_our_solvent _ Hinv2)) as Hb.
        rewrite get_balance_eq in Hb.
        change (get_max_withdraw_amount (ch_our_state ch1) (ch_partner_state ch1))
          with (get_max_withdraw_amount (ch_our_state ch2) (ch_partner_state ch2)). lia.
      - unfold max_unlocked_withdraw. rewrite (no_pending_amount (ch_our_state ch2)); [|apply Hinv2 | done].
        rewrite Z.sub_0_r. done.
      - left. unfold coop_settling. cbn. by rewrite orb_true_r. }
    destruct (confirm_withdraw_preserves a (rwr_expiration a) ch3 (evs ++ evs) Hinv3) as (ch' & evs' & E' & ?).
    cbn [pw_expiration]. rewrite E'. by do 3 eexists.
Qed.

Lemma is_valid_withdraw_confirmation_spec ch a :
  is_Ok (pack_withdraw (rwc_canonical_identifier a) (rwc_participant a) (rwc_total_withdraw a)
           (rwc_expiration a)) = true ->
  exists r, is_valid_withdraw_confirmation ch a = Ok r /\
    (ok r = false -> str_true (as_error_message r) = true).
Proof.
  unfold is_valid_withdraw_confirmation, is_valid_withdraw.
  destruct (pack_withdraw _ _ _ _) as [packed|]; [|discriminate]. intros _. cbn [bind].
  destruct (find_withdraw_expiration _ _); [|eexists; by split].
  unfold is_valid_signature. split_ifs; try (eexists; by split).
  destruct (recover _ _) as [x|]; [destruct (bool_decide (rwc_sender a = x))|]; (eexists; split; [reflexivity | done]).
Qed.

Lemma handle_receive_withdraw_confirmation_preserves ch a block_number block_hash :
  channel_inv ch -> admissible ch block_number (SCReceiveWithdrawConfirmation a) ->
  returns_inv (_handle_receive_withdraw_confirmation a ch block_number block_hash).
Proof.
  intros Hinv (Hpack & Hcoop). unfold _handle_receive_withdraw_confirmation.
  destruct (is_valid_withdraw_confirmation_spec ch a Hpack) as (r & Hr & Herr). rewrite Hr. cbn [bind].
  destruct (ok r) eqn:Hok; [|rewrite py_assert_true by auto; by do 2 eexists].
  cbv zeta. set (ch1 := upd_partner _ ch).
  assert (Hinv1 : channel_inv ch1) by (apply channel_inv_money_partner; [done | by split | apply Hinv]).
  change (es_initiated_coop_settle (ch_our_state ch1)) with (es_initiated_coop_settle (ch_our_state ch)).
  change (es_initiated_coop_settle (ch_partner_state ch1)) with (es_initiated_coop_settle (ch_partner_state ch)).
  destruct (es_initiated_coop_settle (ch_our_state ch)) as [cs|].
  - destruct Hcoop as [|Hcoop]; [discriminate|]. rewrite Hcoop. cbn [py_assert is_none is_some negb].
    set (ch2 := upd_our _ ch1).
    assert (Hinv2 : channel_inv ch2) by (apply channel_inv_money_our; [done | by split | done]).
    destruct (events_for_coop_settle_preserves ch2
                (set_cs_partner_signature_confirmation (Some (rwc_signature a)) cs) block_number block_hash)
      as (ch3 & evs & E & Hinv3); [done | done |].
    rewrite E. by do 2 eexists.
  - destruct (_ && _); by do 2 eexists.
Qed.

Lemma del_item_Ok (k : Z) (d : list (Z * PendingWithdrawState)) w :
  od_get k d = Some w -> del_item k d = Ok (od_del k d).
Proof. unfold del_item. by intros ->. Qed.

(** Entries are stored under their own total. *)
Lemma withdraws_inv_key es k w :
  withdraws_inv es -> od_get k (es_withdraws_pending es) = Some w -> pw_total_withdraw w = k.
Proof.
  intros [_ We _] Hg. apply od_get_Some_elem in Hg. rewrite Forall_forall in We.
  destruct (We _ Hg) as [E _]. by cbn in E.
Qed.

Lemma balance_after_del s s' r k :
  same_locks s s' -> es_contract_balance s' = es_contract_balance s ->
  es_withdraws_pending s' = od_del k (es_withdraws_pending s) ->
  es_onchain_total_withdraw s' = es_onchain_total_withdraw s ->
  withdraws_inv s -> solvent s r -> withdraws_inv s' /\ get_amount_locked s <= get_balance s' r.
Proof.
  intros Hl Hd Hp Ho Hw Hs. destruct (withdraws_inv_del k s s' Hp Ho Hw) as [Hw' Ht].
  split; [done|]. unfold solvent in Hs.
  rewrite get_balance_eq, get_max_withdraw_amount_eq in *. rewrite (same_locks_transferred _ _ Hl), Hd. lia.
Qed.

Lemma str_true_error_withdraw_expired ch a w block_number :
  ok (is_valid_withdraw_expired ch a w block_number) = false ->
  str_true (as_error_message (is_valid_withdraw_expired ch a w block_number)) = true.
Proof. unfold is_valid_withdraw_expired. split_ifs; try discriminate; reflexivity. Qed.

Lemma handle_receive_withdraw_expired_preserves ch a block_number :
  channel_inv ch -> admissible ch block_number (SCReceiveWithdrawExpired a) ->
  returns_inv (_handle_receive_withdraw_expired a ch block_number).
Proof.
  intros Hinv Hadm. cbn in Hadm. unfold _handle_receive_withdraw_expired.
  destruct (od_get (rwe_total_withdraw a) _) as [w|] eqn:Hw; [|by do 2 eexists].
  pose proof (withdraws_inv_key _ _ _ (ci_partner_withdraws _ Hinv) Hw) as Ekey.
  destruct (ok _) eqn:Hok; [|rewrite py_assert_true by (by apply str_true_error_withdraw_expired); by do 2 eexists].
  rewrite <- Ekey in Hw. rewrite (del_item_Ok _ _ _ Hw). cbn [bind].
  unfold upd_partner at 1. cbv zeta.
  set (partner := set_es_nonce _ _). set (ch1 := set_ch_partner_state partner ch).
  assert (Hl : same_locks (ch_partner_state ch) partner) by (by split).
  destruct (balance_after_del (ch_partner_state ch) partner (ch_our_state ch) (pw_total_withdraw w))
    as [Hw' Hb]; try done; try apply Hinv.
  assert (Hinv1 : channel_inv ch1).
  { apply channel_inv_funds_partner; try done. intros Hc. destruct Hadm as [Hc'|]; [|done].
    unfold coop_settling in Hc. cbn in Hc. by rewrite Hc' in Hc. }
  change (es_initiated_coop_settle (ch_partner_state ch1)) with (es_initiated_coop_settle (ch_partner_state ch)).
  destruct (es_initiated_coop_settle (ch_partner_state ch)); [destruct (_ && _)|];
    do 2 eexists; (split; [reflexivity|]); try done.
  apply channel_inv_money_partner; [done | by split |].
  unfold coop_settling. cbn. rewrite orb_false_r. intros Hc. destruct Hadm; [congruence | done].
Qed.

(** ** Blocks *)

(** One withdraw expires: the first of the pending ones. *)
Lemma expire_withdraw_head ch w rest :
  channel_inv ch -> es_withdraws_pending (ch_our_state ch) = (pw_total_withdraw w, w) :: rest ->
  exists our, expire_withdraw w (ch_our_state ch) = Ok our /\ es_withdraws_pending our = rest /\
    channel_inv (set_ch_our_state our ch).
Proof.
  intros Hinv Hp. unfold expire_withdraw.
  set (es := set_es_nonce _ _).
  set (es1 := match es_initiated_coop_settle es with Some _ => _ | None => _ end).
  assert (Hes1 : same_money (ch_our_state ch) es1 /\
                 (es_initiated_coop_settle es1 = es_initiated_coop_settle (ch_our_state ch) \/
                  es_initiated_coop_settle es1 = None)).
  { unfold es1, es. cbn. destruct (es_initiated_coop_settle (ch_our_state ch)) eqn:E; [destruct (_ && _)|];
      cbn; rewrite ?E; (split; [by repeat split | auto]). }
  destruct Hes1 as [[Hl Hd Ho Hw] Hcoop]. cbn.
  assert (Hget : od_get (pw_total_withdraw w) (es_withdraws_pending es1) = Some w).
  { rewrite Hw, Hp. cbn. by rewrite decide_True. }
  assert (Hdel : od_del (pw_total_withdraw w) (es_withdraws_pending es1) = rest).
  { rewrite Hw, Hp. cbn. by rewrite decide_True. }
  rewrite (del_item_Ok _ _ _ Hget), Hdel. cbn [bind]. eexists. split; [reflexivity|].
  set (our := set_es_withdraws_pending _ _). split; [done|].
  assert (Hl' : same_locks (ch_our_state ch) our) by (destruct Hl; by split).
  destruct (balance_after_del (ch_our_state ch) our (ch_partner_state ch) (pw_total_withdraw w)) as [Hw' Hb];
    try done; try apply Hinv. { rewrite <- Hw. done. }
  apply channel_inv_funds_our; try done. intros _.
  (* everything behind the first withdraw is larger than it *)
  pose proof (ci_our_withdraws _ Hinv) as [_ We Ws]. unfold positive_withdraws.
  change (es_withdraws_pending our) with rest. rewrite Hp in We, Ws.
  apply Forall_cons in We as [[_ Hk] _]. cbn in Ws, Hk. apply StronglySorted_inv in Ws as [_ Ws].
  rewrite Forall_fmap in Ws. eapply Forall_impl; [exact Ws|]. cbn. lia.
Qed.

Lemma expired_withdraws_loop_preserves snapshot ch block_number (prng : Random) :
  channel_inv ch -> (es_withdraws_pending (ch_our_state ch)).*2 = snapshot ->
  exists ch' evs prng', expired_withdraws_loop snapshot ch block_number prng = Ok (ch', evs, prng') /\
    channel_inv ch' /\ ch_close_transaction ch' = ch_close_transaction ch /\
    ch_settle_transaction ch' = ch_settle_transaction ch.
Proof.
  revert ch prng. induction snapshot as [|w snapshot IH]; intros ch prng Hinv Hp; cbn [expired_withdraws_loop].
  { by do 3 eexists. }
  destruct (negb _); [by do 3 eexists|].
  destruct (es_withdraws_pending (ch_our_state ch)) as [|[k w'] rest] eqn:Ep; [discriminate|].
  csimpl in Hp. injection Hp as -> Hrest.
  assert (k = pw_total_withdraw w) as ->.
  { pose proof (wi_entries _ (ci_our_withdraws _ Hinv)) as We. rewrite Ep in We.
    apply Forall_cons in We as [[? _] _]. done. }
  destruct (expire_withdraw_head ch w rest Hinv Ep) as (our & E & Er & Hinv'). rewrite E. cbn [bind].
  destruct (message_identifier_from_prng prng) as [mid prng1].
  destruct (IH (set_ch_our_state our ch) prng1 Hinv') as (ch' & evs & prng' & El & ? & ? & ?).
  { cbn. by rewrite Er. }
  rewrite El. cbn [bind]. by do 3 eexists.
Qed.

Lemma get_status_closed ch :
  get_status ch = STATE_CLOSED ->
  exists t, ch_close_transaction ch = Some t /\ tx_result t = Some SUCCESS /\ ch_settle_transaction ch = None.
Proof.
  unfold get_status, transaction_status.
  destruct (ch_settle_transaction ch); [split_ifs; discriminate|].
  destruct (ch_close_transaction ch) as [t|]; [|discriminate].
  case_bool_decide; [eauto|]. split_ifs; discriminate.
Qed.

Lemma handle_block_preserves ch a block_number (prng : Random) :
  channel_inv ch -> admissible ch block_number (SCBlock a) ->
  returns_inv_prng (_handle_block a ch block_number prng).
Proof.
  intros Hinv Hb. cbn in Hb. unfold _handle_block. rewrite py_assert_true by (by apply Z.eqb_eq).
  assert (Hloop : exists ch' evs prng',
    (if bool_decide (get_status ch = STATE_OPENED)
     then events_for_expired_withdraws ch block_number prng else Ok (ch, [], prng)) = Ok (ch', evs, prng') /\
    channel_inv ch').
  { case_bool_decide; [|by do 3 eexists].
    destruct (expired_withdraws_loop_preserves _ ch block_number prng Hinv eq_refl) as (? & ? & ? & ? & ? & _).
    by do 3 eexists. }
  destruct Hloop as (ch' & evs & prng' & -> & Hinv'). cbn [bind].
  case_bool_decide as Hst; [|by do 3 eexists].
  apply get_status_closed in Hst as (t & Ht & Hsucc & _). rewrite Ht.
  pose proof (ci_closed _ Hinv' t Ht Hsucc) as Htrue. rewrite py_assert_true by done.
  destruct (_ <? _); [|by do 3 eexists]. do 3 eexists. split; [reflexivity|].
  apply (channel_inv_frame ch'); try done. apply Hinv'.
Qed.

(** ** On-chain logs *)

Lemma mark_success_closed block_number t t' :
  block_number <> 0 -> mark_success block_number t = Some t' ->
  truthy_int (tx_finished_block_number t') = true.
Proof.
  intros Hb. unfold mark_success. destruct t as [t|]; [|intros [= <-]; by apply negb_true_iff, Z.eqb_neq].
  destruct (truthy_int (tx_finished_block_number t)) eqn:E; cbn [negb]; intros [= <-]; [done|].
  by apply negb_true_iff, Z.eqb_neq.
Qed.

Lemma handle_channel_closed_preserves ch a block_number :
  channel_inv ch -> admissible ch block_number (SCContractReceiveChannelClosed a) ->
  returns_inv (_handle_channel_closed a ch).
Proof.
  intros Hinv Hb. cbn in Hb. unfold _handle_channel_closed. destruct (_ && _); [|by do 2 eexists].
  cbv zeta. set (ch1 := set_closed _ ch).
  assert (Hinv1 : channel_inv ch1).
  { apply (channel_inv_frame ch); try done. cbn. intros t Ht _. by eapply mark_success_closed. }
  pose proof (ci_partner_signed _ Hinv) as Hs. unfold signed_balance_proof in Hs.
  change (es_balance_proof (ch_partner_state ch1)) with (es_balance_proof (ch_partner_state ch)).
  destruct (es_balance_proof (ch_partner_state ch)) as [[bp|bp]|]; [|done|];
    destruct (_ && _ && _) eqn:E; try (by do 2 eexists).
  - do 2 eexists. split; [reflexivity|]. apply (channel_inv_frame ch1); try done. apply Hinv1.
  - cbn in E. rewrite andb_false_r in E. discriminate.
Qed.

Lemma handle_channel_updated_transfer_preserves ch a block_number :
  channel_inv ch -> returns_inv (Ok (_handle_channel_updated_transfer a ch block_number)).
Proof.
  intros Hinv. unfold _handle_channel_updated_transfer. destruct (_ =? _); do 2 eexists; (split; [reflexivity|]);
    [|done]. apply (channel_inv_frame ch); try done. apply Hinv.
Qed.

Lemma update_contract_balance_money d es :
  same_locks es (update_contract_balance d es) /\
  es_onchain_total_withdraw (update_contract_balance d es) = es_onchain_total_withdraw es /\
  es_withdraws_pending (update_contract_balance d es) = es_withdraws_pending es /\
  es_initiated_coop_settle (update_contract_balance d es) = es_initiated_coop_settle es /\
  es_contract_balance es <= es_contract_balance (update_contract_balance d es).
Proof.
  unfold update_contract_balance. destruct (Z.ltb_spec (es_contract_balance es) d); repeat split; cbn; lia.
Qed.

Lemma deposited_inv ch a : channel_inv ch -> channel_inv (deposited a ch).
Proof.
  intros Hinv. unfold deposited. set (d := dep_contract_balance _).
  assert (Hup : forall es r, withdraws_inv es -> solvent es r ->
            withdraws_inv (update_contract_balance d es) /\
            get_amount_locked es <= get_balance (update_contract_balance d es) r).
  { intros es r Hw Hs. destruct (update_contract_balance_money d es) as (Hl & Ho & Hp & _ & Hd).
    split; [by eapply withdraws_inv_same|]. unfold solvent in Hs.
    rewrite get_balance_eq, get_max_withdraw_amount_eq in *. rewrite (same_locks_transferred _ _ Hl).
    unfold total_withdraw, offchain_total_withdraw in *. rewrite Ho, Hp. lia. }
  split_ifs; [| |done].
  - destruct (Hup _ _ (ci_our_withdraws _ Hinv) (ci_our_solvent _ Hinv)) as [Hw Hb].
    destruct (update_contract_balance_money d (ch_our_state ch)) as (Hl & Ho & Hp & Hc & _).
    apply channel_inv_funds_our; try done. unfold coop_settling, positive_withdraws. cbn.
    rewrite Hc, Hp. apply Hinv.
  - destruct (Hup _ _ (ci_partner_withdraws _ Hinv) (ci_partner_solvent _ Hinv)) as [Hw Hb].
    destruct (update_contract_balance_money d (ch_partner_state ch)) as (Hl & Ho & Hp & Hc & _).
    apply channel_inv_funds_partner; try done. unfold coop_settling. cbn. rewrite Hc. apply Hinv.
Qed.

Lemma update_fee_schedule_preserves ch c :
  channel_inv ch -> fees_computable ch c ->
  exists ch', update_fee_schedule_after_balance_change ch c = Ok ch' /\ channel_inv ch'.
Proof.
  unfold fees_computable, update_fee_schedule_after_balance_change. intros Hinv.
  destruct (bind _ _) as [ch'|] eqn:E; [|discriminate]. intros _. exists ch'. split; [done|].
  repeat (let x := fresh in let Hx := fresh in apply bind_Ok_inv in E as (x & Hx & E)).
  injection E as <-. apply (channel_inv_frame ch); try done. apply Hinv.
Qed.

Lemma handle_channel_deposit_preserves ch a block_number :
  channel_inv ch -> admissible ch block_number (SCContractReceiveChannelDeposit a) ->
  returns_inv (_handle_channel_deposit a ch).
Proof.
  intros Hinv Hfee. cbn in Hfee. pose proof (deposited_inv ch a Hinv) as Hinv1.
  unfold _handle_channel_deposit. fold (deposited a ch).
  destruct (update_fee_schedule_preserves _ _ Hinv1 Hfee) as (ch' & E & ?). rewrite E. by do 2 eexists.
Qed.

(** An on-chain withdraw replaces the pending one of the same total. *)
Lemma onchain_withdraw_inv total es r :
  withdraws_inv es -> 0 <= total -> total <= max_unlocked_withdraw es r -> solvent es r ->
  let es' := onchain_withdraw total es in
  same_locks es es' /\ withdraws_inv es' /\ get_amount_locked es <= get_balance es' r /\
  es_initiated_coop_settle es' = es_initiated_coop_settle es /\
  (positive_withdraws es -> positive_withdraws es').
Proof.
  intros Hw Ht Hmax Hs es'.
  set (es1 := match od_get total (es_withdraws_pending es) with
              | Some _ => set_es_withdraws_pending (od_del total (es_withdraws_pending es)) es
              | None => es end).
  assert (H1 : same_locks es es1 /\ withdraws_inv es1 /\ total_withdraw es1 <= total_withdraw es /\
               es_contract_balance es1 = es_contract_balance es /\
               es_initiated_coop_settle es1 = es_initiated_coop_settle es /\
               (positive_withdraws es -> positive_withdraws es1)).
  { unfold es1. destruct (od_get total _); [|split; [by split|]; split; [done|]; split; [lia|done]].
    set (es2 := set_es_withdraws_pending _ es).
    destruct (withdraws_inv_del total es es2) as [? ?]; try done.
    repeat (split; [done|]). by apply positive_withdraws_del with total. }
  destruct H1 as (Hl & Hw1 & Ht1 & Hd & Hc & Hp). change es' with (set_es_onchain_total_withdraw total es1).
  assert (Hl' : same_locks es (set_es_onchain_total_withdraw total es1)) by (destruct Hl; by split).
  split; [done|]. split; [destruct Hw1; by split|]. split; [|done].
  unfold max_unlocked_withdraw, solvent in *.
  rewrite get_balance_eq, !get_max_withdraw_amount_eq, (same_locks_transferred _ _ Hl') in *.
  unfold total_withdraw in *. cbn in *. rewrite Hd. change (offchain_total_withdraw _) with (offchain_total_withdraw es1). lia.
Qed.

Lemma coop_settling_set_our ch es :
  es_initiated_coop_settle es = es_initiated_coop_settle (ch_our_state ch) ->
  coop_settling (set_ch_our_state es ch) = coop_settling ch.
Proof. unfold coop_settling. cbn. by intros ->. Qed.

Lemma coop_settling_set_partner ch es :
  es_initiated_coop_settle es = es_initiated_coop_settle (ch_partner_state ch) ->
  coop_settling (set_ch_partner_state es ch) = coop_settling ch.
Proof. unfold coop_settling. cbn. by intros ->. Qed.

Lemma withdrawn_inv ch a block_number :
  crcw_participant a ∈ [es_address (ch_our_state ch); es_address (ch_partner_state ch)] ->
  channel_inv ch -> admissible ch block_number (SCContractReceiveChannelWithdraw a) ->
  channel_inv (withdrawn a ch).
Proof.
  intros Hin Hinv (Hpos & Ho & Hp & _). unfold withdrawn. case_bool_decide as Hpart.
  - destruct (onchain_withdraw_inv (crcw_total_withdraw a) (ch_our_state ch) (ch_partner_state ch))
      as (? & ? & ? & Hc & Hpw); auto; try apply Hinv.
    apply channel_inv_funds_our; try done. rewrite coop_settling_set_our by done. intros Hx.
    by apply Hpw, Hinv.
  - assert (crcw_participant a = es_address (ch_partner_state ch)) by set_solver.
    destruct (onchain_withdraw_inv (crcw_total_withdraw a) (ch_partner_state ch) (ch_our_state ch))
      as (? & ? & ? & Hc & _); auto; try apply Hinv.
    apply channel_inv_funds_partner; try done. rewrite coop_settling_set_partner by done. apply Hinv.
Qed.

Lemma handle_channel_withdraw_preserves ch a block_number :
  channel_inv ch -> admissible ch block_number (SCContractReceiveChannelWithdraw a) ->
  returns_inv (_handle_channel_withdraw a ch).
Proof.
  intros Hinv Hadm. unfold _handle_channel_withdraw. case_bool_decide as Hin; cbn [negb]; [|by do 2 eexists].
  pose proof (withdrawn_inv _ _ _ Hin Hinv Hadm) as Hinv1. fold (withdrawn a ch).
  destruct Hadm as (_ & _ & _ & Hfee).
  destruct (update_fee_schedule_preserves _ _ Hinv1 Hfee) as (ch' & E & ?). rewrite E. by do 2 eexists.
Qed.

Lemma set_coop_settled_Ok block_number es :
  is_some (es_initiated_coop_settle es) = true ->
  exists cs, set_coop_settled block_number es = Ok (set_es_initiated_coop_settle (Some cs) es).
Proof. unfold set_coop_settled. destruct (es_initiated_coop_settle es); [eauto | discriminate]. Qed.

(** A settlement that matches a coop-settle leaves no lock on either side. *)
Lemma coop_settle_matches_checks cs i p c1 c2 :
  coop_settle_matches cs i p c1 c2 = true -> c1 = true /\ c2 = true.
Proof. unfold coop_settle_matches. intros Hm. zbool. split; by destruct c1, c2; zbool. Qed.

Definition returns_inv_or_removed (r : Res ChannelTransition) : Prop :=
  exists ch' evs, r = Ok (ch', evs) /\ match ch' with Some ch' => channel_inv ch' | None => True end.

Lemma handle_channel_settled_preserves ch a :
  channel_inv ch -> returns_inv_or_removed (_handle_channel_settled a ch).
Proof.
  intros Hinv. unfold _handle_channel_settled. destruct (_ =? _); [|by do 2 eexists].
  cbv zeta. set (ch1 := set_settled _ ch).
  set (c1 := bool_decide (crcs_our_onchain_locksroot a = _)).
  set (c2 := bool_decide (crcs_partner_onchain_locksroot a = _)).
  assert (Hinv1 : channel_inv ch1) by (apply (channel_inv_frame ch); try done; apply Hinv).
  destruct (c1 && c2) eqn:Hc.
  - (* nothing left to unlock: the channel is removed *)
    assert (Hour : exists ch2 b, match es_initiated_coop_settle (ch_our_state ch1) with
      | Some cs => if coop_settle_matches cs (crcs_our_transferred_amount a) (crcs_partner_transferred_amount a) c1 c2
                   then let* es := set_coop_settled (cr_block_number (crcs_contract a)) (ch_our_state ch1) in
                        Ok (set_ch_our_state es ch1, true)
                   else Ok (ch1, false)
      | None => Ok (ch1, false) end = Ok (ch2, b)).
    { destruct (es_initiated_coop_settle (ch_our_state ch1)) eqn:E; [destruct (coop_settle_matches _ _ _ _ _)|];
        [|by do 2 eexists..].
      destruct (set_coop_settled_Ok (cr_block_number (crcs_contract a)) (ch_our_state ch1)) as [cs Hcs];
        [by rewrite E|]. rewrite Hcs. by do 2 eexists. }
    destruct Hour as (ch2 & b & ->). cbn [bind].
    destruct (es_initiated_coop_settle (ch_partner_state ch2)) eqn:E; [destruct (coop_settle_matches _ _ _ _ _)|];
      [|by do 2 eexists..].
    destruct (set_coop_settled_Ok (cr_block_number (crcs_contract a)) (ch_partner_state ch2)) as [cs Hcs];
      [by rewrite E|]. rewrite Hcs. by do 2 eexists.
  - (* locks are left: it cannot be a coop-settle *)
    assert (Hno : forall cs i p, coop_settle_matches cs i p c1 c2 = false).
    { intros cs i p. unfold coop_settle_matches. destruct c1, c2; try discriminate; by rewrite ?andb_false_r. }
    assert (Heq : forall (o : option CoopSettleState) i p (x : Res (NettingChannelState * bool)) y,
      match o with Some cs => if coop_settle_matches cs i p c1 c2 then x else y | None => y end = y).
    { intros [cs|] i p x y; [by rewrite Hno | done]. }
    rewrite !Heq. cbn [bind]. rewrite !Heq. cbn [bind]. do 2 eexists. split; [reflexivity|].
    apply channel_inv_money_partner; [|by split | apply Hinv1].
    apply channel_inv_money_our; [done | by split | apply Hinv1].
Qed.

Lemma handle_channel_batch_unlock_preserves ch a :
  channel_inv ch -> returns_inv_or_removed (Ok (_handle_channel_batch_unlock a ch)).
Proof.
  intros Hinv. unfold _handle_channel_batch_unlock.
  destruct (bool_decide (get_status ch = STATE_SETTLED)); [|by do 2 eexists].
  cbv zeta. set (ch1 := if bool_decide (crbu_sender a = _) then _ else _).
  assert (Hinv1 : channel_inv ch1).
  { unfold ch1. split_ifs; [| |done].
    - apply channel_inv_money_our; [done | by split | apply Hinv].
    - apply channel_inv_money_partner; [done | by split | apply Hinv]. }
  destruct (_ && _); by do 2 eexists.
Qed.

(** ** Dispatch *)

Lemma returns_inv_keep_prng (r : Res ChannelTransition) (prng : Random) :
  returns_inv r ->
  exists ch' evs prng', keep_prng prng r = Ok (ch', evs, prng') /\
    match ch' with Some ch' => channel_inv ch' | None => True end.
Proof. intros (ch' & evs & -> & ?). by do 3 eexists. Qed.

Lemma returns_removed_keep_prng (r : Res ChannelTransition) (prng : Random) :
  returns_inv_or_removed r ->
  exists ch' evs prng', keep_prng prng r = Ok (ch', evs, prng') /\
    match ch' with Some ch' => channel_inv ch' | None => True end.
Proof. intros (ch' & evs & -> & ?). by do 3 eexists. Qed.

Lemma returns_inv_prng_weaken (r : Res (ChannelTransition * Random)) :
  returns_inv_prng r ->
  exists ch' evs prng', r = Ok (ch', evs, prng') /\
    match ch' with Some ch' => channel_inv ch' | None => True end.
Proof. intros (ch' & evs & prng' & -> & ?). by do 3 eexists. Qed.

Lemma handle_state_transitions_preserves ch sc block_number block_hash (prng : Random) :
  channel_inv ch -> admissible ch block_number sc ->
  exists ch' evs prng',
    handle_state_transitions sc ch block_number block_hash prng = Ok (ch', evs, prng') /\
    match ch' with Some ch' => channel_inv ch' | None => True end.
Proof.
  intros Hinv Hadm. destruct sc; cbn [handle_state_transitions];
    lazymatch goal with
    | |- context [_handle_channel_settled] => by apply returns_removed_keep_prng, handle_channel_settled_preserves
    | |- context [_handle_channel_batch_unlock] =>
        by apply returns_removed_keep_prng, handle_channel_batch_unlock_preserves
    | |- context [keep_prng _ (Ok (Some _, []))] => by do 3 eexists
    | |- context [keep_prng] => apply returns_inv_keep_prng
    | |- _ => apply returns_inv_prng_weaken
    end;
    eauto using handle_block_preserves, handle_action_withdraw_preserves, handle_action_coop_settle_preserves,
      handle_receive_withdraw_request_preserves, handle_action_close_preserves,
      handle_receive_withdraw_confirmation_preserves, handle_receive_withdraw_expired_preserves,
      handle_channel_closed_preserves, handle_channel_updated_transfer_preserves,
      handle_channel_deposit_preserves, handle_channel_withdraw_preserves,
      handle_action_set_reveal_timeout_preserves.
Qed.

Lemma state_transition_preserves ch sc block_number block_hash (prng : Random) :
  channel_inv ch -> admissible ch block_number sc ->
  exists ch' evs prng',
    state_transition ch sc block_number block_hash prng = Ok (ch', evs, prng') /\
    match ch' with Some ch' => channel_inv ch' /\ sanity_check ch' = Ok tt | None => True end.
Proof.
  intros Hinv Hadm. unfold state_transition.
  destruct (handle_state_transitions_preserves ch sc block_number block_hash prng Hinv Hadm)
    as (ch' & evs & prng' & -> & Hinv'). cbn [bind fst].
  destruct ch' as [ch'|]; [|by do 3 eexists].
  assert (Hs : sanity_check ch' = Ok tt) by (by apply sanity_check_iff, channel_inv_sane).
  rewrite Hs. by do 3 eexists.
Qed.
End Transition.
