(* ===== verification/TransferTheorems.v ===== *)
(** * Locked transfers, unlocks and expired locks: the theorems

    For each message that carries a balance proof: the handler returns, it
    accepts exactly the acceptable messages, an accepted one has the intended
    effect on the channel and a rejected one has none. *)

From Stdlib Require Import ZArith Lia Strings.Byte.
From stdpp Require Import base gmap list strings pretty.
From S2P Require Import Prelude Encoding MediationFee State Events ChannelViews ChannelValidation ChannelSend ChannelHandlers LockSets ChannelInvariant BalanceProofMessages LockOperations.

Section Checks.
Context `{Externals}.

Lemma is_balance_proof_usable_onchain_Ok bp ch sender r :
  is_valid_balanceproof_signature bp (es_address sender) = Ok r ->
  exists r', is_balance_proof_usable_onchain bp ch sender = Ok r'.
Proof. intros Hr. unfold is_balance_proof_usable_onchain. rewrite Hr. simpl. eauto. Qed.

Lemma valid_lockedtransfer_check_Ok ch sender receiver name bp lock r :
  is_valid_balanceproof_signature bp (es_address sender) = Ok r ->
  exists v msg locks, valid_lockedtransfer_check ch sender receiver name bp lock = Ok (v, msg, locks).
Proof.
  intros Hr. unfold valid_lockedtransfer_check.
  destruct (get_current_balanceproof sender) as [[[? ?] ?] ?].
  destruct (is_balance_proof_usable_onchain_Ok _ ch _ _ Hr) as [r' ->]. cbn [bind].
  match goal with |- context [Ok ?x] => destruct x as [[v msg] locks] end. eauto.
Qed.

Lemma is_valid_unlock_Ok u ch sender r :
  is_valid_balanceproof_signature (ru_balance_proof u) (es_address sender) = Ok r ->
  exists v msg locks, is_valid_unlock u ch sender = Ok (v, msg, locks).
Proof.
  intros Hr. unfold is_valid_unlock. destruct (get_lock _ _); [|unfold invalid; eauto].
  destruct (compute_locks_without _ _); [|unfold invalid; eauto].
  destruct (get_current_balanceproof sender) as [[[? ?] ?] ?].
  destruct (is_balance_proof_usable_onchain_Ok _ ch _ _ Hr) as [r' ->]. cbn [bind].
  match goal with |- context [Ok ?x] => destruct x as [[v msg] locks] end. eauto.
Qed.

Lemma is_valid_lock_expired_Ok m ch sender receiver block_number r :
  is_valid_balanceproof_signature (rle_balance_proof m) (es_address sender) = Ok r ->
  exists v msg locks, is_valid_lock_expired m ch sender receiver block_number = Ok (v, msg, locks).
Proof.
  intros Hr. unfold is_valid_lock_expired.
  destruct (get_current_balanceproof sender) as [[[? ?] ?] ?].
  destruct (is_balance_proof_usable_onchain_Ok _ ch _ _ Hr) as [r' ->]. cbn [bind].
  match goal with |- context [Ok ?x] => destruct x as [[v msg] locks] end. eauto.
Qed.

(** *** What the handlers return, by cases *)

Lemma handle_receive_lockedtransfer_inv ch t meta ch' v evs msg :
  handle_receive_lockedtransfer ch t meta = Ok (ch', (v, evs, msg)) ->
  let bp := lts_balance_proof t in
  let sender := ch_partner_state ch in
  (v = true /\ msg = None /\ acceptable_lock bp (lts_lock t) ch sender (ch_our_state ch) /\
   ch' = upd_partner (add_locked_lock (lts_lock t))
           (upd_partner (accept_balance_proof bp (es_pending_locks sender ++ [lock_encoded (lts_lock t)])) ch) /\
   evs = [processed (payer_address t) meta (lts_message_identifier t)]) \/
  (v = false /\ msg_true msg = true /\ ~ acceptable_lock bp (lts_lock t) ch sender (ch_our_state ch) /\
   ch' = ch /\ exists reason, evs = [EventInvalidReceivedLockedTransfer (lts_payment_identifier t) reason]).
Proof.
  unfold handle_receive_lockedtransfer, is_valid_lockedtransfer.
  intros ([[v' m] locks] & E & Hrun)%bind_Ok_inv. cbv iota beta in Hrun.
  apply valid_lockedtransfer_check_spec in E as [(-> & -> & -> & Hacc)|(-> & Hmsg & -> & Hno)].
  - injection Hrun as <- <- <- <-. left. done.
  - rewrite Hmsg in Hrun. injection Hrun as <- <- <- <-. right. eauto 10.
Qed.

Lemma handle_refundtransfer_inv ch received refund ch' v evs msg :
  handle_refundtransfer received ch refund = Ok (ch', (v, evs, msg)) ->
  let t := rtr_transfer refund in
  let bp := lts_balance_proof t in
  let sender := ch_partner_state ch in
  let fits := acceptable_lock bp (lts_lock t) ch sender (ch_our_state ch) /\
              refund_transfer_matches_transfer t received = true in
  (v = true /\ fits /\
   ch' = upd_partner (add_locked_lock (lts_lock t))
           (upd_partner (accept_balance_proof bp (es_pending_locks sender ++ [lock_encoded (lts_lock t)])) ch)) \/
  (v = false /\ ~ fits /\ ch' = ch /\
   exists reason, evs = [EventInvalidReceivedTransferRefund (ltu_payment_identifier received) reason]).
Proof.
  unfold handle_refundtransfer, is_valid_refund. cbv zeta.
  intros ([[v' m] locks] & ([[v0 m0] locks0] & E & Hv)%bind_Ok_inv & Hrun)%bind_Ok_inv.
  apply valid_lockedtransfer_check_spec in E as [(-> & -> & -> & Hacc)|(-> & Hmsg & -> & Hno)];
    cbn [negb] in Hv.
  - destruct (refund_transfer_matches_transfer _ _) eqn:Hm; cbn [negb] in Hv;
      injection Hv as <- <- <-; injection Hrun as <- <- <- <-.
    + left. done.
    + right. split; [done|]. split; [naive_solver|]. eauto.
  - injection Hv as <- <- <-. cbv iota beta in Hrun. rewrite Hmsg in Hrun. injection Hrun as <- <- <- <-.
    right. split; [done|]. split; [by intros [? _]|]. eauto.
Qed.

Lemma handle_unlock_inv ch u meta ch' v evs msg :
  channel_inv ch -> handle_unlock ch u meta = Ok (ch', (v, evs, msg)) ->
  let fits lock := get_lock (ch_partner_state ch) (ru_secrethash u) = Some lock /\
                   acceptable_unlock (ru_balance_proof u) lock ch (ch_partner_state ch) in
  (v = true /\ exists lock, fits lock /\ lock_effect false ch ch' (lock_amount lock) (- lock_amount lock) /\
   get_lock (ch_partner_state ch') (ru_secrethash u) = None) \/
  (v = false /\ (forall lock, ~ fits lock) /\ ch' = ch /\
   exists reason, evs = [EventInvalidReceivedUnlock (ru_secrethash u) reason]).
Proof.
  intros Hinv. unfold handle_unlock. intros ([[v' m] locks] & E & Hrun)%bind_Ok_inv. cbv iota beta in Hrun.
  apply is_valid_unlock_spec in E as [(lock & Hl & -> & -> & -> & Hacc)|(-> & Hmsg & -> & Hno)].
  - pose proof (get_lock_inv _ _ _ (ci_partner _ Hinv) Hl) as (_ & Eh & _). rewrite <- Eh in *.
    destruct (receive_unlock_effect _ _ _ Hinv Hl Hacc) as (es' & Hdel & Heff).
    cbn in Hrun. rewrite Hdel in Hrun. injection Hrun as <- <- <- <-. left. split; [done|]. exists lock.
    split; [done|]. split; [exact Heff|].
    apply py_assert_Ok_inv in Hdel as [_ [= <-]]. unfold get_lock. cbn. by rewrite !lookup_delete_eq.
  - rewrite Hmsg in Hrun. injection Hrun as <- <- <- <-. right. split; [done|].
    split; [intros lock []; by eapply Hno|]. eauto.
Qed.

Lemma handle_receive_lock_expired_inv ch m block_number meta r evs :
  channel_inv ch -> handle_receive_lock_expired ch m block_number meta = Ok (r, evs) ->
  let h := rle_secrethash m in
  let fits lock := unclaimed_lock (ch_partner_state ch) h = Some lock /\
    acceptable_lock_expired (rle_balance_proof m) lock ch (ch_partner_state ch) (ch_our_state ch) block_number in
  exists ch', r = Some ch' /\
  ((exists lock, fits lock /\ lock_effect false ch ch' 0 (- lock_amount lock) /\
     get_lock (ch_partner_state ch') h = None /\
     evs = [processed (bps_sender (rle_balance_proof m)) meta (rle_message_identifier m)]) \/
   ((forall lock, ~ fits lock) /\ ch' = ch /\ exists reason, evs = [EventInvalidReceivedLockExpired h reason])).
Proof.
  intros Hinv. unfold handle_receive_lock_expired.
  intros ([[v' msg] locks] & E & Hrun)%bind_Ok_inv. cbv iota beta in Hrun.
  apply is_valid_lock_expired_spec in E as [(lock & Hl & -> & -> & -> & Hacc)|(-> & Hmsg & -> & Hno)].
  - injection Hrun as <- <-. eexists. split; [done|]. left. exists lock.
    pose proof (unclaimed_lock_inv _ _ _ Hl) as [Hget Hon].
    pose proof (get_lock_inv _ _ _ (ci_partner _ Hinv) Hget) as (_ & Eh & _). rewrite <- Eh in *.
    split; [done|]. split; [by eapply receive_lock_expired_effect|]. split; [|done].
    unfold get_lock. cbn. rewrite !lookup_delete_eq. unfold onchain_of in Hon.
    rewrite lookup_fmap in Hon. by destruct (_ !! _).
  - rewrite Hmsg in Hrun. injection Hrun as <- <-. eexists. split; [done|]. right.
    split; [intros lock []; by eapply Hno|]. eauto.
Qed.

(** *** The handlers return whenever the signed data can be encoded *)

Lemma handle_receive_lockedtransfer_Ok ch t meta r :
  is_valid_balanceproof_signature (lts_balance_proof t) (es_address (ch_partner_state ch)) = Ok r ->
  exists ch' v evs msg, handle_receive_lockedtransfer ch t meta = Ok (ch', (v, evs, msg)).
Proof.
  intros Hr. unfold handle_receive_lockedtransfer, is_valid_lockedtransfer.
  destruct (valid_lockedtransfer_check_Ok ch (ch_partner_state ch) (ch_our_state ch) "LockedTransfer"
              (lts_balance_proof t) (lts_lock t) r Hr) as (v & msg & locks & E).
  rewrite E. cbn [bind].
  apply valid_lockedtransfer_check_spec in E as [(-> & -> & -> & _)|(-> & Hmsg & -> & _)];
    [|rewrite Hmsg]; by do 4 eexists.
Qed.

Lemma handle_refundtransfer_Ok ch received refund r :
  is_valid_balanceproof_signature (lts_balance_proof (rtr_transfer refund)) (es_address (ch_partner_state ch)) = Ok r ->
  exists ch' v evs msg, handle_refundtransfer received ch refund = Ok (ch', (v, evs, msg)).
Proof.
  intros Hr. unfold handle_refundtransfer, is_valid_refund.
  destruct (valid_lockedtransfer_check_Ok ch (ch_partner_state ch) (ch_our_state ch) "RefundTransfer"
              (lts_balance_proof (rtr_transfer refund)) (lts_lock (rtr_transfer refund)) r Hr) as (v & msg & locks & E).
  rewrite E. cbn [bind].
  apply valid_lockedtransfer_check_spec in E as [(-> & -> & -> & _)|(-> & Hmsg & -> & _)]; cbn [negb].
  - destruct (refund_transfer_matches_transfer _ _); cbn; by do 4 eexists.
  - cbn [bind]. rewrite Hmsg. by do 4 eexists.
Qed.

Lemma handle_unlock_Ok ch u meta r :
  channel_inv ch -> is_valid_balanceproof_signature (ru_balance_proof u) (es_address (ch_partner_state ch)) = Ok r ->
  exists ch' v evs msg, handle_unlock ch u meta = Ok (ch', (v, evs, msg)).
Proof.
  intros Hinv Hr. unfold handle_unlock.
  destruct (is_valid_unlock_Ok u ch (ch_partner_state ch) r Hr) as (v & msg & locks & E).
  rewrite E. cbn [bind].
  apply is_valid_unlock_spec in E as [(lock & Hl & -> & -> & -> & Hacc)|(-> & Hmsg & -> & Hno)].
  - pose proof (get_lock_inv _ _ _ (ci_partner _ Hinv) Hl) as (_ & Eh & _). rewrite <- Eh in *.
    destruct (receive_unlock_effect _ _ _ Hinv Hl Hacc) as (es' & Hdel & _).
    cbn. rewrite Hdel. by do 4 eexists.
  - rewrite Hmsg. by do 4 eexists.
Qed.

Lemma handle_receive_lock_expired_Ok ch m block_number meta r :
  is_valid_balanceproof_signature (rle_balance_proof m) (es_address (ch_partner_state ch)) = Ok r ->
  exists r evs, handle_receive_lock_expired ch m block_number meta = Ok (r, evs).
Proof.
  intros Hr. unfold handle_receive_lock_expired.
  destruct (is_valid_lock_expired_Ok m ch (ch_partner_state ch) (ch_our_state ch) block_number r Hr)
    as (v & msg & locks & E).
  rewrite E. cbn [bind].
  apply is_valid_lock_expired_spec in E as [(lock & Hl & -> & -> & -> & _)|(-> & Hmsg & -> & _)];
    [|rewrite Hmsg]; by do 2 eexists.
Qed.

(** *** An accepted lock, whether or not its secret hash is new

    The handler stores the lock under its secret hash without asking whether a
    lock is stored there: the locked amount loses what was. *)

(** The amount of the lock that a new one with this hash replaces. *)
Definition replaced_amount (es : NettingChannelEndState) (secrethash : bytes) : Z :=
  from_option lock_amount 0 (es_secrethashes_to_lockedlocks es !! secrethash).

Lemma get_amount_locked_add_locked_lock lock es :
  get_amount_locked (add_locked_lock lock es)
  = get_amount_locked es + lock_amount lock - replaced_amount es (lock_secrethash lock).
Proof.
  unfold get_amount_locked, get_amount_unclaimed_onchain, add_locked_lock, replaced_amount. cbn.
  rewrite <- insert_delete_eq, map_sum_insert by apply lookup_delete_eq.
  destruct (es_secrethashes_to_lockedlocks es !! _) as [old|] eqn:Hold; cbn.
  - rewrite (map_sum_delete _ _ old) by done. lia.
  - rewrite (map_sum_delete_None _ _) by done. lia.
Qed.

Lemma replaced_amount_new es secrethash : get_lock es secrethash = None -> replaced_amount es secrethash = 0.
Proof. unfold get_lock, replaced_amount. by destruct (es_secrethashes_to_lockedlocks es !! secrethash). Qed.

(** Only the partner's end changes, and no balance moves. *)
Record lock_taken (bp : BalanceProofSignedState) (lock : HashTimeLockState) (ch ch' : NettingChannelState) : Prop := {
  tk_our : ch_our_state ch' = ch_our_state ch;
  tk_pending : es_pending_locks (ch_partner_state ch') = es_pending_locks (ch_partner_state ch) ++ [lock_encoded lock];
  tk_balance_proof : es_balance_proof (ch_partner_state ch') = Some (BPSigned bp);
  tk_proved : bps_locked_amount bp = get_amount_locked (ch_partner_state ch) + lock_amount lock;
  tk_amount : get_amount_locked (ch_partner_state ch')
              = bps_locked_amount bp - replaced_amount (ch_partner_state ch) (lock_secrethash lock);
  tk_lock : get_lock (ch_partner_state ch') (lock_secrethash lock) = Some lock;
  tk_others : forall h, h <> lock_secrethash lock ->
              get_lock (ch_partner_state ch') h = get_lock (ch_partner_state ch) h;
  tk_partner_balance : get_balance (ch_partner_state ch') (ch_our_state ch')
                       = get_balance (ch_partner_state ch) (ch_our_state ch);
  tk_our_balance : get_balance (ch_our_state ch') (ch_partner_state ch')
                   = get_balance (ch_our_state ch) (ch_partner_state ch);
}.

Lemma accepted_lock_taken bp lock ch :
  channel_inv ch -> acceptable_lock bp lock ch (ch_partner_state ch) (ch_our_state ch) ->
  lock_taken bp lock ch
    (upd_partner (add_locked_lock lock)
      (upd_partner (accept_balance_proof bp (es_pending_locks (ch_partner_state ch) ++ [lock_encoded lock])) ch)).
Proof.
  intros Hinv [_ _ _ _ Et El _].
  rewrite (get_current_balanceproof_amounts _ (ci_partner _ Hinv)) in Et, El. cbn in Et, El.
  set (es' := accept_balance_proof bp (es_pending_locks (ch_partner_state ch) ++ [lock_encoded lock]) (ch_partner_state ch)).
  assert (Hfunds : same_funds (ch_partner_state ch) (add_locked_lock lock es')) by by split.
  assert (Htrans : transferred_amount (add_locked_lock lock es') = transferred_amount (ch_partner_state ch)) by exact Et.
  split; try done.
  - rewrite El. exact (get_amount_locked_add_locked_lock lock es').
  - unfold get_lock. cbn. by rewrite lookup_insert_eq.
  - intros h Hh. apply get_lock_ext; [|done..]. cbn. by rewrite lookup_insert_ne.
  - pose proof (same_funds_balance _ _ _ _ Hfunds (same_funds_refl (ch_our_state ch))) as B.
    rewrite Htrans in B. etransitivity; [exact B | lia].
  - pose proof (same_funds_balance _ _ _ _ (same_funds_refl (ch_our_state ch)) Hfunds) as B.
    rewrite Htrans in B. etransitivity; [exact B | lia].
Qed.

(** C29. Receiving a locked transfer.  Whenever the balance data can be encoded
    the handler returns.  It accepts the message exactly when its balance proof
    adds the lock to the partner's pending locks (next nonce, right channel and
    chain, valid signature, correct locksroot and amounts, within the partner's
    distributable and the limit of pending transfers); then it is acknowledged,
    the lock is pending, nothing else of the channel's locks, balances or our end
    changes, and the partner's locked amount grows by the lock, less the amount
    of a lock already locked under the same secret hash, which the new one
    replaces.  When no lock is pending under that hash, the channel invariant is
    kept.  Otherwise the channel is unchanged and the one event reports the
    rejection. *)
Theorem handle_receive_lockedtransfer_correct ch t meta r :
  channel_inv ch -> lock_wf (lts_lock t) ->
  is_valid_balanceproof_signature (lts_balance_proof t) (es_address (ch_partner_state ch)) = Ok r ->
  exists ch' v evs msg,
    handle_receive_lockedtransfer ch t meta = Ok (ch', (v, evs, msg)) /\
    (v = true <-> acceptable_lock (lts_balance_proof t) (lts_lock t) ch (ch_partner_state ch) (ch_our_state ch)) /\
    (v = true -> lock_taken (lts_balance_proof t) (lts_lock t) ch ch' /\
                 evs = [processed (payer_address t) meta (lts_message_identifier t)] /\
                 (get_lock (ch_partner_state ch) (lock_secrethash (lts_lock t)) = None ->
                  lock_effect false ch ch' 0 (lock_amount (lts_lock t)))) /\
    (v = false -> ch' = ch /\ exists reason,
                 evs = [EventInvalidReceivedLockedTransfer (lts_payment_identifier t) reason]).
Proof.
  intros Hinv Hwf Hr.
  destruct (handle_receive_lockedtransfer_Ok ch t meta r Hr) as (ch' & v & evs & msg & E).
  exists ch', v, evs, msg. split; [done|].
  apply handle_receive_lockedtransfer_inv in E as [(-> & -> & Hacc & -> & ->)|(-> & _ & Hno & -> & Hevs)].
  - split; [done|]. split; [intros _ | done]. split; [by apply accepted_lock_taken|]. split; [done|].
    intros Hnew. by apply receive_lock_effect.
  - split; [naive_solver|]. done.
Qed.

(** Receiving a refund.  As for a locked transfer, with the additional
    condition that the refund matches the transfer it gives back. *)
Theorem handle_refundtransfer_correct ch received refund r :
  let t := rtr_transfer refund in
  channel_inv ch -> lock_wf (lts_lock t) ->
  get_lock (ch_partner_state ch) (lock_secrethash (lts_lock t)) = None ->
  is_valid_balanceproof_signature (lts_balance_proof t) (es_address (ch_partner_state ch)) = Ok r ->
  exists ch' v evs msg,
    handle_refundtransfer received ch refund = Ok (ch', (v, evs, msg)) /\
    (v = true <-> acceptable_lock (lts_balance_proof t) (lts_lock t) ch (ch_partner_state ch) (ch_our_state ch)
                  /\ refund_transfer_matches_transfer t received = true) /\
    (v = true -> lock_effect false ch ch' 0 (lock_amount (lts_lock t))) /\
    (v = false -> ch' = ch /\ exists reason,
                 evs = [EventInvalidReceivedTransferRefund (ltu_payment_identifier received) reason]).
Proof.
  cbv zeta. intros Hinv Hwf Hnew Hr.
  destruct (handle_refundtransfer_Ok ch received refund r Hr) as (ch' & v & evs & msg & E).
  exists ch', v, evs, msg. split; [done|].
  apply handle_refundtransfer_inv in E as [(-> & [Hacc Hm] & ->)|(-> & Hno & -> & Hevs)].
  - split; [done|]. split; [intros _; by apply receive_lock_effect | done].
  - split; [naive_solver|]. done.
Qed.

(** C30. Receiving an unlock.  The handler accepts exactly the balance proofs
    that pay out the named lock; then the lock's amount moves from the partner's
    balance to ours and the lock is gone.  Otherwise nothing changes. *)
Theorem handle_unlock_correct ch u meta r :
  channel_inv ch ->
  is_valid_balanceproof_signature (ru_balance_proof u) (es_address (ch_partner_state ch)) = Ok r ->
  exists ch' v evs msg,
    handle_unlock ch u meta = Ok (ch', (v, evs, msg)) /\
    (v = true <-> exists lock, get_lock (ch_partner_state ch) (ru_secrethash u) = Some lock /\
                    acceptable_unlock (ru_balance_proof u) lock ch (ch_partner_state ch)) /\
    (v = true -> exists lock, get_lock (ch_partner_state ch) (ru_secrethash u) = Some lock /\
                   lock_effect false ch ch' (lock_amount lock) (- lock_amount lock) /\
                   get_lock (ch_partner_state ch') (ru_secrethash u) = None) /\
    (v = false -> ch' = ch /\ exists reason, evs = [EventInvalidReceivedUnlock (ru_secrethash u) reason]).
Proof.
  intros Hinv Hr. destruct (handle_unlock_Ok ch u meta r Hinv Hr) as (ch' & v & evs & msg & E).
  exists ch', v, evs, msg. split; [done|].
  apply handle_unlock_inv in E as [(-> & lock & [Hl Hacc] & Heff & Hgone)|(-> & Hno & -> & Hevs)]; [| |done].
  - split; [split; [eauto|done]|]. split; [eauto|done].
  - split; [split; [done|intros (lock & Hl); by destruct (Hno lock)]|]. done.
Qed.

(** C31. Receiving an expired lock.  The handler accepts exactly the balance
    proofs that drop a lock that is not unlocked on-chain and whose expiration
    plus the confirmation blocks has passed; no balance moves and the lock's
    amount becomes available to the partner again.  Otherwise nothing changes. *)
Theorem handle_receive_lock_expired_correct ch m block_number meta r :
  channel_inv ch ->
  is_valid_balanceproof_signature (rle_balance_proof m) (es_address (ch_partner_state ch)) = Ok r ->
  exists ch' evs,
    handle_receive_lock_expired ch m block_number meta = Ok (Some ch', evs) /\
    ((exists lock, unclaimed_lock (ch_partner_state ch) (rle_secrethash m) = Some lock /\
        acceptable_lock_expired (rle_balance_proof m) lock ch (ch_partner_state ch) (ch_our_state ch) block_number /\
        lock_effect false ch ch' 0 (- lock_amount lock) /\
        get_lock (ch_partner_state ch') (rle_secrethash m) = None /\
        evs = [processed (bps_sender (rle_balance_proof m)) meta (rle_message_identifier m)]) \/
     ((forall lock, unclaimed_lock (ch_partner_state ch) (rle_secrethash m) = Some lock ->
         ~ acceptable_lock_expired (rle_balance_proof m) lock ch (ch_partner_state ch) (ch_our_state ch) block_number) /\
      ch' = ch /\ exists reason, evs = [EventInvalidReceivedLockExpired (rle_secrethash m) reason])).
Proof.
  intros Hinv Hr.
  destruct (handle_receive_lock_expired_Ok ch m block_number meta r Hr) as (o & evs & E).
  pose proof (handle_receive_lock_expired_inv _ _ _ _ _ _ Hinv E) as (ch' & -> & Hcases).
  exists ch', evs. split; [done|].
  destruct Hcases as [(lock & [Hl Hacc] & Heff & Hgone & ->)|(Hno & -> & Hevs)]; [left; eauto 10|right].
  split; [intros lock Hl Hacc; by destruct (Hno lock) | done].
Qed.
End Checks.
