(* ===== verification/Reachability.v ===== *)
(** * Reachable channels

    [channel_step] is one step of a channel's life: a state change dispatched by
    [state_transition], or one of the lock operations the mediator, initiator
    and target call.  A step that adds a lock does so under a secret hash that is
    not pending at that end; the code leaves that to its callers, and
    [ChannelTheorems.pending_locks_account_for_locked_amount] says what is lost
    without it.  Every channel reachable from a freshly opened one passes
    [sanity_check]. *)

From Stdlib Require Import ZArith Lia Strings.Byte Sorting.Sorted.
From stdpp Require Import base gmap list strings pretty relations.
From S2P Require Import Prelude Encoding MediationFee State Events ChannelViews ChannelValidation ChannelSend ChannelHandlers LockSets ChannelInvariant BalanceProofMessages LockOperations StateTransition TransferTheorems.

(** ** Steps *)

Section Steps.
Context `{Externals} {Random : Type} `{RandomGen Random}.

(** The steps [step_send_transfer], [step_receive_transfer] and
    [step_receive_refund] have the premise that no lock is pending under the new
    lock's secret hash, which the functions they call do not check. *)
Inductive channel_step : NettingChannelState -> NettingChannelState -> Prop :=
  | step_transition ch ch' sc block_number block_hash (prng prng' : Random) evs :
      admissible ch block_number sc ->
      state_transition ch sc block_number block_hash prng = Ok (Some ch', evs, prng') ->
      channel_step ch ch'
  | step_send_transfer ch ch' initiator target amount mid pid expiration secret secrethash routes meta prev ev :
      get_lock (ch_our_state ch) secrethash = None ->
      send_lockedtransfer ch initiator target amount mid pid expiration secret secrethash routes meta prev
        = Ok (ch', ev) ->
      channel_step ch ch'
  | step_receive_transfer ch ch' t meta v evs msg :
      lock_wf (lts_lock t) -> get_lock (ch_partner_state ch) (lock_secrethash (lts_lock t)) = None ->
      handle_receive_lockedtransfer ch t meta = Ok (ch', (v, evs, msg)) ->
      channel_step ch ch'
  | step_receive_refund ch ch' received refund v evs msg :
      lock_wf (lts_lock (rtr_transfer refund)) ->
      get_lock (ch_partner_state ch) (lock_secrethash (lts_lock (rtr_transfer refund))) = None ->
      handle_refundtransfer received ch refund = Ok (ch', (v, evs, msg)) ->
      channel_step ch ch'
  | step_send_unlock ch ch' mid pid secret secrethash block_number meta ev :
      send_unlock ch mid pid secret secrethash block_number meta = Ok (ch', ev) ->
      channel_step ch ch'
  | step_receive_unlock ch ch' u meta v evs msg :
      handle_unlock ch u meta = Ok (ch', (v, evs, msg)) -> channel_step ch ch'
  | step_send_expired ch ch' lock (prng prng' : Random) meta evs :
      unclaimed_lock (ch_our_state ch) (lock_secrethash lock) = Some lock ->
      send_lock_expired ch lock prng meta = Ok (ch', evs, prng') ->
      channel_step ch ch'
  | step_receive_expired ch ch' m block_number meta evs :
      handle_receive_lock_expired ch m block_number meta = Ok (Some ch', evs) -> channel_step ch ch'
  | step_offchain_secret ch secret secrethash :
      channel_step ch (register_offchain_secret secret secrethash ch)
  | step_onchain_secret ch ch' secret secrethash block_number :
      register_onchain_secret secret secrethash block_number true ch = Ok ch' ->
      channel_step ch ch'.

(** A channel as [ContractReceiveChannelNew] creates it. *)
Definition opened (ch : NettingChannelState) : Prop :=
  exists our_address our_balance partner_address partner_balance our partner ci tok registry reveal settle
    fees tx,
    NettingChannelEndState_init our_address our_balance = Ok our /\
    NettingChannelEndState_init partner_address partner_balance = Ok partner /\
    NettingChannelState_init ci tok registry reveal settle fees our partner tx = Ok ch.

Definition reachable (ch : NettingChannelState) : Prop := exists ch0, opened ch0 /\ rtc channel_step ch0 ch.

(** ** Fresh channels *)

Lemma fresh_end_inv address balance es :
  NettingChannelEndState_init address balance = Ok es ->
  locks_inv es /\ withdraws_inv es /\ es_balance_proof es = None /\ es_withdraws_pending es = [] /\
  get_amount_locked es = 0 /\ es_contract_balance es = balance /\ 0 <= balance /\ total_withdraw es = 0.
Proof.
  unfold NettingChannelEndState_init. case_bool_decide; [discriminate|].
  destruct (Z.ltb_spec balance 0); [discriminate|]. intros [= <-].
  assert (Hli : locks_inv {| es_address := address; es_contract_balance := balance;
             es_onchain_total_withdraw := 0; es_withdraws_pending := [];
             es_initiated_coop_settle := None; es_expired_coop_settles := [];
             es_withdraws_expired := []; es_secrethashes_to_lockedlocks := ∅;
             es_secrethashes_to_unlockedlocks := ∅; es_secrethashes_to_onchain_unlockedlocks := ∅;
             es_balance_proof := None; es_pending_locks := [];
             es_onchain_locksroot := LOCKSROOT_OF_NO_LOCKS; es_nonce := 0 |}).
  { by apply locks_inv_empty. }
  split; [done|]. split; [split; cbn; [done | constructor | constructor]|].
  split; [done|]. split; [done|]. split; [by apply no_pending_amount|]. done.
Qed.

Lemma opened_inv ch : opened ch -> channel_inv ch.
Proof.
  intros (oa & ob & pa & pb & our & partner & ci & tok & reg & rv & st & fees & tx & Ho & Hp & Hch).
  apply fresh_end_inv in Ho as (Lo & Wo & Bo & Po & Ao & Do & Po' & To).
  apply fresh_end_inv in Hp as (Lp & Wp & Bp & Pp & Ap & Dp & Pp' & Tp).
  unfold NettingChannelState_init in Hch. revert Hch. split_ifs; try discriminate. intros [= <-].
  assert (Hs : forall es es', es_balance_proof es = None -> es_balance_proof es' = None ->
            get_amount_locked es = 0 -> 0 <= es_contract_balance es -> total_withdraw es = 0 -> solvent es es').
  { intros es es' Eb Eb' Ea Ed Et. unfold solvent. rewrite get_balance_eq, get_max_withdraw_amount_eq.
    unfold transferred_amount. rewrite Eb, Eb'. lia. }
  split; cbn; try done; try (apply Hs; try done; lia).
  - unfold signed_balance_proof. by rewrite Bp.
  - intros _. unfold positive_withdraws. rewrite Po. constructor.
Qed.

(** ** Secrets *)

Lemma same_money_register_secret secret secrethash es :
  let es' := register_secret_endstate secret secrethash es in
  same_funds es es' /\ es_balance_proof es' = es_balance_proof es /\ es_nonce es' = es_nonce es.
Proof.
  unfold register_secret_endstate. destruct (_ !! _); cbn; (split; [by split | done]).
Qed.

Lemma same_money_register_onchain secret secrethash block es es' :
  register_onchain_secret_endstate secret secrethash block true es = Ok es' ->
  same_funds es es' /\ es_balance_proof es' = es_balance_proof es.
Proof.
  unfold register_onchain_secret_endstate. destruct (match _ !! _ with Some _ => _ | None => _ end) as [l|];
    [|by intros [= <-]].
  destruct (_ <? _); [by intros [= <-]|]. intros (es1 & Hdel & [= <-])%bind_Ok_inv.
  apply py_assert_Ok_inv in Hdel as [_ [= <-]]. split; [by split | done].
Qed.

(** Replacing an end by one with the same locks, funds and balance proof. *)
Lemma channel_inv_moved_our ch es :
  channel_inv ch -> locks_inv es -> get_amount_locked es = get_amount_locked (ch_our_state ch) ->
  same_funds (ch_our_state ch) es -> es_balance_proof es = es_balance_proof (ch_our_state ch) ->
  channel_inv (set_ch_our_state es ch).
Proof.
  intros Hinv Hl Ha Hf Eb.
  assert (Et : transferred_amount es = transferred_amount (ch_our_state ch)) by (unfold transferred_amount; by rewrite Eb).
  apply channel_inv_set_our; try done; [|lia].
  pose proof (ci_our_solvent _ Hinv) as Hs. unfold solvent in Hs. lia.
Qed.

Lemma channel_inv_moved_partner ch es :
  channel_inv ch -> locks_inv es -> get_amount_locked es = get_amount_locked (ch_partner_state ch) ->
  same_funds (ch_partner_state ch) es -> es_balance_proof es = es_balance_proof (ch_partner_state ch) ->
  channel_inv (set_ch_partner_state es ch).
Proof.
  intros Hinv Hl Ha Hf Eb.
  assert (Et : transferred_amount es = transferred_amount (ch_partner_state ch)) by (unfold transferred_amount; by rewrite Eb).
  apply channel_inv_set_partner; try done; [| |lia].
  - unfold signed_balance_proof. rewrite Eb. apply Hinv.
  - pose proof (ci_partner_solvent _ Hinv) as Hs. unfold solvent in Hs. lia.
Qed.

Lemma register_offchain_secret_inv secret secrethash ch :
  channel_inv ch -> channel_inv (register_offchain_secret secret secrethash ch).
Proof.
  intros Hinv. unfold register_offchain_secret.
  destruct (register_secret_endstate_locks secret secrethash _ (ci_our _ Hinv)) as (Hl & Ha & _).
  destruct (same_money_register_secret secret secrethash (ch_our_state ch)) as (Hf & Eb & _).
  pose proof (channel_inv_moved_our _ _ Hinv Hl Ha Hf Eb) as Hinv1.
  destruct (register_secret_endstate_locks secret secrethash _ (ci_partner _ Hinv)) as (Hl2 & Ha2 & _).
  destruct (same_money_register_secret secret secrethash (ch_partner_state ch)) as (Hf2 & Eb2 & _).
  exact (channel_inv_moved_partner _ _ Hinv1 Hl2 Ha2 Hf2 Eb2).
Qed.

Lemma register_onchain_secret_inv secret secrethash block ch :
  channel_inv ch ->
  exists ch', register_onchain_secret secret secrethash block true ch = Ok ch' /\ channel_inv ch'.
Proof.
  intros Hinv. unfold register_onchain_secret.
  destruct (register_onchain_secret_endstate_locks secret secrethash block _ (ci_our _ Hinv))
    as (our & E & Hl & Ha & _).
  destruct (register_onchain_secret_endstate_locks secret secrethash block _ (ci_partner _ Hinv))
    as (partner & E2 & Hl2 & Ha2 & _).
  rewrite E, E2. cbn [bind]. eexists. split; [reflexivity|].
  destruct (same_money_register_onchain _ _ _ _ _ E) as (Hf & Eb).
  destruct (same_money_register_onchain _ _ _ _ _ E2) as (Hf2 & Eb2).
  pose proof (channel_inv_moved_our _ _ Hinv Hl Ha Hf Eb) as Hinv1.
  exact (channel_inv_moved_partner (set_ch_our_state our ch) partner Hinv1 Hl2 Ha2 Hf2 Eb2).
Qed.

(** ** Every step keeps the invariant *)

Lemma handle_receive_lockedtransfer_preserves ch t meta ch' v evs msg :
  channel_inv ch -> lock_wf (lts_lock t) ->
  get_lock (ch_partner_state ch) (lock_secrethash (lts_lock t)) = None ->
  handle_receive_lockedtransfer ch t meta = Ok (ch', (v, evs, msg)) -> channel_inv ch'.
Proof.
  intros Hinv Hwf Hnew [(_ & _ & Hacc & -> & _)|(_ & _ & _ & -> & _)]%handle_receive_lockedtransfer_inv; [|done].
  eapply (le_inv false ch). by apply receive_lock_effect.
Qed.

Lemma handle_refundtransfer_preserves received ch refund ch' v evs msg :
  channel_inv ch -> lock_wf (lts_lock (rtr_transfer refund)) ->
  get_lock (ch_partner_state ch) (lock_secrethash (lts_lock (rtr_transfer refund))) = None ->
  handle_refundtransfer received ch refund = Ok (ch', (v, evs, msg)) -> channel_inv ch'.
Proof.
  intros Hinv Hwf Hnew [(_ & [Hacc _] & ->)|(_ & _ & -> & _)]%handle_refundtransfer_inv; [|done].
  eapply (le_inv false ch). by apply receive_lock_effect.
Qed.

Lemma handle_unlock_preserves ch u meta ch' v evs msg :
  channel_inv ch -> handle_unlock ch u meta = Ok (ch', (v, evs, msg)) -> channel_inv ch'.
Proof.
  intros Hinv [(_ & lock & _ & Heff & _)|(_ & _ & -> & _)]%(handle_unlock_inv _ _ _ _ _ _ _ Hinv); [|done].
  apply Heff.
Qed.

Lemma handle_receive_lock_expired_preserves ch m block_number meta ch' evs :
  channel_inv ch -> handle_receive_lock_expired ch m block_number meta = Ok (Some ch', evs) ->
  channel_inv ch'.
Proof.
  intros Hinv (c & [= <-] & [(lock & _ & Heff & _)|(_ & -> & _)])%(handle_receive_lock_expired_inv _ _ _ _ _ _ Hinv);
    [apply Heff | done].
Qed.

Lemma channel_step_preserves ch ch' : channel_step ch ch' -> channel_inv ch -> channel_inv ch'.
Proof.
  intros Hstep Hinv. destruct Hstep.
  - match goal with Ht : state_transition _ _ _ ?bh ?g = _ |- _ =>
      destruct (state_transition_preserves _ _ _ bh g Hinv ltac:(eassumption)) as (c & ? & ? & E & Hc) end.
    rewrite E in *. simplify_eq. apply Hc.
  - eapply (le_inv true ch). by eapply send_lockedtransfer_effect.
  - by eapply handle_receive_lockedtransfer_preserves.
  - by eapply handle_refundtransfer_preserves.
  - match goal with Hs : send_unlock _ _ _ _ _ _ _ = _ |- _ =>
      pose proof Hs as Hs'; apply send_unlock_inv in Hs' as (lock & ? & ? & ? & Hl & _) end.
    eapply (le_inv true ch). by eapply send_unlock_effect.
  - by eapply handle_unlock_preserves.
  - match goal with Hu : unclaimed_lock _ _ = Some lock, Hs : send_lock_expired _ _ _ _ = _ |- _ =>
      exact (le_inv _ _ _ _ _ (send_lock_expired_effect _ lock _ _ _ _ _ lock Hinv Hu eq_refl eq_refl Hs)) end.
  - by eapply handle_receive_lock_expired_preserves.
  - by apply register_offchain_secret_inv.
  - match goal with Hr : register_onchain_secret ?s ?h ?b true _ = _ |- _ =>
      destruct (register_onchain_secret_inv s h b _ Hinv) as (c & E & ?) end.
    congruence.
Qed.

Lemma reachable_inv ch : reachable ch -> channel_inv ch.
Proof.
  intros (ch0 & Hopen & Hsteps). pose proof (opened_inv ch0 Hopen) as Hinv.
  clear Hopen. induction Hsteps as [|ch0 ch1 ch2 Hstep _ IH]; [done|]. eauto using channel_step_preserves.
Qed.
End Steps.
