(* ===== verification/ChannelFrame.v ===== *)
(** * What the payment tasks' calls leave alone

    Each operation a task performs on a channel keeps the channel's identity,
    status, timeouts and addresses, and the channel invariant. *)

From Stdlib Require Import ZArith Lia Strings.Byte.
From stdpp Require Import base gmap list strings pretty.
From S2P Require Import Prelude Encoding MediationFee State Events ChannelViews ChannelValidation ChannelSend ChannelHandlers LockSets ChannelInvariant BalanceProofMessages LockOperations StateTransition TransferTheorems Reachability.

(** What no message with a balance proof and no registration of a secret
    changes. *)
Record same_channel (ch ch' : NettingChannelState) : Prop := {
  sc_identifier : ch_canonical_identifier ch' = ch_canonical_identifier ch;
  sc_status : get_status ch' = get_status ch;
  sc_reveal_timeout : ch_reveal_timeout ch' = ch_reveal_timeout ch;
  sc_settle_timeout : ch_settle_timeout ch' = ch_settle_timeout ch;
  sc_our_address : es_address (ch_our_state ch') = es_address (ch_our_state ch);
  sc_partner_address : es_address (ch_partner_state ch') = es_address (ch_partner_state ch);
  sc_token_address : ch_token_address ch' = ch_token_address ch;
}.

#[export] Instance same_channel_preorder : PreOrder same_channel.
Proof. split; [by split | intros c1 c2 c3 [] []; split; congruence]. Qed.

Lemma same_channel_set_our ch es :
  es_address es = es_address (ch_our_state ch) -> same_channel ch (set_ch_our_state es ch).
Proof. by split. Qed.

Lemma same_channel_set_partner ch es :
  es_address es = es_address (ch_partner_state ch) -> same_channel ch (set_ch_partner_state es ch).
Proof. by split. Qed.

Lemma _del_lock_address h es es' : _del_lock h es = Ok es' -> es_address es' = es_address es.
Proof. intros Hd. apply py_assert_Ok_inv in Hd as [_ [= <-]]. reflexivity. Qed.

(** A call on a channel that keeps what the tasks rely on. *)
Record safe_step `{Externals} (ch ch' : NettingChannelState) : Prop := {
  ss_inv : channel_inv ch';
  ss_same : same_channel ch ch';
}.

Section Frame.
Context `{Externals} {Random : Type} `{RandomGen Random}.

Lemma handle_receive_lockedtransfer_safe ch t meta ch' v evs msg :
  channel_inv ch -> lock_wf (lts_lock t) ->
  get_lock (ch_partner_state ch) (lock_secrethash (lts_lock t)) = None ->
  handle_receive_lockedtransfer ch t meta = Ok (ch', (v, evs, msg)) -> safe_step ch ch'.
Proof.
  intros Hinv Hwf Hnew [(_ & _ & Hacc & -> & _)|(_ & _ & _ & -> & _)]%handle_receive_lockedtransfer_inv; [|by split].
  split; [|by split]. eapply (le_inv false ch). by apply receive_lock_effect.
Qed.

Lemma handle_refundtransfer_safe received ch refund ch' v evs msg :
  channel_inv ch -> lock_wf (lts_lock (rtr_transfer refund)) ->
  get_lock (ch_partner_state ch) (lock_secrethash (lts_lock (rtr_transfer refund))) = None ->
  handle_refundtransfer received ch refund = Ok (ch', (v, evs, msg)) -> safe_step ch ch'.
Proof.
  intros Hinv Hwf Hnew [(_ & [Hacc _] & ->)|(_ & _ & -> & _)]%handle_refundtransfer_inv; [|by split].
  split; [|by split]. eapply (le_inv false ch). by apply receive_lock_effect.
Qed.

Lemma handle_unlock_safe ch u meta ch' v evs msg :
  channel_inv ch -> handle_unlock ch u meta = Ok (ch', (v, evs, msg)) -> safe_step ch ch'.
Proof.
  intros Hinv Hrun. split; [by eapply handle_unlock_preserves|]. revert Hrun.
  unfold handle_unlock. intros ([[v' m] locks] & _ & Hrun)%bind_Ok_inv. cbv iota beta in Hrun.
  destruct v'.
  - destruct locks; [|discriminate]. apply bind_Ok_inv in Hrun as (es & Hdel & [= <- _ _]).
    apply _del_lock_address in Hdel. by split.
  - apply py_assert_Ok_inv in Hrun as [_ [= <- _ _]]. reflexivity.
Qed.

Lemma handle_receive_lock_expired_safe ch m block_number meta ch' evs :
  channel_inv ch -> handle_receive_lock_expired ch m block_number meta = Ok (Some ch', evs) -> safe_step ch ch'.
Proof.
  intros Hinv Hrun. split; [by eapply handle_receive_lock_expired_preserves|]. revert Hrun.
  unfold handle_receive_lock_expired. intros ([[v' msg] locks] & _ & Hrun)%bind_Ok_inv. cbv iota beta in Hrun.
  destruct v'.
  - destruct locks; [|discriminate]. injection Hrun as <- _. by split.
  - apply py_assert_Ok_inv in Hrun as [_ [= <- _]]. reflexivity.
Qed.

Lemma send_lockedtransfer_safe ch initiator target amount mid pid expiration secret secrethash routes meta prev
    ch' ev :
  channel_inv ch -> get_lock (ch_our_state ch) secrethash = None ->
  send_lockedtransfer ch initiator target amount mid pid expiration secret secrethash routes meta prev
    = Ok (ch', ev) -> safe_step ch ch'.
Proof.
  intros Hinv Hnew Hrun.
  split; [apply (le_inv _ _ _ _ _ (send_lockedtransfer_effect _ _ _ _ _ _ _ _ _ _ _ _ _ _ Hinv Hnew Hrun))|].
  revert Hrun. unfold send_lockedtransfer. intros ([[m t] l] & _ & [= <- _])%bind_Ok_inv. by split.
Qed.

Lemma send_unlock_safe ch mid pid secret secrethash block_number meta ch' ev :
  channel_inv ch -> send_unlock ch mid pid secret secrethash block_number meta = Ok (ch', ev) -> safe_step ch ch'.
Proof.
  intros Hinv Hrun. pose proof Hrun as Hs. apply send_unlock_inv in Hs as (lock & bp & msg & our & Hl & Hs).
  split; [apply (le_inv _ _ _ _ _ (send_unlock_effect _ _ _ _ _ _ _ _ _ _ Hinv Hl Hrun))|].
  destruct Hs as (_ & _ & _ & _ & _ & _ & _ & Hdel & ->). apply _del_lock_address in Hdel. by split.
Qed.

Lemma send_lock_expired_safe {L} `{LockType L} ch (locked_lock : L) (prng : Random) meta ch' evs prng' lock :
  channel_inv ch -> unclaimed_lock (ch_our_state ch) (lt_secrethash locked_lock) = Some lock ->
  lt_encoded locked_lock = lock_encoded lock -> lt_amount locked_lock = lock_amount lock ->
  send_lock_expired ch locked_lock prng meta = Ok (ch', evs, prng') -> safe_step ch ch'.
Proof.
  intros Hinv Hl He Ha Hrun.
  split; [exact (le_inv _ _ _ _ _ (send_lock_expired_effect ch locked_lock prng meta ch' evs prng' lock Hinv Hl He Ha Hrun))|].
  apply send_lock_expired_inv in Hrun as [_ [(-> & _)|(bp & msg & _ & _ & _ & _ & ->)]]; by split.
Qed.
End Frame.
