(* ===== verification/SecretRegistration.v ===== *)
(** * Registering secrets: what the payment tasks rely on

    [register_offchain_secret] and [register_onchain_secret] move a lock between
    the dictionaries of an end.  The tasks need to know that no lock appears or
    disappears, that the rest of the channel stays, and which secret is known
    afterwards. *)

From Stdlib Require Import ZArith Lia Strings.Byte.
From stdpp Require Import base gmap list strings pretty.
From S2P Require Import Prelude Encoding MediationFee State Events ChannelViews ChannelValidation ChannelSend ChannelHandlers LockSets ChannelInvariant BalanceProofMessages LockOperations StateTransition TransferTheorems Reachability ChannelFrame.

Section Registration.
Context `{Externals}.

(** A registration: the invariant stays, and every lock of either end. *)
Record secret_registered (secret secrethash : bytes) (ch ch' : NettingChannelState) : Prop := {
  sreg_inv : channel_inv ch';
  sreg_same : same_channel ch ch';
  sreg_locks : forall our h, get_lock (end_of our ch') h = get_lock (end_of our ch) h;
  sreg_secret : forall our s, get_secret (end_of our ch') secrethash = Some s ->
                s = secret \/ get_secret (end_of our ch) secrethash = Some s;
  sreg_known : forall our, is_secret_known (end_of our ch) secrethash = true ->
               is_secret_known (end_of our ch') secrethash = true;
}.

Lemma get_secret_is_known es h : is_secret_known es h = is_some (get_secret es h).
Proof.
  unfold is_secret_known, get_secret.
  by destruct (es_secrethashes_to_unlockedlocks es !! h), (es_secrethashes_to_onchain_unlockedlocks es !! h).
Qed.

Lemma register_secret_get_secret_cases secret h es :
  get_secret (register_secret_endstate secret h es) h
  = if is_lock_locked es h then Some secret else get_secret es h.
Proof.
  unfold register_secret_endstate, is_lock_locked, get_secret.
  destruct (es_secrethashes_to_lockedlocks es !! h); [|done]. cbn. by rewrite lookup_insert_eq.
Qed.

Lemma register_secret_address secret h es :
  es_address (register_secret_endstate secret h es) = es_address es.
Proof. unfold register_secret_endstate. by destruct (_ !! _). Qed.

Lemma register_secret_get_lock secret h es h' :
  locks_inv es -> get_lock (register_secret_endstate secret h es) h' = get_lock es h'.
Proof.
  intros Hl. destruct (register_secret_endstate_locks secret h es Hl) as (_ & _ & E).
  by rewrite <- !all_locks_get_lock, E.
Qed.

Lemma register_offchain_secret_registered secret h ch :
  channel_inv ch -> secret_registered secret h ch (register_offchain_secret secret h ch).
Proof.
  intros Hinv.
  assert (Hsec : forall es s, get_secret (register_secret_endstate secret h es) h = Some s ->
            s = secret \/ get_secret es h = Some s).
  { intros es s. rewrite register_secret_get_secret_cases. destruct (is_lock_locked es h); naive_solver. }
  assert (Hknown : forall es, is_secret_known es h = true ->
            is_secret_known (register_secret_endstate secret h es) h = true).
  { intros es. rewrite !get_secret_is_known, register_secret_get_secret_cases. by destruct (is_lock_locked es h). }
  split.
  - by apply register_offchain_secret_inv.
  - split; try reflexivity; apply register_secret_address.
  - intros [] h'; apply register_secret_get_lock; apply Hinv.
  - intros []; apply Hsec.
  - intros []; apply Hknown.
Qed.

(** After an off-chain reveal the secret of a pending lock is known. *)
Lemma register_offchain_secret_known secret h ch our :
  is_some (get_lock (end_of our ch) h) = true ->
  is_secret_known (end_of our (register_offchain_secret secret h ch)) h = true.
Proof.
  intros Hl. rewrite get_secret_is_known.
  assert (E : get_secret (end_of our (register_offchain_secret secret h ch)) h
              = get_secret (register_secret_endstate secret h (end_of our ch)) h) by (by destruct our).
  rewrite E, register_secret_get_secret_cases. clear E. unfold is_lock_locked, get_lock, get_secret in *.
  destruct (es_secrethashes_to_lockedlocks _ !! h); [done|].
  by destruct (es_secrethashes_to_unlockedlocks (end_of our ch) !! h),
    (es_secrethashes_to_onchain_unlockedlocks (end_of our ch) !! h).
Qed.

Lemma register_onchain_secret_cases secret h block es es' :
  register_onchain_secret_endstate secret h block true es = Ok es' ->
  es_address es' = es_address es /\
  (get_secret es' h = Some secret \/ get_secret es' h = get_secret es h) /\
  (is_secret_known es h = true -> is_secret_known es' h = true).
Proof.
  unfold register_onchain_secret_endstate. cbv zeta.
  destruct (match es_secrethashes_to_unlockedlocks es !! h with
            | Some p => Some (upp_lock p) | None => _ end) as [l|]; [|intros [= <-]; auto].
  destruct (_ <? _); [intros [= <-]; auto|].
  intros (es1 & Hdel & [= <-])%bind_Ok_inv. apply py_assert_Ok_inv in Hdel as [_ [= <-]].
  rewrite !get_secret_is_known. unfold get_secret. cbn. rewrite lookup_insert_eq, lookup_delete_eq. auto.
Qed.

Lemma register_onchain_secret_registered secret h block ch :
  channel_inv ch ->
  exists ch', register_onchain_secret secret h block true ch = Ok ch' /\ secret_registered secret h ch ch'.
Proof.
  intros Hinv. destruct (register_onchain_secret_inv secret h block ch Hinv) as (ch' & E & Hinv').
  exists ch'. split; [done|]. revert E. unfold register_onchain_secret.
  intros (our & Eo & (partner & Ep & [= <-])%bind_Ok_inv)%bind_Ok_inv.
  destruct (register_onchain_secret_endstate_locks secret h block _ (ci_our _ Hinv)) as (? & E1 & _ & _ & A1).
  destruct (register_onchain_secret_endstate_locks secret h block _ (ci_partner _ Hinv)) as (? & E2 & _ & _ & A2).
  rewrite Eo in E1. injection E1 as <-. rewrite Ep in E2. injection E2 as <-.
  apply register_onchain_secret_cases in Eo as (Ho & So & Ko), Ep as (Hp & Sp & Kp). split.
  - done.
  - by split.
  - intros [] h'; cbn; by rewrite <- !all_locks_get_lock, ?A1, ?A2.
  - intros [] s; cbn; naive_solver congruence.
  - by intros [].
Qed.
End Registration.
