(* ===== verification/TargetTheorems.v ===== *)
(** * The target of a payment: the theorems

    The invariant that ties the task to the channel, the total correctness of
    the state machine, what each handler does, and the runs in which the task
    reports or repeats what it should not. *)

From Stdlib Require Import ZArith Lia Strings.Byte.
From stdpp Require Import base gmap list strings pretty.
From S2P Require Import Prelude Encoding MediationFee State Events ChannelViews ChannelValidation ChannelSend ChannelHandlers TaskState Target LockSets ChannelInvariant BalanceProofMessages LockOperations StateTransition TransferTheorems Reachability SecretRegistration.

(** The signed data of a balance proof can be packed: the field widths of a
    decoded message. *)
Definition encodable `{Externals} (bp : BalanceProofSignedState) (ch : NettingChannelState) : Prop :=
  exists r, is_valid_balanceproof_signature bp (es_address (ch_partner_state ch)) = Ok r.

(** The arguments [is_safe_to_wait] asserts. *)
Record timed (lock : HashTimeLockState) (ch : NettingChannelState) (block_number : Z) : Prop := {
  timed_block : 0 < block_number;
  timed_reveal : 0 < ch_reveal_timeout ch < lock_expiration lock;
}.

(** The task's own data: its secret is the preimage of its secret hash, and it
    has one in the states that follow a reveal. *)
Record target_typed (ts : TargetTransferState) : Prop := {
  ty_secret : forall s, tts_secret ts = Some s -> sha256_secrethash s = tts_secrethash ts;
  ty_learned : tts_state ts ∈ [OFFCHAIN_SECRET_REVEAL; ONCHAIN_UNLOCK] -> is_some (tts_secret ts) = true;
}.

(** A running task and its channel. *)
Record target_task (ts : TargetTransferState) (ch : NettingChannelState) : Prop := {
  tt_pending : get_lock (ch_partner_state ch) (tts_secrethash ts) = Some (lts_lock (tts_transfer ts));
  tt_typed : target_typed ts;
  tt_known : forall s, get_secret (ch_partner_state ch) (tts_secrethash ts) = Some s ->
             s <> [] /\ sha256_secrethash s = tts_secrethash ts;
}.

Definition target_inv `{Externals} (ts : option TargetTransferState) (ch : NettingChannelState) : Prop :=
  channel_inv ch /\ match ts with Some ts => target_task ts ch | None => True end.

(** What the node guarantees when it dispatches to the task: messages find the
    task by their secret hash, a new task gets a lock whose secret hash is not
    pending, revealed secrets are the preimages of their hashes and not empty. *)
Definition target_admissible `{Externals} (ts : option TargetTransferState) (ch : NettingChannelState)
    (state_change : StateChange) (block_number : Z) : Prop :=
  match state_change, ts with
  | SCActionInitTarget a, None =>
      let t := ait_transfer a in
      ch_identifier ch = bps_channel_identifier (lts_balance_proof t) /\ lock_wf (lts_lock t) /\
      get_lock (ch_partner_state ch) (lock_secrethash (lts_lock t)) = None /\
      encodable (lts_balance_proof t) ch /\ timed (lts_lock t) ch block_number
  | SCBlock a, Some ts =>
      block_block_number a = block_number /\ timed (lts_lock (tts_transfer ts)) ch block_number
  | SCReceiveSecretReveal a, Some _ => rsr_secret a <> [] /\ rsr_secrethash a = sha256_secrethash (rsr_secret a)
  | SCContractReceiveSecretReveal a, Some _ =>
      crsr_secret a <> [] /\ crsr_secrethash a = sha256_secrethash (crsr_secret a)
  | SCReceiveUnlock u, Some ts => ru_secrethash u = tts_secrethash ts /\ encodable (ru_balance_proof u) ch
  | SCReceiveLockExpired m, Some ts => rle_secrethash m = tts_secrethash ts /\ encodable (rle_balance_proof m) ch
  | SCBlock _, None | SCReceiveSecretReveal _, None | SCContractReceiveSecretReveal _, None
  | SCReceiveUnlock _, None | SCReceiveLockExpired _, None => False
  | _, _ => True
  end.

Section TargetLemmas.
Context `{Externals} {Random : Type} `{RandomGen Random}.

Lemma is_safe_to_wait_timed lock ch block_number :
  timed lock ch block_number ->
  exists r, is_safe_to_wait (lock_expiration lock) (ch_reveal_timeout ch) block_number = Ok r /\
    ok r = (ch_reveal_timeout ch <? lock_expiration lock - block_number).
Proof.
  intros [Hb [Hr He]]. unfold is_safe_to_wait.
  rewrite (proj2 (Z.ltb_lt _ _) Hb), (proj2 (Z.ltb_lt _ _) Hr), (proj2 (Z.ltb_lt _ _) He). cbn [py_assert].
  destruct (_ <? _) eqn:E; eexists; split; reflexivity.
Qed.

(** The target's task that a valid transfer starts. *)
Lemma started_task_inv a ch :
  let t := ait_transfer a in
  channel_inv ch -> lock_wf (lts_lock t) ->
  get_lock (ch_partner_state ch) (lock_secrethash (lts_lock t)) = None ->
  acceptable_lock (lts_balance_proof t) (lts_lock t) ch (ch_partner_state ch) (ch_our_state ch) ->
  target_inv (Some (TargetTransferState_init (ait_from_hop a) t))
    (upd_partner (add_locked_lock (lts_lock t))
      (upd_partner (accept_balance_proof (lts_balance_proof t)
        (es_pending_locks (ch_partner_state ch) ++ [lock_encoded (lts_lock t)])) ch)).
Proof.
  intros t Hinv Hwf Hnew Hacc. split; [eapply (le_inv false ch); by apply receive_lock_effect|].
  apply get_lock_None in Hnew as (_ & Hu & Ho). unfold unlocked_of, onchain_of in *.
  rewrite lookup_fmap, fmap_None in Hu, Ho. split; cbn.
  - unfold get_lock. cbn. by rewrite lookup_insert_eq.
  - split; [done | set_solver].
  - intros s. unfold get_secret, tts_secrethash. cbn. by rewrite Hu, Ho.
Qed.

(** [handle_inittarget] in full: what it returns when the transfer is accepted
    and when it is not. *)
Lemma handle_inittarget_cases a ch (prng : Random) block_number :
  let t := ait_transfer a in
  target_inv None ch -> target_admissible None ch (SCActionInitTarget a) block_number ->
  exists ts evs ch' prng', target.handle_inittarget a ch prng block_number = Ok (ts, evs, ch', prng') /\
  ((ts = Some (TargetTransferState_init (ait_from_hop a) t) /\ target_inv ts ch' /\
    acceptable_lock (lts_balance_proof t) (lts_lock t) ch (ch_partner_state ch) (ch_our_state ch) /\
    lock_effect false ch ch' 0 (lock_amount (lts_lock t)) /\
    exists request, evs = processed (payer_address t) (payer_address_metadata t) (lts_message_identifier t) :: request /\
    (if negb (ait_received_valid_secret a) && (ch_reveal_timeout ch <? lock_expiration (lts_lock t) - block_number)
     then exists msg, request = [SendSecretRequest msg (lts_payment_identifier t) (lock_amount (lts_lock t))
                                   (lock_expiration (lts_lock t)) (lock_secrethash (lts_lock t))] /\
                      sm_recipient msg = lts_initiator t
     else request = [])) \/
   (ts = None /\ ch' = ch /\ prng' = prng /\
    ~ acceptable_lock (lts_balance_proof t) (lts_lock t) ch (ch_partner_state ch) (ch_our_state ch) /\
    exists reason1 reason2,
      evs = [EventInvalidReceivedLockedTransfer (lts_payment_identifier t) reason1;
             EventUnlockClaimFailed (lts_payment_identifier t) (lock_secrethash (lts_lock t)) reason2])).
Proof.
  intros t [Hinv _] (Hid & Hwf & Hnew & [r Hr] & Htimed). fold t in Hid, Hwf, Hnew, Hr, Htimed.
  unfold target.handle_inittarget. fold t. rewrite py_assert_true by (by apply Z.eqb_eq).
  destruct (handle_receive_lockedtransfer_Ok ch t (payer_address_metadata t) r Hr) as (ch' & v & evs & msg & E).
  rewrite E. cbn [bind].
  apply handle_receive_lockedtransfer_inv in E as [(-> & -> & Hacc & -> & ->)|(-> & Hmsg & Hno & -> & reason & ->)].
  - pose proof (started_task_inv a ch Hinv Hwf Hnew Hacc) as Htask. fold t in Htask.
    pose proof (receive_lock_effect ch _ _ Hinv Hwf Hnew Hacc) as Heff.
    change (ch_reveal_timeout (upd_partner _ _)) with (ch_reveal_timeout ch).
    destruct (ait_received_valid_secret a); cbn [negb andb];
      [|destruct (is_safe_to_wait_timed _ _ _ Htimed) as (w & -> & Hw); cbn [bind]; rewrite <- Hw;
        destruct (ok w); [destruct (message_identifier_from_prng prng)|]];
      do 4 eexists; (split; [reflexivity|]); left; do 4 (split; [done|]); eexists; split; cbn; eauto.
  - cbv zeta. rewrite Hmsg. cbn [py_assert]. do 4 eexists. split; [reflexivity|]. right. cbn. eauto 10.
Qed.

Lemma target_inv_registered ts ch ch' secret h st :
  target_task ts ch -> secret_registered secret h ch ch' -> h = tts_secrethash ts ->
  sha256_secrethash secret = h -> secret <> [] ->
  target_inv (Some (set_tts_secret (Some secret) (set_tts_state st ts))) ch'.
Proof.
  intros [Hp _ Hn] [Hinv _ Hlocks Hsec _] -> Hh Hne. split; [done|].
  assert (Eh : tts_secrethash (set_tts_secret (Some secret) (set_tts_state st ts)) = tts_secrethash ts) by done.
  split; rewrite ?Eh.
  - etransitivity; [apply (Hlocks false) | exact Hp].
  - split; [by intros s [= <-] | done].
  - intros s Hget. apply (Hsec false) in Hget as [->|Hget]; [done | by apply Hn].
Qed.

Lemma target_task_state ts ch st :
  target_task ts ch -> st ∈ [EXPIRED; ONCHAIN_SECRET_REVEAL] -> target_task (set_tts_state st ts) ch.
Proof. intros [Hp [Hs Hl] Hn] Hst. split; try done. split; [done|]. cbn. set_solver. Qed.

(** [handle_block] by cases; the task stays well-formed. *)
Lemma handle_block_cases ts ch block_number block_hash :
  target_task ts ch -> timed (lts_lock (tts_transfer ts)) ch block_number ->
  let lock := lts_lock (tts_transfer ts) in
  let h := tts_secrethash ts in
  let expired := ok (is_lock_expired (ch_our_state ch) lock block_number
                       (get_receiver_expiration_threshold (lock_expiration lock))) in
  let reveal := negb (ch_reveal_timeout ch <? lock_expiration lock - block_number)
                && is_secret_known_offchain (ch_partner_state ch) h
                && negb (bool_decide (tts_state ts = ONCHAIN_SECRET_REVEAL)) in
  exists ts' evs, target.handle_block ts ch block_number block_hash = Ok (ts', evs) /\ target_task ts' ch /\
  if expired && negb (bool_decide (tts_state ts = EXPIRED)) then
    ts' = set_tts_state EXPIRED ts /\
    evs = [EventUnlockClaimFailed (lts_payment_identifier (tts_transfer ts)) h "lock expired"]
  else if reveal then
    exists secret, get_secret (ch_partner_state ch) h = Some secret /\
    ts' = set_tts_state ONCHAIN_SECRET_REVEAL ts /\
    evs = ChannelSend.events_for_onchain_secretreveal ch secret (lock_expiration lock) block_hash
  else ts' = ts /\ evs = [].
Proof.
  intros Htask Htimed lock h expired reveal. unfold target.handle_block. cbv zeta. fold lock.
  change (lock_secrethash lock) with h. fold expired.
  destruct (expired && _).
  { do 2 eexists. split; [reflexivity|]. split; [|done]. apply target_task_state; [done | set_solver]. }
  assert (Hoff : is_secret_known_offchain (ch_partner_state ch) h = true ->
                 is_secret_known (ch_partner_state ch) h = true).
  { unfold is_secret_known, is_secret_known_offchain. by intros ->. }
  destruct (is_secret_known (ch_partner_state ch) h) eqn:Hk.
  2:{ assert (Er : reveal = false).
      { unfold reveal. destruct (is_secret_known_offchain _ h); [naive_solver|]. by rewrite andb_false_r. }
      rewrite Er. by do 2 eexists. }
  unfold target.events_for_onchain_secretreveal. cbv zeta. fold lock. change (lock_secrethash lock) with h.
  destruct (is_safe_to_wait_timed _ _ _ Htimed) as (w & Ew & Hw). fold lock in Ew, Hw. rewrite Ew. cbn [bind].
  rewrite Hw. fold reveal. destruct reveal; [|by do 2 eexists].
  rewrite get_secret_is_known in Hk. destruct (get_secret _ h) as [[|b s]|] eqn:Hs; [|..|done].
  - by destruct (proj1 (tt_known _ _ Htask [] Hs)).
  - do 2 eexists. split; [reflexivity|]. split; [|by eexists]. apply target_task_state; [done | set_solver].
Qed.

Lemma handle_unlock_task_cases ts ch u :
  target_inv (Some ts) ch -> ru_secrethash u = tts_secrethash ts -> encodable (ru_balance_proof u) ch ->
  let lock := lts_lock (tts_transfer ts) in
  exists ts' evs ch', target.handle_unlock ts u ch = Ok (ts', evs, ch') /\
  ((ts' = None /\ acceptable_unlock (ru_balance_proof u) lock ch (ch_partner_state ch) /\
    lock_effect false ch ch' (lock_amount lock) (- lock_amount lock) /\
    get_lock (ch_partner_state ch') (tts_secrethash ts) = None /\
    exists evs0, evs = evs0 ++
      [EventPaymentReceivedSuccess (ch_token_network_registry_address ch') (ch_token_network_address ch')
         (lts_payment_identifier (tts_transfer ts)) (lock_amount lock) (lts_initiator (tts_transfer ts));
       EventUnlockClaimSuccess (lts_payment_identifier (tts_transfer ts)) (tts_secrethash ts)]) \/
   (ts' = Some ts /\ ch' = ch /\ ~ acceptable_unlock (ru_balance_proof u) lock ch (ch_partner_state ch) /\
    exists reason, evs = [EventInvalidReceivedUnlock (ru_secrethash u) reason])).
Proof.
  intros [Hinv Htask] Hh [r Hr] lock. unfold target.handle_unlock.
  destruct (handle_unlock_Ok ch u (payer_address_metadata (tts_transfer ts)) r Hinv Hr) as (ch' & v & evs & msg & E).
  rewrite E. cbn [bind]. apply handle_unlock_inv in E; [|done]. rewrite Hh in E. pose proof (tt_pending _ _ Htask) as Hp.
  fold lock in Hp.
  destruct E as [(-> & l & [Hl Hacc] & Heff & Hgone)|(-> & Hno & -> & Hevs)].
  - rewrite Hp in Hl. injection Hl as <-.
    pose proof (get_lock_inv _ _ _ (ci_partner _ Hinv) Hp) as (Hwf & _). apply lock_wf_inv in Hwf as ([Ha1 Ha2] & _).
    unfold EventPaymentReceivedSuccess_init. fold lock.
    rewrite (proj2 (Z.ltb_ge _ _) Ha1), (proj2 (Z.ltb_ge _ _) Ha2). cbn [bind].
    do 3 eexists. split; [reflexivity|]. left. do 4 (split; [done|]). by eexists.
  - do 3 eexists. split; [reflexivity|]. right. split; [done|]. split; [done|]. rewrite Hh.
    split; [intros Hacc; by apply (Hno lock) | done].
Qed.

Lemma handle_lock_expired_task_cases ts ch m block_number :
  target_inv (Some ts) ch -> rle_secrethash m = tts_secrethash ts -> encodable (rle_balance_proof m) ch ->
  let lock := lts_lock (tts_transfer ts) in
  let fits := is_secret_known_onchain (ch_partner_state ch) (tts_secrethash ts) = false /\
    acceptable_lock_expired (rle_balance_proof m) lock ch (ch_partner_state ch) (ch_our_state ch) block_number in
  exists ts' evs ch', target.handle_lock_expired ts m ch block_number = Ok (ts', evs, ch') /\
  ((ts' = None /\ fits /\ lock_effect false ch ch' 0 (- lock_amount lock) /\
    get_lock (ch_partner_state ch') (tts_secrethash ts) = None) \/
   (ts' = Some ts /\ ch' = ch /\ ~ fits)).
Proof.
  intros [Hinv Htask] Hh [r Hr] lock fits. unfold target.handle_lock_expired.
  destruct (handle_receive_lock_expired_Ok ch m block_number (payer_address_metadata (tts_transfer ts)) r Hr)
    as (o & evs & E).
  rewrite E. cbn [bind]. apply handle_receive_lock_expired_inv in E as (ch' & -> & Hc); [|done].
  pose proof (tt_pending _ _ Htask) as Hp. fold lock in Hp. rewrite Hh in Hc.
  change (lock_secrethash (lts_lock (tts_transfer ts))) with (tts_secrethash ts).
  destruct Hc as [(l & [Hl Hacc] & Heff & Hgone & _)|(Hno & -> & _)].
  - pose proof (unclaimed_lock_inv _ _ _ Hl) as [Hl' Hon]. rewrite Hp in Hl'. injection Hl' as <-.
    rewrite Hgone. do 3 eexists. split; [reflexivity|]. left. split; [done|].
    split; [split; [|exact Hacc] | done].
    unfold is_secret_known_onchain, onchain_of in *. rewrite lookup_fmap in Hon. by destruct (_ !! _).
  - rewrite Hp. do 3 eexists. split; [reflexivity|]. right. split; [done|]. split; [done|].
    intros [Hon Hacc]. apply (Hno lock). split; [|done]. unfold unclaimed_lock, is_secret_known_onchain in *.
    by destruct (_ !! _).
Qed.

(** [sanity_check] passes when the invariant holds and a finished task has left
    no lock behind. *)
Lemma target_sanity_check_Ok ts ts' ch :
  target_inv ts' ch ->
  (forall t, ts = Some t -> ts' = None -> get_lock (ch_partner_state ch) (tts_secrethash t) = None) ->
  target.sanity_check ts ts' ch = Ok tt.
Proof.
  intros [_ Ht] Hgone. unfold target.sanity_check. destruct ts' as [ts'|].
  - rewrite (tt_pending _ _ Ht). by destruct ts.
  - destruct ts as [t|]; [|done]. by rewrite (Hgone t).
Qed.

Lemma target_dispatch_inv ts ch state_change (prng : Random) block_number :
  target_inv ts ch -> target_admissible ts ch state_change block_number ->
  exists ts' evs ch' prng',
    target.dispatch ts state_change ch prng block_number = Ok (ts', evs, ch', prng') /\ target_inv ts' ch' /\
    (forall t, ts = Some t -> ts' = None -> get_lock (ch_partner_state ch') (tts_secrethash t) = None).
Proof.
  intros Hti Hadm. pose proof Hti as [Hinv Htask].
  destruct state_change; destruct ts as [ts|]; try done; cbn in Hadm; cbn [target.dispatch];
    try (by do 4 eexists).
  - destruct Hadm as [Hb Htimed]. rewrite py_assert_true by (by apply Z.eqb_eq). rewrite Hb.
    destruct (handle_block_cases ts ch block_number (block_block_hash a) Htask Htimed) as (ts' & evs & E & Ht & _).
    rewrite E. cbn [bind]. do 4 eexists. split; [reflexivity|]. done.
  - destruct Hadm as [Hne Hh]. unfold target.handle_onchain_secretreveal, is_valid_secret_reveal.
    case_bool_decide as Heq; [|cbn; by do 4 eexists].
    destruct (register_onchain_secret_registered (crsr_secret a) (crsr_secrethash a)
                (cr_block_number (crsr_contract a)) ch Hinv) as (ch' & E & Hreg).
    rewrite E. cbn. do 4 eexists. split; [reflexivity|]. split; [|done].
    by eapply target_inv_registered.
  - destruct Hadm as [Hh Henc].
    destruct (handle_unlock_task_cases ts ch a Hti Hh Henc) as (ts' & evs & ch' & E & Hc).
    rewrite E. cbn [bind]. do 4 eexists. split; [reflexivity|].
    destruct Hc as [(-> & _ & Heff & Hgone & _)|(-> & -> & _)]; [|done].
    split; [split; [apply Heff | done]|]. by intros t [= <-].
  - destruct Hadm as [Hh Henc].
    destruct (handle_lock_expired_task_cases ts ch a block_number Hti Hh Henc) as (ts' & evs & ch' & E & Hc).
    rewrite E. cbn [bind]. do 4 eexists. split; [reflexivity|].
    destruct Hc as [(-> & _ & Heff & Hgone)|(-> & -> & _)]; [|done].
    split; [split; [apply Heff | done]|]. by intros t [= <-].
  - destruct Hadm as [Hne Hh]. unfold target.handle_offchain_secretreveal, is_valid_secret_reveal.
    case_bool_decide as Heq; cbn [andb]; [|by do 4 eexists].
    destruct (is_transfer_expired _ _ _); cbn [negb]; [by do 4 eexists|].
    destruct (message_identifier_from_prng prng). do 4 eexists. split; [reflexivity|]. split; [|done].
    eapply target_inv_registered; try done. by apply register_offchain_secret_registered.
  - destruct (handle_inittarget_cases a ch prng block_number Hti Hadm) as (ts & evs & ch' & prng' & E & Hc).
    exists ts, evs, ch', prng'. split; [exact E|]. split; [|done].
    by destruct Hc as [(_ & ? & _)|(-> & -> & _)].
Qed.
End TargetLemmas.

Section TargetClaims.
Context `{Externals} {Random : Type} `{RandomGen Random}.

(** C22. The target's state machine is total.  From every task and channel that
    satisfy the invariant, on every admissible state change, [state_transition]
    returns: no handler's assertion fires and neither does [sanity_check], which
    says that the task exists exactly as long as the lock it waits for.  The
    invariant holds again afterwards. *)
Theorem target_state_transition_total ts ch state_change (prng : Random) block_number :
  target_inv ts ch -> target_admissible ts ch state_change block_number ->
  exists ts' evs ch' prng',
    target.state_transition ts state_change ch prng block_number = Ok (ts', evs, ch', prng') /\
    target_inv ts' ch'.
Proof.
  intros Hti Hadm. pose proof Hti as [Hinv Htask]. unfold target.state_transition.
  destruct (target_dispatch_inv ts ch state_change prng block_number Hti Hadm)
    as (ts' & evs & ch' & prng' & E & Hti' & Hgone).
  rewrite E. cbn [bind]. rewrite (target_sanity_check_Ok ts ts' ch' Hti' Hgone). cbn [bind].
  by do 4 eexists.
Qed.

(** C23. Starting to receive a payment.  The task is created exactly when the
    transfer's balance proof adds its lock, and then the partner's locked amount
    grows by it.  The initiator is asked for the secret exactly when the task is
    created without a valid secret and more than the reveal timeout is left.  A
    rejected transfer leaves the channel alone and is reported as a failed
    claim. *)
Theorem target_init_correct a ch (prng : Random) block_number :
  let t := ait_transfer a in
  let acceptable :=
    acceptable_lock (lts_balance_proof t) (lts_lock t) ch (ch_partner_state ch) (ch_our_state ch) in
  target_inv None ch -> target_admissible None ch (SCActionInitTarget a) block_number ->
  exists ts evs ch' prng',
    target.state_transition None (SCActionInitTarget a) ch prng block_number = Ok (ts, evs, ch', prng') /\
    (is_some ts = true <-> acceptable) /\
    (is_some ts = true -> lock_effect false ch ch' 0 (lock_amount (lts_lock t))) /\
    ((exists msg pid amount expiration h, SendSecretRequest msg pid amount expiration h ∈ evs) <->
     acceptable /\ ait_received_valid_secret a = false /\
     ch_reveal_timeout ch < lock_expiration (lts_lock t) - block_number) /\
    (ts = None -> ch' = ch /\ exists reason,
       EventUnlockClaimFailed (lts_payment_identifier t) (lock_secrethash (lts_lock t)) reason ∈ evs).
Proof.
  intros t acceptable Hti Hadm.
  destruct (handle_inittarget_cases a ch prng block_number Hti Hadm) as (ts & evs & ch' & prng' & E & Hc).
  exists ts, evs, ch', prng'. fold t in Hc. unfold target.state_transition. cbn [target.dispatch]. rewrite E. cbn [bind].
  destruct Hc as [(-> & Hti' & Hacc & Heff & req & -> & Hreq)|(-> & -> & -> & Hno & r1 & r2 & ->)].
  - rewrite (target_sanity_check_Ok None _ ch' Hti') by done. split; [done|]. split; [done|]. split; [done|].
    split; [|done]. destruct (ait_received_valid_secret a), (_ <? _) eqn:Ew; cbn in Hreq; zbool;
      try (subst req; set_solver by lia). destruct Hreq as (msg & -> & _). set_solver.
  - split; [done|]. split; [done|]. split; [done|]. split; [set_solver|].
    intros _. split; [done|]. exists r2. set_solver.
Qed.

(** C24. Being paid.  A payment is reported as received exactly when the unlock's
    balance proof pays out the lock the task waits for; then the lock's amount
    moves to our balance, the lock is gone and the task ends.  Any other unlock
    changes nothing but is reported. *)
Theorem target_payment_received_iff_unlocked ts ch u (prng : Random) block_number :
  let lock := lts_lock (tts_transfer ts) in
  let paid := acceptable_unlock (ru_balance_proof u) lock ch (ch_partner_state ch) in
  target_inv (Some ts) ch -> target_admissible (Some ts) ch (SCReceiveUnlock u) block_number ->
  exists ts' evs ch',
    target.state_transition (Some ts) (SCReceiveUnlock u) ch prng block_number = Ok (ts', evs, ch', prng) /\
    ((exists registry network pid amount initiator,
        EventPaymentReceivedSuccess registry network pid amount initiator ∈ evs) <-> paid) /\
    (paid -> ts' = None /\ lock_effect false ch ch' (lock_amount lock) (- lock_amount lock)) /\
    (~ paid -> ts' = Some ts /\ ch' = ch).
Proof.
  intros lock paid Hti [Hh Henc].
  destruct (handle_unlock_task_cases ts ch u Hti Hh Henc) as (ts' & evs & ch' & E & Hc).
  exists ts', evs, ch'. unfold target.state_transition. cbn [target.dispatch]. rewrite E. cbn [bind]. cbv iota beta.
  destruct Hc as [(-> & Hacc & Heff & Hgone & evs0 & ->)|(-> & -> & Hno & reason & ->)].
  - rewrite target_sanity_check_Ok; [|by split; [apply Heff|] | by intros t [= <-]]. split; [done|].
    split; [|done]. split; [done|]. intros _. do 5 eexists. apply elem_of_app. right. by left.
  - rewrite target_sanity_check_Ok by done. split; [done|]. split; [|done]. set_solver.
Qed.

(** C25. Claiming in time.  Once the secret is known off-chain and no more than
    the reveal timeout is left, the next block makes the target register the
    secret on-chain, with a secret that opens the lock; until the lock counts as
    expired it does so once.  With more blocks left it waits. *)
Theorem target_registers_secret_in_time ts ch block_number block_hash :
  let lock := lts_lock (tts_transfer ts) in
  target_task ts ch -> timed lock ch block_number ->
  block_number < get_receiver_expiration_threshold (lock_expiration lock) ->
  is_secret_known_offchain (ch_partner_state ch) (tts_secrethash ts) = true ->
  tts_state ts = OFFCHAIN_SECRET_REVEAL -> get_status ch ∈ CHANNEL_STATES_UP_TO_CLOSED ->
  if ch_reveal_timeout ch <? lock_expiration lock - block_number
  then target.handle_block ts ch block_number block_hash = Ok (ts, [])
  else exists ts' secret,
    target.handle_block ts ch block_number block_hash
      = Ok (ts', [ContractSendSecretReveal block_hash (lock_expiration lock) secret]) /\
    sha256_secrethash secret = lock_secrethash lock /\
    forall later hash, timed lock ch later ->
      later < get_receiver_expiration_threshold (lock_expiration lock) ->
      target.handle_block ts' ch later hash = Ok (ts', []).
Proof.
  intros lock Htask Htimed Hb Hk Hst Hopen.
  assert (Hexp : forall b, b < get_receiver_expiration_threshold (lock_expiration lock) ->
            ok (is_lock_expired (ch_our_state ch) lock b
                  (get_receiver_expiration_threshold (lock_expiration lock))) = false).
  { intros b Hlt. unfold is_lock_expired. destruct (is_some _); [done|]. by rewrite (proj2 (Z.ltb_lt _ _) Hlt). }
  destruct (handle_block_cases ts ch block_number block_hash Htask Htimed) as (ts' & evs & E & Ht' & Hc).
  fold lock in Hc. rewrite (Hexp _ Hb), Hk, Hst in Hc. cbn [andb] in Hc.
  destruct (_ <? _ - _) eqn:Ew; cbn in Hc.
  { by destruct Hc as [-> ->]. }
  destruct Hc as (secret & Hs & -> & ->). exists (set_tts_state ONCHAIN_SECRET_REVEAL ts), secret.
  split; [|split].
  - rewrite E. unfold ChannelSend.events_for_onchain_secretreveal. by rewrite bool_decide_true.
  - by apply (tt_known _ _ Htask).
  - intros later hash Htl Hl.
    destruct (handle_block_cases _ ch later hash Ht' Htl) as (ts2 & evs2 & E2 & _ & Hc2).
    cbn [tts_transfer set_tts_state] in Hc2. fold lock in Hc2. rewrite (Hexp _ Hl) in Hc2. cbn [andb] in Hc2.
    rewrite andb_false_r in Hc2. destruct Hc2 as [-> ->]. exact E2.
Qed.

Lemma target_handle_block_typed ts ch block_number block_hash ts' evs :
  target_typed ts -> target.handle_block ts ch block_number block_hash = Ok (ts', evs) ->
  exists st, ts' = set_tts_state st ts /\ target_typed ts'.
Proof.
  intros Hty. unfold target.handle_block, target.events_for_onchain_secretreveal.
  assert (Hst : forall st, st ∈ [EXPIRED; ONCHAIN_SECRET_REVEAL] -> target_typed (set_tts_state st ts)).
  { intros st Hin. destruct Hty as [Hs Hl]. split; [done|]. cbn. set_solver. }
  assert (Hself : exists st, ts = set_tts_state st ts /\ target_typed ts) by (exists (tts_state ts); by destruct ts).
  destruct (_ && _); [intros [= <- <-]; eexists; split; [done | apply Hst; set_solver]|].
  destruct (is_secret_known _ _); [|by intros [= <- <-]].
  intros (w & _ & Hrun)%bind_Ok_inv. destruct (_ && _ && _); [|by injection Hrun as <- <-].
  destruct (get_secret _ _) as [[|]|]; try discriminate. injection Hrun as <- <-.
  eexists. split; [done | apply Hst; set_solver].
Qed.

(** C26. What a task is made of.  Whatever the channel does, a transition that
    keeps the task keeps its transfer and the hop it came from; the secret it
    stores is the preimage of the secret hash, it is there in the states that
    follow a reveal, and the lock is still pending in the channel. *)
Theorem target_state_typed ts ts' ch ch' state_change evs (prng prng' : Random) block_number :
  target_typed ts ->
  match state_change with
  | SCReceiveSecretReveal a => rsr_secrethash a = sha256_secrethash (rsr_secret a)
  | SCContractReceiveSecretReveal a => crsr_secrethash a = sha256_secrethash (crsr_secret a)
  | _ => True
  end ->
  target.state_transition (Some ts) state_change ch prng block_number = Ok (Some ts', evs, ch', prng') ->
  target_typed ts' /\ tts_transfer ts' = tts_transfer ts /\ tts_from_hop ts' = tts_from_hop ts /\
  is_some (get_lock (ch_partner_state ch') (tts_secrethash ts)) = true.
Proof.
  intros Hty Hsc. unfold target.state_transition.
  intros ([[[n e] c] g] & Hd & Hrun)%bind_Ok_inv. apply bind_Ok_inv in Hrun as ([] & Hs & [= -> -> -> ->]).
  assert (Hkey : target_typed ts' /\ tts_transfer ts' = tts_transfer ts /\ tts_from_hop ts' = tts_from_hop ts).
  2:{ destruct Hkey as (? & Et & ?). do 3 (split; [done|]). unfold target.sanity_check in Hs.
      apply py_assert_Ok_inv in Hs as [Hs _]. unfold tts_secrethash in *. by rewrite Et in Hs. }
  clear Hs. destruct state_change; cbn [target.dispatch] in Hd; try (by injection Hd as <- <- <- <-).
  - apply py_assert_Ok_inv in Hd as [_ Hd]. apply bind_Ok_inv in Hd as ([n2 e2] & Hb & [= <- <- <- <-]).
    by apply target_handle_block_typed in Hb as (st & -> & ?).
  - apply bind_Ok_inv in Hd as ([[n2 e2] c2] & Hr & [= -> -> -> ->]). revert Hr.
    unfold target.handle_onchain_secretreveal, is_valid_secret_reveal. case_bool_decide as Heq; [|by intros [= <- <- <-]].
    intros (c3 & _ & [= <- <- <-])%bind_Ok_inv. split; [|done]. split; [|done].
    intros s [= <-]. rewrite <- Hsc. exact Heq.
  - apply bind_Ok_inv in Hd as ([[n2 e2] c2] & Hr & [= -> -> -> ->]). revert Hr. unfold target.handle_unlock.
    intros ([c3 [[v e3] m]] & _ & Hrun)%bind_Ok_inv. destruct v; [|by injection Hrun as <- <- <-].
    by apply bind_Ok_inv in Hrun as (? & _ & ?).
  - apply bind_Ok_inv in Hd as ([[n2 e2] c2] & Hr & [= -> -> -> ->]). revert Hr. unfold target.handle_lock_expired.
    intros ([[c3|] e3] & _ & Hrun)%bind_Ok_inv; [|discriminate].
    destruct (is_none _); [discriminate | by injection Hrun as <- <- <-].
  - injection Hd as Hd. revert Hd. unfold target.handle_offchain_secretreveal, is_valid_secret_reveal.
    case_bool_decide as Heq; cbn [andb]; [|by intros [= <- <- <- <-]].
    destruct (is_transfer_expired _ _ _); cbn [negb]; [by intros [= <- <- <- <-]|].
    destruct (message_identifier_from_prng prng). intros [= <- <- <- <-]. split; [|done]. split; [|done].
    intros s [= <-]. rewrite <- Hsc. exact Heq.
Qed.

(** ** Where the target does not do what it means to *)

(** A lock that expires while its secret is known only off-chain.  The task
    does not stay in its final state: each block moves it between [EXPIRED] and
    [ONCHAIN_SECRET_REVEAL], so every two blocks it registers the secret of the
    expired lock on-chain and reports the claim as failed again. *)
Theorem expired_target_repeats_itself ts ch block_number block_hash block_number' block_hash' :
  let lock := lts_lock (tts_transfer ts) in
  let threshold := get_receiver_expiration_threshold (lock_expiration lock) in
  target_task ts ch -> timed lock ch block_number -> timed lock ch block_number' ->
  threshold <= block_number -> threshold <= block_number' ->
  tts_state ts = EXPIRED -> is_secret_known_offchain (ch_partner_state ch) (tts_secrethash ts) = true ->
  is_secret_known_onchain (ch_our_state ch) (tts_secrethash ts) = false ->
  get_status ch ∈ CHANNEL_STATES_UP_TO_CLOSED ->
  exists ts' secret,
    target.handle_block ts ch block_number block_hash
      = Ok (ts', [ContractSendSecretReveal block_hash (lock_expiration lock) secret]) /\
    target.handle_block ts' ch block_number' block_hash'
      = Ok (ts, [EventUnlockClaimFailed (lts_payment_identifier (tts_transfer ts)) (tts_secrethash ts)
                   "lock expired"]).
Proof.
  intros lock threshold Htask Ht Ht' Hb Hb' Hst Hk Hon Hopen.
  assert (Hexp : forall b, threshold <= b -> ok (is_lock_expired (ch_our_state ch) lock b threshold) = true).
  { intros b Hle. unfold is_lock_expired. unfold is_secret_known_onchain in Hon. cbn.
    change (lock_secrethash lock) with (tts_secrethash ts). rewrite Hon. by rewrite (proj2 (Z.ltb_ge _ _) Hle). }
  destruct (handle_block_cases ts ch block_number block_hash Htask Ht) as (ts1 & evs & E & Ht1 & Hc).
  fold lock threshold in Hc. rewrite (Hexp _ Hb), Hk, Hst in Hc. cbn [andb negb] in Hc.
  rewrite bool_decide_true in Hc by done. cbn [negb] in Hc.
  assert (Hw : (ch_reveal_timeout ch <? lock_expiration lock - block_number) = false).
  { destruct Ht as [_ [? _]]. apply Z.ltb_ge. unfold threshold, get_receiver_expiration_threshold,
      DEFAULT_NUMBER_OF_BLOCK_CONFIRMATIONS in Hb. lia. }
  rewrite Hw in Hc. destruct Hc as (secret & _ & -> & ->).
  exists (set_tts_state ONCHAIN_SECRET_REVEAL ts), secret. split.
  - rewrite E. unfold ChannelSend.events_for_onchain_secretreveal. by rewrite bool_decide_true.
  - destruct (handle_block_cases _ ch block_number' block_hash' Ht1 Ht') as (ts2 & evs2 & E2 & _ & Hc2).
    cbn [tts_transfer set_tts_state] in Hc2. fold lock threshold in Hc2. rewrite (Hexp _ Hb') in Hc2.
    rewrite bool_decide_false in Hc2 by done. destruct Hc2 as [-> ->]. rewrite E2. repeat f_equal.
    destruct ts. cbn in *. by subst.
Qed.

(** A payment that was claimed on-chain in time is nevertheless reported as
    failed: the lock counts as unlocked on-chain at the partner's end, but
    [handle_block] asks our end. *)
Theorem claimed_lock_reported_as_failed ts ch block_number block_hash :
  let lock := lts_lock (tts_transfer ts) in
  let threshold := get_receiver_expiration_threshold (lock_expiration lock) in
  target_task ts ch -> timed lock ch block_number -> threshold <= block_number ->
  tts_state ts = ONCHAIN_UNLOCK ->
  is_secret_known_onchain (ch_partner_state ch) (tts_secrethash ts) = true ->
  is_secret_known_onchain (ch_our_state ch) (tts_secrethash ts) = false ->
  target.handle_block ts ch block_number block_hash
    = Ok (set_tts_state EXPIRED ts,
          [EventUnlockClaimFailed (lts_payment_identifier (tts_transfer ts)) (tts_secrethash ts) "lock expired"]) /\
  ok (is_lock_expired (ch_partner_state ch) lock block_number threshold) = false.
Proof.
  intros lock threshold Htask Ht Hb Hst Hp Ho.
  destruct (handle_block_cases ts ch block_number block_hash Htask Ht) as (ts' & evs & E & _ & Hc).
  fold lock threshold in Hc. unfold is_secret_known_onchain in *.
  assert (Hexp : ok (is_lock_expired (ch_our_state ch) lock block_number threshold) = true).
  { unfold is_lock_expired. cbn. change (lock_secrethash lock) with (tts_secrethash ts). rewrite Ho.
    by rewrite (proj2 (Z.ltb_ge _ _) Hb). }
  rewrite Hexp, bool_decide_false in Hc by by rewrite Hst. destruct Hc as [-> ->]. split; [exact E|].
  unfold is_lock_expired. cbn. change (lock_secrethash lock) with (tts_secrethash ts). by rewrite Hp.
Qed.

(** A partner can stop the node with one valid transfer: if its lock expires
    before the block numbered by our reveal timeout, the balance proof is
    accepted and then [is_safe_to_wait] raises. *)
Theorem early_expiration_raises a ch (prng : Random) block_number :
  let t := ait_transfer a in
  ch_identifier ch = bps_channel_identifier (lts_balance_proof t) -> encodable (lts_balance_proof t) ch ->
  acceptable_lock (lts_balance_proof t) (lts_lock t) ch (ch_partner_state ch) (ch_our_state ch) ->
  ait_received_valid_secret a = false -> 0 < block_number -> 0 < ch_reveal_timeout ch ->
  lock_expiration (lts_lock t) <= ch_reveal_timeout ch ->
  target.state_transition None (SCActionInitTarget a) ch prng block_number
    = Raise (AssertionError "lock_expiration must be larger than reveal_timeout").
Proof.
  intros t Hid [r Hr] Hacc Hsec Hb Hrt He. unfold target.state_transition. cbn [target.dispatch].
  unfold target.handle_inittarget. fold t. rewrite py_assert_true by (by apply Z.eqb_eq).
  destruct (handle_receive_lockedtransfer_Ok ch t (payer_address_metadata t) r Hr) as (ch' & v & evs & msg & E).
  rewrite E. cbn [bind].
  apply handle_receive_lockedtransfer_inv in E as [(-> & _ & _ & -> & _)|(_ & _ & Hno & _)]; [|done].
  rewrite Hsec. unfold is_safe_to_wait. change (ch_reveal_timeout (upd_partner _ _)) with (ch_reveal_timeout ch).
  rewrite (proj2 (Z.ltb_lt _ _) Hb), (proj2 (Z.ltb_lt _ _) Hrt), (proj2 (Z.ltb_ge _ _) He). done.
Qed.
End TargetClaims.
