(* ===== verification/WorldLogic.v ===== *)
(** * Reasoning about code that runs over the world

    [triple P m Q]: whenever [m] starts in a world that satisfies [P] and
    returns, [Q] holds of the result and the world it leaves.  One rule per
    operation of the monad; the rule of [for_pairs] takes an invariant of the
    world, a relation between each pair and what the loop makes of it, and a
    property of every event.  [steady] is the invariant the payment tasks keep:
    every channel object satisfies the channel invariant and is the same channel
    as at the start. *)

From Stdlib Require Import ZArith Lia Strings.Byte.
From stdpp Require Import base functions gmap list strings pretty.
From S2P Require Import Prelude Encoding MediationFee State Events ChannelViews ChannelValidation ChannelSend ChannelHandlers TaskState World LockSets ChannelInvariant BalanceProofMessages LockOperations StateTransition TransferTheorems Reachability ChannelFrame SecretRegistration.

Definition triple {Random A} (P : World Random -> Prop) (m : M Random A)
    (Q : A -> World Random -> Prop) : Prop :=
  forall w a w', P w -> m w = Ok (a, w') -> Q a w'.

(** Inversion of a run, for facts about one call. *)
Lemma M_bind_inv {Random A B} (m : M Random A) (k : A -> M Random B) (w w' : World Random) b :
  (m ≫= k) w = Ok (b, w') -> exists a w1, m w = Ok (a, w1) /\ k a w1 = Ok (b, w').
Proof. unfold mbind, M_bind. intros ([a w1] & Hm & Hk)%bind_Ok_inv. eauto. Qed.

Lemma lift_inv {Random A} (r : Res A) (w w' : World Random) a : lift r w = Ok (a, w') -> r = Ok a /\ w' = w.
Proof. unfold lift. by intros (b & -> & [= <- <-])%bind_Ok_inv. Qed.

Lemma with_channel_inv {Random A} l (f : NettingChannelState -> Res (NettingChannelState * A)) (w w' : World Random) a :
  with_channel l f w = Ok (a, w') ->
  exists ch, f (w_heap w l) = Ok (ch, a) /\ w' = Build_World (<[l := ch]> (w_heap w)) (w_prng w).
Proof.
  unfold with_channel. intros (ch & w1 & [= <- <-] & Hrun)%M_bind_inv.
  apply M_bind_inv in Hrun as ([ch b] & w2 & [Ef ->]%lift_inv & Hrun). injection Hrun as <- <-. eauto.
Qed.

Section Rules.
Context {Random : Type}.
Implicit Types P : World Random -> Prop.

Lemma triple_ret {A} P (a : A) (Q : A -> World Random -> Prop) :
  (forall w, P w -> Q a w) -> triple P (mret a) Q.
Proof. intros HQ w b w' HP [= <- <-]. auto. Qed.

Lemma triple_bind {A B} P (m : M Random A) (k : A -> M Random B) R Q :
  triple P m R -> (forall a, triple (R a) (k a) Q) -> triple P (m ≫= k) Q.
Proof.
  intros Hm Hk w b w' HP. unfold mbind, M_bind. intros ([a w1] & Em & Ek)%bind_Ok_inv.
  eapply Hk; [by eapply Hm | exact Ek].
Qed.

Lemma triple_pre {A} P P' (m : M Random A) Q : (forall w, P w -> P' w) -> triple P' m Q -> triple P m Q.
Proof. intros Hpre Hm w a w' HP Hrun. eapply Hm; [by apply Hpre | exact Hrun]. Qed.

Lemma triple_post {A} P (m : M Random A) (Q Q' : A -> World Random -> Prop) :
  triple P m Q' -> (forall a w, Q' a w -> Q a w) -> triple P m Q.
Proof. intros Hm Hpost w a w' HP Hrun. eapply Hpost, Hm; eassumption. Qed.

(** A fact about the starting world may be assumed. *)
Lemma triple_fact {A} P (F : Prop) (m : M Random A) Q :
  (forall w, P w -> F) -> (F -> triple P m Q) -> triple P m Q.
Proof. intros HF Hm w a w' HP Hrun. eapply Hm; eauto. Qed.

Lemma triple_lift {A} P (r : Res A) (Q : A -> World Random -> Prop) :
  (forall w a, P w -> r = Ok a -> Q a w) -> triple P (lift r) Q.
Proof. intros HQ w a w' HP. unfold lift. intros (b & Er & [= <- <-])%bind_Ok_inv. auto. Qed.

Lemma triple_read P l (Q : NettingChannelState -> World Random -> Prop) :
  (forall w, P w -> Q (w_heap w l) w) -> triple P (read l) Q.
Proof. intros HQ w a w' HP [= <- <-]. auto. Qed.

Lemma triple_get_heap P (Q : Heap -> World Random -> Prop) :
  (forall w, P w -> Q (w_heap w) w) -> triple P get_heap Q.
Proof. intros HQ w a w' HP [= <- <-]. auto. Qed.

Lemma triple_fresh `{RandomGen Random} P (Q : Z -> World Random -> Prop) :
  (forall w i g, P w -> Q i (Build_World (w_heap w) g)) -> triple P fresh_message_identifier Q.
Proof.
  intros HQ w a w' HP. unfold fresh_message_identifier.
  destruct (message_identifier_from_prng (w_prng w)). intros [= <- <-]. auto.
Qed.

Lemma triple_with_channel {A} P l (f : NettingChannelState -> Res (NettingChannelState * A))
    (Q : A -> World Random -> Prop) :
  (forall w ch a, P w -> f (w_heap w l) = Ok (ch, a) -> Q a (Build_World (<[l := ch]> (w_heap w)) (w_prng w))) ->
  triple P (with_channel l f) Q.
Proof.
  intros HQ w a w' HP. unfold with_channel, mbind, M_bind, read, lift, write, mret, M_ret. cbn [bind].
  intros ([[ch b] w1] & ([ch' b'] & Ef & [= <- <- <-])%bind_Ok_inv & [= <- <-])%bind_Ok_inv. by apply HQ.
Qed.

Lemma triple_with_channel_prng {A} P l (f : NettingChannelState -> Random -> Res (NettingChannelState * A * Random))
    (Q : A -> World Random -> Prop) :
  (forall w ch a g, P w -> f (w_heap w l) (w_prng w) = Ok (ch, a, g) ->
     Q a (Build_World (<[l := ch]> (w_heap w)) g)) ->
  triple P (with_channel_prng l f) Q.
Proof.
  intros HQ w a w' HP. unfold with_channel_prng. intros ([[ch b] g] & Ef & [= <- <-])%bind_Ok_inv. by apply HQ.
Qed.

Lemma triple_and {A} P1 P2 (m : M Random A) (Q1 Q2 : A -> World Random -> Prop) :
  triple P1 m Q1 -> triple P2 m Q2 -> triple (fun w => P1 w /\ P2 w) m (fun a w => Q1 a w /\ Q2 a w).
Proof. intros H1 H2 w a w' [HP1 HP2] Hrun. split; [by eapply H1 | by eapply H2]. Qed.

(** The loops. *)
Definition pair_outcome {S} (I : World Random -> Prop) (R : MediationPairState -> MediationPairState -> Prop)
    (E : Event -> Prop) (p : MediationPairState) : S * MediationPairState * list Event -> World Random -> Prop :=
  fun '(_, p', events) w => I w /\ R p p' /\ Forall E events.

Definition loop_outcome {S} (I : World Random -> Prop) (R : MediationPairState -> MediationPairState -> Prop)
    (E : Event -> Prop) (pairs : list MediationPairState)
    : S * list MediationPairState * list Event -> World Random -> Prop :=
  fun '(_, pairs', events) w => I w /\ Forall2 R pairs pairs' /\ Forall E events.

Lemma triple_for_pairs {S} I R E (body : S -> MediationPairState -> M Random (S * MediationPairState * list Event))
    pairs acc :
  (forall acc p, p ∈ pairs -> triple I (body acc p) (pair_outcome I R E p)) ->
  triple I (for_pairs body acc pairs) (loop_outcome I R E pairs).
Proof.
  intros Hbody. revert acc. induction pairs as [|p pairs IH]; intros acc; cbn [for_pairs].
  { apply triple_ret. by intros w HI. }
  eapply triple_bind; [apply Hbody; set_solver|]. intros [[acc' p'] evs].
  eapply (triple_bind _ _ _ (fun r w => R p p' /\ Forall E evs /\ loop_outcome I R E pairs r w)).
  - intros w r w' (HI & HR & HE) Hrun. split; [done|]. split; [done|].
    eapply IH; [|exact HI | exact Hrun]. intros; apply Hbody. set_solver.
  - intros [[acc2 pairs'] more]. apply triple_ret. intros w (HR & HE & HI & HF & HE').
    split; [done|]. split; [by constructor | by apply Forall_app].
Qed.

Lemma triple_for_pairs_reversed {S} I R E
    (body : S -> MediationPairState -> M Random (S * MediationPairState * list Event)) pairs acc :
  (forall acc p, p ∈ pairs -> triple I (body acc p) (pair_outcome I R E p)) ->
  triple I (for_pairs_reversed body acc pairs) (loop_outcome I R E pairs).
Proof.
  intros Hbody. unfold for_pairs_reversed. eapply triple_bind.
  - apply (triple_for_pairs I R E). intros acc' p Hp. apply Hbody. by rewrite <- elem_of_reverse.
  - intros [[acc' pairs'] evs]. apply triple_ret. intros w (HI & HF & HE). split; [done|]. split; [|done].
    rewrite <- (reverse_involutive pairs). by apply Forall2_reverse.
Qed.

(** What a loop does to its local variables and its events, whatever the world. *)
Lemma triple_for_pairs_trace {S} (T : S -> list Event -> S -> Prop)
    (body : S -> MediationPairState -> M Random (S * MediationPairState * list Event)) pairs acc :
  (forall s, T s [] s) -> (forall s1 e1 s2 e2 s3, T s1 e1 s2 -> T s2 e2 s3 -> T s1 (e1 ++ e2) s3) ->
  (forall s p, triple (fun _ => True) (body s p) (fun '(s', _, evs) _ => T s evs s')) ->
  triple (fun _ => True) (for_pairs body acc pairs) (fun '(s', _, evs) _ => T acc evs s').
Proof.
  intros Hnil Happ Hbody. revert acc. induction pairs as [|p pairs IH]; intros acc; cbn [for_pairs].
  { by apply triple_ret. }
  eapply triple_bind; [apply Hbody|]. intros [[acc' p'] evs].
  apply triple_fact with (F := T acc evs acc'); [by intros w Hw|]. intros Hhead.
  eapply triple_bind; [apply triple_pre with (P' := fun _ => True); [done | apply IH]|]. intros [[acc2 pairs'] more].
  apply triple_ret. intros w Htail. eapply Happ; [exact Hhead | exact Htail].
Qed.

Lemma triple_for_pairs_reversed_trace {S} (T : S -> list Event -> S -> Prop)
    (body : S -> MediationPairState -> M Random (S * MediationPairState * list Event)) pairs acc :
  (forall s, T s [] s) -> (forall s1 e1 s2 e2 s3, T s1 e1 s2 -> T s2 e2 s3 -> T s1 (e1 ++ e2) s3) ->
  (forall s p, triple (fun _ => True) (body s p) (fun '(s', _, evs) _ => T s evs s')) ->
  triple (fun _ => True) (for_pairs_reversed body acc pairs) (fun '(s', _, evs) _ => T acc evs s').
Proof.
  intros Hnil Happ Hbody. eapply triple_bind; [by apply triple_for_pairs_trace|].
  intros [[s' pairs'] evs]. by apply triple_ret.
Qed.

Lemma triple_trace_end {S} (T : S -> list Event -> S -> Prop) (Q : list Event -> Prop) acc P
    (loop : M Random (S * list MediationPairState * list Event)) :
  (forall evs s', T acc evs s' -> Q evs) -> triple P loop (fun '(s', _, evs) _ => T acc evs s') ->
  triple P ('(_, pairs', events) ← loop; mret (pairs', events)) (fun '(_, events) _ => Q events).
Proof.
  intros HQ Hl. eapply triple_bind; [exact Hl|]. intros [[s pairs'] evs]. apply triple_ret. intros w HT. by eapply HQ.
Qed.

(** The local variables of a loop are dropped at its end. *)
Lemma triple_loop_end {S} I R E pairs P (loop : M Random (S * list MediationPairState * list Event)) :
  triple P loop (loop_outcome I R E pairs) ->
  triple P ('(_, pairs', events) ← loop; mret (pairs', events))
    (fun '(pairs', events) w => I w /\ Forall2 R pairs pairs' /\ Forall E events).
Proof. intros Hl. eapply triple_bind; [exact Hl|]. intros [[s pairs'] evs]. by apply triple_ret. Qed.
End Rules.

(** ** The invariant of the channel objects *)

Section Steady.
Context `{Externals} {Random : Type} `{RandomGen Random}.

Definition steady (h0 : Heap) (w : World Random) : Prop :=
  forall l, safe_step (h0 l) (w_heap w l).

Lemma steady_refl w : (forall l, channel_inv (w_heap w l)) -> steady (w_heap w) w.
Proof. intros Hinv l. by split. Qed.

Lemma steady_inv h0 w l : steady h0 w -> channel_inv (w_heap w l).
Proof. intros Hs. apply Hs. Qed.

Lemma steady_same h0 w l : steady h0 w -> same_channel (h0 l) (w_heap w l).
Proof. intros Hs. apply Hs. Qed.

Lemma steady_insert h0 w l ch g :
  steady h0 w -> safe_step (w_heap w l) ch -> steady h0 (Build_World (<[l := ch]> (w_heap w)) g).
Proof.
  intros Hs [Hinv Hsame] l'. cbn. destruct (decide (l = l')) as [<-|Hne].
  - rewrite fn_lookup_insert. split; [done|]. by rewrite <- Hsame; apply steady_same.
  - rewrite fn_lookup_insert_ne by done. apply Hs.
Qed.

Lemma steady_prng h0 w g : steady h0 w -> steady h0 (Build_World (w_heap w) g).
Proof. by intros Hs l. Qed.

Lemma steady_trans h0 h1 w : (forall l, same_channel (h0 l) (h1 l)) -> steady h1 w -> steady h0 w.
Proof. intros Hsame Hs l. destruct (Hs l) as [Hinv H1]. split; [done|]. by rewrite (Hsame l). Qed.

(** A call at a channel that is a safe step whatever the world. *)
Lemma triple_steady_channel {A} h0 l (f : NettingChannelState -> Res (NettingChannelState * A)) (F : A -> Prop) :
  (forall ch ch' a, channel_inv ch -> same_channel (h0 l) ch -> f ch = Ok (ch', a) -> safe_step ch ch' /\ F a) ->
  triple (steady h0) (with_channel l f) (fun a w => steady h0 w /\ F a).
Proof.
  intros Hf. apply triple_with_channel. intros w ch a Hs Hrun.
  destruct (Hf _ _ _ (steady_inv _ _ l Hs) (steady_same _ _ l Hs) Hrun) as [Hstep HF].
  split; [by apply steady_insert | done].
Qed.
End Steady.
