(* ===== verification/MediatorInvariant.v ===== *)
(** * The invariant of the mediator's task, phase by phase

    [mediator_wf] is what a mediator's task is made of; [safe_event] is what must
    hold, of the task before a transition, when the transition reveals a secret,
    pays a lock out or goes on-chain.  Each loop of the mediator's code keeps the
    channels [steady], relates every pair to what it becomes ([pair_step],
    [pair_learns]), and emits only events its own input justifies
    ([payment_safe], [registration_safe]); [pair_learns] carries that back to the
    pairs the transition started with. *)

From Stdlib Require Import ZArith Lia Strings.Byte.
From stdpp Require Import base functions gmap list strings pretty.
From S2P Require Import Prelude Encoding MediationFee State Events ChannelViews ChannelValidation ChannelSend ChannelHandlers TaskState World Mediator LockSets ChannelInvariant BalanceProofMessages LockOperations StateTransition TransferTheorems Reachability ChannelFrame SecretRegistration WorldLogic.

(** ** The task's own data *)

Definition knows (p : MediationPairState) : Prop := mp_payee_state p ∈ STATE_SECRET_KNOWN.

Definition paid (p : MediationPairState) : Prop :=
  mp_payee_state p ∈ STATE_TRANSFER_PAID \/ mp_payer_state p ∈ STATE_TRANSFER_PAID.

Definition payee_paid (p : MediationPairState) : Prop := mp_payee_state p ∈ STATE_TRANSFER_PAID.

(** The payee knew the secret, or is the one who reveals it now. *)
Definition informed (told : option bytes) (p : MediationPairState) : Prop :=
  knows p \/ told = Some (mp_payee_address p).

#[export] Instance paid_dec p : Decision (paid p).
Proof. unfold paid. apply _. Defined.

Record pair_wf (secrethash : bytes) (p : MediationPairState) : Prop := {
  pw_almost_equal : is_send_transfer_almost_equal (mp_payee_transfer p) (mp_payer_transfer p) = true;
  pw_payer_state : mp_payer_state p ∈ valid_payer_states;
  pw_payee_state : mp_payee_state p ∈ valid_payee_states;
  pw_secrethash : lock_secrethash (lts_lock (mp_payer_transfer p)) = secrethash;
}.

(** [received] gives back what was sent in [p]. *)
Record gives_back (p : MediationPairState) (received : LockedTransferSignedState) : Prop := {
  gb_sender : payer_address received = mp_payee_address p;
  gb_almost_equal : is_send_transfer_almost_equal (mp_payee_transfer p) received = true;
}.

(** Each pair but the first takes the refund of the one before it. *)
Fixpoint chained (pairs : list MediationPairState) : Prop :=
  match pairs with
  | p :: (q :: _) as rest => gives_back p (mp_payer_transfer q) /\ chained rest
  | _ => True
  end.

Record mediator_wf `{Externals} (st : MediatorTransferState) : Prop := {
  mw_pairs : Forall (pair_wf (ms_secrethash st)) (ms_transfers_pair st);
  mw_chained : chained (ms_transfers_pair st);
  mw_waiting : forall wt, ms_waiting_transfer st = Some wt ->
    lock_secrethash (lts_lock (wt_transfer wt)) = ms_secrethash st /\
    forall p, last (ms_transfers_pair st) = Some p -> gives_back p (wt_transfer wt);
  mw_paid : forall p, p ∈ ms_transfers_pair st -> paid p -> is_some (ms_secret st) = true;
  mw_secret : forall s, ms_secret st = Some s -> sha256_secrethash s = ms_secrethash st;
}.

(** What a transition does to a pair that stays: the transfers and the payee are
    fixed, the states are valid, and nobody is paid unless [known]. *)
Record pair_step (known : Prop) (p p' : MediationPairState) : Prop := {
  ps_payer_transfer : mp_payer_transfer p' = mp_payer_transfer p;
  ps_payee_address : mp_payee_address p' = mp_payee_address p;
  ps_payee_transfer : mp_payee_transfer p' = mp_payee_transfer p;
  ps_payer_state : mp_payer_state p ∈ valid_payer_states -> mp_payer_state p' ∈ valid_payer_states;
  ps_payee_state : mp_payee_state p ∈ valid_payee_states -> mp_payee_state p' ∈ valid_payee_states;
  ps_paid : paid p' -> paid p \/ known;
}.

(** A payee knows the secret after the step only if it did before or was [told],
    and one that was paid stays paid. *)
Record pair_learns (known : Prop) (told : option bytes) (p p' : MediationPairState) : Prop := {
  pl_step : pair_step known p p';
  pl_knows : knows p' -> informed told p;
  pl_paid : payee_paid p -> payee_paid p';
}.

#[export] Instance pair_step_preorder known : PreOrder (pair_step known).
Proof.
  split; [split; auto|]. intros p1 p2 p3 [] []. split; try congruence; try naive_solver.
Qed.

#[export] Instance pair_learns_preorder known told : PreOrder (pair_learns known told).
Proof.
  split; [split; [done | by left | done]|]. intros p1 p2 p3 [S1 K1 P1] [S2 K2 P2].
  split; [by etransitivity | | auto]. intros [?|Ht]%K2; [by apply K1 | right].
  by rewrite Ht, (ps_payee_address _ _ _ S1).
Qed.

Lemma pair_learns_told known told p p' : pair_learns known None p p' -> pair_learns known told p p'.
Proof. intros [S K P]. split; [done | | done]. intros [?|[=]]%K. by left. Qed.

Lemma pairs_told known told pairs pairs' :
  Forall2 (pair_learns known None) pairs pairs' -> Forall2 (pair_learns known told) pairs pairs'.
Proof. intros Hf. eapply Forall2_impl; [exact Hf|]. apply pair_learns_told. Qed.

Lemma pairs_step known told pairs pairs' :
  Forall2 (pair_learns known told) pairs pairs' -> Forall2 (pair_step known) pairs pairs'.
Proof. intros Hf. eapply Forall2_impl; [exact Hf|]. by intros p p' []. Qed.

Section Steps.
Context (known : Prop) (p : MediationPairState).

Lemma set_payer_state_learns told s :
  s ∈ valid_payer_states -> (s ∈ STATE_TRANSFER_PAID -> known) ->
  pair_learns known told p (set_mp_payer_state s p).
Proof. intros Hv Hk. split; [split; try done; unfold paid; cbn; tauto | by left | done]. Qed.

Lemma set_payee_state_step s :
  s ∈ valid_payee_states -> (s ∈ STATE_TRANSFER_PAID -> known) ->
  pair_step known p (set_mp_payee_state s p).
Proof. intros Hv Hk. split; try done; unfold paid; cbn; tauto. Qed.

Lemma set_payee_state_learns told s :
  s ∈ valid_payee_states -> (s ∈ STATE_TRANSFER_PAID -> known) -> informed told p ->
  (payee_paid p -> s ∈ STATE_TRANSFER_PAID) ->
  pair_learns known told p (set_mp_payee_state s p).
Proof. intros Hv Hk Hs Hp. split; [by apply set_payee_state_step | done | done]. Qed.
End Steps.

Ltac state_set := rewrite ?list_elem_of_In; cbn; intuition discriminate.

(** ** Well-formedness under steps *)

Lemma gives_back_step known p p' received :
  pair_step known p p' -> gives_back p received -> gives_back p' received.
Proof. intros [] []. split; congruence. Qed.

Lemma chained_step known pairs pairs' :
  Forall2 (pair_step known) pairs pairs' -> chained pairs -> chained pairs'.
Proof.
  induction 1 as [|p p' pairs pairs' Hp Hps IH]; [done|].
  destruct Hps as [|q q' pairs pairs' Hq Hqs]; [done|]. intros [Hb Hc]. split; [|by apply IH].
  rewrite (ps_payer_transfer _ _ _ Hq). by eapply gives_back_step.
Qed.

Lemma last_step known pairs pairs' p' :
  Forall2 (pair_step known) pairs pairs' -> last pairs' = Some p' ->
  exists p, last pairs = Some p /\ pair_step known p p'.
Proof.
  intros Hf. rewrite !last_lookup, <- (Forall2_length _ _ _ Hf). intros Hl.
  by apply (Forall2_lookup_r _ _ _ _ _ Hf) in Hl.
Qed.

Lemma chained_snoc pairs q :
  chained pairs -> (forall p, last pairs = Some p -> gives_back p (mp_payer_transfer q)) -> chained (pairs ++ [q]).
Proof.
  induction pairs as [|p [|p2 pairs] IH]; intros Hc Hl; [done | split; [by apply Hl | done] |].
  destruct Hc as [Hb Hc]. split; [done|]. apply IH; [done|]. intros p' Hp'. apply Hl. exact Hp'.
Qed.

Section Wf.
Context `{Externals}.

(** A transition that keeps the pairs, and whose secret is the preimage. *)
Lemma mediator_wf_step st st' :
  mediator_wf st -> Forall2 (pair_step (is_some (ms_secret st') = true)) (ms_transfers_pair st) (ms_transfers_pair st') ->
  ms_secrethash st' = ms_secrethash st ->
  (forall wt', ms_waiting_transfer st' = Some wt' ->
     exists wt, ms_waiting_transfer st = Some wt /\ wt_transfer wt' = wt_transfer wt) ->
  (ms_secret st' = ms_secret st \/ exists s, ms_secret st' = Some s /\ sha256_secrethash s = ms_secrethash st) ->
  mediator_wf st'.
Proof.
  intros [Hp Hc Hw Hpd Hs] Hf Eh Hw' Hs'. split; rewrite ?Eh.
  - apply Forall_lookup_2. intros i p' Hi. destruct (Forall2_lookup_r _ _ _ _ _ Hf Hi) as (p & Hi' & Hst).
    destruct (Forall_lookup_1 _ _ _ _ Hp Hi'), Hst. split; auto; congruence.
  - by eapply chained_step.
  - intros wt' Hwt. destruct (Hw' _ Hwt) as (wt & Hwt0 & ->). destruct (Hw _ Hwt0) as [Hh Hl]. split; [done|].
    intros p' Hlast'. destruct (last_step _ _ _ _ Hf Hlast') as (p & Hlast & Hst). eapply gives_back_step; eauto.
  - intros p' Hin Hpaid. apply list_elem_of_lookup_1 in Hin as [i Hi]. destruct (Forall2_lookup_r _ _ _ _ _ Hf Hi) as (p & Hi' & Hst).
    destruct (ps_paid _ _ _ Hst Hpaid) as [Hbefore|]; [|done].
    apply Hpd in Hbefore; [|by eapply list_elem_of_lookup_2]. destruct Hs' as [->|(s & -> & _)]; done.
  - intros s Hss. destruct Hs' as [E|(s' & E & Hh)]; [apply Hs; congruence | congruence].
Qed.

(** A new pair for a received transfer. *)
Lemma mediator_wf_forward st p :
  mediator_wf st -> pair_wf (ms_secrethash st) p -> ~ paid p ->
  (forall p0, last (ms_transfers_pair st) = Some p0 -> gives_back p0 (mp_payer_transfer p)) ->
  mediator_wf (set_ms_waiting_transfer None (set_ms_transfers_pair (ms_transfers_pair st ++ [p]) st)).
Proof.
  intros [Hp Hc Hw Hpd Hs] Hwf Hnot Hl. split; cbn.
  - apply Forall_app. split; [done | by apply Forall_singleton].
  - by apply chained_snoc.
  - done.
  - intros p0 [Hin| ->%list_elem_of_singleton]%elem_of_app; [by apply Hpd | done].
  - done.
Qed.

Lemma mediator_wf_wait st t :
  mediator_wf st -> lock_secrethash (lts_lock t) = ms_secrethash st ->
  (forall p0, last (ms_transfers_pair st) = Some p0 -> gives_back p0 t) ->
  mediator_wf (set_ms_waiting_transfer (Some (WaitingTransferState_init t)) st).
Proof. intros [Hp Hc Hw Hpd Hs] Hh Hl. split; cbn; try done. by intros wt [= <-]. Qed.
End Wf.

(** ** What may be sent *)

(** Neither a secret nor a payment leaves the node. *)
Definition quiet (e : Event) : Prop :=
  match e with
  | SendSecretReveal _ _ _ | SendUnlock _ _ _ _ _ _ | ContractSendSecretReveal _ _ _ => False
  | _ => True
  end.

Section Safe.
Context `{Externals} (heap : Heap) (channels : ChannelMap) (block_number : Z).

(** The payee's channel of [p] is open, and its payer's lock outlasts the reveal
    timeout: paying [p] out is safe. *)
Definition payable (p : MediationPairState) (recipient : bytes) : Prop :=
  exists payee_channel payer_channel,
    get_payee_channel channels p = Some payee_channel /\
    get_status (heap payee_channel) = STATE_OPENED /\
    recipient = es_address (ch_partner_state (heap payee_channel)) /\
    get_payer_channel channels p = Some payer_channel /\
    ch_reveal_timeout (heap payer_channel) < lock_expiration (lts_lock (mp_payer_transfer p)) - block_number.

(** The secret of the received transfer [t] has to be registered on-chain now. *)
Definition must_register (t : LockedTransferSignedState) : Prop :=
  exists payer_channel, channels !! lts_channel_identifier t = Some payer_channel /\
    get_status (heap payer_channel) ∈ CHANNEL_STATES_UP_TO_CLOSED /\
    (get_status (heap payer_channel) = STATE_CLOSED \/
     lock_expiration (lts_lock t) - block_number <= ch_reveal_timeout (heap payer_channel)).

(** What a loop over [pairs] may send with [secret] ... *)
Definition payment_safe (secret : bytes) (pairs : list MediationPairState) (e : Event) : Prop :=
  match e with
  | SendSecretReveal msg s h =>
      s = secret /\ h = sha256_secrethash s /\
      exists p, p ∈ pairs /\ knows p /\ sm_recipient msg = mp_payer_address p
  | SendUnlock msg payment_identifier _ _ s h =>
      s = secret /\ h = sha256_secrethash s /\
      exists p, p ∈ pairs /\ knows p /\ ~ payee_paid p /\
        payment_identifier = ltu_payment_identifier (mp_payee_transfer p) /\ payable p (sm_recipient msg)
  | _ => quiet e
  end.

(** ... and register for the received [transfers]. *)
Definition registration_safe (transfers : list LockedTransferSignedState) (e : Event) : Prop :=
  match e with
  | ContractSendSecretReveal _ _ _ => exists t, t ∈ transfers /\ must_register t
  | _ => quiet e
  end.

(** The transfers a task has received. *)
Definition received_transfers (st : MediatorTransferState) : list LockedTransferSignedState :=
  map mp_payer_transfer (ms_transfers_pair st) ++ option_list (wt_transfer <$> ms_waiting_transfer st).

(** [safe_event told before e]: the event [e] is safe, judged by the task before
    the transition and by who is telling the secret. *)
Definition safe_event (told : option bytes) (before : MediatorTransferState) (e : Event) : Prop :=
  match e with
  | SendSecretReveal msg s h =>
      sha256_secrethash s = ms_secrethash before /\ h = ms_secrethash before /\
      exists p, p ∈ ms_transfers_pair before /\ informed told p /\ sm_recipient msg = mp_payer_address p
  | SendUnlock msg payment_identifier _ _ s h =>
      sha256_secrethash s = ms_secrethash before /\ h = ms_secrethash before /\
      exists p, p ∈ ms_transfers_pair before /\ informed told p /\ ~ payee_paid p /\
        payment_identifier = ltu_payment_identifier (mp_payee_transfer p) /\ payable p (sm_recipient msg)
  | ContractSendSecretReveal _ _ _ => exists t, t ∈ received_transfers before /\ must_register t
  | _ => True
  end.

Lemma quiet_safe told before evs : Forall quiet evs -> Forall (safe_event told before) evs.
Proof. intros Hq. eapply Forall_impl; [exact Hq|]. by intros []. Qed.

Lemma payable_step known p p' recipient : pair_step known p p' -> payable p' recipient -> payable p recipient.
Proof.
  intros [E1 _ E2 _ _ _]. unfold payable, get_payee_channel, get_payer_channel. by rewrite E1, E2.
Qed.

(** A pair a loop met, as it was before the transition. *)
Lemma pair_before known told pairs pairs' p' :
  Forall2 (pair_learns known told) pairs pairs' -> p' ∈ pairs' ->
  exists p, p ∈ pairs /\ pair_learns known told p p'.
Proof.
  intros Hf [i Hi]%list_elem_of_lookup_1. destruct (Forall2_lookup_r _ _ _ _ _ Hf Hi) as (p & Hi' & Hl).
  exists p. split; [by eapply list_elem_of_lookup_2 | done].
Qed.

Lemma payment_safe_before known told before pairs secret evs :
  Forall2 (pair_learns known told) (ms_transfers_pair before) pairs ->
  sha256_secrethash secret = ms_secrethash before ->
  Forall (payment_safe secret pairs) evs -> Forall (safe_event told before) evs.
Proof.
  intros Hf Hs He. eapply Forall_impl; [exact He|]. intros []; try done; cbn.
  - intros (-> & -> & p' & Hin & Hk & Hu & Hid & Hpay). do 2 (split; [done|]).
    destruct (pair_before _ _ _ _ _ Hf Hin) as (p & Hp & Hl). exists p. split; [done|].
    split; [by apply (pl_knows _ _ _ _ Hl)|]. split; [by intros ?%(pl_paid _ _ _ _ Hl)|].
    rewrite <- (ps_payee_transfer _ _ _ (pl_step _ _ _ _ Hl)). split; [done|]. by eapply payable_step, Hpay; apply Hl.
  - intros (-> & -> & p' & Hin & Hk & Hr). do 2 (split; [done|]).
    destruct (pair_before _ _ _ _ _ Hf Hin) as (p & Hp & Hl). exists p. split; [done|].
    split; [by apply (pl_knows _ _ _ _ Hl)|]. unfold mp_payer_address in *.
    by rewrite <- (ps_payer_transfer _ _ _ (pl_step _ _ _ _ Hl)).
Qed.

Lemma registration_safe_before told before transfers evs :
  transfers ⊆ received_transfers before ->
  Forall (registration_safe transfers) evs -> Forall (safe_event told before) evs.
Proof.
  intros Hsub He. eapply Forall_impl; [exact He|]. intros []; try done; cbn. intros (t & Ht & Hm). exists t. auto.
Qed.
End Safe.

(** Steps keep the received transfers. *)
Lemma step_payer_transfers known pairs pairs' :
  Forall2 (pair_step known) pairs pairs' -> map mp_payer_transfer pairs' = map mp_payer_transfer pairs.
Proof. induction 1 as [|p p' pairs pairs' Hp _ IH]; [done|]. cbn. by rewrite IH, (ps_payer_transfer _ _ _ Hp). Qed.

Lemma received_pairs st : map mp_payer_transfer (ms_transfers_pair st) ⊆ received_transfers st.
Proof. intros t Ht. apply elem_of_app. by left. Qed.
