(* ===== verification/MediatorPhases.v ===== *)
(** * The mediator's loops

    One lemma per loop or phase of [mediator.py]: the channels stay [steady], the
    pairs make a step, and the events are safe. *)

From Stdlib Require Import ZArith Lia Strings.Byte.
From stdpp Require Import base functions gmap list strings pretty.
From S2P Require Import Prelude Encoding MediationFee State Events ChannelViews ChannelValidation ChannelSend ChannelHandlers TaskState World Mediator LockSets ChannelInvariant BalanceProofMessages LockOperations StateTransition TransferTheorems Reachability ChannelFrame SecretRegistration WorldLogic MediatorInvariant.

Lemma is_safe_to_wait_inv expiration reveal_timeout block_number r :
  is_safe_to_wait expiration reveal_timeout block_number = Ok r ->
  ok r = (reveal_timeout <? expiration - block_number).
Proof.
  unfold is_safe_to_wait. intros Hrun. apply py_assert_Ok_inv in Hrun as [_ Hrun].
  apply py_assert_Ok_inv in Hrun as [_ Hrun]. apply py_assert_Ok_inv in Hrun as [_ Hrun].
  destruct (_ <? _); by injection Hrun as <-.
Qed.

(** The on-chain registrations among some events. *)
Definition is_registration (e : Event) : bool :=
  match e with ContractSendSecretReveal _ _ _ => true | _ => false end.

Definition registrations (evs : list Event) : nat := length (List.filter is_registration evs).

Lemma registrations_app e1 e2 : registrations (e1 ++ e2) = (registrations e1 + registrations e2)%nat.
Proof. unfold registrations. by rewrite List.filter_app, length_app. Qed.

Section Phases.
Context `{Externals} {Random : Type} `{RandomGen Random}.
Context (h0 : Heap) (channels : ChannelMap).

Abbreviation keeps := (@steady _ Random h0).

(** The secret is revealed only by a payee's knowledge. *)
Lemma events_for_secretreveal_spec known pairs block_number secret :
  triple keeps (mediator.events_for_secretreveal pairs secret) (fun '(pairs', evs) w =>
    keeps w /\ Forall2 (pair_learns known None) pairs pairs' /\
    Forall (payment_safe h0 channels block_number secret pairs) evs).
Proof.
  unfold mediator.events_for_secretreveal.
  apply triple_loop_end, (triple_for_pairs_reversed keeps (pair_learns known None)). intros [] p Hp.
  destruct (bool_decide (mp_payee_state p ∈ STATE_SECRET_KNOWN)) eqn:Hk; cbn [andb]; [|by apply triple_ret].
  destruct (negb _ && _); [|by apply triple_ret].
  eapply triple_bind with (R := fun _ => keeps). { apply triple_fresh. intros w i g. apply steady_prng. }
  intros mid. apply triple_ret. intros w Hw. split; [done|]. apply bool_decide_eq_true in Hk. split.
  - apply set_payer_state_learns; state_set.
  - apply Forall_singleton. do 2 (split; [done|]). by exists p.
Qed.

Lemma is_safe_to_send_balanceproof_inv heap payer lock block_number :
  mediator.is_safe_to_send_balanceproof heap payer lock block_number = Ok true ->
  exists l, payer = Some l /\ ch_reveal_timeout (heap l) < lock_expiration lock - block_number.
Proof.
  unfold mediator.is_safe_to_send_balanceproof. destruct payer as [l|]; [|discriminate].
  intros (r & Hr%is_safe_to_wait_inv & [= Hok])%bind_Ok_inv. exists l. split; [done|].
  rewrite Hok in Hr. symmetry in Hr. by apply Z.ltb_lt.
Qed.

(** A payee is paid only if it knows the secret, was not paid before, and the
    payer's lock is safe. *)
Lemma events_for_balanceproof_spec pairs block_number secret secrethash :
  triple keeps (mediator.events_for_balanceproof channels pairs block_number secret secrethash)
    (fun '(pairs', evs) w =>
      keeps w /\ Forall2 (pair_learns True None) pairs pairs' /\
      Forall (payment_safe h0 channels block_number secret pairs) evs).
Proof.
  unfold mediator.events_for_balanceproof.
  apply triple_loop_end, (triple_for_pairs_reversed keeps (pair_learns True None)). intros [] p Hp.
  eapply triple_bind with (R := fun heap w => keeps w /\ heap = w_heap w). { by apply triple_get_heap. }
  intros heap.
  eapply triple_bind with (R := fun safe w => keeps w /\ heap = w_heap w /\
    mediator.is_safe_to_send_balanceproof heap (get_payer_channel channels p) (lts_lock (mp_payer_transfer p))
      block_number = Ok safe).
  { apply triple_lift. naive_solver. }
  intros safe. destruct (get_payee_channel channels p) as [payee|] eqn:Hpayee; [|apply triple_ret; naive_solver].
  destruct (_ && _) eqn:Hcond; [|apply triple_ret; naive_solver].
  apply andb_prop in Hcond as [Hcond ->]. apply andb_prop in Hcond as [Hcond Hunpaid%negb_true_iff%bool_decide_eq_false].
  apply andb_prop in Hcond as [Hopen%bool_decide_eq_true Hk%bool_decide_eq_true].
  apply triple_fact with (F := get_status (h0 payee) = STATE_OPENED /\
    exists payer, get_payer_channel channels p = Some payer /\
      ch_reveal_timeout (h0 payer) < lock_expiration (lts_lock (mp_payer_transfer p)) - block_number).
  { intros w (Hw & -> & Hsafe). apply is_safe_to_send_balanceproof_inv in Hsafe as (payer & -> & Hlt).
    split; [by rewrite <- (sc_status _ _ (steady_same _ _ payee Hw))|].
    exists payer. split; [done|]. by rewrite <- (sc_reveal_timeout _ _ (steady_same _ _ payer Hw)). }
  intros (Hop & payer & Hpayer & Hlt).
  apply triple_pre with (P' := keeps); [naive_solver|].
  eapply triple_bind with (R := fun _ => keeps). { apply triple_fresh. intros w i g. apply steady_prng. }
  intros mid.
  eapply triple_bind.
  { apply (triple_steady_channel h0 payee _ (fun ev => exists msg bp token,
      ev = SendUnlock_init msg (ltu_payment_identifier (mp_payee_transfer p)) token bp secret /\
      sm_recipient msg = es_address (ch_partner_state (h0 payee)))).
    intros ch ch' ev Hinv Hsame Hrun. split; [by eapply send_unlock_safe|].
    apply send_unlock_inv in Hrun as (l & bp & msg & our & _ & _ & _ & _ & _ & -> & Hr & _).
    exists msg, bp, (ch_token_address ch). by rewrite Hr, (sc_partner_address _ _ Hsame). }
  intros ev. apply triple_ret. intros w [Hw (msg & bp & token & -> & Hr)]. split; [done|]. split.
  - apply set_payee_state_learns; [state_set | done | by left | state_set].
  - apply Forall_cons. split; [|by apply Forall_singleton]. do 2 (split; [done|]). exists p.
    do 4 (split; [done|]). by exists payee, payer.
Qed.

(** ** Going on-chain *)

Lemma onchain_secretreveal_cases ch secret expiration block_hash :
  ChannelSend.events_for_onchain_secretreveal ch secret expiration block_hash = [] \/
  (get_status ch ∈ CHANNEL_STATES_UP_TO_CLOSED /\
   ChannelSend.events_for_onchain_secretreveal ch secret expiration block_hash
   = [ContractSendSecretReveal block_hash expiration secret]).
Proof. unfold ChannelSend.events_for_onchain_secretreveal. case_bool_decide; auto. Qed.

Lemma registration_sent_safe w payer p pairs secret expiration block_hash block_number :
  keeps w -> p ∈ pairs -> get_payer_channel channels p = Some payer ->
  get_status (w_heap w payer) = STATE_CLOSED \/
  lock_expiration (lts_lock (mp_payer_transfer p)) - block_number <= ch_reveal_timeout (w_heap w payer) ->
  Forall (registration_safe h0 channels block_number (map mp_payer_transfer pairs))
    (ChannelSend.events_for_onchain_secretreveal (w_heap w payer) secret expiration block_hash).
Proof.
  intros Hw Hp Hpayer Hd.
  destruct (onchain_secretreveal_cases (w_heap w payer) secret expiration block_hash) as [->|[Hs ->]]; [done|].
  apply Forall_singleton. exists (mp_payer_transfer p).
  split; [apply list_elem_of_In, in_map, list_elem_of_In, Hp|]. exists payer. split; [exact Hpayer|].
  pose proof (steady_same _ _ payer Hw) as Hsame. by rewrite <- (sc_status _ _ Hsame), <- (sc_reveal_timeout _ _ Hsame).
Qed.

Lemma payer_waiting_learns known p : pair_learns known None p (set_mp_payer_state payer_waiting_secret_reveal p).
Proof. apply set_payer_state_learns; state_set. Qed.

Lemma payer_waiting_silent {S} (s : S) known E p w :
  keeps w -> pair_outcome keeps (pair_learns known None) E p (s, set_mp_payer_state payer_waiting_secret_reveal p, []) w.
Proof. intros Hw. split; [done|]. split; [apply payer_waiting_learns | done]. Qed.

Lemma dangerzone_spec known secrethash pairs block_number block_hash :
  triple keeps
    (mediator.events_for_onchain_secretreveal_if_dangerzone channels secrethash pairs block_number block_hash)
    (fun '(pairs', evs) w => keeps w /\ Forall2 (pair_learns known None) pairs pairs' /\
       Forall (registration_safe h0 channels block_number (map mp_payer_transfer pairs)) evs).
Proof.
  unfold mediator.events_for_onchain_secretreveal_if_dangerzone.
  eapply triple_bind with (R := fun _ => keeps). { by apply triple_get_heap. } intros heap.
  apply triple_loop_end, (triple_for_pairs keeps (pair_learns known None)). intros sent p Hp.
  destruct (negb (is_pending_pair p)); [by apply triple_ret|].
  destruct (get_payer_channel channels p) as [payer|] eqn:Hpayer; [|by apply triple_ret].
  eapply triple_bind with (R := fun ch w => keeps w /\ ch = w_heap w payer). { by apply triple_read. } intros ch.
  eapply triple_bind with (R := fun safe w => keeps w /\ ch = w_heap w payer /\
    ok safe = (ch_reveal_timeout ch <? lock_expiration (lts_lock (mp_payer_transfer p)) - block_number)).
  { apply triple_lift. intros w r [Hw ->] Hr%is_safe_to_wait_inv. auto. }
  intros safe. cbv zeta. destruct (negb (ok safe) && _) eqn:Hcond; [|apply triple_ret; naive_solver].
  apply andb_prop in Hcond as [Hunsafe%negb_true_iff _].
  destruct (negb sent); [|apply triple_ret; intros w [Hw _]; by apply payer_waiting_silent].
  destruct (get_secret _ _) as [[|b s]|];
    [by apply triple_lift | | by apply triple_lift].
  apply triple_ret. intros w (Hw & -> & Hok). split; [done|]. split; [apply payer_waiting_learns|].
  apply (registration_sent_safe _ _ _ _ _ _ _ _ Hw Hp Hpayer). right. rewrite Hunsafe in Hok. symmetry in Hok.
  by apply Z.ltb_ge.
Qed.

Lemma if_closed_spec known pairs block_number secret secrethash block_hash :
  triple keeps (mediator.events_for_onchain_secretreveal_if_closed channels pairs secret secrethash block_hash)
    (fun '(pairs', evs) w => keeps w /\ Forall2 (pair_learns known None) pairs pairs' /\
       Forall (registration_safe h0 channels block_number (map mp_payer_transfer pairs)) evs).
Proof.
  unfold mediator.events_for_onchain_secretreveal_if_closed.
  eapply triple_bind with (R := fun _ => keeps). { by apply triple_get_heap. } intros heap.
  apply triple_loop_end, (triple_for_pairs keeps (pair_learns known None)). intros sent p Hp.
  destruct (negb (is_pending_pair p)); [by apply triple_ret|].
  destruct (get_payer_channel channels p) as [payer|] eqn:Hpayer; [|by apply triple_ret].
  eapply triple_bind with (R := fun ch w => keeps w /\ ch = w_heap w payer). { by apply triple_read. } intros ch.
  destruct (bool_decide (get_status ch = STATE_CLOSED)) eqn:Hclosed; [|apply triple_ret; naive_solver].
  cbv zeta. destruct (negb sent); [|apply triple_ret; intros w [Hw _]; by apply payer_waiting_silent].
  destruct (get_lock _ _) as [l|]; [|apply triple_ret; intros w [Hw _]; by apply payer_waiting_silent].
  apply triple_ret. intros w [Hw ->]. split; [done|]. split; [apply payer_waiting_learns|].
  apply (registration_sent_safe _ _ _ _ _ _ _ _ Hw Hp Hpayer). left. by apply bool_decide_eq_true in Hclosed.
Qed.

(** ** Expired locks *)

Lemma events_for_expired_pairs_spec known pairs wt block_number :
  triple keeps (mediator.events_for_expired_pairs channels pairs wt block_number)
    (fun '(pairs', wt', evs) w => keeps w /\ Forall2 (pair_learns known None) pairs pairs' /\ Forall quiet evs /\
       (forall wt2, wt' = Some wt2 -> exists wt1, wt = Some wt1 /\ wt_transfer wt2 = wt_transfer wt1)).
Proof.
  unfold mediator.events_for_expired_pairs. eapply triple_bind.
  { apply (triple_for_pairs keeps (pair_learns known None) quiet). intros [] p Hp.
    destruct (negb (is_pending_pair p)); [by apply triple_ret|].
    destruct (channels !! _) as [payer|]; [|by apply triple_ret].
    eapply triple_bind with (R := fun _ => keeps). { by apply triple_read. } intros ch. cbv zeta.
    destruct (is_transfer_expired _ _ _); [|by apply triple_ret].
    apply triple_ret. intros w Hw. split; [done|]. split; [apply set_payer_state_learns; state_set|].
    by apply Forall_singleton. }
  intros [[[] pairs'] evs]. destruct wt as [wt|]; cbv zeta; [|apply triple_ret; intros w (? & ? & ?); naive_solver].
  destruct (_ && _); apply triple_ret; intros w (Hw & Hf & Hq); do 2 (split; [done|]).
  - split; [|intros wt2 [= <-]; by exists wt]. apply Forall_app. split; [done | by apply Forall_singleton].
  - split; [done|]. intros wt2 [= <-]. by exists wt.
Qed.

Lemma expirable_lock_inv es secrethash (lock : HashTimeLockState + UnlockPartialProofState) :
  locks_inv es -> mediator.expirable_lock es secrethash = Ok (Some lock) ->
  exists l, unclaimed_lock es (lt_secrethash lock) = Some l /\ lt_encoded lock = lock_encoded l /\
    lt_amount lock = lock_amount l.
Proof.
  intros Hinv. unfold mediator.expirable_lock, unclaimed_lock.
  assert (Hone : forall l, match es_secrethashes_to_unlockedlocks es !! secrethash with
                   | Some p => Some (upp_lock p) | None => es_secrethashes_to_lockedlocks es !! secrethash end = Some l ->
            lock_secrethash l = secrethash /\ unclaimed_lock es (lock_secrethash l) = Some l).
  { intros l Hl. destruct (unclaimed_lock_get_lock _ _ _ Hl (li_disjoint _ Hinv)) as [Hg Ho].
    destruct (get_lock_inv _ _ _ Hinv Hg) as (_ & <- & _). split; [done|]. unfold unclaimed_lock, onchain_of in *.
    rewrite lookup_fmap in Ho. by destruct (es_secrethashes_to_onchain_unlockedlocks es !! lock_secrethash l). }
  destruct (es_secrethashes_to_lockedlocks es !! secrethash) as [l|] eqn:Hl.
  - intros Hrun. apply py_assert_Ok_inv in Hrun as [Hno%negb_true_iff [= <-]]. exists l. split; [|done].
    apply Hone. unfold has_key in Hno. by destruct (es_secrethashes_to_unlockedlocks es !! secrethash).
  - intros [= Hrun]. destruct (es_secrethashes_to_unlockedlocks es !! secrethash) as [p|] eqn:Hp; [|discriminate].
    injection Hrun as <-. exists (upp_lock p). pose proof (li_unlocked _ Hinv _ _ Hp) as Hwf. unfold partial_wf in Hwf.
    rewrite Hwf. cbn. split; [|done]. by apply (Hone (upp_lock p)).
Qed.

Lemma send_lock_expired_quiet {L} `{LockType L} ch (lock : L) (prng : Random) meta ch' evs prng' :
  send_lock_expired ch lock prng meta = Ok (ch', evs, prng') -> Forall quiet evs.
Proof.
  intros [_ [(_ & -> & _)|(bp & msg & _ & _ & -> & _)]]%send_lock_expired_inv; [done | by apply Forall_singleton].
Qed.

Lemma remove_expired_lock_spec known secrethash block_number routes channel p :
  triple keeps (mediator.remove_expired_lock secrethash block_number routes channel p)
    (fun '(p', evs) w => keeps w /\ pair_step known p p' /\ Forall quiet evs).
Proof.
  unfold mediator.remove_expired_lock.
  eapply triple_bind with (R := fun ch w => keeps w /\ ch = w_heap w channel). { by apply triple_read. } intros ch.
  eapply triple_bind with (R := fun lock w => keeps w /\ ch = w_heap w channel /\
    mediator.expirable_lock (ch_our_state ch) secrethash = Ok lock).
  { apply triple_lift. naive_solver. }
  intros [lock|]; [|apply triple_ret; naive_solver]. cbv zeta.
  destruct (ok _ && _); [|apply triple_ret; naive_solver].
  eapply triple_bind with (R := fun evs w => keeps w /\ Forall quiet evs).
  { apply triple_with_channel_prng. intros w ch' evs g (Hw & -> & Hl) Hrun.
    apply expirable_lock_inv in Hl as (l & Hl & He & Ha); [|apply ci_our; by apply (steady_inv h0)].
    split; [|by eapply send_lock_expired_quiet].
    apply steady_insert; [done|]. eapply send_lock_expired_safe; eauto. by apply (steady_inv h0). }
  intros evs. apply triple_ret. intros w [Hw Hq]. split; [done|]. split.
  - apply set_payee_state_step; state_set.
  - apply Forall_app. split; [done | by apply Forall_singleton].
Qed.

Lemma events_to_remove_expired_locks_spec known st block_number :
  triple keeps (mediator.events_to_remove_expired_locks st channels block_number)
    (fun '(st', evs) w => keeps w /\ Forall quiet evs /\ exists pairs', st' = set_ms_transfers_pair pairs' st /\
       Forall2 (pair_step known) (ms_transfers_pair st) pairs').
Proof.
  unfold mediator.events_to_remove_expired_locks. destruct (ms_transfers_pair st) as [|p0 rest] eqn:Hpairs.
  { apply triple_ret. intros w Hw. split; [done|]. split; [done|]. exists []. split; [|done]. destruct st. cbn in *. by subst. }
  cbv zeta. rewrite <- Hpairs. eapply triple_bind.
  { apply (triple_for_pairs keeps (pair_step known) quiet). intros [] p Hp.
    destruct (get_payee_channel _ _) as [channel|]; [|by apply triple_ret].
    eapply triple_bind; [apply remove_expired_lock_spec|]. intros [p' evs]. by apply triple_ret. }
  intros [[[] pairs'] evs]. apply triple_ret. intros w (Hw & Hf & Hq). eauto.
Qed.

(** ** Learning the secret *)

Lemma register_at_spec o (register : NettingChannelState -> Res NettingChannelState) :
  (forall ch ch', channel_inv ch -> register ch = Ok ch' -> safe_step ch ch') ->
  triple keeps (mediator.register_at o register) (fun _ => keeps).
Proof.
  intros Hreg. unfold mediator.register_at. destruct o as [l|]; [|by apply triple_ret].
  eapply triple_post; [apply (triple_steady_channel h0 l _ (fun _ => True))|by intros ? ? []].
  intros ch ch' [] Hinv _ (ch1 & Hr & [= <-])%bind_Ok_inv. auto.
Qed.

Lemma set_secret_spec st (register : NettingChannelState -> Res NettingChannelState) secret secrethash :
  (forall ch ch', channel_inv ch -> register ch = Ok ch' -> safe_step ch ch') ->
  triple keeps (mediator.set_secret st channels register secret secrethash)
    (fun '(st', evs) w => keeps w /\ st' = set_ms_secret (Some secret) st /\ Forall quiet evs).
Proof.
  intros Hreg. unfold mediator.set_secret. cbv zeta.
  eapply triple_bind with (R := fun _ => keeps).
  { generalize (ms_transfers_pair (set_ms_secret (Some secret) st)). intros pairs.
    induction pairs as [|p pairs IH]; cbn [mediator.register_at_pairs]; [by apply triple_ret|].
    eapply triple_bind with (R := fun _ => keeps); [by apply register_at_spec|]. intros _.
    eapply triple_bind with (R := fun _ => keeps); [by apply register_at_spec|]. intros _. exact IH. }
  intros _. destruct (ms_waiting_transfer _) as [wt|]; [|by apply triple_ret].
  eapply triple_bind with (R := fun _ => keeps); [by apply register_at_spec|]. intros _. apply triple_ret. intros w Hw.
  do 2 (split; [done|]). by apply Forall_singleton.
Qed.

(** The revealing payee is told; nobody was paid before. *)
Lemma set_offchain_reveal_state_learns known pairs sender :
  Forall (fun p => ~ payee_paid p) pairs ->
  Forall2 (pair_learns known (Some sender)) pairs (mediator.set_offchain_reveal_state pairs sender).
Proof.
  unfold mediator.set_offchain_reveal_state. induction 1 as [|p pairs Hp _ IH]; [done|]. cbn. constructor; [|done].
  case_bool_decide as Hs; [|done]. apply set_payee_state_learns; [state_set | state_set | right; by rewrite Hs | done].
Qed.

(** ** Counting the registrations *)

Lemma quiet_registrations evs : Forall quiet evs -> registrations evs = 0%nat.
Proof. induction 1 as [|e evs He _ IH]; [done|]. by destruct e. Qed.

(** What the loops do to the number of registrations. *)
Definition unregistered (_ : unit) (evs : list Event) (_ : unit) : Prop := registrations evs = 0%nat.

Definition registered_once (sent : bool) (evs : list Event) (sent' : bool) : Prop :=
  (registrations evs + Nat.b2n sent <= Nat.b2n sent')%nat.

Lemma unregistered_app s1 e1 s2 e2 s3 :
  unregistered s1 e1 s2 -> unregistered s2 e2 s3 -> unregistered s1 (e1 ++ e2) s3.
Proof. unfold unregistered. rewrite registrations_app. lia. Qed.

Lemma registered_once_app s1 e1 s2 e2 s3 :
  registered_once s1 e1 s2 -> registered_once s2 e2 s3 -> registered_once s1 (e1 ++ e2) s3.
Proof. unfold registered_once. rewrite registrations_app. lia. Qed.

Abbreviation anywhere := (fun _ : World Random => True).

Lemma secretreveal_unregistered pairs secret :
  triple anywhere (mediator.events_for_secretreveal pairs secret) (fun '(_, evs) _ => registrations evs = 0%nat).
Proof.
  unfold mediator.events_for_secretreveal. eapply (triple_trace_end unregistered); [done|].
  apply triple_for_pairs_reversed_trace; [done | apply unregistered_app |].
  intros [] p. cbv zeta. destruct (_ && _ && _); [|by apply triple_ret].
  eapply triple_bind with (R := fun _ => anywhere); [by apply triple_fresh|]. intros mid. by apply triple_ret.
Qed.

Lemma balanceproof_unregistered pairs block_number secret secrethash :
  triple anywhere (mediator.events_for_balanceproof channels pairs block_number secret secrethash)
    (fun '(_, evs) _ => registrations evs = 0%nat).
Proof.
  unfold mediator.events_for_balanceproof. eapply (triple_trace_end unregistered); [done|].
  apply triple_for_pairs_reversed_trace; [done | apply unregistered_app |].
  intros [] p. cbv zeta.
  eapply triple_bind with (R := fun _ => anywhere); [by apply triple_get_heap|]. intros heap.
  eapply triple_bind with (R := fun _ => anywhere); [by apply triple_lift|]. intros safe.
  destruct (get_payee_channel _ _) as [payee|]; [|by apply triple_ret].
  destruct (_ && _); [|by apply triple_ret].
  eapply triple_bind with (R := fun _ => anywhere); [by apply triple_fresh|]. intros mid.
  eapply triple_bind with (R := fun ev _ => is_registration ev = false).
  { apply triple_with_channel. intros w ch ev _ (? & ? & ? & ? & _ & _ & _ & _ & _ & -> & _)%send_unlock_inv. done. }
  intros ev. apply triple_ret. intros w Hev. unfold unregistered, registrations. cbn. by rewrite Hev.
Qed.

Lemma registration_once ch secret expiration block_hash :
  (registrations (ChannelSend.events_for_onchain_secretreveal ch secret expiration block_hash) <= 1)%nat.
Proof. destruct (onchain_secretreveal_cases ch secret expiration block_hash) as [->|[_ ->]]; cbn; lia. Qed.

(** Either loop registers the secret at most once, and not at all if a
    registration is under way when it starts. *)
Definition registers_once (pairs : list MediationPairState) (secrethash : bytes)
    (m : M Random (list MediationPairState * list Event)) : Prop :=
  forall w pairs' evs w', m w = Ok (pairs', evs, w') ->
  (registrations evs +
     Nat.b2n (has_secret_registration_started (mediator.all_payer_channels channels (w_heap w) pairs) pairs secrethash)
   <= 1)%nat.

Lemma registers_once_loop pairs secrethash (body : bool -> MediationPairState ->
    M Random (bool * MediationPairState * list Event)) :
  (forall sent p, triple anywhere (body sent p) (fun '(s', _, e) _ => registered_once sent e s')) ->
  registers_once pairs secrethash
    (heap ← get_heap;
     '(_, pairs', events) ←
       for_pairs body (has_secret_registration_started (mediator.all_payer_channels channels heap pairs) pairs secrethash)
         pairs;
     mret (pairs', events)).
Proof.
  intros Hbody w pairs' evs w' Hrun.
  pose proof (triple_for_pairs_trace registered_once body pairs) as Hloop.
  eapply (triple_trace_end registered_once (fun e => registrations e + Nat.b2n _ <= 1)%nat) in Hloop;
    [exact (Hloop w _ _ I Hrun) | | by intros s; unfold registered_once; cbn | apply registered_once_app | exact Hbody].
  intros e s'. unfold registered_once. destruct s'; cbn; lia.
Qed.

Lemma registered_none (sent : bool) (p : MediationPairState) :
  triple anywhere (mret (sent, p, @nil Event)) (fun '(s', _, e) _ => registered_once sent e s').
Proof. apply triple_ret. intros w _. unfold registered_once. done. Qed.

Lemma dangerzone_once secrethash pairs block_number block_hash :
  registers_once pairs secrethash
    (mediator.events_for_onchain_secretreveal_if_dangerzone channels secrethash pairs block_number block_hash).
Proof.
  apply registers_once_loop. intros sent p.
  destruct (negb _); [apply registered_none|]. destruct (get_payer_channel _ _) as [payer|]; [|apply registered_none]. cbv zeta.
  eapply triple_bind with (R := fun _ => anywhere); [by apply triple_read|]. intros ch.
  eapply triple_bind with (R := fun _ => anywhere); [by apply triple_lift|]. intros safe.
  destruct (_ && _); [|apply registered_none]. destruct sent; cbn [negb]; [apply registered_none|].
  destruct (get_secret _ _) as [[|b s]|]; [by apply triple_lift | | by apply triple_lift].
  apply triple_ret. intros w1 _. unfold registered_once. cbn [Nat.b2n]. rewrite Nat.add_0_r. apply registration_once.
Qed.

Lemma if_closed_once secrethash pairs secret block_hash :
  registers_once pairs secrethash
    (mediator.events_for_onchain_secretreveal_if_closed channels pairs secret secrethash block_hash).
Proof.
  apply registers_once_loop. intros sent p.
  destruct (negb _); [apply registered_none|]. destruct (get_payer_channel _ _) as [payer|]; [|apply registered_none]. cbv zeta.
  eapply triple_bind with (R := fun _ => anywhere); [by apply triple_read|]. intros ch.
  destruct (bool_decide _); [|apply registered_none]. destruct sent; cbn [negb]; [apply registered_none|].
  destruct (get_lock _ _) as [l|]; [|apply registered_none].
  apply triple_ret. intros w1 _. unfold registered_once. cbn [Nat.b2n]. rewrite Nat.add_0_r. apply registration_once.
Qed.

(** Both kinds of facts about a phase together. *)
Lemma triple_counted {X} n P (m : M Random (X * list Event)) Q :
  triple anywhere m (fun '(_, evs) _ => registrations evs <= n)%nat -> triple P m Q ->
  triple P m (fun r w => Q r w /\ (registrations r.2 <= n)%nat).
Proof.
  intros Hc HQ w [x evs] w' HP Hrun. split; [by eapply HQ | exact (Hc w _ w' I Hrun)].
Qed.

Lemma registers_once_at_most pairs secrethash m :
  registers_once pairs secrethash m -> triple anywhere m (fun '(_, evs) _ => registrations evs <= 1)%nat.
Proof. intros Hm w [pairs' evs] w' _ Hrun. specialize (Hm _ _ _ _ Hrun). lia. Qed.

Lemma unregistered_at_most (m : M Random (list MediationPairState * list Event)) :
  triple anywhere m (fun '(_, evs) _ => registrations evs = 0%nat) ->
  triple anywhere m (fun '(_, evs) _ => registrations evs <= 0)%nat.
Proof. intros Hm w [pairs' evs] w' Hw Hrun. by rewrite (Hm _ _ _ Hw Hrun). Qed.
End Phases.
