(* ===== verification/MediatorForwarding.v ===== *)
(** * Forwarding a transfer

    [forward_transfer_pair], the choice of a route and [mediate_transfer]: the
    new pair mirrors the received transfer, and the lock it adds to the payee's
    channel is new there. *)

From Stdlib Require Import ZArith Lia Strings.Byte.
From stdpp Require Import base functions gmap list strings pretty.
From S2P Require Import Prelude Encoding MediationFee State Events ChannelViews ChannelValidation ChannelSend ChannelHandlers TaskState World Mediator LockSets ChannelInvariant BalanceProofMessages LockOperations StateTransition TransferTheorems Reachability ChannelFrame SecretRegistration WorldLogic MediatorInvariant.

(** What the node's routes and channels must be for a received transfer to be
    forwarded: one token (no swaps), and no channel that may be chosen holds a
    lock with the payment's secret hash already.  The channels the payment went
    through before are the refunded ones. *)
Record forwardable (heap : Heap) (addresses : AddressMap) (routes : list RouteState) (refunded : list Z)
    (payer : Loc) (t : LockedTransferSignedState) : Prop := {
  fw_no_swap : forall route, route ∈ routes -> rs_swaps route !! es_address (ch_our_state (heap payer)) = None;
  fw_fresh : forall hop l, addresses !! (ch_token_network_address (heap payer), hop) = Some l ->
    (ch_identifier (heap l) ∉ refunded) ->
    get_lock (ch_our_state (heap l)) (lock_secrethash (lts_lock t)) = None /\
    ch_token_address (heap l) = lts_token t;
}.

Lemma filter_acceptable_routes_inv heap routes refunded addresses token_network our_address route :
  route ∈ filter_acceptable_routes heap routes refunded addresses token_network our_address ->
  route ∈ routes /\ exists hop l, truthy_bytes (hop_after route our_address) = Some hop /\
    addresses !! (token_network, hop) = Some l /\ ch_identifier (heap l) ∉ refunded.
Proof.
  unfold filter_acceptable_routes. rewrite list_elem_of_In, filter_In, <- list_elem_of_In. intros [Hin Hf].
  split; [done|]. destruct (truthy_bytes _) as [hop|]; [|done]. destruct (addresses !! _) as [l|] eqn:Hl; [|done].
  exists hop, l. split; [done|]. split; [done|]. by apply negb_true_iff, bool_decide_eq_false in Hf.
Qed.

(** One call of [forward_transfer_pair]: nothing happens, or a transfer of the
    amount without fees is sent through a channel that is usable for it. *)
Lemma forward_transfer_pair_inv `{Externals} {Random} `{RandomGen Random} t payer payee block_number
    (w w' : World Random) o events :
  mediator.forward_transfer_pair t payer payee block_number w = Ok (o, events, w') ->
  (o = None /\ events = [] /\ w' = w) \/
  let channel_out := w_heap w payee in
  let lock := lts_lock t in
  let address := es_address (ch_partner_state channel_out) in
  exists amount mid g ch ev u,
    get_amount_without_fees (lock_amount lock) (w_heap w payer) channel_out = Ok (Some amount) /\
    is_channel_usable_for_mediation channel_out amount (lock_expiration lock - block_number) = true /\
    amount <> 0 /\
    send_lockedtransfer channel_out (lts_initiator t) (lts_target t) amount mid (lts_payment_identifier t)
      (lock_expiration lock) (lts_secret t) (lock_secrethash lock) (lts_route_states t)
      (get_address_metadata address (lts_route_states t)) (lts_metadata t) = Ok (ch, ev) /\
    mediator.sent_transfer ev = Ok u /\ o = Some (MediationPairState_init t address u) /\ events = [ev] /\
    w' = Build_World (<[payee := ch]> (w_heap w)) g.
Proof.
  unfold mediator.forward_transfer_pair. intros (channel_in & w1 & [= <- <-] & Hrun)%M_bind_inv.
  apply M_bind_inv in Hrun as (channel_out & w1 & [= <- <-] & Hrun).
  apply M_bind_inv in Hrun as (a & w1 & [Ea ->]%lift_inv & Hrun).
  destruct a as [[|a|a]|]; try (injection Hrun as <- <- <-; by left);
  [set (amount := Z.pos a) in * | set (amount := Z.neg a) in *];
  (assert (Hnz : amount <> 0) by done; clearbody amount; cbv zeta in Hrun;
   destruct (is_channel_usable_for_mediation _ _ _) eqn:Huse; cbn [negb] in Hrun;
   [right | injection Hrun as <- <- <-; by left];
   apply M_bind_inv in Hrun as ([] & w1 & [_ ->]%lift_inv & Hrun);
   apply M_bind_inv in Hrun as (mid & w1 & Hfresh & Hrun); unfold fresh_message_identifier in Hfresh;
   destruct (message_identifier_from_prng _) as [mid' g]; injection Hfresh as <- <-;
   apply M_bind_inv in Hrun as (ev & w1 & (ch & Hsend & ->)%with_channel_inv & Hrun);
   apply M_bind_inv in Hrun as (u & w1 & [Hu ->]%lift_inv & Hrun); injection Hrun as <- <- <-;
   cbn in Hsend |- *; by exists amount, mid', g, ch, ev, u).
Qed.

Section Forwarding.
Context `{Externals} {Random : Type} `{RandomGen Random}.
Context (h0 : Heap) (addresses : AddressMap) (routes : list RouteState) (refunded : list Z) (payer : Loc)
  (t : LockedTransferSignedState) (Hfw : forwardable h0 addresses routes refunded payer t).

Abbreviation secrethash := (lock_secrethash (lts_lock t)).

(** A channel the transfer may leave through. *)
Definition candidate (l : Loc) : Prop :=
  exists hop, addresses !! (ch_token_network_address (h0 payer), hop) = Some l /\ ch_identifier (h0 l) ∉ refunded.

(** Nothing has been forwarded yet. *)
Definition ready (w : World Random) : Prop :=
  steady h0 w /\ forall l, candidate l -> get_lock (ch_our_state (w_heap w l)) secrethash = None.

(** What a forwarded transfer looks like: the new pair and its event. *)
Record forwarded (p : MediationPairState) (events : list Event) : Prop := {
  fd_transfer : mp_payer_transfer p = t;
  fd_wf : pair_wf secrethash p;
  fd_states : mp_payer_state p = payer_pending /\ mp_payee_state p = payee_pending;
  fd_event : exists msg, events = [SendLockedTransfer msg (mp_payee_transfer p)];
}.

Definition forward_outcome (o : option (MediationPairState * list Event)) (w : World Random) : Prop :=
  match o with
  | Some (p, events) => steady h0 w /\ forwarded p events
  | None => ready w
  end.

Lemma send_lockedtransfer_copies ch initiator target amount mid pid expiration secret h routes' meta prev ch' ev :
  send_lockedtransfer ch initiator target amount mid pid expiration secret h routes' meta prev = Ok (ch', ev) ->
  exists msg u, ev = SendLockedTransfer msg u /\ ltu_payment_identifier u = pid /\ ltu_token u = ch_token_address ch /\
    lock_amount (ltu_lock u) = amount /\ lock_expiration (ltu_lock u) = expiration /\
    lock_secrethash (ltu_lock u) = h /\ ltu_initiator u = initiator /\ ltu_target u = target.
Proof.
  unfold send_lockedtransfer, create_sendlockedtransfer.
  intros ([[msg u] locks] & Hc & [= <- <-])%bind_Ok_inv. exists msg, u. split; [done|].
  apply py_assert_Ok_inv in Hc as [_ Hc]. apply py_assert_Ok_inv in Hc as [_ Hc].
  apply bind_Ok_inv in Hc as (lock & (_ & <- & <- & <-)%HashTimeLockState_init_wf & Hc).
  destruct (compute_locks_with _ _); [|discriminate]. apply py_assert_Ok_inv in Hc as [_ Hc].
  apply bind_Ok_inv in Hc as (bp & _ & Hc). apply bind_Ok_inv in Hc as (v & Hv & [= _ <- _]).
  unfold LockedTransferUnsignedState_init in Hv. case_bool_decide; [discriminate|]. by injection Hv as <-.
Qed.

Lemma forwarded_pair msg u address :
  ltu_payment_identifier u = lts_payment_identifier t -> ltu_token u = lts_token t ->
  lock_expiration (ltu_lock u) = lock_expiration (lts_lock t) -> lock_secrethash (ltu_lock u) = secrethash ->
  ltu_initiator u = lts_initiator t -> ltu_target u = lts_target t ->
  forwarded (MediationPairState_init t address u) [SendLockedTransfer msg u].
Proof.
  intros E1 E2 E3 E4 E5 E6. split; [done | | done | by exists msg]. split; [|state_set | state_set | done].
  unfold is_send_transfer_almost_equal. cbn. rewrite E1, E2, E3, E4, E5, E6, !Z.eqb_refl.
  by rewrite !bool_decide_true.
Qed.

Lemma ready_prng w g : ready w -> ready (Build_World (w_heap w) g).
Proof. by intros []. Qed.

Lemma forward_transfer_pair_spec payee block_number :
  candidate payee ->
  triple ready (mediator.forward_transfer_pair t payer payee block_number)
    (fun '(o, events) => forward_outcome ((fun p => (p, events)) <$> o)).
Proof.
  intros (hop & Hhop & Hnot) w [o events] w' [Hw Hready] [(-> & -> & ->)|Hsent]%forward_transfer_pair_inv; [done|].
  destruct Hsent as (amount & mid & g & ch & ev & u & _ & _ & _ & Hsend & Hu & -> & -> & ->). cbn. split.
  - apply steady_insert; [done|]. eapply send_lockedtransfer_safe; [by apply (steady_inv h0) | | exact Hsend].
    apply Hready. by exists hop.
  - apply send_lockedtransfer_copies in Hsend as (msg & u' & -> & E1 & E2 & _ & E3 & E4 & E5 & E6).
    injection Hu as ->. apply forwarded_pair; try done.
    rewrite E2, (sc_token_address _ _ (steady_same _ _ payee Hw)). by apply (fw_fresh _ _ _ _ _ _ Hfw hop).
Qed.

Lemma mediate_over_routes_spec block_number candidates :
  (forall route hop l, route ∈ candidates ->
     truthy_bytes (hop_after route (es_address (ch_our_state (h0 payer)))) = Some hop ->
     addresses !! (ch_token_network_address (h0 payer), hop) = Some l -> candidate l) ->
  (forall route, route ∈ candidates -> route ∈ routes) ->
  triple ready
    (mediator.mediate_over_routes payer addresses (ch_token_network_address (h0 payer))
      (es_address (ch_our_state (h0 payer))) t block_number candidates) forward_outcome.
Proof.
  induction candidates as [|route rest IH]; intros Hcand Hin; cbn [mediator.mediate_over_routes].
  { by apply triple_ret. }
  assert (Hnext : triple ready (mediator.mediate_over_routes payer addresses (ch_token_network_address (h0 payer))
      (es_address (ch_our_state (h0 payer))) t block_number rest) forward_outcome).
  { apply IH; [intros r hop l Hr; apply (Hcand r); set_solver | set_solver]. }
  cbv zeta. destruct (truthy_bytes _) as [hop|] eqn:Hhop; [|exact Hnext].
  rewrite (fw_no_swap _ _ _ _ _ _ Hfw) by (apply Hin; set_solver). cbn [default].
  destruct (addresses !! _) as [payee|] eqn:Hpayee; [|exact Hnext].
  eapply triple_bind; [apply forward_transfer_pair_spec, (Hcand route hop); [set_solver | done | done]|].
  intros [[p|] events]; [by apply triple_ret | exact Hnext].
Qed.
End Forwarding.

Section Mediate.
Context `{Externals} {Random : Type} `{RandomGen Random}.
Context (h0 : Heap) (addresses : AddressMap).

Lemma same_our_address (w : World Random) l :
  steady h0 w -> es_address (ch_our_state (w_heap w l)) = es_address (ch_our_state (h0 l)).
Proof. intros Hw. apply (sc_our_address _ _ (steady_same _ _ l Hw)). Qed.

Lemma same_token_network (w : World Random) l :
  steady h0 w -> ch_token_network_address (w_heap w l) = ch_token_network_address (h0 l).
Proof. intros Hw. unfold ch_token_network_address. by rewrite (sc_identifier _ _ (steady_same _ _ l Hw)). Qed.

Lemma same_ch_identifier (w : World Random) l :
  steady h0 w -> ch_identifier (w_heap w l) = ch_identifier (h0 l).
Proof. intros Hw. unfold ch_identifier. by rewrite (sc_identifier _ _ (steady_same _ _ l Hw)). Qed.

(** A transfer is forwarded, or the task waits. *)
Lemma mediate_transfer_spec st payer t block_number :
  forwardable h0 addresses (ms_routes st) (ms_refunded_channels st) payer t ->
  triple (ready h0 addresses (ms_refunded_channels st) payer t)
    (mediator.mediate_transfer st payer addresses t block_number)
    (fun '(st', events) w => steady h0 w /\
       ((exists p, st' = set_ms_transfers_pair (ms_transfers_pair st ++ [p]) st /\ forwarded t p events) \/
        (st' = set_ms_waiting_transfer (Some (WaitingTransferState_init t)) st /\ events = []))).
Proof.
  intros Hfw. set (Ready := ready h0 addresses (ms_refunded_channels st) payer t).
  unfold mediator.mediate_transfer.
  eapply triple_bind with (R := fun ch w => Ready w /\ ch = w_heap w payer). { by apply triple_read. } intros ch.
  eapply triple_bind with (R := fun _ w => Ready w /\ ch = w_heap w payer). { apply triple_lift. naive_solver. }
  intros _. cbv zeta.
  eapply triple_bind with (R := fun heap w => Ready w /\ ch = w_heap w payer /\ heap = w_heap w).
  { apply triple_get_heap. naive_solver. }
  intros heap.
  eapply triple_bind with (R := forward_outcome h0 addresses (ms_refunded_channels st) payer t).
  - apply triple_fact with (F := es_address (ch_our_state ch) = es_address (ch_our_state (h0 payer)) /\
      ch_token_network_address ch = ch_token_network_address (h0 payer) /\
      forall l, ch_identifier (heap l) = ch_identifier (h0 l)).
    { intros w ([Hw _] & -> & ->). split; [by apply same_our_address|]. split; [by apply same_token_network|].
      intros l. by apply same_ch_identifier. }
    intros (-> & -> & Eid). apply triple_pre with (P' := Ready); [naive_solver|].
    apply (mediate_over_routes_spec _ _ _ _ _ _ Hfw).
    + intros route hop l (_ & hop' & l' & Hhop & Hl & Hnot)%filter_acceptable_routes_inv Hhop' Hl'.
      rewrite Hhop' in Hhop. injection Hhop as <-. rewrite Hl' in Hl. injection Hl as <-.
      exists hop. split; [done|]. by rewrite <- Eid.
    + by intros route [? _]%filter_acceptable_routes_inv.
  - intros [[p events]|]; apply triple_ret.
    + intros w [Hw Hfd]. eauto.
    + intros w [Hw _]. auto.
Qed.
End Mediate.
