(* ===== verification/MediatorTheorems.v ===== *)
(** * The mediator of a payment: the theorems

    Whatever the node dispatches to a mediator's task, the channels stay sound,
    no secret, payment or registration leaves the node unless the task it started
    with makes it safe, and the task stays well-formed, so that [sanity_check]
    raises in one case only: an unlock that comes before the secret. *)

From Stdlib Require Import ZArith Lia Strings.Byte.
From stdpp Require Import base functions gmap list strings pretty.
From S2P Require Import Prelude Encoding MediationFee State Events ChannelViews ChannelValidation ChannelSend ChannelHandlers TaskState World Mediator ForwardingFees LockSets ChannelInvariant BalanceProofMessages LockOperations StateTransition TransferTheorems Reachability ChannelFrame SecretRegistration WorldLogic MediatorInvariant MediatorPhases MediatorForwarding.

(** What the node guarantees when it dispatches to a mediator's task: the locks
    of received transfers are decoded ones with a secret hash that is not
    pending, those of the channels a transfer can be forwarded to have no lock
    under its hash either, a refund comes from the last payee while no transfer
    waits, and revealed secrets hash to their hashes. *)
Definition mediator_admissible (heap : Heap) (channels : ChannelMap) (addresses : AddressMap)
    (st : option MediatorTransferState) (state_change : StateChange) : Prop :=
  match state_change, st with
  | SCActionInitMediator a, None =>
      let t := aim_from_transfer a in
      forall payer, channels !! hop_channel_identifier (aim_from_hop a) = Some payer ->
      lock_wf (lts_lock t) /\ get_lock (ch_partner_state (heap payer)) (lock_secrethash (lts_lock t)) = None /\
      forwardable heap addresses (aim_candidate_route_states a) [] payer t
  | SCBlock _, Some st =>
      forall wt payer, ms_waiting_transfer st = Some wt ->
      channels !! lts_channel_identifier (wt_transfer wt) = Some payer ->
      forwardable heap addresses (ms_routes st) (ms_refunded_channels st) payer (wt_transfer wt)
  | SCReceiveTransferRefund a, Some st =>
      let t := rtr_transfer a in
      ms_secret st = None -> ms_waiting_transfer st = None /\
      forall p payer, last (ms_transfers_pair st) = Some p -> channels !! lts_channel_identifier t = Some payer ->
      payer_address t = mp_payee_address p /\ lts_initiator t = ltu_initiator (mp_payee_transfer p) /\
      lock_wf (lts_lock t) /\ get_lock (ch_partner_state (heap payer)) (lock_secrethash (lts_lock t)) = None /\
      forwardable heap addresses (ms_routes st) (ms_refunded_channels st ++ [ch_identifier (heap payer)]) payer t
  | SCReceiveSecretReveal a, _ => rsr_secrethash a = sha256_secrethash (rsr_secret a)
  | SCContractReceiveSecretReveal a, _ => crsr_secrethash a = sha256_secrethash (crsr_secret a)
  | _, _ => True
  end.

(** The block an event's deadlines are measured from. *)
Definition block_of (state_change : StateChange) (block_number : Z) : Z :=
  match state_change with
  | SCBlock a => block_block_number a
  | SCContractReceiveSecretReveal a => cr_block_number (crsr_contract a)
  | _ => block_number
  end.

(** The payee that tells the node the secret. *)
Definition told_by (state_change : StateChange) : option bytes :=
  match state_change with SCReceiveSecretReveal a => Some (rsr_sender a) | _ => None end.

Definition mediator_task `{Externals} (st : option MediatorTransferState) : Prop :=
  match st with Some st => mediator_wf st | None => True end.

(** An unlock was received although the task has no secret. *)
Definition paid_early (before : option MediatorTransferState) (state_change : StateChange)
    (after : option MediatorTransferState) : Prop :=
  exists st st' u, before = Some st /\ state_change = SCReceiveUnlock u /\ after = Some st' /\
    ms_secret st = None /\ ms_secret st' = None /\ exists p, p ∈ ms_transfers_pair st' /\ paid p.

Section MediatorHandlers.
Context `{Externals} {Random : Type} `{RandomGen Random}.
Context (h0 : Heap) (channels : ChannelMap) (addresses : AddressMap).

Abbreviation keeps := (@steady _ Random h0).

(** What the handlers of a running task establish. *)
Definition task_outcome (told : option bytes) (before : MediatorTransferState) (block_number : Z)
    (r : MediatorTransferState * list Event) (w : World Random) : Prop :=
  keeps w /\ mediator_wf r.1 /\
  Forall (safe_event h0 channels block_number told before) r.2 /\
  (registrations r.2 <= 1)%nat.

Lemma quiet_outcome told before block_number st evs w :
  keeps w -> mediator_wf st -> Forall quiet evs -> task_outcome told before block_number (st, evs) w.
Proof. intros Hw Hwf Hq. split; [done|]. split; [done|]. split; [by apply quiet_safe|]. cbn [snd]. rewrite quiet_registrations by done. lia. Qed.

(** Replacing the pairs by what a loop made of them. *)
Lemma mediator_wf_pairs st pairs :
  mediator_wf st -> Forall2 (pair_step (is_some (ms_secret st) = true)) (ms_transfers_pair st) pairs ->
  mediator_wf (set_ms_transfers_pair pairs st).
Proof. intros Hwf Hf. eapply mediator_wf_step; eauto. Qed.

Lemma mediator_wf_learn told st pairs secret :
  mediator_wf st -> sha256_secrethash secret = ms_secrethash st ->
  Forall2 (pair_learns True told) (ms_transfers_pair st) pairs ->
  mediator_wf (set_ms_transfers_pair pairs (set_ms_secret (Some secret) st)).
Proof.
  intros Hwf Hs Hf. eapply mediator_wf_step; [exact Hwf | | done | naive_solver | right; by exists secret].
  cbn. eapply Forall2_impl; [exact Hf|]. intros p p' [[] _ _]. by split; auto.
Qed.

(** Nobody is paid while the secret is unknown. *)
Lemma unpaid_without_secret st :
  mediator_wf st -> ms_secret st = None -> Forall (fun p => ~ payee_paid p) (ms_transfers_pair st).
Proof.
  intros Hwf Hs. apply Forall_forall. intros p Hin Hp. pose proof (mw_paid _ Hwf p Hin (or_introl Hp)) as Hk.
  by rewrite Hs in Hk.
Qed.

Lemma secret_learned_spec st block_number block_hash secret payee :
  mediator_wf st -> ms_secret st = None -> sha256_secrethash secret = ms_secrethash st ->
  triple keeps
    (mediator.secret_learned st channels block_number block_hash secret (ms_secrethash st) payee)
    (task_outcome (Some payee) st block_number).
Proof.
  intros Hwf Hunknown Hs. unfold mediator.secret_learned, mediator.set_offchain_secret.
  eapply triple_bind.
  { apply (set_secret_spec h0). intros ch ch' Hinv [= <-].
    by destruct (register_offchain_secret_registered secret (ms_secrethash st) ch Hinv). }
  intros [st1 evs1]. apply triple_fact with (F := st1 = set_ms_secret (Some secret) st /\ Forall quiet evs1);
    [naive_solver|]. intros [-> Hq]. cbv zeta.
  set (pairs1 := mediator.set_offchain_reveal_state _ payee).
  assert (L1 : Forall2 (pair_learns True (Some payee)) (ms_transfers_pair st) pairs1)
    by (by apply set_offchain_reveal_state_learns, unpaid_without_secret).
  eapply triple_bind; [apply triple_pre with (P' := keeps); [naive_solver|];
    eapply triple_counted; [eapply registers_once_at_most, if_closed_once | apply (if_closed_spec h0 channels True)]|].
  intros [pairs2 evs2]. apply triple_fact with (F := Forall2 (pair_learns True None) pairs1 pairs2 /\
    Forall (registration_safe h0 channels block_number (map mp_payer_transfer pairs1)) evs2 /\ (registrations evs2 <= 1)%nat);
    [by intros w [(_ & ? & ?) ?]|]. intros (L2 & S2 & C2).
  eapply triple_bind; [apply triple_pre with (P' := keeps); [by intros w [[] _]|];
    eapply triple_counted; [apply unregistered_at_most, secretreveal_unregistered | apply (events_for_secretreveal_spec h0 channels True)]|].
  intros [pairs3 evs3]. apply triple_fact with (F := Forall2 (pair_learns True None) pairs2 pairs3 /\
    Forall (payment_safe h0 channels block_number secret pairs2) evs3 /\ (registrations evs3 <= 0)%nat);
    [by intros w [(_ & ? & ?) ?]|]. intros (L3 & S3 & C3).
  eapply triple_bind; [apply triple_pre with (P' := keeps); [by intros w [[] _]|];
    eapply triple_counted; [apply unregistered_at_most, balanceproof_unregistered | apply (events_for_balanceproof_spec h0)]|].
  intros [pairs4 evs4]. apply triple_ret. intros w [(Hw & L4 & S4) C4].
  assert (L02 : Forall2 (pair_learns True (Some payee)) (ms_transfers_pair st) pairs2)
    by (etransitivity; [exact L1 | by apply pairs_told]).
  assert (L03 : Forall2 (pair_learns True (Some payee)) (ms_transfers_pair st) pairs3)
    by (etransitivity; [exact L02 | by apply pairs_told]).
  split; [done|]. split.
  { apply (mediator_wf_learn (Some payee)); [done | done | etransitivity; [exact L03 | by apply pairs_told]]. }
  cbn [fst snd ms_secret ms_transfers_pair set_ms_transfers_pair set_ms_secret] in *. split.
  2:{ rewrite !registrations_app, quiet_registrations by done. lia. }
  repeat (apply Forall_app; split).
  - by apply quiet_safe.
  - eapply payment_safe_before; [exact L02 | done | exact S3].
  - eapply payment_safe_before; [exact L03 | done | exact S4].
  - eapply registration_safe_before; [|exact S2].
    rewrite (step_payer_transfers _ _ _ (pairs_step _ _ _ _ L1)). apply received_pairs.
Qed.

Lemma handle_offchain_secretreveal_spec st a block_number block_hash :
  mediator_wf st -> rsr_secrethash a = sha256_secrethash (rsr_secret a) ->
  triple keeps (mediator.handle_offchain_secretreveal st a channels block_number block_hash)
    (task_outcome (Some (rsr_sender a)) st block_number).
Proof.
  intros Hwf Ha. unfold mediator.handle_offchain_secretreveal. cbv zeta.
  assert (Hskip : triple keeps (mret (st, [])) (task_outcome (Some (rsr_sender a)) st block_number)).
  { apply triple_ret. intros w Hw. by apply quiet_outcome. }
  destruct (last _) as [p|]; [|exact Hskip]. destruct (channels !! _) as [payer|]; [|exact Hskip].
  eapply triple_bind with (R := fun _ => keeps). { by apply triple_read. } intros ch.
  destruct (is_none _ && _ && _) eqn:Hcond; [|exact Hskip].
  apply andb_prop in Hcond as [Hcond _]. apply andb_prop in Hcond as [Hnone Heq%bool_decide_eq_true].
  rewrite Heq. apply secret_learned_spec; [done | by destruct (ms_secret st) | by rewrite <- Ha].
Qed.

Lemma handle_onchain_secretreveal_spec st a :
  mediator_wf st -> crsr_secrethash a = sha256_secrethash (crsr_secret a) ->
  triple keeps (mediator.handle_onchain_secretreveal st a channels)
    (task_outcome None st (cr_block_number (crsr_contract a))).
Proof.
  intros Hwf Ha. unfold mediator.handle_onchain_secretreveal, mediator.set_onchain_secret. cbv zeta.
  destruct (is_valid_secret_reveal _ _) eqn:Hv.
  2:{ apply triple_ret. intros w Hw. by apply quiet_outcome. }
  apply bool_decide_eq_true in Hv. eapply triple_bind.
  { apply (set_secret_spec h0). intros ch ch' Hinv Hreg.
    destruct (register_onchain_secret_registered (crsr_secret a) (crsr_secrethash a)
      (cr_block_number (crsr_contract a)) ch Hinv) as (ch2 & E & []).
    rewrite Hreg in E. by injection E as <-. }
  intros [st1 evs1]. apply triple_fact with (F := st1 = set_ms_secret (Some (crsr_secret a)) st /\ Forall quiet evs1);
    [naive_solver|]. intros [-> Hq].
  eapply triple_bind; [apply triple_pre with (P' := keeps); [by intros w []|];
    eapply triple_counted; [apply unregistered_at_most, balanceproof_unregistered | apply (events_for_balanceproof_spec h0)]|].
  intros [pairs evs2]. apply triple_ret. intros w [(Hw & L & S) C].
  split; [done|]. split; [apply (mediator_wf_learn None); [done | congruence | done]|].
  cbn [fst snd ms_secret ms_transfers_pair set_ms_transfers_pair set_ms_secret] in *. split.
  2:{ rewrite !registrations_app, quiet_registrations by done. lia. }
  apply Forall_app. split; [by apply quiet_safe|]. eapply (payment_safe_before _ _ _ True None); [| |exact S]; [done | congruence].
Qed.

(** ** Messages that settle a lock *)

Lemma handle_unlock_quiet ch u meta ch' v evs msg :
  ChannelHandlers.handle_unlock ch u meta = Ok (ch', (v, evs, msg)) -> Forall quiet evs.
Proof.
  unfold ChannelHandlers.handle_unlock. intros ([[v' m] locks] & _ & Hrun)%bind_Ok_inv. cbv iota beta in Hrun.
  destruct v'.
  - destruct locks; [|discriminate]. apply bind_Ok_inv in Hrun as (es & _ & [= _ _ <- _]). by apply Forall_singleton.
  - apply py_assert_Ok_inv in Hrun as [_ [= _ _ <- _]]. by apply Forall_singleton.
Qed.

(** Without the secret nobody may be paid: the task stays well-formed, or somebody
    was paid early. *)
Lemma unlock_pairs_cases st u pairs :
  mediator_wf st -> Forall2 (pair_step True) (ms_transfers_pair st) pairs ->
  mediator_wf (set_ms_transfers_pair pairs st) \/
  paid_early (Some st) (SCReceiveUnlock u) (Some (set_ms_transfers_pair pairs st)).
Proof.
  intros Hwf Hf. destruct (ms_secret st) as [secret|] eqn:Hs.
  { left. apply mediator_wf_pairs; [done|]. eapply Forall2_impl; [exact Hf|]. intros p p' []. split; auto.
    intros _. right. by rewrite Hs. }
  destruct (decide (Exists paid pairs)) as [He|Hno].
  - right. apply Exists_exists in He as (p & Hin & Hp). exists st, (set_ms_transfers_pair pairs st), u. naive_solver.
  - left. apply mediator_wf_pairs; [done|]. apply Forall2_same_length_lookup. split; [by eapply Forall2_length|].
    intros i p p' Hi Hi'. destruct (Forall2_lookup_lr _ _ _ _ _ _ Hf Hi Hi') as []. split; auto.
    intros Hp. destruct Hno. apply Exists_exists. exists p'. split; [by eapply list_elem_of_lookup_2 | done].
Qed.

Lemma handle_unlock_spec st u :
  mediator_wf st ->
  triple keeps (mediator.handle_unlock st u channels) (fun '(st', evs) w => keeps w /\ Forall quiet evs /\
    (mediator_wf st' \/ paid_early (Some st) (SCReceiveUnlock u) (Some st'))).
Proof.
  intros Hwf. unfold mediator.handle_unlock. cbv zeta. eapply triple_bind.
  { apply (triple_for_pairs keeps (pair_step True) quiet). intros [] p Hp.
    case_bool_decide; [|by apply triple_ret]. destruct (channels !! _) as [l|]; [|by apply triple_ret].
    eapply triple_bind; [apply (triple_steady_channel h0 l _ (fun r => Forall quiet r.1.2))|].
    - intros ch ch' [[v evs] msg] Hinv _ Hrun. split; [by eapply handle_unlock_safe | by eapply handle_unlock_quiet].
    - intros [[v evs] msg]. destruct v; apply triple_ret; intros w [Hw Hq]; (split; [done|]); (split; [|cbn in Hq]).
      + apply (set_payer_state_learns True p None); [state_set | done].
      + apply Forall_app. split; [done | by apply Forall_singleton].
      + done.
      + done. }
  intros [[[] pairs] evs]. apply triple_ret. intros w (Hw & Hf & Hq).
  split; [done|]. split; [done|]. by apply unlock_pairs_cases.
Qed.

Lemma receive_lock_expired_at_spec l m block_number routes :
  triple keeps (mediator.receive_lock_expired_at l m block_number routes)
    (fun evs w => keeps w /\ Forall quiet evs).
Proof.
  unfold mediator.receive_lock_expired_at. apply (triple_steady_channel h0 l).
  intros ch ch' evs Hinv _. cbv zeta. intros ([[ch1|] evs1] & Hrun & E)%bind_Ok_inv; [|discriminate].
  injection E as -> ->. split; [by eapply handle_receive_lock_expired_safe|].
  apply handle_receive_lock_expired_inv in Hrun as (ch2 & _ & Hc); [|done].
  destruct Hc as [(? & _ & _ & _ & ->)|(_ & _ & reason & ->)]; by apply Forall_singleton.
Qed.

Lemma expire_pairs_spec known m block_number routes secrethash pairs :
  triple keeps (mediator.expire_pairs channels m block_number routes secrethash pairs)
    (fun '(pairs', o) w => keeps w /\ Forall2 (pair_step known) pairs pairs' /\
       forall evs, o = Some evs -> Forall quiet evs).
Proof.
  induction pairs as [|p pairs IH]; cbn [mediator.expire_pairs].
  { apply triple_ret. intros w Hw. do 2 (split; [done|]). by intros evs [= <-]. }
  destruct (channels !! _) as [l|].
  2:{ apply triple_ret. intros w Hw. split; [done|]. by split. }
  eapply triple_bind; [apply receive_lock_expired_at_spec|]. intros evs.
  apply triple_fact with (F := Forall quiet evs); [naive_solver|]. intros Hq.
  eapply triple_bind with (R := fun _ => keeps). { apply triple_read. by intros w [? _]. } intros ch. cbv zeta.
  eapply triple_bind; [apply IH|]. intros [rest o]. apply triple_ret. intros w (Hw & Hf & Ho).
  split; [done|]. split.
  - constructor; [|done]. destruct (is_none _); [apply (set_payer_state_learns known p None); state_set | done].
  - intros evs'. destruct o as [more|]; [|done]. intros [= <-]. apply Forall_app. auto.
Qed.

Lemma handle_lock_expired_spec st m block_number :
  mediator_wf st ->
  triple keeps (mediator.handle_lock_expired st m channels block_number) (task_outcome None st block_number).
Proof.
  intros Hwf. unfold mediator.handle_lock_expired.
  eapply triple_bind; [apply (expire_pairs_spec (is_some (ms_secret st) = true))|]. intros [pairs o]. cbv zeta.
  apply triple_fact with (F := mediator_wf (set_ms_transfers_pair pairs st) /\ forall evs, o = Some evs -> Forall quiet evs).
  { intros w (_ & Hf & Ho). split; [by apply mediator_wf_pairs | done]. }
  intros [Hwf' Ho]. destruct o as [evs|].
  2:{ apply triple_ret. intros w (Hw & _). by apply quiet_outcome. }
  specialize (Ho evs eq_refl). destruct (mbind _ _) as [l|].
  2:{ apply triple_ret. intros w (Hw & _). by apply quiet_outcome. }
  eapply triple_bind; [apply triple_pre with (P' := keeps); [naive_solver|]; apply receive_lock_expired_at_spec|].
  intros more. apply triple_ret. intros w [Hw Hq]. apply quiet_outcome; [done..|]. by apply Forall_app.
Qed.

(** ** Transfers *)

(** So far only ends of partners have changed. *)
Definition ours (w : World Random) : Prop :=
  keeps w /\ forall l, ch_our_state (w_heap w l) = ch_our_state (h0 l).

(** The world a transition starts in. *)
Definition start (w : World Random) : Prop := keeps w /\ w_heap w = h0.

Lemma start_ours w : start w -> ours w.
Proof. intros [Hw E]. split; [done|]. by rewrite E. Qed.

Lemma ours_ready routes refunded payer t w :
  forwardable h0 addresses routes refunded payer t -> ours w -> ready h0 addresses refunded payer t w.
Proof.
  intros Hfw [Hw Hour]. split; [done|]. intros l (hop & Hl & Hnot). rewrite Hour. by apply (fw_fresh _ _ _ _ _ _ Hfw hop).
Qed.

Lemma ours_insert w l ch g :
  ours w -> safe_step (w_heap w l) ch -> ch_our_state ch = ch_our_state (w_heap w l) ->
  ours (Build_World (<[l := ch]> (w_heap w)) g).
Proof.
  intros [Hw Hour] Hs Eq. split; [by apply steady_insert|]. intros l'. cbn. destruct (decide (l = l')) as [<-|Hne].
  - rewrite fn_lookup_insert. by rewrite Eq.
  - by rewrite fn_lookup_insert_ne.
Qed.

Lemma forwarded_quiet t p events : forwarded t p events -> Forall quiet events.
Proof. intros [_ _ _ [msg ->]]. by apply Forall_singleton. Qed.

Lemma forwarded_not_paid t p events : forwarded t p events -> ~ paid p.
Proof. intros [_ _ [E1 E2] _]. unfold paid. rewrite E1, E2. state_set. Qed.

Lemma forwarded_is_forwarded t p events :
  forwarded t p events -> existsb (mediator.is_forwarded (lock_secrethash (lts_lock t))) events = true.
Proof.
  intros [<- [Ha _ _ _] _ [msg ->]]. cbn. unfold is_send_transfer_almost_equal in Ha. rewrite orb_false_r.
  by apply andb_prop in Ha as [[[_ Hh]%andb_prop _]%andb_prop _].
Qed.

Lemma mediator_wf_forwarded st t p events :
  mediator_wf st -> forwarded t p events -> lock_secrethash (lts_lock t) = ms_secrethash st ->
  (forall p0, last (ms_transfers_pair st) = Some p0 -> gives_back p0 t) ->
  mediator_wf (set_ms_waiting_transfer None (set_ms_transfers_pair (ms_transfers_pair st ++ [p]) st)).
Proof.
  intros Hwf Hfd Hh Hl. apply mediator_wf_forward; [done | | by eapply forwarded_not_paid |].
  - rewrite <- Hh. apply Hfd.
  - by rewrite (fd_transfer _ _ _ Hfd).
Qed.

(** A received transfer that no pair or waiting transfer holds yet. *)
Lemma mediate_received_spec st payer t block_number :
  mediator_wf st -> ms_waiting_transfer st = None -> lock_secrethash (lts_lock t) = ms_secrethash st ->
  (forall p0, last (ms_transfers_pair st) = Some p0 -> gives_back p0 t) ->
  forwardable h0 addresses (ms_routes st) (ms_refunded_channels st) payer t ->
  triple ours (mediator.mediate_transfer st payer addresses t block_number)
    (fun '(st', evs) w => keeps w /\ mediator_wf st' /\ Forall quiet evs).
Proof.
  intros Hwf Hno Hh Hl Hfw. eapply triple_pre; [intros w; by apply (ours_ready _ _ _ _ _ Hfw)|].
  eapply triple_post; [by apply mediate_transfer_spec|].
  intros [st' evs] w [Hw [(p & -> & Hfd)|[-> ->]]]; (split; [done|]); (split; [|by eauto using forwarded_quiet]).
  - pose proof (mediator_wf_forwarded _ _ _ _ Hwf Hfd Hh Hl) as Hwf'. by destruct st; cbn in *; subst.
  - by apply mediator_wf_wait.
Qed.

Lemma retry_waiting_transfer_spec st block_number :
  mediator_wf st ->
  (forall wt payer, ms_waiting_transfer st = Some wt ->
     channels !! lts_channel_identifier (wt_transfer wt) = Some payer ->
     forwardable h0 addresses (ms_routes st) (ms_refunded_channels st) payer (wt_transfer wt)) ->
  triple ours (mediator.retry_waiting_transfer st channels addresses block_number)
    (fun '(st', evs) w => keeps w /\ mediator_wf st' /\ Forall quiet evs /\
       map mp_payer_transfer (ms_transfers_pair st') ⊆ received_transfers st).
Proof.
  intros Hwf Hadm. unfold mediator.retry_waiting_transfer. pose proof (received_pairs st) as Hsub.
  destruct (ms_waiting_transfer st) as [wt|] eqn:Hwt; [|apply triple_ret; by intros w []].
  cbv zeta. destruct (channels !! _) as [payer|] eqn:Hpayer; [|apply triple_ret; by intros w []].
  specialize (Hadm wt payer eq_refl Hpayer). destruct (mw_waiting _ Hwf _ Hwt) as [Hh Hl].
  eapply triple_bind.
  { eapply triple_pre; [intros w; by apply (ours_ready _ _ _ _ _ Hadm)|]. by apply mediate_transfer_spec. }
  intros [st' evs]. cbv zeta. apply triple_ret. intros w [Hw [(p & -> & Hfd)|[-> ->]]]; (split; [done|]).
  - rewrite (forwarded_is_forwarded _ _ _ Hfd). split; [by eapply mediator_wf_forwarded|].
    split; [by eapply forwarded_quiet|]. cbn. unfold received_transfers. rewrite map_app, Hwt. cbn.
    by rewrite (fd_transfer _ _ _ Hfd).
  - split; [|done]. by apply mediator_wf_wait.
Qed.

Lemma handle_block_spec st a :
  mediator_wf st -> mediator_admissible h0 channels addresses (Some st) (SCBlock a) ->
  triple ours (mediator.handle_block st a channels addresses) (task_outcome None st (block_block_number a)).
Proof.
  intros Hwf Hadm. unfold mediator.handle_block. cbv zeta.
  eapply triple_bind; [by apply retry_waiting_transfer_spec|]. intros [st1 evs1].
  apply triple_fact with (F := mediator_wf st1 /\ Forall quiet evs1 /\
    map mp_payer_transfer (ms_transfers_pair st1) ⊆ received_transfers st); [naive_solver|]. intros (Hwf1 & Q1 & T1).
  eapply triple_bind; [apply triple_pre with (P' := keeps); [naive_solver|];
    apply (events_to_remove_expired_locks_spec h0 channels (is_some (ms_secret st1) = true))|]. intros [st2 evs2].
  apply triple_fact with (F := mediator_wf st2 /\ Forall quiet evs2 /\
    map mp_payer_transfer (ms_transfers_pair st2) ⊆ received_transfers st).
  { intros w (_ & Hq & pairs & -> & Hf). split; [by apply mediator_wf_pairs|]. split; [done|]. cbn.
    by rewrite (step_payer_transfers _ _ _ Hf). }
  intros (Hwf2 & Q2 & T2).
  eapply triple_bind; [apply triple_pre with (P' := keeps); [naive_solver|];
    eapply triple_counted; [eapply registers_once_at_most, dangerzone_once |
      apply (dangerzone_spec h0 channels (is_some (ms_secret st2) = true))]|]. intros [pairs3 evs3].
  apply triple_fact with (F := Forall2 (pair_learns (is_some (ms_secret st2) = true) None) (ms_transfers_pair st2) pairs3 /\
    Forall (registration_safe h0 channels (block_block_number a) (map mp_payer_transfer (ms_transfers_pair st2))) evs3 /\
    (registrations evs3 <= 1)%nat); [by intros w [(_ & ? & ?) ?]|]. intros (L3 & S3 & C3).
  eapply triple_bind; [apply triple_pre with (P' := keeps); [by intros w [[] _]|];
    apply (events_for_expired_pairs_spec h0 channels (is_some (ms_secret st2) = true))|].
  intros [[pairs4 wt4] evs4]. apply triple_ret. intros w (Hw & L4 & Q4 & Hwt).
  split; [done|]. split.
  - eapply mediator_wf_step; [exact Hwf2 | eapply pairs_step; by etransitivity | done | exact Hwt | by left].
  - cbn [fst snd ms_secret ms_transfers_pair set_ms_transfers_pair set_ms_waiting_transfer].
    split; [|rewrite !registrations_app, (quiet_registrations evs1), (quiet_registrations evs2),
               (quiet_registrations evs4) by done; lia].
    repeat (apply Forall_app; split); try by apply quiet_safe. by eapply registration_safe_before.
Qed.

Lemma handle_receive_lockedtransfer_frame ch t meta ch' v evs msg :
  handle_receive_lockedtransfer ch t meta = Ok (ch', (v, evs, msg)) ->
  ch_our_state ch' = ch_our_state ch /\ Forall quiet evs.
Proof.
  intros [(_ & _ & _ & -> & ->)|(_ & _ & _ & -> & reason & ->)]%handle_receive_lockedtransfer_inv;
    (split; [done | by apply Forall_singleton]).
Qed.

Lemma handle_refundtransfer_frame u ch a ch' v evs msg :
  ChannelHandlers.handle_refundtransfer u ch a = Ok (ch', (v, evs, msg)) ->
  ch_our_state ch' = ch_our_state ch /\ Forall quiet evs.
Proof.
  unfold ChannelHandlers.handle_refundtransfer. intros ([[v' m] locks] & _ & Hrun)%bind_Ok_inv. destruct v'.
  - destruct locks; [|discriminate]. injection Hrun as <- _ <- _. split; [done | by apply Forall_singleton].
  - apply py_assert_Ok_inv in Hrun as [_ [= <- _ <- _]]. split; [done | by apply Forall_singleton].
Qed.

Lemma handle_init_spec a block_number :
  mediator_admissible h0 channels addresses None (SCActionInitMediator a) ->
  triple start (mediator.handle_init a channels addresses block_number)
    (fun '(o, evs) w => keeps w /\ Forall quiet evs /\ forall st, o = Some st -> mediator_wf st).
Proof.
  intros Hadm. unfold mediator.handle_init. cbv zeta.
  destruct (channels !! _) as [payer|] eqn:Hpayer; [|apply triple_ret; intros w []; naive_solver].
  destruct (Hadm payer Hpayer) as (Hlock & Hnew & Hfw).
  eapply triple_bind with (R := fun r w => ours w /\ Forall quiet r.1.2).
  { apply triple_with_channel. intros w ch [[v evs] msg] [Hw E] Hrun.
    pose proof (handle_receive_lockedtransfer_frame _ _ _ _ _ _ _ Hrun) as [Eq Hq]. split; [|done].
    apply ours_insert; [by apply start_ours | | done].
    eapply handle_receive_lockedtransfer_safe; [by apply (steady_inv h0) | done | by rewrite E | exact Hrun]. }
  intros [[v evs] msg]. cbn. apply triple_fact with (F := Forall quiet evs); [by intros w []|]. intros Hq.
  destruct v; [|apply triple_ret; intros w [[] _]; by split].
  eapply triple_bind; [apply triple_pre with (P' := ours); [by intros w []|]; apply mediate_received_spec; try done|].
  - split; cbn; try done. by intros p ?%elem_of_nil.
  - intros [st more]. apply triple_ret. intros w (Hw & Hwf & Hm). split; [done|].
    split; [by apply Forall_app | naive_solver].
Qed.

Lemma refund_gives_back p t :
  refund_transfer_matches_transfer t (mp_payee_transfer p) = true -> payer_address t = mp_payee_address p ->
  lts_initiator t = ltu_initiator (mp_payee_transfer p) -> gives_back p t.
Proof.
  unfold refund_transfer_matches_transfer. cbv zeta. case_bool_decide; [done|]. intros Hm Ha Hi. split; [done|].
  apply andb_prop in Hm as [Hm Ht]. apply andb_prop in Hm as [Hm He]. apply andb_prop in Hm as [Hm Htg].
  apply andb_prop in Hm as [Hm Hh]. apply andb_prop in Hm as [Hid _].
  unfold is_send_transfer_almost_equal. by rewrite Hid, Ht, He, Hh, Hi, Htg, bool_decide_true.
Qed.

Lemma almost_equal_secrethash u t :
  is_send_transfer_almost_equal u t = true -> lock_secrethash (ltu_lock u) = lock_secrethash (lts_lock t).
Proof.
  unfold is_send_transfer_almost_equal. intros Ha.
  by apply andb_prop in Ha as [[[_ Hh%bool_decide_eq_true]%andb_prop _]%andb_prop _].
Qed.

Lemma gives_back_secrethash p t secrethash :
  pair_wf secrethash p -> gives_back p t -> lock_secrethash (lts_lock t) = secrethash.
Proof. intros [Ha _ _ <-] [_ Hb]. by rewrite <- (almost_equal_secrethash _ _ Hb), (almost_equal_secrethash _ _ Ha). Qed.

Lemma handle_refundtransfer_spec st a block_number :
  mediator_wf st -> mediator_admissible h0 channels addresses (Some st) (SCReceiveTransferRefund a) ->
  triple start (mediator.handle_refundtransfer st a channels addresses block_number) (task_outcome None st block_number).
Proof.
  intros Hwf Hadm. unfold mediator.handle_refundtransfer.
  assert (Hskip : triple start (mret (st, [])) (task_outcome None st block_number)).
  { apply triple_ret. intros w []. by apply quiet_outcome. }
  destruct (ms_secret st) eqn:Hsecret; [exact Hskip|]. destruct (Hadm Hsecret) as [Hno Hrefund]. cbv zeta.
  eapply triple_bind with (R := fun p w => start w /\ last (ms_transfers_pair st) = Some p).
  { apply triple_lift. intros w p Hw Hp%py_get_last_inv. done. }
  intros p. apply triple_fact with (F := last (ms_transfers_pair st) = Some p); [naive_solver|]. intros Hlast.
  apply triple_pre with (P' := start); [naive_solver|].
  destruct (channels !! _) as [payer|] eqn:Hpayer; [|exact Hskip].
  destruct (Hrefund p payer Hlast eq_refl) as (Haddr & Hinit & Hlock & Hnew & Hfw).
  assert (Hpair : pair_wf (ms_secrethash st) p).
  { rewrite last_lookup in Hlast. by apply (Forall_lookup_1 _ _ _ _ (mw_pairs _ Hwf) Hlast). }
  eapply triple_bind with (R := fun r w => ours w /\ Forall quiet r.1.2 /\
    (r.1.1 = true -> gives_back p (rtr_transfer a))).
  { apply triple_with_channel. intros w ch [[v evs] msg] [Hw E] Hrun.
    pose proof (handle_refundtransfer_frame _ _ _ _ _ _ _ Hrun) as [Eq Hq]. split; [|split; [done|]].
    - apply ours_insert; [by apply start_ours | | done].
      eapply handle_refundtransfer_safe; [by apply (steady_inv h0) | done | by rewrite E | exact Hrun].
    - cbn. intros ->. apply handle_refundtransfer_inv in Hrun as [(_ & [_ Hm] & _)|(? & _)]; [|done].
      by apply refund_gives_back. }
  intros [[v evs] msg]. cbn.
  apply triple_fact with (F := Forall quiet evs /\ (v = true -> gives_back p (rtr_transfer a))); [by intros w (_ & ?)|].
  intros [Hq Hgb]. destruct v; [|apply triple_ret; intros w [[] _]; by apply quiet_outcome].
  specialize (Hgb eq_refl).
  eapply triple_bind with (R := fun ch w => ours w /\ ch_identifier ch = ch_identifier (h0 payer)).
  { apply triple_read. intros w [Hw _]. split; [done|]. apply same_ch_identifier, Hw. }
  intros ch. apply triple_fact with (F := ch_identifier ch = ch_identifier (h0 payer)); [by intros w []|]. intros ->.
  eapply triple_bind.
  { apply triple_pre with (P' := ours); [by intros w []|]. apply mediate_received_spec; cbn.
    - destruct Hwf. by split.
    - done.
    - by eapply gives_back_secrethash.
    - intros p0. rewrite Hlast. by intros [= <-].
    - done. }
  intros [st' more]. apply triple_ret. intros w (Hw & Hwf' & Hm). apply quiet_outcome; [done..|]. by apply Forall_app.
Qed.

(** ** The state machine *)

(** The events of a transition, judged by the task it started from. *)
Definition events_safe (st : option MediatorTransferState) (state_change : StateChange) (block_number : Z)
    (evs : list Event) : Prop :=
  match st with
  | Some before => Forall (safe_event h0 channels block_number (told_by state_change) before) evs
  | None => Forall quiet evs
  end.

(** What a transition establishes. *)
Definition transition_outcome (st : option MediatorTransferState) (state_change : StateChange) (block_number : Z)
    (r : option MediatorTransferState * list Event) (w : World Random) : Prop :=
  keeps w /\ (mediator_task r.1 \/ paid_early st state_change r.1) /\
  events_safe st state_change (block_of state_change block_number) r.2 /\ (registrations r.2 <= 1)%nat.

Lemma dispatch_spec st state_change block_number block_hash :
  mediator_task st -> mediator_admissible h0 channels addresses st state_change ->
  triple start (mediator.dispatch st state_change channels addresses block_number block_hash)
    (transition_outcome st state_change block_number).
Proof.
  intros Hwf Hadm. unfold mediator.dispatch. cbv zeta.
  assert (Hskip : triple start (mret (st, [])) (transition_outcome st state_change block_number)).
  { apply triple_ret. intros w [Hw _]. split; [done|]. split; [by left|]. split; [|cbn; lia].
    by destruct st as [[]|]; cbn; constructor. }
  assert (Htask : forall msg (k : MediatorTransferState -> M Random (MediatorTransferState * list Event)),
            (forall s, st = Some s ->
               triple start (k s) (task_outcome (told_by state_change) s (block_of state_change block_number))) ->
            triple start (match st with
                          | Some s => '(s, events) ← k s; mret (Some s, events)
                          | None => lift (Raise (AssertionError msg)) end)
              (transition_outcome st state_change block_number)).
  { intros msg k Hk. destruct st as [s|]; [|by apply triple_lift].
    eapply triple_bind; [by apply Hk|]. intros [s' evs]. apply triple_ret. intros w (Hw & Hs & Hrest).
    split; [done|]. split; [by left | done]. }
  assert (Hkeeps : forall A (m : M Random A) Q, triple keeps m Q -> triple start m Q).
  { intros A m Q. apply triple_pre. by intros w []. }
  destruct state_change; try exact Hskip.
  - apply Htask. intros s ->. eapply triple_pre; [apply start_ours|]. by apply handle_block_spec.
  - apply Htask. intros s ->. by apply Hkeeps, handle_onchain_secretreveal_spec.
  - destruct st as [s|]; [|by apply triple_lift]. eapply triple_bind; [by apply Hkeeps, handle_unlock_spec|].
    intros [s' evs]. apply triple_ret. intros w (Hw & Hq & Hs). split; [done|]. split; [|split].
    + destruct Hs as [?|Hs]; [by left | right; exact Hs].
    + by apply quiet_safe.
    + cbn [snd]. rewrite quiet_registrations by done. lia.
  - apply Htask. intros s ->. by apply Hkeeps, handle_lock_expired_spec.
  - apply Htask. intros s ->. by apply Hkeeps, handle_offchain_secretreveal_spec.
  - apply Htask. intros s ->. by apply handle_refundtransfer_spec.
  - destruct st as [s|]; [exact Hskip|]. eapply triple_post; [by apply handle_init_spec|].
    intros [o evs] w (Hw & Hq & Ho). split; [done|]. cbn [fst snd].
    split; [left; destruct o; [by apply Ho | done]|]. rewrite quiet_registrations by done. split; [done | lia].
Qed.
End MediatorHandlers.

(** ** The claims *)

Section MediatorClaims.
Context `{Externals} {Random : Type} `{RandomGen Random}.
Context (channels : ChannelMap) (addresses : AddressMap).

Lemma check_each_Ok {A} (check : A -> Res unit) l : (forall x, x ∈ l -> check x = Ok tt) -> check_each check l = Ok tt.
Proof.
  induction l as [|x l IH]; intros Hc; [done|]. cbn. rewrite Hc by set_solver. cbn. apply IH. set_solver.
Qed.

(** Neighbouring pairs, as [sanity_check] enumerates them. *)
Lemma chained_zip pairs p q :
  chained pairs -> (p, q) ∈ zip (removelast pairs) (tail pairs) -> gives_back p (mp_payer_transfer q).
Proof.
  induction pairs as [|p1 [|p2 pairs] IH]; [by intros _ ?%elem_of_nil..|]. intros [Hg Hc].
  change (zip (removelast (p1 :: p2 :: pairs)) (tail (p1 :: p2 :: pairs)))
    with ((p1, p2) :: zip (removelast (p2 :: pairs)) (tail (p2 :: pairs))).
  intros [[= -> ->]|Hin]%elem_of_cons; [done | by apply IH].
Qed.

Lemma mediator_wf_sane st : mediator_wf st -> mediator.sanity_check st channels = Ok tt.
Proof.
  intros [Hp Hc Hw Hpd _]. unfold mediator.sanity_check. cbv zeta.
  assert (E1 : (if existsb (fun s => bool_decide (s ∈ STATE_TRANSFER_PAID))
      (map mp_payee_state (ms_transfers_pair st) ++ map mp_payer_state (ms_transfers_pair st))
    then assert! is_some (ms_secret st) with "Mediator's state must have secret" in Ok tt else Ok tt) = Ok tt).
  { destruct (existsb _ _) eqn:He; [|done].
    apply existsb_exists in He as (s & [Hin|Hin]%in_app_or & Hs%bool_decide_eq_true);
      apply in_map_iff in Hin as (p & <- & Hin%list_elem_of_In);
      (rewrite (Hpd p Hin); [done | by (left + right)]). }
  rewrite E1. cbn [bind]. clear E1.
  assert (E2 : match ms_transfers_pair st with
    | first_pair :: _ => assert! bool_decide (ms_secrethash st = lock_secrethash (lts_lock (mp_payer_transfer first_pair)))
          with "Secret hash mismatch" in Ok tt
    | [] => Ok tt end = Ok tt).
  { destruct (ms_transfers_pair st) as [|p rest]; [done|]. apply Forall_cons in Hp as [[_ _ _ Eh] _].
    by rewrite bool_decide_true. }
  rewrite E2. cbn [bind]. clear E2.
  rewrite check_each_Ok. cbn [bind].
  2:{ intros p Hin. destruct (get_payee_channel _ _); [|done].
      pose proof (proj1 (Forall_forall _ _) Hp p Hin) as [-> Hpayer Hpayee _]. cbn [py_assert].
      by rewrite !bool_decide_true. }
  rewrite check_each_Ok. cbn [bind].
  2:{ intros [p q] Hin. pose proof (chained_zip _ _ _ Hc Hin) as [Ha ->].
      rewrite bool_decide_true by done. cbn [py_assert]. by destruct (get_payer_channel _ _). }
  destruct (ms_waiting_transfer st) as [wt|]; [|done]. destruct (last _) as [p|] eqn:Hl; [|done].
  destruct (get_payee_channel _ _); [|done]. destruct (Hw _ eq_refl) as [_ Hg]. by destruct (Hg p eq_refl) as [_ ->].
Qed.

Lemma state_transition_inv st state_change block_number block_hash (w w' : World Random) o evs :
  mediator.state_transition st state_change channels addresses block_number block_hash w = Ok (o, evs, w') ->
  exists o1, mediator.dispatch st state_change channels addresses block_number block_hash w = Ok (o1, evs, w') /\
    o = mediator.clear_if_finalized o1 channels (w_heap w').
Proof.
  unfold mediator.state_transition, mbind, M_bind, get_heap, mret, M_ret, lift.
  intros ([[o1 evs1] w1] & Hd & Hrun)%bind_Ok_inv. apply bind_Ok_inv in Hrun as ([[] w2] & Hs & Hrun).
  apply bind_Ok_inv in Hs as ([] & _ & [= <-]). cbn [bind] in Hrun. injection Hrun as <- <- <-. eauto.
Qed.

Lemma dispatched st state_change block_number block_hash (w w' : World Random) o evs :
  (forall l, channel_inv (w_heap w l)) -> mediator_task st ->
  mediator_admissible (w_heap w) channels addresses st state_change ->
  mediator.dispatch st state_change channels addresses block_number block_hash w = Ok (o, evs, w') ->
  transition_outcome (w_heap w) channels st state_change block_number (o, evs) w'.
Proof.
  intros Hinv Hst Hadm Hd. eapply dispatch_spec; [exact Hst | exact Hadm | | exact Hd].
  split; [by apply steady_refl | done].
Qed.

(** The first thing [sanity_check] tests. *)
Lemma paid_early_insane st state_change after :
  paid_early st state_change (Some after) ->
  mediator.sanity_check after channels = Raise (AssertionError "Mediator's state must have secret").
Proof.
  intros (st0 & st' & u & _ & _ & [= <-] & _ & Hs & p & Hin & Hp). unfold mediator.sanity_check. cbv zeta.
  assert (He : existsb (fun s => bool_decide (s ∈ STATE_TRANSFER_PAID))
      (map mp_payee_state (ms_transfers_pair after) ++ map mp_payer_state (ms_transfers_pair after)) = true).
  { apply existsb_exists. destruct Hp as [Hp|Hp]; eexists; (split; [apply in_or_app | by apply bool_decide_eq_true]);
      [left | right]; by apply in_map, list_elem_of_In. }
  unfold in_states in *. rewrite He, Hs. done.
Qed.

Lemma cleared_task o heap : mediator_task o -> mediator_task (mediator.clear_if_finalized o channels heap).
Proof.
  destruct o as [after|]; [|done]. intros Hst. cbn. destruct (existsb _ _); [done|].
  destruct (ms_waiting_transfer after); [|done]. by destruct (mediator.holds_lock _ _ _ _).
Qed.

(** C8. Payments and secrets leave the node only when it is safe, judged by the
    task as it was before the transition ([safe_event]).  The secret of an unlock
    or a reveal is the preimage of the payment's hash.  An unlock is sent only for
    a pair of the task whose payee had not been paid and knew the secret already,
    or is the one who reveals it in this transition; it goes through an open
    channel, and only while the payer's lock leaves more than the reveal timeout.
    A secret is revealed to a payer only if its pair's payee knew it or reveals
    it now.  A registration is sent only for a received transfer whose channel is
    closed or whose lock is within the reveal timeout, and at most one.  A task
    that starts sends none of the three. *)
Theorem mediator_events_safe st state_change block_number block_hash (w w' : World Random) o evs :
  (forall l, channel_inv (w_heap w l)) -> mediator_task st ->
  mediator_admissible (w_heap w) channels addresses st state_change ->
  mediator.state_transition st state_change channels addresses block_number block_hash w = Ok (o, evs, w') ->
  (registrations evs <= 1)%nat /\
  match st with
  | Some before => Forall (safe_event (w_heap w) channels (block_of state_change block_number)
                             (told_by state_change) before) evs
  | None => Forall quiet evs
  end.
Proof.
  intros Hinv Hst Hadm (o1 & Hd & ->)%state_transition_inv.
  destruct (dispatched _ _ _ _ _ _ _ _ Hinv Hst Hadm Hd) as (_ & _ & Hsafe & Hreg). done.
Qed.

(** C10. Every channel object the task touches stays sound: after any admissible
    transition each channel satisfies the channel invariant and is the same
    channel, with the status, timeouts and addresses it had. *)
Theorem mediator_keeps_channels st state_change block_number block_hash (w w' : World Random) o evs :
  (forall l, channel_inv (w_heap w l)) -> mediator_task st ->
  mediator_admissible (w_heap w) channels addresses st state_change ->
  mediator.state_transition st state_change channels addresses block_number block_hash w = Ok (o, evs, w') ->
  forall l, channel_inv (w_heap w' l) /\ same_channel (w_heap w l) (w_heap w' l).
Proof.
  intros Hinv Hst Hadm (o1 & Hd & ->)%state_transition_inv l.
  destruct (dispatched _ _ _ _ _ _ _ _ Hinv Hst Hadm Hd) as (Hw & _). by destruct (Hw l).
Qed.

(** C9. The task's own invariant: pairs that mirror their transfers, refunds
    chained to the transfers they give back, states a pair may be in, a stored
    preimage once somebody is paid.  When an admissible state change is
    dispatched and its handler returns, either the new task satisfies the
    invariant, [sanity_check], which asserts part of it, passes, and the
    transition returns that task (or ends it); or an unlock marked a pair of a
    task without the secret as paid, and then the transition raises. *)
Theorem mediator_state_typed st state_change block_number block_hash (w w' : World Random) o evs :
  (forall l, channel_inv (w_heap w l)) -> mediator_task st ->
  mediator_admissible (w_heap w) channels addresses st state_change ->
  mediator.dispatch st state_change channels addresses block_number block_hash w = Ok (o, evs, w') ->
  (mediator_task o /\ mediator_task (mediator.clear_if_finalized o channels (w_heap w')) /\
   mediator.state_transition st state_change channels addresses block_number block_hash w
     = Ok (mediator.clear_if_finalized o channels (w_heap w'), evs, w')) \/
  (paid_early st state_change o /\
   mediator.state_transition st state_change channels addresses block_number block_hash w
     = Raise (AssertionError "Mediator's state must have secret")).
Proof.
  intros Hinv Hst Hadm Hd. destruct (dispatched _ _ _ _ _ _ _ _ Hinv Hst Hadm Hd) as (_ & [Hwf|Hearly] & _);
    unfold mediator.state_transition, mbind, M_bind; rewrite Hd; cbn [bind]; unfold lift, get_heap, mret, M_ret.
  - left. split; [exact Hwf|]. split; [by apply cleared_task|].
    assert (Es : match o with Some state => mediator.sanity_check state channels | None => Ok tt end = Ok tt)
      by (destruct o; [by apply mediator_wf_sane | done]).
    by rewrite Es.
  - right. split; [exact Hearly|]. pose proof Hearly as (_ & after & _ & _ & _ & [= ->] & _).
    by rewrite (paid_early_insane _ _ _ Hearly).
Qed.

(** C12. What is forwarded.  Either nothing happens, or a transfer with the same
    payment, secret hash and expiration goes to the payee: its amount is what
    the fees leave and, when fees are capped, within the received amount; its
    lock leaves the node more than the reveal timeout to learn the secret;
    exactly that amount becomes locked in the payee's channel, and no other
    channel changes. *)
Theorem forward_transfer_pair_correct t payer payee block_number (w w' : World Random) o evs :
  let lock := lts_lock t in
  channel_inv (w_heap w payee) -> get_lock (ch_our_state (w_heap w payee)) (lock_secrethash lock) = None ->
  mediator.forward_transfer_pair t payer payee block_number w = Ok (o, evs, w') ->
  match o with
  | None => evs = [] /\ w' = w
  | Some p => exists msg,
      let sent := mp_payee_transfer p in
      let amount := lock_amount (ltu_lock sent) in
      evs = [SendLockedTransfer msg sent] /\ mp_payer_transfer p = t /\
      ltu_payment_identifier sent = lts_payment_identifier t /\
      lock_secrethash (ltu_lock sent) = lock_secrethash lock /\
      lock_expiration (ltu_lock sent) = lock_expiration lock /\
      get_amount_without_fees (lock_amount lock) (w_heap w payer) (w_heap w payee) = Ok (Some amount) /\
      (fs_cap_fees (ch_fee_schedule (w_heap w payer)) = true -> 0 < amount <= lock_amount lock) /\
      ch_reveal_timeout (w_heap w payee) < lock_expiration lock - block_number <= ch_settle_timeout (w_heap w payee) /\
      lock_effect true (w_heap w payee) (w_heap w' payee) 0 amount /\
      (forall l, l <> payee -> w_heap w' l = w_heap w l)
  end.
Proof.
  intros lock Hinv Hnew [(-> & -> & ->)|Hsent]%forward_transfer_pair_inv; [done|].
  destruct Hsent as (amount & mid & g & ch & ev & u & Ha & Huse & Hnz & Hsend & Hu & -> & -> & ->).
  pose proof (send_lockedtransfer_effect _ _ _ _ _ _ _ _ _ _ _ _ _ _ Hinv Hnew Hsend) as Heff.
  apply send_lockedtransfer_copies in Hsend as (msg & u' & -> & E1 & _ & E2 & E3 & E4 & _).
  injection Hu as ->. cbn. fold lock in Ha, E3, E4. exists msg. rewrite E1, E2, E3, E4.
  do 5 (split; [done|]). split; [exact Ha|]. split.
  { intros Hcap. pose proof (forwarded_amount_within_received _ _ _ _ Ha Hcap). lia. }
  split.
  { apply bool_decide_eq_true in Huse. revert Huse. unfold is_channel_usable_for_new_transfer.
    split_ifs; try discriminate. intros _. zbool. subst lock. lia. }
  rewrite fn_lookup_insert. split; [exact Heff|]. intros l Hl. by rewrite fn_lookup_insert_ne.
Qed.
End MediatorClaims.

(** ** Where the mediator does not do what it means to *)

Section MediatorDivergences.
Context `{Externals} {Random : Type} `{RandomGen Random}.
Context (channels : ChannelMap) (addresses : AddressMap).

(** The second case of [mediator_state_typed] occurs: a payer that unlocks before
    it was asked to stops the node.  A valid unlock
    marks the pair as paid, but its secret is not stored in the task, so
    [sanity_check] raises. *)
Theorem unlock_before_secret_raises st p u l block_number block_hash (w : World Random) ch evs msg :
  ms_secret st = None -> ms_transfers_pair st = [p] ->
  bps_sender (lts_balance_proof (mp_payer_transfer p)) = bps_sender (ru_balance_proof u) ->
  channels !! bps_channel_identifier (ru_balance_proof u) = Some l ->
  ChannelHandlers.handle_unlock (w_heap w l) u
    (get_address_metadata (bps_sender (ru_balance_proof u)) (ms_routes st)) = Ok (ch, (true, evs, msg)) ->
  mediator.state_transition (Some st) (SCReceiveUnlock u) channels addresses block_number block_hash w
    = Raise (AssertionError "Mediator's state must have secret").
Proof.
  intros Hs Hp Hsender Hl Hrun. unfold mediator.state_transition. cbn [mediator.dispatch].
  unfold mediator.handle_unlock, mbind, M_bind, mret, M_ret. rewrite Hp. cbn [for_pairs]. unfold mbind, M_bind, mret, M_ret.
  rewrite bool_decide_true, Hl by done. unfold with_channel, mbind, M_bind, mret, M_ret, read, lift, write.
  cbn [bind]. rewrite Hrun. cbn [bind fst snd]. unfold mediator.sanity_check. cbn. rewrite Hs. by rewrite orb_true_r.
Qed.

(** A refund for a task that has only a waiting transfer: the last pair is taken
    from an empty list. *)
Theorem refund_without_pair_raises st a block_number block_hash (w : World Random) :
  ms_secret st = None -> ms_transfers_pair st = [] ->
  mediator.state_transition (Some st) (SCReceiveTransferRefund a) channels addresses block_number block_hash w
    = Raise IndexError.
Proof.
  intros Hs Hp. unfold mediator.state_transition. cbn [mediator.dispatch].
  unfold mediator.handle_refundtransfer, mbind, M_bind. by rewrite Hs, Hp.
Qed.
End MediatorDivergences.

