(* ===== verification/Lifecycle.v ===== *)
(** * The life cycle of a channel

    [get_status] as a state machine: along [state_transition] a channel only
    moves forward, opened -> closing -> closed -> settling -> settled, and when
    each on-chain transaction is sent. *)

From Stdlib Require Import ZArith Lia Strings.Byte.
From stdpp Require Import base gmap list strings pretty.
From S2P Require Import Prelude Encoding MediationFee State Events ChannelViews ChannelValidation ChannelSend ChannelHandlers LockSets ChannelInvariant BalanceProofMessages LockOperations StateTransition.

(** ** Definitions *)

(** The position of a status in the life cycle.  A transaction that finished
    without success leaves the channel unusable until it is settled. *)
Definition status_rank (s : ChannelState) : Z :=
  match s with
  | STATE_OPENED => 0
  | STATE_CLOSING => 1
  | STATE_CLOSED => 2
  | STATE_UNUSABLE => 3
  | STATE_SETTLING => 4
  | STATE_SETTLED => 5
  end.

(** The part of a channel [get_status] reads. *)
Definition same_transactions (ch ch' : NettingChannelState) : Prop :=
  ch_close_transaction ch' = ch_close_transaction ch /\
  ch_settle_transaction ch' = ch_settle_transaction ch.

Lemma same_transactions_status ch ch' : same_transactions ch ch' -> get_status ch' = get_status ch.
Proof. intros [Ec Es]. unfold get_status. by rewrite Ec, Es. Qed.

Lemma same_transactions_trans a b c :
  same_transactions a b -> same_transactions b c -> same_transactions a c.
Proof. intros [] []. split; congruence. Qed.

(** Walks through a handler that returned, one branch at a time. *)
Ltac run_inv H :=
  repeat first
    [ progress (cbv zeta in H)
    | apply bind_Ok_inv in H; let x := fresh "x" in let Hx := fresh "Hx" in destruct H as (x & Hx & H)
    | apply py_assert_Ok_inv in H; let Hx := fresh "Hx" in destruct H as [Hx H]
    | discriminate H
    | match type of H with
      | context [match ?x with _ => _ end] =>
          lazymatch x with context [match _ with _ => _ end] => fail | _ => destruct x eqn:? end
      end ].

Section Lifecycle.
Context `{Externals} {Random : Type} `{RandomGen Random}.

Lemma events_for_coop_settle_transactions ch cs block_number block_hash ch' evs :
  events_for_coop_settle ch cs block_number block_hash = Ok (ch', evs) -> same_transactions ch ch'.
Proof. unfold events_for_coop_settle. intros Hrun. run_inv Hrun; by injection Hrun as <- <-. Qed.

Lemma send_withdraw_request_transactions ch total expiration (prng : Random) meta coop ch' evs prng' :
  send_withdraw_request ch total expiration prng meta coop = (ch', evs, prng') -> same_transactions ch ch'.
Proof. unfold send_withdraw_request. intros Hrun. run_inv Hrun; by injection Hrun as <- <- <-. Qed.

Lemma handle_action_coop_settle_transactions a ch (prng : Random) block_number ch' evs prng' :
  _handle_action_coop_settle a ch prng block_number = Ok (Some ch', evs, prng') -> same_transactions ch ch'.
Proof.
  unfold _handle_action_coop_settle. intros Hrun. destruct (ok _).
  - destruct (send_withdraw_request _ _ _ _ _ _) as [[c e] g] eqn:Hs. injection Hrun as <- <- <-.
    by apply send_withdraw_request_transactions in Hs.
  - run_inv Hrun. by injection Hrun as <- <- <-.
Qed.

Lemma handle_action_withdraw_transactions a ch (prng : Random) block_number ch' evs prng' :
  _handle_action_withdraw a ch prng block_number = Ok (Some ch', evs, prng') -> same_transactions ch ch'.
Proof.
  unfold _handle_action_withdraw. intros Hrun. destruct (ok _).
  - destruct (send_withdraw_request _ _ _ _ _ _) as [[c e] g] eqn:Hs. injection Hrun as <- <- <-.
    by apply send_withdraw_request_transactions in Hs.
  - run_inv Hrun. by injection Hrun as <- <- <-.
Qed.

Lemma handle_receive_withdraw_request_transactions a ch block_number block_hash (prng : Random) ch' evs prng' :
  _handle_receive_withdraw_request a ch block_number block_hash prng = Ok (Some ch', evs, prng') ->
  same_transactions ch ch'.
Proof.
  unfold _handle_receive_withdraw_request, invalid_withdraw_request, confirm_withdraw.
  intros (r & _ & Hrun)%bind_Ok_inv.
  assert (Hreject : forall c err, (let* t := (let error_msg := as_error_message err in
            assert! str_true error_msg with "is_valid_withdraw_request should return error msg if not valid" in
            Ok (Some c, [EventInvalidReceivedWithdrawRequest (rwr_total_withdraw a) error_msg])) in Ok (t, prng))
            = Ok (Some ch', evs, prng') -> same_transactions ch c -> same_transactions ch ch').
  { intros c err Hr Hc. apply bind_Ok_inv in Hr as (x & Hx & Hr). cbv zeta in Hx.
    apply py_assert_Ok_inv in Hx as [_ [= <-]]. by injection Hr as <- <- <-. }
  destruct (fail r); [by eapply Hreject|]. cbv zeta in Hrun.
  destruct (negb _); [by injection Hrun as <- <- <-|].
  destruct (negb _); [by eapply Hreject|]. destruct (0 <? _); [by eapply Hreject|].
  destruct (es_initiated_coop_settle _) as [cs|].
  - destruct (negb _); [by eapply Hreject|]. apply py_assert_Ok_inv in Hrun as [_ Hrun].
    apply bind_Ok_inv in Hrun as ([c e] & Hc & Hrun). injection Hrun as <- <- <-.
    by apply events_for_coop_settle_transactions in Hc.
  - destruct (0 <? _); [by eapply Hreject|].
    destruct (send_withdraw_request _ _ _ _ _ _) as [[c e] g] eqn:Hs. injection Hrun as <- <- <-.
    by apply send_withdraw_request_transactions in Hs.
Qed.

Lemma handle_receive_withdraw_confirmation_transactions a ch block_number block_hash ch' evs :
  _handle_receive_withdraw_confirmation a ch block_number block_hash = Ok (Some ch', evs) ->
  same_transactions ch ch'.
Proof.
  unfold _handle_receive_withdraw_confirmation. intros (r & _ & Hrun)%bind_Ok_inv. cbv zeta in Hrun.
  destruct (ok r); [|run_inv Hrun; by injection Hrun as <- <-].
  destruct (es_initiated_coop_settle _) as [cs|].
  - apply py_assert_Ok_inv in Hrun as [_ Hrun].
    apply bind_Ok_inv in Hrun as ([c e] & Hc & Hrun). injection Hrun as <- <-.
    by apply events_for_coop_settle_transactions in Hc.
  - destruct (_ && _); by injection Hrun as <- <-.
Qed.

Lemma handle_receive_withdraw_expired_transactions a ch block_number ch' evs :
  _handle_receive_withdraw_expired a ch block_number = Ok (Some ch', evs) -> same_transactions ch ch'.
Proof.
  unfold _handle_receive_withdraw_expired. intros Hrun. run_inv Hrun; by injection Hrun as <- <-.
Qed.

Lemma expired_withdraws_loop_transactions snapshot ch block_number (prng : Random) ch' evs prng' :
  expired_withdraws_loop snapshot ch block_number prng = Ok (ch', evs, prng') -> same_transactions ch ch'.
Proof.
  revert ch prng ch' evs prng'. induction snapshot as [|w snapshot IH]; intros ch prng ch' evs prng' Hrun.
  - by injection Hrun as <- <- <-.
  - cbn [expired_withdraws_loop] in Hrun. destruct (negb _); [by injection Hrun as <- <- <-|].
    apply bind_Ok_inv in Hrun as (our & _ & Hrun). cbv zeta in Hrun.
    destruct (message_identifier_from_prng prng) as [mid g].
    apply bind_Ok_inv in Hrun as ([[c e] g'] & Hl & Hrun). injection Hrun as <- <- <-.
    by apply IH in Hl.
Qed.

Lemma update_fee_schedule_transactions ch c ch' :
  update_fee_schedule_after_balance_change ch c = Ok ch' -> same_transactions ch ch'.
Proof.
  unfold update_fee_schedule_after_balance_change. intros (p & _ & (f & _ & [= <-])%bind_Ok_inv)%bind_Ok_inv. done.
Qed.

Lemma handle_channel_deposit_transactions a ch ch' evs :
  _handle_channel_deposit a ch = Ok (Some ch', evs) -> same_transactions ch ch'.
Proof.
  unfold _handle_channel_deposit. intros (c & Hc & [= <- <-])%bind_Ok_inv.
  apply update_fee_schedule_transactions in Hc. eapply same_transactions_trans; [|exact Hc].
  split_ifs; by split.
Qed.

Lemma handle_channel_withdraw_transactions a ch ch' evs :
  _handle_channel_withdraw a ch = Ok (Some ch', evs) -> same_transactions ch ch'.
Proof.
  unfold _handle_channel_withdraw. destruct (negb _); [by intros [= <- <-]|].
  intros (c & Hc & [= <- <-])%bind_Ok_inv.
  apply update_fee_schedule_transactions in Hc. eapply same_transactions_trans; [|exact Hc].
  split_ifs; by split.
Qed.

Lemma handle_channel_settled_transactions a ch ch' evs :
  _handle_channel_settled a ch = Ok (Some ch', evs) ->
  ch_close_transaction ch' = ch_close_transaction ch /\
  (ch_settle_transaction ch' = ch_settle_transaction ch \/
   ch_settle_transaction ch' = mark_success (cr_block_number (crcs_contract a)) (ch_settle_transaction ch)).
Proof.
  unfold _handle_channel_settled. destruct (_ =? _); [|intros [= <- <-]; auto].
  cbv zeta. set (ch1 := set_settled _ ch).
  intros ([ch2 b2] & H2 & ([ch3 b3] & H3 & Hrun)%bind_Ok_inv)%bind_Ok_inv.
  assert (E2 : same_transactions ch1 ch2).
  { destruct (es_initiated_coop_settle (ch_our_state ch1)) as [cs|]; [destruct (coop_settle_matches _ _ _ _ _)|];
      [apply bind_Ok_inv in H2 as (x & _ & [= <- _]) | injection H2 as <- _ | injection H2 as <- _]; done. }
  assert (E3 : same_transactions ch2 ch3).
  { destruct (es_initiated_coop_settle (ch_partner_state ch2)) as [cs|]; [destruct (coop_settle_matches _ _ _ _ _)|];
      [apply bind_Ok_inv in H3 as (x & _ & [= <- _]) | injection H3 as <- _ | injection H3 as <- _]; done. }
  destruct (_ && _); [discriminate|]. injection Hrun as <- _.
  destruct E2 as [Ec2 Es2], E3 as [Ec3 Es3]. cbn.
  destruct b3; cbn; rewrite Ec3, Ec2, Es3, Es2; (split; [done | by right]).
Qed.

(** A transaction that was just marked successful, or that already finished. *)
Lemma mark_success_status b t t' f r :
  mark_success b (Some t) = Some t' ->
  transaction_status t' f r = f \/ transaction_status t' f r = transaction_status t f r.
Proof.
  unfold mark_success, transaction_status. destruct (negb _); intros [= <-]; [left; cbn | by right].
  by rewrite bool_decide_true.
Qed.

Lemma transaction_status_cases t f r :
  transaction_status t f r = f \/ transaction_status t f r = r \/ transaction_status t f r = STATE_UNUSABLE.
Proof. unfold transaction_status. split_ifs; auto. Qed.

Lemma settled_status_rank b ch ch' :
  ch_settle_transaction ch' = mark_success b (ch_settle_transaction ch) ->
  status_rank (get_status ch) <= status_rank (get_status ch').
Proof.
  unfold get_status. intros Es. destruct (ch_settle_transaction ch) as [t|] eqn:E.
  - destruct (mark_success b (Some t)) as [t'|] eqn:Em.
    2:{ revert Em. unfold mark_success. by destruct (negb _). }
    rewrite Es. destruct (mark_success_status b t t' STATE_SETTLED STATE_SETTLING Em) as [-> | ->]; [|lia].
    destruct (transaction_status_cases t STATE_SETTLED STATE_SETTLING) as [-> | [-> | ->]]; cbn; lia.
  - cbn in Es. rewrite Es.
    replace (transaction_status _ STATE_SETTLED STATE_SETTLING) with STATE_SETTLED
      by (unfold transaction_status; by rewrite bool_decide_true).
    destruct (ch_close_transaction ch) as [t|]; [|done].
    destruct (transaction_status_cases t STATE_CLOSED STATE_CLOSING) as [-> | [-> | ->]]; cbn; lia.
Qed.

Lemma prior_to_closed_status ch :
  get_status ch ∈ CHANNEL_STATES_PRIOR_TO_CLOSED ->
  ch_settle_transaction ch = None /\ status_rank (get_status ch) <= 1 /\
  (forall t, ch_close_transaction ch = Some t -> tx_finished_block_number t = None).
Proof.
  unfold get_status, transaction_status, CHANNEL_STATES_PRIOR_TO_CLOSED, is_none.
  destruct (ch_settle_transaction ch) as [t|]; [split_ifs; set_solver|].
  destruct (ch_close_transaction ch) as [t|].
  - case_bool_decide; [set_solver|]. destruct (tx_finished_block_number t) eqn:E; cbn; [set_solver|].
    intros _. split; [done|]. split; [lia|]. by intros ? [= <-].
  - intros _. split; [done|]. split; [cbn; lia | done].
Qed.

Lemma set_closed_status block_number ch :
  get_status ch ∈ CHANNEL_STATES_PRIOR_TO_CLOSED ->
  get_status (set_closed block_number ch) = STATE_CLOSED.
Proof.
  intros (Es & _ & Hf)%prior_to_closed_status. unfold get_status, set_closed. cbn. rewrite Es.
  unfold mark_success. destruct (ch_close_transaction ch) as [t|].
  - rewrite (Hf t eq_refl). cbn. unfold transaction_status. cbn. by rewrite bool_decide_true.
  - unfold transaction_status. cbn. by rewrite bool_decide_true.
Qed.

Lemma handle_action_close_rank a ch block_number block_hash ch' evs :
  _handle_action_close a ch block_number block_hash = Ok (Some ch', evs) ->
  status_rank (get_status ch) <= status_rank (get_status ch').
Proof.
  unfold _handle_action_close, events_for_close. intros [_ Hrun]%py_assert_Ok_inv.
  apply bind_Ok_inv in Hrun as ([c e] & Hc & [= -> _]).
  case_bool_decide as Hst; [|by injection Hc as <- _].
  apply prior_to_closed_status in Hst as (Es & Hr & _).
  cbv zeta in Hc. apply bind_Ok_inv in Hc as (bp & _ & [= <- _]).
  transitivity 1; [done|]. unfold get_status at 1. cbn. rewrite Es.
  unfold transaction_status. cbn. rewrite bool_decide_false by done. cbn. lia.
Qed.

Lemma handle_channel_closed_rank a ch ch' evs :
  _handle_channel_closed a ch = Ok (Some ch', evs) ->
  status_rank (get_status ch) <= status_rank (get_status ch').
Proof.
  unfold _handle_channel_closed. destruct (_ && _) eqn:Hj; [|by intros [= <- _]]. zbool.
  pose proof (set_closed_status (cr_block_number (crcc_contract a)) ch ltac:(done)) as Hst.
  pose proof (prior_to_closed_status ch ltac:(done)) as (_ & Hr & _).
  intros Hrun. assert (Ec : get_status ch' = STATE_CLOSED); [|rewrite Ec; cbn; lia].
  cbv zeta in Hrun. destruct (_ && _ && _); [|by injection Hrun as <- _].
  destruct (es_balance_proof _) as [[bp|bp]|]; try discriminate. by injection Hrun as <- _.
Qed.

Lemma handle_block_rank a ch block_number (prng : Random) ch' evs prng' :
  _handle_block a ch block_number prng = Ok (Some ch', evs, prng') ->
  status_rank (get_status ch) <= status_rank (get_status ch').
Proof.
  unfold _handle_block. intros [_ Hrun]%py_assert_Ok_inv.
  apply bind_Ok_inv in Hrun as ([[c e] g] & Hc & Hrun).
  assert (Hs : get_status c = get_status ch).
  { destruct (bool_decide (get_status ch = STATE_OPENED)); [|by injection Hc as <- _ _].
    apply same_transactions_status. by eapply expired_withdraws_loop_transactions. }
  rewrite <- Hs. clear Hc. case_bool_decide as Hcl; [|by injection Hrun as <- _ _].
  pose proof (get_status_closed c Hcl) as (t & Et & _ & Esettle). rewrite Et in Hrun.
  apply py_assert_Ok_inv in Hrun as [_ Hrun]. cbv zeta in Hrun.
  destruct (_ <? _); [|by injection Hrun as <- _ _]. injection Hrun as <- _ _. rewrite Hcl.
  unfold get_status, transaction_status. cbn. rewrite bool_decide_false by done. cbn. lia.
Qed.

Lemma handle_channel_batch_unlock_transactions a ch ch' evs :
  _handle_channel_batch_unlock a ch = (Some ch', evs) -> same_transactions ch ch'.
Proof.
  unfold _handle_channel_batch_unlock. destruct (bool_decide (get_status ch = _)); [|by intros [= <- _]].
  cbv zeta. destruct (_ && _); [discriminate|]. intros [= <- _]. split_ifs; by split.
Qed.

Lemma handle_state_transitions_rank sc ch block_number block_hash (prng : Random) ch' evs prng' :
  handle_state_transitions sc ch block_number block_hash prng = Ok (Some ch', evs, prng') ->
  status_rank (get_status ch) <= status_rank (get_status ch').
Proof.
  intros Hrun.
  assert (Hsame : same_transactions ch ch' -> status_rank (get_status ch) <= status_rank (get_status ch')).
  { intros Hs. by rewrite (same_transactions_status _ _ Hs). }
  destruct sc; cbn [handle_state_transitions] in Hrun;
    try (lazymatch type of Hrun with
         | keep_prng _ _ = _ => unfold keep_prng in Hrun; apply bind_Ok_inv in Hrun as (x & Hrun & Hx);
             injection Hx as -> <-
         end);
    eauto using handle_block_rank, handle_action_close_rank, handle_channel_closed_rank,
      handle_action_withdraw_transactions, handle_action_coop_settle_transactions,
      handle_receive_withdraw_request_transactions, handle_receive_withdraw_confirmation_transactions,
      handle_receive_withdraw_expired_transactions, handle_channel_deposit_transactions,
      handle_channel_withdraw_transactions;
    try (injection Hrun as <- <-; done).
  - injection Hrun as Hrun. apply Hsame. revert Hrun. unfold _handle_action_set_reveal_timeout.
    destruct (_ && _); by intros [= <- _].
  - apply handle_channel_settled_transactions in Hrun as [Ec [Es|Es]]; [by apply Hsame|].
    by eapply settled_status_rank.
  - injection Hrun as Hrun. apply Hsame. by eapply handle_channel_batch_unlock_transactions.
  - injection Hrun as Hrun. apply Hsame. revert Hrun. unfold _handle_channel_updated_transfer.
    destruct (_ =? _); by intros [= <- _].
Qed.

(** C35. The life cycle only moves forward.  Whatever the state change, if
    [state_transition] returns a channel, its status is not earlier than before
    in the order opened, closing, closed, (unusable,) settling, settled. *)
Theorem state_transition_status_monotone ch sc block_number block_hash (prng : Random) ch' evs prng' :
  state_transition ch sc block_number block_hash prng = Ok (Some ch', evs, prng') ->
  status_rank (get_status ch) <= status_rank (get_status ch').
Proof.
  unfold state_transition. intros ([[nch nevs] g] & Hrun & ([] & _ & [= -> -> ->])%bind_Ok_inv)%bind_Ok_inv.
  by eapply handle_state_transitions_rank.
Qed.

(** C40. The close log.  When a close is mined for an open or closing channel,
    the channel is closed, and the node answers with an update of the partner's
    balance proof, valid for the settlement window, exactly when somebody else
    closed, the partner has a balance proof and no update was started before. *)
Theorem handle_channel_closed_spec ch a :
  channel_inv ch -> get_status ch ∈ CHANNEL_STATES_PRIOR_TO_CLOSED ->
  ci_channel_identifier (crcc_canonical_identifier a) = ch_identifier ch ->
  let b := cr_block_number (crcc_contract a) in
  exists ch' evs,
    _handle_channel_closed a ch = Ok (Some ch', evs) /\ get_status ch' = STATE_CLOSED /\
    ch_our_state ch' = ch_our_state ch /\ ch_partner_state ch' = ch_partner_state ch /\
    match es_balance_proof (ch_partner_state ch) with
    | Some (BPSigned bp) =>
        if bool_decide (crcc_transaction_from a <> es_address (ch_our_state ch))
           && is_none (ch_update_transaction ch)
        then evs = [ContractSendChannelUpdateTransfer (cr_block_hash (crcc_contract a))
                      (b + ch_settle_timeout ch) bp] /\
             ch_update_transaction ch' = Some {| tx_started_block_number := Some b;
                                                tx_finished_block_number := None; tx_result := None |}
        else evs = [] /\ ch_update_transaction ch' = ch_update_transaction ch
    | _ => evs = [] /\ ch_update_transaction ch' = ch_update_transaction ch
    end.
Proof.
  intros Hinv Hst Hid b. unfold _handle_channel_closed. rewrite bool_decide_true by done.
  rewrite Hid, Z.eqb_refl. cbn [andb]. cbv zeta. fold b.
  pose proof (set_closed_status b ch Hst) as Hcl.
  set (ch1 := set_closed b ch) in *.
  pose proof (ci_partner_signed _ Hinv) as Hs. unfold signed_balance_proof in Hs.
  change (es_balance_proof (ch_partner_state ch1)) with (es_balance_proof (ch_partner_state ch)).
  change (es_address (ch_our_state ch1)) with (es_address (ch_our_state ch)).
  change (ch_update_transaction ch1) with (ch_update_transaction ch).
  rewrite bool_decide_not.
  destruct (es_balance_proof (ch_partner_state ch)) as [[bp|bp]|]; [|done|]; cbn [is_some].
  - rewrite andb_true_r. destruct (negb _ && _); do 2 eexists; (split; [reflexivity|]); by repeat split.
  - rewrite andb_false_r. do 2 eexists. split; [reflexivity|]. by repeat split.
Qed.

(** Settling.  On each block a closed channel is settled exactly when the
    settlement window after the mined close has passed; until then nothing
    happens, and once the settle transaction is started the channel is settling,
    so it is sent once. *)
Theorem handle_block_closed ch a block_number (prng : Random) :
  channel_inv ch -> get_status ch = STATE_CLOSED -> block_block_number a = block_number ->
  exists t closed, ch_close_transaction ch = Some t /\ tx_finished_block_number t = Some closed /\
    if closed + ch_settle_timeout ch <? block_number then
      exists ch', _handle_block a ch block_number prng
        = Ok (Some ch', [ContractSendChannelSettle (block_block_hash a) (ch_canonical_identifier ch)], prng) /\
        get_status ch' = STATE_SETTLING /\
        _handle_block a ch' block_number prng = Ok (Some ch', [], prng)
    else _handle_block a ch block_number prng = Ok (Some ch, [], prng).
Proof.
  intros Hinv Hst Hb. pose proof (get_status_closed ch Hst) as (t & Et & Hsucc & _).
  pose proof (ci_closed _ Hinv t Et Hsucc) as Htr.
  destruct (tx_finished_block_number t) as [closed|] eqn:Ef; [|discriminate].
  exists t, closed. split; [done|]. split; [done|]. unfold _handle_block.
  rewrite !py_assert_true by (by apply Z.eqb_eq).
  rewrite Hst. rewrite (bool_decide_false (STATE_CLOSED = STATE_OPENED)) by done. cbn [bind].
  rewrite Hst, bool_decide_true, Et, Ef by done. rewrite py_assert_true by done. cbn [default]. cbv zeta. rewrite Hb.
  change (default 0 (Some closed)) with closed.
  destruct (_ <? _); [|done]. eexists. split; [reflexivity|].
  match goal with |- get_status ?c = _ /\ _ => assert (Hs2 : get_status c = STATE_SETTLING) end.
  { unfold get_status. cbn. unfold transaction_status. cbn. by rewrite bool_decide_false. }
  split; [exact Hs2|]. rewrite py_assert_true by (apply Z.eqb_refl).
  by rewrite Hs2, !bool_decide_false.
Qed.

(** ** Settlement *)

(** With locks left on-chain the settlement cannot be the one of a cooperative
    settlement. *)
Lemma coop_settle_matches_false cs i p c1 c2 : c1 && c2 = false -> coop_settle_matches cs i p c1 c2 = false.
Proof. intros Hc. unfold coop_settle_matches. destruct c1, c2; try discriminate; by rewrite ?andb_false_r. Qed.

Lemma handle_channel_settled_locks_left ch a :
  ci_channel_identifier (crcs_canonical_identifier a) = ch_identifier ch ->
  bool_decide (crcs_our_onchain_locksroot a = LOCKSROOT_OF_NO_LOCKS)
  && bool_decide (crcs_partner_onchain_locksroot a = LOCKSROOT_OF_NO_LOCKS) = false ->
  _handle_channel_settled a ch
  = Ok (Some (upd_partner (set_es_onchain_locksroot (crcs_partner_onchain_locksroot a))
               (upd_our (set_es_onchain_locksroot (crcs_our_onchain_locksroot a))
                  (set_settled (cr_block_number (crcs_contract a)) ch))),
        [ContractSendChannelBatchUnlock (cr_block_hash (crcs_contract a)) (ch_canonical_identifier ch)
           (es_address (ch_partner_state ch))]).
Proof.
  intros Hid Hc. unfold _handle_channel_settled. rewrite Hid, Z.eqb_refl. cbv zeta.
  assert (Heq : forall (o : option CoopSettleState) i p (x : Res (NettingChannelState * bool)) y,
      match o with
      | Some cs => if coop_settle_matches cs i p (bool_decide (crcs_our_onchain_locksroot a = LOCKSROOT_OF_NO_LOCKS))
                        (bool_decide (crcs_partner_onchain_locksroot a = LOCKSROOT_OF_NO_LOCKS)) then x else y
      | None => y end = y).
  { intros [cs|] i p x y; [by rewrite coop_settle_matches_false | done]. }
  rewrite !Heq. cbn [bind]. rewrite !Heq. cbn [bind]. by rewrite Hc.
Qed.

Lemma set_settled_status b ch :
  (forall t, ch_settle_transaction ch = Some t -> tx_finished_block_number t = None) ->
  get_status (set_settled b ch) = STATE_SETTLED.
Proof.
  intros Hf. unfold get_status, set_settled. cbn. unfold mark_success.
  destruct (ch_settle_transaction ch) as [t|].
  - rewrite (Hf t eq_refl). cbn. unfold transaction_status. cbn. by rewrite bool_decide_true.
  - unfold transaction_status. cbn. by rewrite bool_decide_true.
Qed.

Lemma batch_unlock_our u ch :
  get_status ch = STATE_SETTLED -> crbu_sender u = es_address (ch_our_state ch) ->
  _handle_channel_batch_unlock u ch
  = (if bool_decide (es_onchain_locksroot (ch_partner_state ch) = LOCKSROOT_OF_NO_LOCKS) then None
     else Some (upd_our (set_es_onchain_locksroot LOCKSROOT_OF_NO_LOCKS) ch), []).
Proof.
  intros Hst E. unfold _handle_channel_batch_unlock. rewrite Hst, E, (bool_decide_true (STATE_SETTLED = _)), (bool_decide_true (es_address _ = _)) by done. cbv zeta.
  cbn [es_onchain_locksroot ch_our_state ch_partner_state upd_our set_ch_our_state set_es_onchain_locksroot].
  rewrite (bool_decide_true (LOCKSROOT_OF_NO_LOCKS = _)) by done. cbn [andb]. by destruct (bool_decide _).
Qed.

Lemma batch_unlock_partner u ch :
  get_status ch = STATE_SETTLED -> crbu_sender u = es_address (ch_partner_state ch) ->
  es_address (ch_our_state ch) <> es_address (ch_partner_state ch) ->
  _handle_channel_batch_unlock u ch
  = (if bool_decide (es_onchain_locksroot (ch_our_state ch) = LOCKSROOT_OF_NO_LOCKS) then None
     else Some (upd_partner (set_es_onchain_locksroot LOCKSROOT_OF_NO_LOCKS) ch), []).
Proof.
  intros Hst E Hne. unfold _handle_channel_batch_unlock. rewrite Hst, E, (bool_decide_true (STATE_SETTLED = _)) by done.
  rewrite (bool_decide_false (es_address (ch_partner_state ch) = es_address (ch_our_state ch))) by (by apply not_eq_sym).
  rewrite (bool_decide_true (es_address _ = _)) by done. cbv zeta.
  cbn [es_onchain_locksroot ch_our_state ch_partner_state upd_partner set_ch_partner_state set_es_onchain_locksroot].
  rewrite (bool_decide_true (LOCKSROOT_OF_NO_LOCKS = _)) by done. rewrite andb_true_r. by destruct (bool_decide _).
Qed.

Lemma batch_unlock_end (our : bool) u ch :
  get_status ch = STATE_SETTLED -> crbu_sender u = es_address (end_of our ch) ->
  es_address (ch_our_state ch) <> es_address (ch_partner_state ch) ->
  _handle_channel_batch_unlock u ch
  = (if bool_decide (es_onchain_locksroot (end_of (negb our) ch) = LOCKSROOT_OF_NO_LOCKS) then None
     else Some ((if our then upd_our else upd_partner) (set_es_onchain_locksroot LOCKSROOT_OF_NO_LOCKS) ch), []).
Proof. destruct our; intros Hst E Hne; [by apply batch_unlock_our | by apply batch_unlock_partner]. Qed.

(** The locksroot a settlement left for one end. *)
Definition settled_locksroot (our : bool) (a : ContractReceiveChannelSettled) : bytes :=
  if our then crcs_our_onchain_locksroot a else crcs_partner_onchain_locksroot a.

(** C36. Settlement with locks left.  When a settlement is mined whose locksroots
    are not both empty, the channel is settled, keeps the two locksroots and asks
    for one batch unlock.  A batch unlock of either end, mined first, removes the
    channel at once if the other end has no locks on-chain; otherwise the channel
    stays settled with that end's locksroot cleared, and is removed by the batch
    unlock of the other end. *)
Theorem settled_channel_removed_after_unlocks ch a (first : bool) (u1 : ContractReceiveChannelBatchUnlock) :
  ci_channel_identifier (crcs_canonical_identifier a) = ch_identifier ch ->
  (forall t, ch_settle_transaction ch = Some t -> tx_finished_block_number t = None) ->
  ~ (crcs_our_onchain_locksroot a = LOCKSROOT_OF_NO_LOCKS /\ crcs_partner_onchain_locksroot a = LOCKSROOT_OF_NO_LOCKS) ->
  es_address (ch_our_state ch) <> es_address (ch_partner_state ch) ->
  crbu_sender u1 = es_address (end_of first ch) ->
  exists ch1,
    _handle_channel_settled a ch
    = Ok (Some ch1, [ContractSendChannelBatchUnlock (cr_block_hash (crcs_contract a)) (ch_canonical_identifier ch)
                       (es_address (ch_partner_state ch))]) /\
    get_status ch1 = STATE_SETTLED /\
    (forall our, es_onchain_locksroot (end_of our ch1) = settled_locksroot our a) /\
    (settled_locksroot (negb first) a = LOCKSROOT_OF_NO_LOCKS -> _handle_channel_batch_unlock u1 ch1 = (None, [])) /\
    (settled_locksroot (negb first) a <> LOCKSROOT_OF_NO_LOCKS -> exists ch2,
       _handle_channel_batch_unlock u1 ch1 = (Some ch2, []) /\ get_status ch2 = STATE_SETTLED /\
       es_onchain_locksroot (end_of first ch2) = LOCKSROOT_OF_NO_LOCKS /\
       es_onchain_locksroot (end_of (negb first) ch2) = settled_locksroot (negb first) a /\
       forall u2, crbu_sender u2 = es_address (end_of (negb first) ch) ->
         _handle_channel_batch_unlock u2 ch2 = (None, [])).
Proof.
  intros Hid Hf Hsome Hne E1.
  assert (Hc : bool_decide (crcs_our_onchain_locksroot a = LOCKSROOT_OF_NO_LOCKS)
            && bool_decide (crcs_partner_onchain_locksroot a = LOCKSROOT_OF_NO_LOCKS) = false)
    by (rewrite <- bool_decide_and; by apply bool_decide_false).
  rewrite (handle_channel_settled_locks_left ch a Hid Hc).
  pose proof (set_settled_status (cr_block_number (crcs_contract a)) ch Hf) as Hst.
  set (ch1 := upd_partner _ _).
  assert (Hroot : forall our, es_onchain_locksroot (end_of our ch1) = settled_locksroot our a) by (by intros []).
  assert (Haddr : forall our, es_address (end_of our ch1) = es_address (end_of our ch)) by (by intros []).
  exists ch1. split; [reflexivity|]. split; [exact Hst|]. split; [exact Hroot|].
  rewrite (batch_unlock_end first u1 ch1 Hst), Hroot by (by rewrite ?Haddr). split; intros Hother.
  { by rewrite bool_decide_true. }
  rewrite bool_decide_false by done. eexists. split; [reflexivity|].
  split; [by destruct first|]. split; [by destruct first|]. split; [by destruct first|]. intros u2 E2.
  rewrite (batch_unlock_end (negb first)); [| by destruct first | by destruct first | by destruct first].
  rewrite negb_involutive. by destruct first; rewrite bool_decide_true.
Qed.

(** ** Deposits *)

Lemma update_contract_balance_max z es :
  update_contract_balance z es = set_es_contract_balance (Z.max z (es_contract_balance es)) es.
Proof.
  unfold update_contract_balance. destruct (Z.ltb_spec (es_contract_balance es) z).
  - by rewrite Z.max_l by lia.
  - rewrite Z.max_r by lia. by destruct es.
Qed.

Lemma deposited_commute a1 a2 ch : deposited a2 (deposited a1 ch) = deposited a1 (deposited a2 ch).
Proof.
  unfold deposited.
  destruct (bool_decide (dep_participant_address (crcd_deposit_transaction a1) = es_address (ch_our_state ch))) eqn:E1,
           (bool_decide (dep_participant_address (crcd_deposit_transaction a2) = es_address (ch_our_state ch))) eqn:E2,
           (bool_decide (dep_participant_address (crcd_deposit_transaction a1) = es_address (ch_partner_state ch))) eqn:E3,
           (bool_decide (dep_participant_address (crcd_deposit_transaction a2) = es_address (ch_partner_state ch))) eqn:E4;
    rewrite ?update_contract_balance_max; unfold upd_our, upd_partner; rewrite ?update_contract_balance_max;
    cbn [es_address ch_our_state ch_partner_state set_ch_our_state set_ch_partner_state set_es_contract_balance];
    rewrite ?E1, ?E2, ?E3, ?E4, ?update_contract_balance_max;
    cbn [es_contract_balance ch_our_state ch_partner_state set_ch_our_state set_ch_partner_state set_es_contract_balance];
    try done; unfold set_ch_our_state, set_ch_partner_state, set_es_contract_balance; cbn; do 2 f_equal; lia.
Qed.

Lemma deposited_fee_schedule a fees ch : deposited a (set_ch_fee_schedule fees ch) = set_ch_fee_schedule fees (deposited a ch).
Proof. unfold deposited. cbn. split_ifs; done. Qed.

(** The channel after a deposit log: its fee schedule depends on the rates the
    channel had and on the new capacity. *)
Lemma handle_channel_deposit_inv a ch ch' evs :
  _handle_channel_deposit a ch = Ok (Some ch', evs) ->
  exists penalty fees,
    calculate_imbalance_fees (get_capacity (deposited a ch))
      (get_proportional_imbalance_fee (crcd_fee_config a) (ch_token_address ch)) = Ok penalty /\
    FeeScheduleState_init (fs_cap_fees (ch_fee_schedule ch)) (fs_flat (ch_fee_schedule ch))
      (fs_proportional (ch_fee_schedule ch)) penalty = Ok fees /\
    ch' = set_ch_fee_schedule fees (deposited a ch) /\ evs = [].
Proof.
  assert (Hfs : ch_fee_schedule (deposited a ch) = ch_fee_schedule ch) by (unfold deposited; split_ifs; done).
  assert (Htok : ch_token_address (deposited a ch) = ch_token_address ch) by (unfold deposited; split_ifs; done).
  unfold _handle_channel_deposit. fold (deposited a ch). intros (c & Hc & [= <- <-])%bind_Ok_inv.
  unfold update_fee_schedule_after_balance_change in Hc. rewrite Hfs, Htok in Hc.
  apply bind_Ok_inv in Hc as (penalty & Hp & Hc). apply bind_Ok_inv in Hc as (fees & Hf & [= <-]).
  by exists penalty, fees.
Qed.

Lemma FeeScheduleState_init_rates cap flat prop penalty s :
  FeeScheduleState_init cap flat prop penalty = Ok s ->
  fs_cap_fees s = cap /\ fs_flat s = flat /\ fs_proportional s = prop.
Proof. unfold FeeScheduleState_init. by intros (f & _ & [= <-])%bind_Ok_inv. Qed.

Lemma deposited_totals a ch :
  (our_total_deposit (deposited a ch)
   = if bool_decide (dep_participant_address (crcd_deposit_transaction a) = es_address (ch_our_state ch))
     then Z.max (dep_contract_balance (crcd_deposit_transaction a)) (our_total_deposit ch) else our_total_deposit ch) /\
  (partner_total_deposit (deposited a ch)
   = if negb (bool_decide (dep_participant_address (crcd_deposit_transaction a) = es_address (ch_our_state ch)))
        && bool_decide (dep_participant_address (crcd_deposit_transaction a) = es_address (ch_partner_state ch))
     then Z.max (dep_contract_balance (crcd_deposit_transaction a)) (partner_total_deposit ch)
     else partner_total_deposit ch) /\
  es_address (ch_our_state (deposited a ch)) = es_address (ch_our_state ch) /\
  es_address (ch_partner_state (deposited a ch)) = es_address (ch_partner_state ch).
Proof.
  unfold deposited, our_total_deposit, partner_total_deposit, upd_our, upd_partner.
  destruct (bool_decide _); cbn; [|destruct (bool_decide _)]; cbn; rewrite ?update_contract_balance_max; done.
Qed.

(** Deposits commute.  Two deposit logs, of the same end or of both, lead to
    the same channel in either order: each end's deposit is the largest total
    seen, and the imbalance penalty is that of the final capacity. *)
Theorem deposits_commute ch a1 a2 c1 c12 c2 c21 e1 e12 e2 e21 :
  crcd_fee_config a1 = crcd_fee_config a2 ->
  _handle_channel_deposit a1 ch = Ok (Some c1, e1) -> _handle_channel_deposit a2 c1 = Ok (Some c12, e12) ->
  _handle_channel_deposit a2 ch = Ok (Some c2, e2) -> _handle_channel_deposit a1 c2 = Ok (Some c21, e21) ->
  c12 = c21 /\
  our_total_deposit c12 = Z.max (our_total_deposit c1) (our_total_deposit c2) /\
  partner_total_deposit c12 = Z.max (partner_total_deposit c1) (partner_total_deposit c2).
Proof.
  intros Hcfg (p1 & f1 & _ & F1 & -> & _)%handle_channel_deposit_inv (p12 & f12 & P12 & F12 & -> & _)%handle_channel_deposit_inv
    (p2 & f2 & _ & F2 & -> & _)%handle_channel_deposit_inv (p21 & f21 & P21 & F21 & -> & _)%handle_channel_deposit_inv.
  rewrite !deposited_fee_schedule in *.
  apply FeeScheduleState_init_rates in F1 as (E1 & E2 & E3). apply FeeScheduleState_init_rates in F2 as (E4 & E5 & E6).
  cbn [ch_fee_schedule ch_token_address set_ch_fee_schedule] in P12, P21, F12, F21.
  rewrite E1, E2, E3 in F12. rewrite E4, E5, E6 in F21. rewrite (deposited_commute a1 a2) in *.
  assert (Htok : forall a, ch_token_address (deposited a ch) = ch_token_address ch) by (intros a; unfold deposited; split_ifs; done).
  rewrite Htok, Hcfg in *.
  assert (p12 = p21) as -> by (assert (Ok p12 = Ok p21) as [= ?] by (rewrite <- P12, <- P21; done); done).
  assert (f12 = f21) as -> by congruence. split; [done|].
  rewrite <- (deposited_commute a1 a2).
  destruct (deposited_totals a1 ch) as (O1 & Q1 & A1 & B1). destruct (deposited_totals a2 ch) as (O2 & Q2 & A2 & B2).
  destruct (deposited_totals a2 (deposited a1 ch)) as (O3 & Q3 & _). rewrite A1, B1, O1, Q1 in *.
  split.
  - change (our_total_deposit (deposited a2 (deposited a1 ch)) = our_total_deposit (deposited a1 ch) `max` our_total_deposit (deposited a2 ch)).
    rewrite O3, O1, O2. split_ifs; lia.
  - change (partner_total_deposit (deposited a2 (deposited a1 ch)) = partner_total_deposit (deposited a1 ch) `max` partner_total_deposit (deposited a2 ch)).
    rewrite Q3, Q1, Q2. split_ifs; lia.
Qed.
End Lifecycle.
