(* ===== verification/ChannelTheorems.v ===== *)
(** * The channel as a whole: the theorems

    Reachable channels are sane, every admissible state change is processed,
    what [sanity_check] tests, how the pending locks account for the locked
    amount, what learning a secret does, and that the send functions succeed
    when the code's own preconditions hold. *)

From Stdlib Require Import ZArith Lia Strings.Byte Sorting.Sorted.
From stdpp Require Import base gmap list strings pretty relations.
From S2P Require Import Prelude Encoding MediationFee State Events ChannelViews ChannelValidation ChannelSend ChannelHandlers LockSets ChannelInvariant BalanceProofMessages LockOperations StateTransition TransferTheorems Reachability.

(** The amounts of the pending locks, decoded from their encodings. *)
Definition pending_amounts (locks : PendingLocksState) : list Z :=
  map (fun encoded => (Lock_decode encoded).1.1) locks.

Definition sum_Z (l : list Z) : Z := fold_right Z.add 0 l.

Lemma sum_Z_permutation l l' : l ≡ₚ l' -> sum_Z l = sum_Z l'.
Proof. induction 1; simpl; lia. Qed.

Lemma sum_encodings (m : lockmap) :
  map_Forall (fun h l => lock_wf l /\ lock_secrethash l = h) m ->
  sum_Z (pending_amounts (encodings m)) = map_sum lock_amount m.
Proof.
  induction m as [|h l m Hh IH] using map_ind; intros Hwf.
  - by rewrite encodings_empty, map_sum_empty.
  - apply map_Forall_insert in Hwf as [[Hl _] Hwf]; [|done].
    rewrite map_sum_insert by done. rewrite <- IH by done.
    assert (Hp : pending_amounts (encodings (<[h:=l]> m)) ≡ₚ pending_amounts (lock_encoded l :: encodings m))
      by (apply Permutation_map, encodings_insert, Hh).
    rewrite (sum_Z_permutation _ _ Hp).
    change (sum_Z (pending_amounts (lock_encoded l :: encodings m)))
      with ((Lock_decode (lock_encoded l)).1.1 + sum_Z (pending_amounts (encodings m))).
    destruct (lock_wf_inv l Hl) as (? & ? & _ & ->). by rewrite Lock_decode_lock_as_bytes.
Qed.

Section Theorems.
Context `{Externals} {Random : Type} `{RandomGen Random}.

(** C1. Safety of every reachable channel.  Start from a freshly opened channel
    and take any number of steps: admissible state changes (whose withdraws stay
    within the unlocked amount), and any sequence of sent or received locked
    transfers and refunds with secret hashes that are not pending, of unlocks and
    expired locks, and of registered secrets.  Then [sanity_check] passes, neither end has promised
    more than it owns, and the tokens of both ends add up to the capacity. *)
Theorem reachable_channel_is_sane ch :
  reachable ch ->
  sanity_check ch = Ok tt /\
  0 <= get_distributable (ch_our_state ch) (ch_partner_state ch) /\
  0 <= get_distributable (ch_partner_state ch) (ch_our_state ch) /\
  get_balance (ch_our_state ch) (ch_partner_state ch)
  + get_balance (ch_partner_state ch) (ch_our_state ch) = get_capacity ch.
Proof.
  intros Hinv%reachable_inv. split; [by apply sanity_check_iff, channel_inv_sane|].
  pose proof (ci_our_solvent _ Hinv) as Hso. pose proof (ci_partner_solvent _ Hinv) as Hsp.
  unfold solvent in *. unfold get_distributable.
  destruct (get_current_balanceproof (ch_our_state ch)) as [[[? ?] ?] ?].
  destruct (get_current_balanceproof (ch_partner_state ch)) as [[[? ?] ?] ?].
  split; [lia|]. split; [lia|]. apply balances_sum_to_capacity.
Qed.

(** C2. The transition function is total on admissible state changes: it
    returns (no assertion of any handler and no sanity check fires), and the
    new channel, unless it was removed, satisfies the invariant again. *)
Theorem state_transition_total ch sc block_number block_hash (prng : Random) :
  channel_inv ch -> admissible ch block_number sc ->
  exists ch' evs prng',
    state_transition ch sc block_number block_hash prng = Ok (ch', evs, prng') /\
    match ch' with Some ch' => channel_inv ch' | None => True end.
Proof.
  intros Hinv Hadm.
  destruct (state_transition_preserves ch sc block_number block_hash prng Hinv Hadm) as (ch' & evs & g & E & Hch).
  exists ch', evs, g. split; [done|]. by destruct ch' as [c|]; [apply Hch|].
Qed.

(** What [sanity_check] tests.  It passes exactly on [sane] channels.  The
    assertions about the capacity and about distributable plus locked amounts
    are not part of [sane]: they hold of every state. *)
Theorem sanity_check_spec ch :
  (sanity_check ch = Ok tt <-> sane ch) /\
  get_balance (ch_our_state ch) (ch_partner_state ch)
  + get_balance (ch_partner_state ch) (ch_our_state ch) = get_capacity ch /\
  get_distributable (ch_our_state ch) (ch_partner_state ch) + get_amount_locked (ch_our_state ch)
    <= get_balance (ch_our_state ch) (ch_partner_state ch).
Proof.
  split; [apply sanity_check_iff|]. split; [apply balances_sum_to_capacity|].
  apply distributable_within_balance.
Qed.

(** The amounts in the list of pending locks of an end, and the locked amount of
    its balance proof, are its locked amount plus what is [missing] from it. *)
Definition locks_account (es : NettingChannelEndState) (missing : Z) : Prop :=
  sum_Z (pending_amounts (es_pending_locks es)) = get_amount_locked es + missing /\
  match es_balance_proof es with
  | Some bp => bp_locked_amount bp = get_amount_locked es + missing /\
               bp_locksroot bp = keccak (concat (es_pending_locks es)) /\
               bp_transferred_amount bp + bp_locked_amount bp <= UINT256_MAX
  | None => get_amount_locked es = 0 /\ missing = 0
  end.

Lemma locks_inv_account es : locks_inv es -> locks_account es 0.
Proof.
  intros Hl. split.
  - rewrite Z.add_0_r, get_amount_locked_all_locks by apply Hl. rewrite <- sum_encodings by apply Hl.
    apply sum_Z_permutation, Permutation_map, Hl.
  - pose proof (li_bp _ Hl) as Hbp. unfold balance_proof_inv in Hbp.
    destruct (es_balance_proof es) eqn:E; [|by split; [apply locks_inv_no_balance_proof|]].
    destruct Hbp as (Er & El & _ & Hmax). rewrite El, Z.add_0_r. done.
Qed.

Lemma sum_Z_app l l' : sum_Z (l ++ l') = sum_Z l + sum_Z l'.
Proof. induction l; simpl; lia. Qed.

Lemma accepted_lock_account bp lock ch ch' :
  channel_inv ch -> lock_wf lock -> lock_taken bp lock ch ch' ->
  acceptable_lock bp lock ch (ch_partner_state ch) (ch_our_state ch) ->
  locks_account (ch_partner_state ch') (replaced_amount (ch_partner_state ch) (lock_secrethash lock)).
Proof.
  intros Hinv Hwf Htaken Hacc. destruct (locks_inv_account _ (ci_partner _ Hinv)) as [Hsum _].
  pose proof (lock_wf_amount _ Hwf) as Hpos.
  destruct (distributable_bounds _ _ _ (ci_partner _ Hinv) Hpos (al_distributable _ _ _ _ _ Hacc)) as [_ Hmax].
  pose proof (al_transferred _ _ _ _ _ Hacc) as Et.
  rewrite (get_current_balanceproof_amounts _ (ci_partner _ Hinv)) in Et. cbn in Et.
  pose proof (tk_proved _ _ _ _ Htaken) as Ep. pose proof (tk_amount _ _ _ _ Htaken) as Ea.
  unfold locks_account. rewrite (tk_pending _ _ _ _ Htaken), (tk_balance_proof _ _ _ _ Htaken). split.
  - unfold pending_amounts in *. rewrite map_app, sum_Z_app, Hsum. cbn [map sum_Z fold_right].
    destruct (lock_wf_inv _ Hwf) as (? & ? & _ & ->). rewrite Lock_decode_lock_as_bytes by done. cbn. lia.
  - cbn [bp_locked_amount bp_locksroot bp_transferred_amount]. split; [lia|].
    split; [apply (al_locksroot _ _ _ _ _ Hacc) | lia].
Qed.

(** C7. The pending locks account for the locked amount, as long as the secret
    hashes of new locks are new.  In a reachable channel (whose steps lock only
    under hashes that are not pending) the amounts encoded in each end's list of
    pending locks, the preimage of the locksroot that is settled on-chain, sum up
    to that end's locked amount, and the locked amount of its balance proof is
    the same.  The code does not check that a hash is new: after the next
    transfer it accepts from such a channel, with any hash, the locked amount of
    the partner falls short of both by exactly the amount of the lock that was
    locked under that hash. *)
Theorem pending_locks_account_for_locked_amount ch :
  reachable ch ->
  (forall our, locks_account (end_of our ch) 0) /\
  (forall t meta ch' evs msg, lock_wf (lts_lock t) ->
     handle_receive_lockedtransfer ch t meta = Ok (ch', (true, evs, msg)) ->
     locks_account (ch_our_state ch') 0 /\
     locks_account (ch_partner_state ch') (replaced_amount (ch_partner_state ch) (lock_secrethash (lts_lock t)))).
Proof.
  intros Hinv%reachable_inv. split.
  - intros []; apply locks_inv_account, Hinv.
  - intros t meta ch' evs msg Hwf [(_ & _ & Hacc & -> & _)|(? & _)]%handle_receive_lockedtransfer_inv; [|done].
    pose proof (accepted_lock_taken _ _ _ Hinv Hacc) as Htaken.
    split; [rewrite (tk_our _ _ _ _ Htaken); apply locks_inv_account, Hinv | by eapply accepted_lock_account].
Qed.

Lemma register_secret_get_secret secret secrethash es l :
  maps_disjoint es -> es_secrethashes_to_lockedlocks es !! secrethash = Some l ->
  get_secret (register_secret_endstate secret secrethash es) secrethash = Some secret /\
  is_lock_locked (register_secret_endstate secret secrethash es) secrethash = false.
Proof.
  intros _ Hl. unfold register_secret_endstate, get_secret, is_lock_locked. rewrite Hl. cbn.
  by rewrite lookup_insert_eq, lookup_delete_eq.
Qed.

(** Learning a secret off-chain.  Registering the secret of a lock that is
    still locked at the partner's end makes it known there without changing any
    locked amount, balance, pending lock or balance proof of the channel. *)
Theorem register_offchain_secret_correct ch secret secrethash l :
  channel_inv ch -> es_secrethashes_to_lockedlocks (ch_partner_state ch) !! secrethash = Some l ->
  let ch' := register_offchain_secret secret secrethash ch in
  channel_inv ch' /\
  get_secret (ch_partner_state ch') secrethash = Some secret /\
  is_lock_locked (ch_partner_state ch') secrethash = false /\
  get_lock (ch_partner_state ch') secrethash = Some l /\
  all_locks (ch_our_state ch') = all_locks (ch_our_state ch) /\
  all_locks (ch_partner_state ch') = all_locks (ch_partner_state ch) /\
  get_balance (ch_partner_state ch') (ch_our_state ch') = get_balance (ch_partner_state ch) (ch_our_state ch).
Proof.
  intros Hinv Hl ch'. split; [by apply register_offchain_secret_inv|].
  destruct (register_secret_endstate_locks secret secrethash _ (ci_our _ Hinv)) as (_ & _ & Eo).
  destruct (register_secret_endstate_locks secret secrethash _ (ci_partner _ Hinv)) as (_ & _ & Ep).
  destruct (register_secret_get_secret secret secrethash _ l (li_disjoint _ (ci_partner _ Hinv)) Hl) as [Es El].
  split; [exact Es|]. split; [exact El|]. split; [|split; [exact Eo|split; [exact Ep|]]].
  - assert (Ep' : all_locks (ch_partner_state ch') = all_locks (ch_partner_state ch)) by exact Ep.
    rewrite <- all_locks_get_lock, Ep', all_locks_get_lock. unfold get_lock. by rewrite Hl.
  - destruct (same_money_register_secret secret secrethash (ch_our_state ch)) as (Fo & Bo & _).
    destruct (same_money_register_secret secret secrethash (ch_partner_state ch)) as (Fp & Bp & _).
    cbn. rewrite (same_funds_balance _ _ _ _ Fp Fo). unfold transferred_amount. rewrite Bo, Bp. lia.
Qed.

(** Learning a secret on-chain.  A reveal in time (not after the lock's
    expiration) makes the lock claimable: it is never treated as expired again.
    A late reveal changes nothing.  Amounts never change. *)
Theorem register_onchain_secret_correct ch secret secrethash block_number l :
  channel_inv ch -> unclaimed_lock (ch_partner_state ch) secrethash = Some l ->
  exists ch',
    register_onchain_secret secret secrethash block_number true ch = Ok ch' /\ channel_inv ch' /\
    get_amount_locked (ch_partner_state ch') = get_amount_locked (ch_partner_state ch) /\
    get_lock (ch_partner_state ch') secrethash = Some l /\
    (if lock_expiration l <? block_number
     then ch_partner_state ch' = ch_partner_state ch
     else is_secret_known_onchain (ch_partner_state ch') secrethash = true /\
          get_secret (ch_partner_state ch') secrethash = Some secret /\
          forall b threshold, ok (is_lock_expired (ch_partner_state ch') l b threshold) = false).
Proof.
  intros Hinv Hl. destruct (register_onchain_secret_inv secret secrethash block_number ch Hinv) as (ch' & E & Hinv').
  exists ch'. split; [done|]. split; [done|]. revert E. unfold register_onchain_secret.
  intros (our & _ & (partner & Ep & [= <-])%bind_Ok_inv)%bind_Ok_inv. cbn.
  destruct (register_onchain_secret_endstate_locks secret secrethash block_number _ (ci_partner _ Hinv))
    as (es & E & _ & Ha & Eall). rewrite Ep in E. injection E as <-. split; [done|].
  apply unclaimed_lock_inv in Hl as [Hl Hon].
  split; [by rewrite <- all_locks_get_lock, Eall, all_locks_get_lock|].
  pose proof (get_lock_inv _ _ _ (ci_partner _ Hinv) Hl) as (_ & Eh & _).
  revert Ep. unfold register_onchain_secret_endstate.
  assert (Hlock : match es_secrethashes_to_unlockedlocks (ch_partner_state ch) !! secrethash with
                  | Some p => Some (upp_lock p)
                  | None => es_secrethashes_to_lockedlocks (ch_partner_state ch) !! secrethash end = Some l).
  { destruct (li_disjoint _ (ci_partner _ Hinv)) as [D _ _]. unfold onchain_of in Hon. rewrite lookup_fmap in Hon.
    unfold get_lock in Hl. destruct (es_secrethashes_to_lockedlocks _ !! _) eqn:El.
    - injection Hl as ->. destruct (es_secrethashes_to_unlockedlocks _ !! _) eqn:Eu; [|done].
      assert (Hn : unlocked_of (ch_partner_state ch) !! secrethash = None) by (by apply (map_disjoint_Some_l _ _ _ _ D El)).
      unfold unlocked_of in Hn. by rewrite lookup_fmap, Eu in Hn.
    - by destruct (es_secrethashes_to_unlockedlocks _ !! _), (es_secrethashes_to_onchain_unlockedlocks _ !! _). }
  cbv zeta. rewrite Hlock. destruct (_ <? _); [by intros [= <-]|].
  intros (es & Hdel & [= <-])%bind_Ok_inv. apply py_assert_Ok_inv in Hdel as [_ [= <-]].
  unfold is_secret_known_onchain, get_secret, is_lock_expired. cbn. rewrite Eh, lookup_insert_eq, lookup_delete_eq.
  done.
Qed.
End Theorems.

(** ** The send functions succeed *)

Section Liveness.
Context `{ExternalsLaws} {Random : Type} `{RandomGen Random}.

Lemma BalanceProofUnsignedState_init_Ok nonce transferred locked locks ci :
  0 < nonce <= UINT64_MAX -> 0 <= transferred -> 0 <= locked -> transferred + locked <= UINT256_MAX ->
  CanonicalIdentifier_validate ci = Ok tt ->
  exists bp, BalanceProofUnsignedState_init nonce transferred locked (compute_locksroot locks) ci = Ok bp.
Proof.
  intros Hn Ht Hl Hsum Hci. unfold BalanceProofUnsignedState_init, validate_balance_proof, UINT64_MAX, UINT256_MAX in *.
  assert (Hlen : length (compute_locksroot locks) = 32%nat) by apply keccak_length.
  rewrite bool_decide_true by done. cbn [negb].
  split_ifs; zbool; try lia. cbn [bind]. rewrite Hci. cbn [bind].
  destruct (hash_balance_data_Ok transferred locked (compute_locksroot locks)) as (h & -> & _);
    unfold UINT256_MAX; try lia; try done. cbn. eauto.
Qed.

Lemma bpu_locksroot_init nonce transferred locked locksroot ci bp :
  BalanceProofUnsignedState_init nonce transferred locked locksroot ci = Ok bp -> bpu_locksroot bp = locksroot.
Proof. intros Hbp. apply BalanceProofUnsignedState_init_inv in Hbp. tauto. Qed.

(** [send_lockedtransfer] returns when the channel is usable for the amount. *)
Lemma send_lockedtransfer_Ok ch initiator target amount mid pid expiration secret secrethash routes meta
    prev lock_timeout :
  channel_inv ch ->
  is_channel_usable_for_new_transfer ch amount lock_timeout = USABLE ->
  0 <= amount -> 0 <= expiration <= UINT256_MAX -> length secrethash = 32%nat ->
  get_lock (ch_our_state ch) secrethash = None ->
  0 <= es_nonce (ch_our_state ch) < UINT64_MAX ->
  CanonicalIdentifier_validate (ch_canonical_identifier ch) = Ok tt ->
  compute_locksroot (es_pending_locks (ch_our_state ch) ++ [lock_as_bytes amount expiration secrethash])
    <> LOCKSROOT_OF_NO_LOCKS ->
  exists ch' ev,
    send_lockedtransfer ch initiator target amount mid pid expiration secret secrethash routes meta prev
      = Ok (ch', ev) /\
    lock_effect true ch ch' 0 amount /\
    es_pending_locks (ch_our_state ch')
      = es_pending_locks (ch_our_state ch) ++ [lock_as_bytes amount expiration secrethash].
Proof.
  intros Hinv Huse Ha He Hlen Hnew Hn Hci Hroot.
  assert (Hu : get_status ch = STATE_OPENED /\ amount <= get_distributable (ch_our_state ch) (ch_partner_state ch)).
  { revert Huse. unfold is_channel_usable_for_new_transfer. split_ifs; try discriminate. by zbool. }
  destruct Hu as [Hst Hd].
  destruct (distributable_bounds _ _ _ (ci_our _ Hinv) Ha Hd) as [_ Hover].
  pose proof (get_amount_locked_nonneg _ (ci_our _ Hinv)) as Hlk.
  pose proof (locks_inv_transferred _ (ci_our _ Hinv)) as Htr.
  set (lock := {| lock_amount := amount; lock_expiration := expiration; lock_secrethash := secrethash;
                  lock_encoded := lock_as_bytes amount expiration secrethash |}).
  assert (Hlock : HashTimeLockState_init amount expiration secrethash = Ok lock).
  { unfold HashTimeLockState_init. by rewrite Lock_encode_Ok by (try done; lia). }
  pose proof (HashTimeLockState_init_wf _ _ _ _ Hlock) as (Hwf & _).
  pose proof (new_lock_not_pending _ lock (ci_our _ Hinv) Hwf Hnew) as Hfresh.
  set (locks := es_pending_locks (ch_our_state ch) ++ [lock_encoded lock]).
  destruct (BalanceProofUnsignedState_init_Ok (es_nonce (ch_our_state ch) + 1)
              (transferred_amount (ch_our_state ch)) (get_amount_locked (ch_our_state ch) + amount) locks
              (ch_canonical_identifier ch)) as [bp Hbp]; try lia; try done.
  pose proof (bpu_locksroot_init _ _ _ _ _ _ Hbp) as Er.
  assert (Hsend : exists ch' ev, send_lockedtransfer ch initiator target amount mid pid expiration secret secrethash
            routes meta prev = Ok (ch', ev) /\ es_pending_locks (ch_our_state ch') = locks).
  { unfold send_lockedtransfer, create_sendlockedtransfer, get_next_nonce.
    rewrite py_assert_true by (by apply Z.leb_le). rewrite py_assert_true by (by apply bool_decide_true).
    rewrite Hlock. cbn [bind]. rewrite (proj2 (compute_locks_with_iff _ locks lock)) by done.
    rewrite py_assert_true by (apply Z.leb_le; lia). rewrite Hbp. cbn [bind].
    unfold LockedTransferUnsignedState_init. rewrite bool_decide_false by (by rewrite Er).
    do 2 eexists. split; reflexivity. }
  destruct Hsend as (ch' & ev & Hsend & Hp). exists ch', ev. split; [done|]. split; [|done].
  by eapply send_lockedtransfer_effect.
Qed.

(** C32. A usable channel can send.  If [is_channel_usable_for_new_transfer]
    says that the channel is usable for an amount, then [send_lockedtransfer]
    with that amount and a fresh secret hash does not raise: it returns the
    channel with the amount locked and no balance moved. *)
Theorem usable_channel_can_send ch initiator target amount mid pid expiration secret secrethash routes meta
    prev lock_timeout :
  channel_inv ch ->
  is_channel_usable_for_new_transfer ch amount lock_timeout = USABLE ->
  0 <= amount -> 0 <= expiration <= UINT256_MAX -> length secrethash = 32%nat ->
  get_lock (ch_our_state ch) secrethash = None ->
  0 <= es_nonce (ch_our_state ch) < UINT64_MAX ->
  CanonicalIdentifier_validate (ch_canonical_identifier ch) = Ok tt ->
  compute_locksroot (es_pending_locks (ch_our_state ch) ++ [lock_as_bytes amount expiration secrethash])
    <> LOCKSROOT_OF_NO_LOCKS ->
  exists ch' ev,
    send_lockedtransfer ch initiator target amount mid pid expiration secret secrethash routes meta prev
      = Ok (ch', ev) /\
    lock_effect true ch ch' 0 amount /\
    es_pending_locks (ch_our_state ch')
      = es_pending_locks (ch_our_state ch) ++ [lock_as_bytes amount expiration secrethash].
Proof. apply send_lockedtransfer_Ok. Qed.

(** What the send functions need to know about a pending lock: the locks
    without it, and that a balance proof for them can be built. *)
Lemma removable_lock ch lock transferred :
  channel_inv ch -> get_lock (ch_our_state ch) (lock_secrethash lock) = Some lock ->
  0 <= es_nonce (ch_our_state ch) < UINT64_MAX ->
  CanonicalIdentifier_validate (ch_canonical_identifier ch) = Ok tt ->
  0 <= transferred <= transferred_amount (ch_our_state ch) + lock_amount lock ->
  exists obp locks bp,
    es_balance_proof (ch_our_state ch) = Some obp /\
    bp_transferred_amount obp = transferred_amount (ch_our_state ch) /\
    compute_locks_without (es_pending_locks (ch_our_state ch)) (lock_encoded lock) = Some locks /\
    BalanceProofUnsignedState_init (es_nonce (ch_our_state ch) + 1) transferred
      (get_amount_locked (ch_our_state ch) - lock_amount lock) (compute_locksroot locks)
      (ch_canonical_identifier ch) = Ok bp.
Proof.
  intros Hinv Hl Hn Hci Ht.
  pose proof (get_lock_inv _ _ _ (ci_our _ Hinv) Hl) as (Hwf & _ & Hpend).
  pose proof (lock_amount_le_locked _ _ _ (ci_our _ Hinv) Hl) as Hle.
  pose proof (locks_inv_overflow _ (ci_our _ Hinv)) as Hover.
  set (locks := list_remove_first (lock_encoded lock) (es_pending_locks (ch_our_state ch))).
  destruct (es_balance_proof (ch_our_state ch)) as [obp|] eqn:E.
  2:{ destruct (locks_inv_no_balance_proof _ (ci_our _ Hinv) E) as [Hnil _]. rewrite Hnil in Hpend. set_solver. }
  destruct (BalanceProofUnsignedState_init_Ok (es_nonce (ch_our_state ch) + 1) transferred
              (get_amount_locked (ch_our_state ch) - lock_amount lock) locks (ch_canonical_identifier ch))
    as [bp Hbp]; try lia; try done.
  exists obp, locks, bp. split; [done|]. split; [unfold transferred_amount; by rewrite E|].
  split; [by apply compute_locks_without_iff | done].
Qed.

Lemma send_unlock_Ok ch lock mid pid secret block_number meta :
  channel_inv ch -> get_status ch = STATE_OPENED ->
  get_lock (ch_our_state ch) (lock_secrethash lock) = Some lock ->
  0 <= es_nonce (ch_our_state ch) < UINT64_MAX ->
  CanonicalIdentifier_validate (ch_canonical_identifier ch) = Ok tt ->
  ok (is_lock_expired (ch_our_state ch) lock block_number (lock_expiration lock)) = false ->
  exists ch' ev, send_unlock ch mid pid secret (lock_secrethash lock) block_number meta = Ok (ch', ev).
Proof.
  intros Hinv Hst Hl Hn Hci Hb.
  pose proof (locks_inv_transferred _ (ci_our _ Hinv)) as Htr.
  pose proof (lock_wf_amount _ (proj1 (get_lock_inv _ _ _ (ci_our _ Hinv) Hl))) as Ha.
  destruct (removable_lock ch lock (lock_amount lock + transferred_amount (ch_our_state ch)))
    as (obp & locks & bp & Eobp & Etr & Hlocks & Hbp); try done; try lia.
  unfold send_unlock, create_unlock, get_next_nonce. rewrite Hl.
  rewrite py_assert_true by (by rewrite is_lock_pending_get_lock, Hl).
  rewrite py_assert_true by (by apply bool_decide_true).
  rewrite py_assert_true by (by rewrite Hb).
  rewrite Eobp, Hlocks, Etr. cbv zeta.
  change (ch_canonical_identifier (upd_our _ ch)) with (ch_canonical_identifier ch). rewrite Hbp.
  cbn [bind]. unfold _del_lock. rewrite py_assert_true; [by do 2 eexists|].
  rewrite is_lock_pending_get_lock. unfold get_lock in *. cbn. by rewrite Hl.
Qed.

Lemma send_lock_expired_Ok ch lock (prng : Random) meta :
  channel_inv ch -> get_status ch = STATE_OPENED ->
  get_lock (ch_our_state ch) (lock_secrethash lock) = Some lock ->
  0 <= es_nonce (ch_our_state ch) < UINT64_MAX ->
  CanonicalIdentifier_validate (ch_canonical_identifier ch) = Ok tt ->
  exists ch' ev prng', send_lock_expired ch lock prng meta = Ok (ch', [ev], prng').
Proof.
  intros Hinv Hst Hl Hn Hci.
  pose proof (locks_inv_transferred _ (ci_our _ Hinv)) as Htr.
  pose proof (lock_wf_amount _ (proj1 (get_lock_inv _ _ _ (ci_our _ Hinv) Hl))) as Ha.
  destruct (removable_lock ch lock (transferred_amount (ch_our_state ch)))
    as (obp & locks & bp & Eobp & Etr & Hlocks & Hbp); try done; try lia.
  unfold send_lock_expired, create_sendexpiredlock, get_next_nonce.
  rewrite py_assert_true by (by apply bool_decide_true).
  rewrite Eobp. cbn [lt_encoded lt_amount HashTimeLockState_LockType]. rewrite Hlocks, Etr.
  assert (Eci : {| ci_chain_identifier := ch_chain_id ch; ci_token_network_address := ch_token_network_address ch;
                   ci_channel_identifier := ch_identifier ch |} = ch_canonical_identifier ch) by (by destruct ch as [[]]).
  rewrite Eci, Hbp. cbn [bind]. destruct (message_identifier_from_prng prng). by do 3 eexists.
Qed.

(** C33. A pending lock can always be resolved by its sender while the channel is
    open: [send_unlock] does not raise before the lock expires and pays the
    amount, [send_lock_expired] does not raise for a lock that is not unlocked
    on-chain and returns the amount to the sender; each sends one message. *)
Theorem pending_lock_can_be_resolved ch lock :
  channel_inv ch -> get_status ch = STATE_OPENED ->
  get_lock (ch_our_state ch) (lock_secrethash lock) = Some lock ->
  0 <= es_nonce (ch_our_state ch) < UINT64_MAX ->
  CanonicalIdentifier_validate (ch_canonical_identifier ch) = Ok tt ->
  (forall mid pid secret block_number meta,
     block_number < lock_expiration lock ->
     exists ch' ev, send_unlock ch mid pid secret (lock_secrethash lock) block_number meta = Ok (ch', ev) /\
       lock_effect true ch ch' (lock_amount lock) (- lock_amount lock)) /\
  (forall (prng : Random) meta,
     is_secret_known_onchain (ch_our_state ch) (lock_secrethash lock) = false ->
     exists ch' ev prng', send_lock_expired ch lock prng meta = Ok (ch', [ev], prng') /\
       lock_effect true ch ch' 0 (- lock_amount lock)).
Proof.
  intros Hinv Hst Hl Hn Hci. split.
  - intros mid pid secret block_number meta Hb.
    destruct (send_unlock_Ok ch lock mid pid secret block_number meta) as (ch' & ev & Hex); try done.
    { unfold is_lock_expired. destruct (has_key _ _); [done|]. by rewrite (proj2 (Z.ltb_lt _ _) Hb). }
    exists ch', ev. split; [done | by eapply send_unlock_effect].
  - intros prng meta Hon.
    assert (Hun : unclaimed_lock (ch_our_state ch) (lock_secrethash lock) = Some lock).
    { unfold unclaimed_lock. unfold is_secret_known_onchain in Hon.
      by destruct (es_secrethashes_to_onchain_unlockedlocks _ !! _). }
    destruct (send_lock_expired_Ok ch lock prng meta) as (ch' & ev & g & Hex); try done.
    exists ch', ev, g. split; [done|].
    exact (send_lock_expired_effect ch lock prng meta ch' _ g lock Hinv Hun eq_refl eq_refl Hex).
Qed.
End Liveness.
