(* ===== verification/InitiatorInvariant.v ===== *)
(** * The state of a payment and its invariant

    What each transfer of a payment records about the lock it put into its
    channel, what the transfers of one payment have in common, and how one call
    of [initiator.state_transition] changes a transfer. *)

From Stdlib Require Import ZArith Lia Strings.Byte.
From stdpp Require Import base functions gmap list strings pretty.
From S2P Require Import Prelude Encoding MediationFee State Events ChannelViews ChannelValidation ChannelSend ChannelHandlers TaskState World Mediator Initiator InitiatorManager LockSets ChannelInvariant BalanceProofMessages LockOperations StateTransition TransferTheorems Reachability ChannelFrame SecretRegistration WorldLogic MediatorInvariant MediatorForwarding.

(** ** Dictionaries *)

Section Dictionaries.
Context {K V : Type} `{EqDecision K}.
Implicit Types (k : K) (v : V) (d : list (K * V)).

Lemma od_set_NoDup k v d : NoDup d.*1 -> NoDup (od_set k v d).*1.
Proof.
  intros Hnd. destruct (decide (k ∈ d.*1)) as [Hin|Hnew]; [by rewrite od_set_keys|].
  rewrite od_set_new by done. rewrite fmap_app. apply NoDup_app. split; [done|]. csimpl.
  split; [set_solver | apply NoDup_singleton].
Qed.

Lemma od_del_NoDup k d : NoDup d.*1 -> NoDup (od_del k d).*1.
Proof. intros Hnd. eapply sublist_NoDup; [exact Hnd|]. apply fmap_sublist, od_del_sublist. Qed.

Lemma od_del_set k v d : NoDup d.*1 -> od_del k (od_set k v d) = od_del k d.
Proof.
  induction d as [|[k' v'] d IH]; csimpl; [by rewrite decide_True|]. intros [Hk Hnd]%NoDup_cons.
  destruct (decide (k = k')) as [->|Hne]; csimpl; [by rewrite decide_True|].
  by rewrite decide_False, IH.
Qed.

Lemma od_get_del_ne k k' d : k <> k' -> od_get k (od_del k' d) = od_get k d.
Proof.
  intros Hne. induction d as [|[k0 v0] d IH]; csimpl; [done|].
  destruct (decide (k' = k0)) as [<-|]; csimpl; [by rewrite decide_False|]. by rewrite IH.
Qed.

Lemma od_get_map {W} (f : V -> W) k d : od_get k (map (fun '(k, v) => (k, f v)) d) = f <$> od_get k d.
Proof. induction d as [|[k' v'] d IH]; csimpl; [done|]. by case_decide. Qed.

Lemma map_keys {W} (f : V -> W) d : (map (fun '(k, v) => (k, f v)) d).*1 = d.*1.
Proof. induction d as [|[k' v'] d IH]; csimpl; [done|]. by f_equal. Qed.
End Dictionaries.

(** ** One transfer *)

Section TransferInvariant.
Context `{Externals}.

(** The description and the lock agree; the locked amount is the amount to pay
    with fees and margin, within the limit; once the secret is revealed the
    request for it is on record. *)
Record transfer_wf (it : InitiatorTransferState) : Prop := {
  tw_hash : lock_secrethash (ltu_lock (it_transfer it)) = td_secrethash (it_transfer_description it);
  tw_secret : td_secret (it_transfer_description it) = [] \/
    sha256_secrethash (td_secret (it_transfer_description it)) = td_secrethash (it_transfer_description it);
  tw_identifier : ltu_payment_identifier (it_transfer it) = td_payment_identifier (it_transfer_description it);
  tw_initiator : ltu_initiator (it_transfer it) = td_initiator (it_transfer_description it);
  tw_target : ltu_target (it_transfer it) = td_target (it_transfer_description it);
  tw_amount : calculate_safe_amount_with_fee (td_amount (it_transfer_description it))
    (rs_estimated_fee (it_route it)) = Ok (lock_amount (ltu_lock (it_transfer it)));
  tw_limit : exists limit, max_amount_limit (td_amount (it_transfer_description it)) = Ok limit /\
    lock_amount (ltu_lock (it_transfer it)) <= limit;
  tw_requested : it_transfer_state it = transfer_secret_revealed -> it_received_secret_request it = true;
}.

(** What a transfer keeps for its whole life. *)
Record same_transfer (it it' : InitiatorTransferState) : Prop := {
  st_route : it_route it' = it_route it;
  st_description : it_transfer_description it' = it_transfer_description it;
  st_channel : it_channel_identifier it' = it_channel_identifier it;
  st_transfer : it_transfer it' = it_transfer it;
  st_received : it_received_secret_request it = true -> it_received_secret_request it' = true;
}.

#[export] Instance same_transfer_preorder : PreOrder same_transfer.
Proof. split; [by split | intros i1 i2 i3 [] []; split; [congruence..|auto]]. Qed.

(** A step of a transfer: nothing new is revealed without a request. *)
Definition transfer_step (it it' : InitiatorTransferState) : Prop :=
  same_transfer it it' /\
  (it_transfer_state it' = transfer_secret_revealed ->
   it_transfer_state it = transfer_secret_revealed \/ it_received_secret_request it' = true).

Lemma transfer_step_refl it : transfer_step it it.
Proof. split; [done|auto]. Qed.

Lemma set_transfer_state_step v it :
  v <> transfer_secret_revealed -> transfer_step it (set_it_transfer_state v it).
Proof. intros Hv. split; [by split | done]. Qed.

Lemma transfer_wf_step it it' : transfer_wf it -> transfer_step it it' -> transfer_wf it'.
Proof.
  intros [] [[Er Ed Ec Et Hr] Hs]. split; rewrite ?Et, ?Ed, ?Er; try done. intros [Hold|]%Hs; auto.
Qed.
End TransferInvariant.

(** ** A payment *)

(** What the transfers of a payment have in common. *)
Definition same_payment (d d' : TransferDescriptionWithSecretState) : Prop :=
  td_token_network_registry_address d' = td_token_network_registry_address d /\
  td_payment_identifier d' = td_payment_identifier d /\ td_amount d' = td_amount d /\
  td_token_network_address d' = td_token_network_address d /\
  td_initiator d' = td_initiator d /\ td_target d' = td_target d.

#[export] Instance same_payment_equivalence : Equivalence same_payment.
Proof. split; unfold same_payment; [firstorder | intros ? ?; naive_solver | intros ???; intuition congruence]. Qed.

Section PaymentInvariant.
Context `{Externals}.

Record payment_wf (st : InitiatorPaymentState) : Prop := {
  pw_keys : NoDup (ip_initiator_transfers st).*1;
  pw_transfers : forall h it, od_get h (ip_initiator_transfers st) = Some it ->
    lock_secrethash (ltu_lock (it_transfer it)) = h /\ transfer_wf it;
  pw_payment : forall h it h' it', od_get h (ip_initiator_transfers st) = Some it ->
    od_get h' (ip_initiator_transfers st) = Some it' ->
    same_payment (it_transfer_description it) (it_transfer_description it');
}.

Lemma payment_wf_cancelled_channels st channels :
  payment_wf st -> payment_wf (set_ip_cancelled_channels channels st).
Proof. by intros []. Qed.

Lemma payment_wf_put st h it it' :
  payment_wf st -> od_get h (ip_initiator_transfers st) = Some it -> transfer_step it it' ->
  payment_wf (initiator_manager.put_transfer h it' st).
Proof.
  intros [Hnd Htr Hp] Hget Hs. pose proof Hs as [[_ Ed _ Et _] _]. split.
  - by apply od_set_NoDup.
  - intros h0 it0. cbn. rewrite od_get_set. case_decide as Heq; [intros [= <-]; subst h0|apply Htr].
    destruct (Htr _ _ Hget). split; [by rewrite Et | by eapply transfer_wf_step].
  - intros h1 it1 h2 it2. cbn. rewrite !od_get_set. repeat case_decide; intros; simplify_eq; rewrite ?Ed; eauto;
      by eapply Hp.
Qed.

Lemma payment_wf_new st h it it0 h0 :
  payment_wf st -> od_get h0 (ip_initiator_transfers st) = Some it0 ->
  same_payment (it_transfer_description it0) (it_transfer_description it) ->
  lock_secrethash (ltu_lock (it_transfer it)) = h -> transfer_wf it ->
  payment_wf (initiator_manager.put_transfer h it st).
Proof.
  intros [Hnd Htr Hp] Hget Hs Hh Hwf.
  assert (Hall : forall h' it', od_get h' (ip_initiator_transfers st) = Some it' ->
    same_payment (it_transfer_description it) (it_transfer_description it')).
  { intros h' it' Hg. etransitivity; [symmetry; exact Hs | by eapply Hp]. }
  split.
  - by apply od_set_NoDup.
  - intros h1 it1. cbn. rewrite od_get_set. case_decide; [intros [= <-]; by subst|apply Htr].
  - intros h1 it1 h2 it2. cbn. rewrite !od_get_set. repeat case_decide; intros; simplify_eq.
    + reflexivity.
    + by eapply Hall.
    + symmetry. by eapply Hall.
    + by eapply Hp.
Qed.

Lemma payment_wf_sub st transfers :
  payment_wf st -> NoDup transfers.*1 ->
  (forall h it', od_get h transfers = Some it' ->
     exists it, od_get h (ip_initiator_transfers st) = Some it /\ transfer_step it it') ->
  payment_wf (set_ip_initiator_transfers transfers st).
Proof.
  intros [Hnd Htr Hp] Hnd' Hsub. split; [done| |].
  - intros h it' Hg. destruct (Hsub _ _ Hg) as (it & Hg0 & Hs). pose proof Hs as [[_ Ed _ Et _] _].
    destruct (Htr _ _ Hg0). split; [by rewrite Et | by eapply transfer_wf_step].
  - intros h1 it1 h2 it2 Hg1 Hg2. destruct (Hsub _ _ Hg1) as (i1 & G1 & [[_ E1 _ _ _] _]).
    destruct (Hsub _ _ Hg2) as (i2 & G2 & [[_ E2 _ _ _] _]). rewrite E1, E2. by eapply Hp.
Qed.

Lemma payment_wf_del st h :
  payment_wf st -> payment_wf (set_ip_initiator_transfers (od_del h (ip_initiator_transfers st)) st).
Proof.
  intros Hwf. apply payment_wf_sub; [done | by apply od_del_NoDup, Hwf|].
  intros h' it' Hg. destruct (decide (h' = h)) as [->|Hne].
  - by rewrite od_del_get in Hg by apply Hwf.
  - rewrite od_get_del_ne in Hg by done. exists it'. split; [done | apply transfer_step_refl].
Qed.

Lemma payment_wf_cancel_others st :
  payment_wf st -> payment_wf (initiator_manager.cancel_other_transfers st).
Proof.
  intros Hwf. apply payment_wf_sub; [done | rewrite map_keys; apply Hwf|].
  intros h it'. rewrite od_get_map. intros (it & Hg & ->)%fmap_Some. exists it. split; [done|].
  by apply set_transfer_state_step.
Qed.
End PaymentInvariant.
