(* ===== verification/InitiatorRoutes.v ===== *)
(** * The route of a new transfer

    [initiator.try_new_route] takes the first candidate that fits ([route_fits])
    and locks the amount to pay in its channel; if none fits, nothing changes
    and the payment fails. *)

From Stdlib Require Import ZArith Lia Strings.Byte.
From stdpp Require Import base functions gmap list strings pretty.
From S2P Require Import Prelude Encoding MediationFee State Events ChannelViews ChannelValidation ChannelSend ChannelHandlers TaskState World Mediator Initiator InitiatorManager LockSets ChannelInvariant BalanceProofMessages LockOperations StateTransition TransferTheorems Reachability ChannelFrame SecretRegistration WorldLogic MediatorInvariant MediatorForwarding InitiatorInvariant.

Section Routes.
Context `{Externals} {Random : Type} `{RandomGen Random}.
Implicit Types (heap : Heap) (ad : AddressDict) (d : TransferDescriptionWithSecretState) (route : RouteState).

(** The channel to the next hop of a route, and what would be locked there. *)
Definition route_leads_to ad (our_address : bytes) d route (l : Loc) (amount limit : Z) : Prop :=
  exists hop, truthy_bytes (hop_after route our_address) = Some hop /\
    od_get (td_token_network_address d, hop) ad = Some l /\
    calculate_safe_amount_with_fee (td_amount d) (rs_estimated_fee route) = Ok amount /\
    max_amount_limit (td_amount d) = Ok limit.

Definition route_fits heap ad our_address d route l amount : Prop :=
  exists limit, route_leads_to ad our_address d route l amount limit /\ amount <= limit /\
    is_channel_usable_for_new_transfer (heap l) amount (td_lock_timeout d) = USABLE.

Definition route_exceeds_limit ad our_address d route : Prop :=
  exists l amount limit, route_leads_to ad our_address d route l amount limit /\ limit < amount.

Lemma route_leads_to_functional ad our d route l amount limit l' amount' limit' :
  route_leads_to ad our d route l amount limit -> route_leads_to ad our d route l' amount' limit' ->
  l' = l /\ amount' = amount /\ limit' = limit.
Proof. intros (hop & E1 & E2 & E3 & E4) (hop' & F1 & F2 & F3 & F4).
  rewrite E1 in F1. injection F1 as <-. split_and!; congruence. Qed.

(** The routes that are passed over, and whether they say why. *)
Definition passed_over heap ad our d (routes : list RouteState) (exceeds_before exceeds : bool) : Prop :=
  Forall (fun route => forall l amount, ~ route_fits heap ad our d route l amount) routes /\
  (exceeds = true <-> exceeds_before = true \/ Exists (route_exceeds_limit ad our d) routes).

Lemma passed_over_nil heap ad our d b : passed_over heap ad our d [] b b.
Proof. split; [done|]. rewrite Exists_nil. tauto. Qed.

Lemma passed_over_cons heap ad our d route routes b b' b'' :
  (forall l amount, ~ route_fits heap ad our d route l amount) ->
  (b' = true <-> b = true \/ route_exceeds_limit ad our d route) ->
  passed_over heap ad our d routes b' b'' -> passed_over heap ad our d (route :: routes) b b''.
Proof.
  intros Hno Hb [Hall Hb']. split; [by constructor|]. rewrite Hb', Hb, Exists_cons. tauto.
Qed.

Lemma choose_route_spec heap ad our d b routes chosen b' :
  initiator.choose_route heap ad our d b routes = Ok (chosen, b') ->
  match chosen with
  | Some (l, route) => exists before after amount,
      routes = before ++ route :: after /\ route_fits heap ad our d route l amount /\
      passed_over heap ad our d before b b'
  | None => passed_over heap ad our d routes b b'
  end.
Proof.
  revert b. induction routes as [|route routes IH]; intros b; cbn [initiator.choose_route].
  { intros [= <- <-]. apply passed_over_nil. }
  cbv zeta.
  assert (Hnext : forall b1, (forall l amount, ~ route_fits heap ad our d route l amount) ->
    (b1 = true <-> b = true \/ route_exceeds_limit ad our d route) ->
    initiator.choose_route heap ad our d b1 routes = Ok (chosen, b') ->
    match chosen with
    | Some (l, r) => exists before after amount, route :: routes = before ++ r :: after /\
        route_fits heap ad our d r l amount /\ passed_over heap ad our d before b b'
    | None => passed_over heap ad our d (route :: routes) b b'
    end).
  { intros b1 Hno Hb Hrun. apply IH in Hrun. destruct chosen as [[l r]|]; [|by eapply passed_over_cons].
    destruct Hrun as (before & after & amount & -> & Hfit & Hp).
    exists (route :: before), after, amount. do 2 (split; [done|]). by eapply passed_over_cons. }
  destruct (truthy_bytes _) as [hop|] eqn:Hhop.
  2:{ apply Hnext; [intros l amount (limit & (h & E & _) & _); congruence|].
      split; [auto|]. intros [?|(l & amount & limit & (h & E & _) & _)]; [done|congruence]. }
  destruct (od_get _ ad) as [l|] eqn:Hl.
  2:{ apply Hnext; [intros l amount (limit & (h & E & E2 & _) & _); congruence|].
      split; [auto|]. intros [?|(l & amount & limit & (h & E & E2 & _) & _)]; [done|congruence]. }
  intros (amount & Hamount & (limit & Hlimit & Hrun)%bind_Ok_inv)%bind_Ok_inv.
  assert (Hto : route_leads_to ad our d route l amount limit) by (exists hop; auto).
  destruct (limit <? amount) eqn:Hlt; zbool.
  { revert Hrun. apply Hnext; [|split; [intros _; right; by exists l, amount, limit | done]].
    intros l' amount' (limit' & Hto' & Hle & _).
    destruct (route_leads_to_functional _ _ _ _ _ _ _ _ _ _ Hto Hto') as (-> & -> & ->). lia. }
  assert (Hin : ~ route_exceeds_limit ad our d route).
  { intros (l' & amount' & limit' & Hto' & Hgt).
    destruct (route_leads_to_functional _ _ _ _ _ _ _ _ _ _ Hto Hto') as (-> & -> & ->). lia. }
  case_bool_decide as Huse.
  - injection Hrun as <- <-. exists [], routes, amount. split; [done|]. split; [by exists limit | apply passed_over_nil].
  - revert Hrun. apply Hnext; [|tauto]. intros l' amount' (limit' & Hto' & _ & Hu).
    destruct (route_leads_to_functional _ _ _ _ _ _ _ _ _ _ Hto Hto') as (-> & -> & ->). done.
Qed.

(** A transfer that was sent: the route, the call of the channel, the results. *)
Record route_taken (w : World Random) ad routes d (block_number : Z) (it : InitiatorTransferState)
    (evs : list Event) (w' : World Random) (l : Loc) (route : RouteState) (mid amount : Z) : Prop := {
  rt_route : route ∈ routes;
  rt_fits : exists our, route_fits (w_heap w) ad our d route l amount;
  rt_sent : exists ch msg u g,
    ch_token_network_address (w_heap w l) = td_token_network_address d /\
    send_lockedtransfer (w_heap w l) (td_initiator d) (td_target d) amount mid (td_payment_identifier d)
      (get_safe_initial_expiration block_number (ch_reveal_timeout (w_heap w l)) (td_lock_timeout d))
      (Some (td_secret d)) (td_secrethash d) routes
      (get_address_metadata (es_address (ch_partner_state (w_heap w l))) routes) None
      = Ok (ch, SendLockedTransfer msg u) /\
    w' = Build_World (<[l := ch]> (w_heap w)) g /\
    it = InitiatorTransferState_init route d (ch_identifier ch) u /\ evs = [SendLockedTransfer msg u];
}.

Definition payment_failed d (exceeds : bool) : Event :=
  EventPaymentSentFailed (td_token_network_registry_address d) (td_token_network_address d)
    (td_payment_identifier d) (td_target d)
    (if exceeds then NO_ROUTE_REASON +:+ FEE_LIMIT_REASON else NO_ROUTE_REASON).

Lemma try_new_route_inv ad routes d block_number (w w' : World Random) o evs :
  initiator.try_new_route ad routes d block_number w = Ok (o, evs, w') ->
  (o = None /\ w' = w /\ exists exceeds, evs = [payment_failed d exceeds]) \/
  exists it l route mid amount, o = Some it /\ route_taken w ad routes d block_number it evs w' l route mid amount.
Proof.
  unfold initiator.try_new_route. intros (heap & w1 & [= <- <-] & Hrun)%M_bind_inv.
  apply M_bind_inv in Hrun as ([chosen exceeds] & w1 & Hchoose & Hrun).
  assert (Hw1 : w1 = w /\ forall l route, chosen = Some (l, route) -> route ∈ routes /\
            exists our amount, route_fits (w_heap w) ad our d route l amount).
  { destruct ad as [|[key l0] ad]; [by injection Hchoose as <- <- <-|].
    apply lift_inv in Hchoose as [Hchoose ->]. split; [done|]. intros l route ->.
    apply choose_route_spec in Hchoose as (before & after & amount & -> & Hfit & _). split; [set_solver|]. eauto. }
  destruct Hw1 as [-> Hfit]. destruct chosen as [[l route]|].
  2:{ left. injection Hrun as <- <- <-. split; [done|]. split; [done|]. exists exceeds. by destruct exceeds. }
  right. destruct (Hfit l route eq_refl) as (Hin & our & amount & Hf).
  apply M_bind_inv in Hrun as (mid & w1 & Hfresh & Hrun). unfold fresh_message_identifier in Hfresh.
  destruct (message_identifier_from_prng _) as [mid' g]. injection Hfresh as <- <-.
  apply M_bind_inv in Hrun as (ev & w1 & (ch & Hsend & ->)%with_channel_inv & Hrun). cbn [w_heap w_prng] in *.
  unfold initiator.send_lockedtransfer in Hsend. apply py_assert_Ok_inv in Hsend as [Htn%bool_decide_eq_true Hsend].
  apply bind_Ok_inv in Hsend as (total & Htotal & Hsend).
  assert (total = amount) as -> by (destruct Hf as (limit & (hop & _ & _ & E & _) & _); congruence).
  apply M_bind_inv in Hrun as (u & w1 & [Hu ->]%lift_inv & Hrun).
  pose proof (send_lockedtransfer_copies _ _ _ _ _ _ _ _ _ _ _ _ _ _ Hsend) as (msg & u' & -> & _).
  injection Hu as ->. apply M_bind_inv in Hrun as (ch' & w1 & [= <- <-] & Hrun).
  injection Hrun as <- <- <-. cbn [w_heap].
  exists (InitiatorTransferState_init route d (ch_identifier ch) u), l, route, mid', amount.
  rewrite fn_lookup_insert. split; [done|]. split; [done | by exists our | by exists ch, msg, u, g].
Qed.

(** A new transfer is well-formed. *)
Lemma route_taken_wf (w w' : World Random) ad routes d block_number it evs l route mid amount :
  route_taken w ad routes d block_number it evs w' l route mid amount ->
  td_secret d = [] \/ sha256_secrethash (td_secret d) = td_secrethash d ->
  transfer_wf it /\ it_transfer_description it = d /\ it_transfer_state it = transfer_pending /\
  it_received_secret_request it = false /\ lock_secrethash (ltu_lock (it_transfer it)) = td_secrethash d.
Proof.
  intros [_ (our & limit & (hop & _ & _ & Ha & Hl) & Hle & _) (ch & msg & u & g & _ & Hsend & _ & -> & _)] Hs.
  apply send_lockedtransfer_copies in Hsend as (msg' & u' & [= <- <-] & E1 & _ & E2 & _ & E3 & E4 & E5).
  split; [|done]. split; cbn; rewrite ?E2; try done. by exists limit.
Qed.
End Routes.
