(* ===== verification/InitiatorSteps.v ===== *)
(** * Steps of the initiator

    What one call of [initiator.state_transition] does to the transfer, the
    channel and the outside; which route [initiator.try_new_route] takes; and
    the inversion of the dispatch of the manager. *)

From Stdlib Require Import ZArith Lia Strings.Byte.
From stdpp Require Import base functions gmap list strings pretty.
From S2P Require Import Prelude Encoding MediationFee State Events ChannelViews ChannelValidation ChannelSend ChannelHandlers TaskState World Mediator Initiator InitiatorManager LockSets ChannelInvariant BalanceProofMessages LockOperations StateTransition TransferTheorems Reachability ChannelFrame SecretRegistration WorldLogic MediatorInvariant MediatorPhases MediatorForwarding InitiatorInvariant.

(** ** Specifications of the events *)

(** A request the initiator answers with the secret: the first one, from the
    target, for this payment, for at least the amount to pay, with the
    expiration of the pending lock. *)
Record valid_request (it : InitiatorTransferState) (ch : NettingChannelState) (a : ReceiveSecretRequest)
    (lock : HashTimeLockState) : Prop := {
  vr_first : it_received_secret_request it = false;
  vr_sender : rsq_sender a = td_target (it_transfer_description it);
  vr_hash : rsq_secrethash a = td_secrethash (it_transfer_description it);
  vr_identifier : rsq_payment_identifier a = td_payment_identifier (it_transfer_description it);
  vr_lock : get_lock (ch_our_state ch) (td_secrethash (it_transfer_description it)) = Some lock;
  vr_amount : td_amount (it_transfer_description it) <= rsq_amount a;
  vr_expiration : rsq_expiration a = lock_expiration lock;
  vr_secret : td_secret (it_transfer_description it) <> [];
}.

(** The state changes that show the secret to be known: the next hop revealed
    it, or it was registered on-chain before the lock expired. *)
Definition secret_shown (it : InitiatorTransferState) (ch : NettingChannelState) (state_change : StateChange)
    (secret : bytes) : Prop :=
  match state_change with
  | SCReceiveSecretReveal a =>
      rsr_secret a = secret /\ rsr_secrethash a = td_secrethash (it_transfer_description it) /\
      rsr_sender a = es_address (ch_partner_state ch)
  | SCContractReceiveSecretReveal a =>
      crsr_secret a = secret /\ crsr_secrethash a = td_secrethash (it_transfer_description it) /\
      cr_block_number (crsr_contract a) <= lock_expiration (ltu_lock (it_transfer it))
  | _ => False
  end.

(** What justifies an event of a transfer, given the channel before the call. *)
Definition transfer_event (it : InitiatorTransferState) (ch : NettingChannelState)
    (state_change : StateChange) (event : Event) : Prop :=
  let d := it_transfer_description it in
  match event with
  | SendSecretReveal msg secret secrethash =>
      exists a lock, state_change = SCReceiveSecretRequest a /\ valid_request it ch a lock /\
        sm_recipient msg = td_target d /\ secret = td_secret d /\ secrethash = sha256_secrethash secret
  | SendUnlock msg payment_identifier _ _ secret _ =>
      secret_shown it ch state_change secret /\ get_status ch = STATE_OPENED /\
      payment_identifier = td_payment_identifier d /\ sm_recipient msg = es_address (ch_partner_state ch)
  | EventPaymentSentSuccess _ token_network identifier amount target secret route =>
      secret_shown it ch state_change secret /\ get_status ch = STATE_OPENED /\
      token_network = ch_token_network_address ch /\ identifier = td_payment_identifier d /\
      amount = td_amount d /\ target = td_target d /\ route = rs_route (it_route it)
  | SendLockExpired _ _ secrethash =>
      exists a lock, state_change = SCBlock a /\ get_status ch = STATE_OPENED /\
        es_secrethashes_to_lockedlocks (ch_our_state ch) !! lock_secrethash (ltu_lock (it_transfer it)) = Some lock /\
        secrethash = lock_secrethash lock /\
        lock_expiration lock + DEFAULT_WAIT_BEFORE_LOCK_REMOVAL <= block_block_number a
  | SendLockedTransfer _ _ | SendProcessed _ => False
  | _ => True
  end.

Lemma is_lock_expired_threshold {L} `{LockType L} es (lock : L) block_number threshold :
  ok (is_lock_expired es lock block_number threshold) = true -> threshold <= block_number.
Proof. unfold is_lock_expired. destruct (has_key _ _); [done|]. destruct (_ <? _) eqn:E; [done|]. zbool. lia. Qed.

(** A locked lock is pending and not unlocked. *)
Lemma locked_lock_unclaimed `{Externals} es h l :
  locks_inv es -> es_secrethashes_to_lockedlocks es !! h = Some l ->
  unclaimed_lock es h = Some l /\ lock_secrethash l = h.
Proof.
  intros Hinv Hl. pose proof (li_disjoint _ Hinv) as [D1 D2 D3].
  assert (Hget : get_lock es h = Some l) by (unfold get_lock; by rewrite Hl).
  destruct (get_lock_inv _ _ _ Hinv Hget) as (_ & Eh & _). split; [|done]. unfold unclaimed_lock.
  pose proof (map_disjoint_Some_l _ _ _ _ D2 Hl) as Hno. unfold onchain_of in Hno.
  rewrite lookup_fmap in Hno. by destruct (es_secrethashes_to_onchain_unlockedlocks es !! h).
Qed.

Section Steps.
Context `{Externals} {Random : Type} `{RandomGen Random}.
Implicit Types (prng : Random).

(** ** Unlocking *)

(** The three events of a successful payment, and the lock they pay. *)
Lemma events_for_unlock_lock_inv it ch secret secrethash prng block_number evs ch' prng' :
  initiator.events_for_unlock_lock it ch secret secrethash prng block_number = Ok (evs, ch', prng') ->
  let d := it_transfer_description it in
  exists mid meta unlock,
    send_unlock ch mid (td_payment_identifier d) secret secrethash block_number meta = Ok (ch', unlock) /\
    evs = [unlock;
           EventPaymentSentSuccess (ch_token_network_registry_address ch') (ch_token_network_address ch')
             (td_payment_identifier d) (td_amount d) (td_target d) secret (rs_route (it_route it));
           EventUnlockSuccess (td_payment_identifier d) (td_secrethash d)].
Proof.
  unfold initiator.events_for_unlock_lock. destruct (message_identifier_from_prng prng) as [mid g].
  intros ([ch1 unlock] & Hs & [= <- <- <-])%bind_Ok_inv. eauto.
Qed.

Lemma events_for_unlock_lock_events it ch sc secret secrethash prng block_number evs ch' prng' :
  initiator.events_for_unlock_lock it ch secret secrethash prng block_number = Ok (evs, ch', prng') ->
  secret_shown it ch sc secret -> get_status ch = STATE_OPENED ->
  Forall (transfer_event it ch sc) evs.
Proof.
  intros (mid & meta & unlock & Hsend & ->)%events_for_unlock_lock_inv Hshown Hopen.
  apply send_unlock_inv in Hsend as (lock & bp & msg & our & _ & _ & _ & _ & _ & -> & Hr & _ & _ & ->).
  repeat constructor; try done.
Qed.

(** ** One transfer *)

Lemma handle_block_events it a ch prng it' keep evs ch' prng' :
  initiator.handle_block it a ch prng = Ok (it', keep, evs, ch', prng') ->
  transfer_step it it' /\
  ((ch' = ch /\ evs = []) \/ Forall (transfer_event it ch (SCBlock a)) evs).
Proof.
  unfold initiator.handle_block. cbv zeta.
  destruct (es_secrethashes_to_lockedlocks _ !! _) as [lock|] eqn:Hl.
  2:{ intros [= <- <- <- <- <-]. split; [apply transfer_step_refl | by left]. }
  destruct (ok _ && _) eqn:Hexp.
  2:{ intros [= <- <- <- <- <-]. split; [apply transfer_step_refl | by left]. }
  apply andb_prop in Hexp as [Hexp%is_lock_expired_threshold _].
  intros ([[ch1 evs1] g] & Hsend & [= <- <- <- <- <-])%bind_Ok_inv.
  split; [by apply set_transfer_state_step|]. right. apply Forall_app. split; [|by repeat constructor].
  case_bool_decide as Hopen; [|by injection Hsend as <- <- <-].
  apply send_lock_expired_inv in Hsend as [_ [(_ & -> & _)|(bp & msg & _ & _ & -> & _)]]; [done|].
  apply Forall_singleton. by exists a, lock.
Qed.

Lemma handle_secretrequest_events it a ch prng it' keep evs ch' prng' :
  initiator.handle_secretrequest it a ch prng = Ok (it', keep, evs, ch', prng') ->
  transfer_step it it' /\ keep = true /\ ch' = ch /\ Forall (transfer_event it ch (SCReceiveSecretRequest a)) evs.
Proof.
  unfold initiator.handle_secretrequest. cbv zeta. destruct (negb _) eqn:Hmsg.
  { intros [= <- <- <- <- <-]. split; [apply transfer_step_refl|done]. }
  apply negb_false_iff in Hmsg. apply andb_prop in Hmsg as [Hmsg Hpid%Z.eqb_eq].
  apply andb_prop in Hmsg as [Hs%bool_decide_eq_true Hh%bool_decide_eq_true].
  destruct (get_lock _ _) as [lock|] eqn:Hl; [|discriminate].
  destruct (it_received_secret_request it) eqn:Hreq.
  { intros [= <- <- <- <- <-]. split; [apply transfer_step_refl|done]. }
  destruct (_ && _ && _) eqn:Hv.
  - apply andb_prop in Hv as [Hv Hsec%negb_true_iff%bool_decide_eq_false].
    apply andb_prop in Hv as [Ha%Z.leb_le He%Z.eqb_eq].
    destruct (message_identifier_from_prng prng) as [mid g]. intros [= <- <- <- <- <-].
    split; [split; [by split | by right]|]. do 2 (split; [done|]). apply Forall_singleton.
    exists a, lock. split; [done|]. split; [by split|done].
  - intros [= <- <- <- <- <-]. split; [split; [by split | cbn; auto]|]. do 2 (split; [done|]).
    by apply Forall_singleton.
Qed.

(** A reveal: nothing happens, or the lock is paid and the transfer is done. *)
Lemma handle_offchain_secretreveal_inv it a ch prng block_number it' keep evs ch' prng' :
  initiator.handle_offchain_secretreveal it a ch prng block_number = Ok (it', keep, evs, ch', prng') ->
  it' = it /\
  ((keep = true /\ evs = [] /\ ch' = ch) \/
   (keep = false /\ secret_shown it ch (SCReceiveSecretReveal a) (rsr_secret a) /\ get_status ch = STATE_OPENED /\
    initiator.events_for_unlock_lock it ch (rsr_secret a) (td_secrethash (it_transfer_description it)) prng
      block_number = Ok (evs, ch', prng'))).
Proof.
  unfold initiator.handle_offchain_secretreveal. cbv zeta.
  destruct (_ && _ && _ && _) eqn:Hc; [|intros [= <- <- <- <- <-]; auto].
  apply andb_prop in Hc as [Hc _]. apply andb_prop in Hc as [Hc Hs%bool_decide_eq_true].
  apply andb_prop in Hc as [Hh%bool_decide_eq_true Ho%bool_decide_eq_true].
  rewrite Hh. intros ([[evs1 ch1] g] & Hrun & [= <- <- <- <- <-])%bind_Ok_inv.
  split; [done|]. right. by repeat split.
Qed.

Lemma handle_onchain_secretreveal_inv it a ch prng block_number it' keep evs ch' prng' :
  initiator.handle_onchain_secretreveal it a ch prng block_number = Ok (it', keep, evs, ch', prng') ->
  let h := td_secrethash (it_transfer_description it) in
  let reveal_block := cr_block_number (crsr_contract a) in
  it' = it /\ exists ch1,
  (ch1 = ch \/ register_onchain_secret (crsr_secret a) h reveal_block true ch = Ok ch1) /\
  ((keep = true /\ evs = [] /\ ch' = ch1) \/
   (keep = false /\ secret_shown it ch (SCContractReceiveSecretReveal a) (crsr_secret a) /\
    get_status ch = STATE_OPENED /\ register_onchain_secret (crsr_secret a) h reveal_block true ch = Ok ch1 /\
    initiator.events_for_unlock_lock it ch1 (crsr_secret a) h prng block_number = Ok (evs, ch', prng'))).
Proof.
  unfold initiator.handle_onchain_secretreveal. cbv zeta.
  destruct (is_valid_secret_reveal _ _ && _) eqn:Hu; intros (ch1 & Hreg & Hrun)%bind_Ok_inv.
  all: cbn [andb] in Hrun.
  2:{ injection Hreg as <-. injection Hrun as <- <- <- <- <-.
      split; [done|]. exists ch. split; by left. }
  apply andb_prop in Hu as [Hh%bool_decide_eq_true Hb%negb_true_iff%Z.ltb_ge].
  destruct (bool_decide _ && _) eqn:Hc; cycle 1.
  { injection Hrun as <- <- <- <- <-. split; [done|]. exists ch1. split; [by right | by left]. }
  apply andb_prop in Hc as [Ho%bool_decide_eq_true _].
  rewrite Hh in Hrun. apply bind_Ok_inv in Hrun as ([[evs1 ch2] g] & Hrun & [= <- <- <- <- <-]).
  split; [done|]. exists ch1. split; [by right|]. right. by repeat split.
Qed.

Lemma register_onchain_secret_same secret h block ch ch' :
  register_onchain_secret secret h block true ch = Ok ch' -> same_channel ch ch'.
Proof.
  unfold register_onchain_secret.
  intros (our & (E1 & _)%register_onchain_secret_cases & (partner & (E2 & _)%register_onchain_secret_cases & [= <-])%bind_Ok_inv)%bind_Ok_inv.
  by split.
Qed.

Lemma secret_shown_same it ch ch' sc secret :
  same_channel ch ch' -> secret_shown it ch sc secret -> secret_shown it ch' sc secret.
Proof. intros Hs. unfold secret_shown. destruct sc; try done. by rewrite (sc_partner_address _ _ Hs). Qed.

Lemma transfer_event_same it ch ch' a ev :
  same_channel ch ch' -> transfer_event it ch' (SCContractReceiveSecretReveal a) ev ->
  transfer_event it ch (SCContractReceiveSecretReveal a) ev.
Proof.
  intros [Ei Es _ _ _ Ep _]. destruct ev; cbn; try done; unfold ch_token_network_address; rewrite ?Ei, ?Es, ?Ep; try done.
  - by intros (? & ? & ? & _).
  - by intros (? & ? & ? & _).
Qed.

(** Every call: how the transfer changes and what justifies the events. *)
Lemma state_transition_events it sc ch prng block_number it' keep evs ch' prng' :
  initiator.state_transition it sc ch prng block_number = Ok (it', keep, evs, ch', prng') ->
  transfer_step it it' /\ Forall (transfer_event it ch sc) evs.
Proof.
  assert (Hquiet : transfer_step it it /\ Forall (transfer_event it ch sc) []) by (split; [apply transfer_step_refl | done]).
  unfold initiator.state_transition. destruct sc; try (by intros [= <- <- <- <- <-]).
  - intros [Hs [[_ ->]|He]]%handle_block_events; by split.
  - intros (-> & ch1 & _ & [(_ & -> & _)|(_ & Hshown & Ho & Hreg & Hrun)])%handle_onchain_secretreveal_inv; [done|].
    split; [apply transfer_step_refl|]. apply register_onchain_secret_same in Hreg as Hsame.
    eapply Forall_impl; [|intros ev; by apply transfer_event_same].
    eapply events_for_unlock_lock_events; [exact Hrun | by eapply secret_shown_same | by rewrite (sc_status _ _ Hsame)].
  - intros (-> & [(_ & -> & _)|(_ & Hshown & Ho & Hrun)])%handle_offchain_secretreveal_inv; [done|].
    split; [apply transfer_step_refl|]. by eapply events_for_unlock_lock_events.
  - intros (Hs & _ & _ & He)%handle_secretrequest_events. by split.
Qed.

(** The channel stays sound. *)
Lemma events_for_unlock_lock_safe it ch secret secrethash prng block_number evs ch' prng' :
  channel_inv ch ->
  initiator.events_for_unlock_lock it ch secret secrethash prng block_number = Ok (evs, ch', prng') ->
  safe_step ch ch'.
Proof. intros Hinv (mid & meta & unlock & Hsend & _)%events_for_unlock_lock_inv. by eapply send_unlock_safe. Qed.

Lemma handle_block_safe it a ch prng it' keep evs ch' prng' :
  channel_inv ch -> initiator.handle_block it a ch prng = Ok (it', keep, evs, ch', prng') -> safe_step ch ch'.
Proof.
  intros Hinv. unfold initiator.handle_block. cbv zeta.
  destruct (es_secrethashes_to_lockedlocks _ !! _) as [lock|] eqn:Hl; [|by intros [= _ _ _ <- _]].
  destruct (ok _ && _); [|by intros [= _ _ _ <- _]].
  intros ([[ch1 evs1] g] & Hsend & [= _ _ _ <- _])%bind_Ok_inv.
  case_bool_decide as Hopen; [|by injection Hsend as <- _ _].
  destruct (locked_lock_unclaimed (ch_our_state ch) _ _ (ci_our _ Hinv) Hl) as [Hu Eh].
  rewrite <- Eh in Hu. exact (send_lock_expired_safe ch lock prng _ ch1 evs1 g lock Hinv Hu eq_refl eq_refl Hsend).
Qed.

Lemma state_transition_safe it sc ch prng block_number it' keep evs ch' prng' :
  channel_inv ch -> initiator.state_transition it sc ch prng block_number = Ok (it', keep, evs, ch', prng') ->
  safe_step ch ch'.
Proof.
  intros Hinv. unfold initiator.state_transition. destruct sc; try (by intros [= _ _ _ <- _]).
  - by apply handle_block_safe.
  - intros (_ & ch1 & Hch1 & Hrun)%handle_onchain_secretreveal_inv.
    assert (Hs1 : safe_step ch ch1).
    { destruct Hch1 as [->|Hreg]; [done|].
      destruct (register_onchain_secret_registered (crsr_secret a) (td_secrethash (it_transfer_description it))
        (cr_block_number (crsr_contract a)) ch Hinv) as (c & E & []). rewrite Hreg in E. by injection E as <-. }
    destruct Hrun as [(_ & _ & ->)|(_ & _ & _ & _ & Hrun)]; [done|]. destruct Hs1 as [Hinv1 Hsame1].
    destruct (events_for_unlock_lock_safe _ _ _ _ _ _ _ _ _ Hinv1 Hrun). split; [done | by etransitivity].
  - intros (_ & [(_ & _ & ->)|(_ & _ & _ & Hrun)])%handle_offchain_secretreveal_inv; [done|].
    by eapply events_for_unlock_lock_safe.
  - by intros (_ & _ & -> & _)%handle_secretrequest_events.
Qed.
End Steps.
