(* ===== verification/InitiatorDispatch.v ===== *)
(** * The dispatch of a payment to its transfers

    Inversion of the handlers of [initiator_manager]: which transfers change,
    how, and what justifies the events. *)

From Stdlib Require Import ZArith Lia Strings.Byte.
From stdpp Require Import base functions gmap list strings pretty.
From S2P Require Import Prelude Encoding MediationFee State Events ChannelViews ChannelValidation ChannelSend ChannelHandlers TaskState World Mediator Initiator InitiatorManager LockSets ChannelInvariant BalanceProofMessages LockOperations StateTransition TransferTheorems Reachability ChannelFrame SecretRegistration WorldLogic MediatorInvariant MediatorPhases MediatorForwarding InitiatorInvariant InitiatorRoutes InitiatorSteps.

Abbreviation transfers := ip_initiator_transfers.

(** Events that reveal no secret, pay nothing and touch no lock of ours. *)
Definition harmless (event : Event) : Prop :=
  match event with
  | SendSecretReveal _ _ _ | SendUnlock _ _ _ _ _ _ | EventPaymentSentSuccess _ _ _ _ _ _ _
  | SendLockExpired _ _ _ | SendLockedTransfer _ _ => False
  | _ => True
  end.

(** The state changes that start a transfer, with its description. *)
Definition starts (st : option InitiatorPaymentState) (state_change : StateChange)
    (d : TransferDescriptionWithSecretState) : Prop :=
  match state_change, st with
  | SCActionInitInitiator a, None => d = aii_transfer a
  | SCActionTransferReroute a, Some st =>
      exists it, od_get (lock_secrethash (lts_lock (atr_transfer a))) (transfers st) = Some it /\
        same_payment (it_transfer_description it) d /\ td_secret d = atr_secret a /\
        td_secrethash d = sha256_secrethash (atr_secret a) /\ td_lock_timeout d = None
  | _, _ => False
  end.

Definition starts_transfer (state_change : StateChange) : bool :=
  match state_change with
  | SCActionInitInitiator _ | SCActionTransferReroute _ => true
  | _ => false
  end.

(** What the node guarantees: the secret of a new payment, if there is one,
    hashes to the payment's secret hash, and so do the secrets of state changes
    (their [__post_init__] computes the hash). *)
Definition initiator_declared (state_change : StateChange) : Prop :=
  match state_change with
  | SCActionInitInitiator a =>
      td_secret (aii_transfer a) = [] \/
      sha256_secrethash (td_secret (aii_transfer a)) = td_secrethash (aii_transfer a)
  | SCActionTransferReroute a => atr_secrethash a = sha256_secrethash (atr_secret a)
  | _ => True
  end.

Section Dispatch.
Context `{Externals} {Random : Type} `{RandomGen Random}.
Implicit Types (st : InitiatorPaymentState) (w : World Random).

(** A new transfer of the payment: it locks at most the limit. *)
Definition new_transfer (heap : Heap) (d : TransferDescriptionWithSecretState) (msg : SendMessageEvent)
    (t : LockedTransferUnsignedState) : Prop :=
  exists l limit,
    max_amount_limit (td_amount d) = Ok limit /\ lock_amount (ltu_lock t) <= limit /\
    is_channel_usable_for_new_transfer (heap l) (lock_amount (ltu_lock t)) (td_lock_timeout d) = USABLE /\
    ch_token_network_address (heap l) = td_token_network_address d /\
    sm_recipient msg = es_address (ch_partner_state (heap l)) /\
    lock_secrethash (ltu_lock t) = td_secrethash d /\ ltu_target t = td_target d /\
    ltu_initiator t = td_initiator d /\ ltu_payment_identifier t = td_payment_identifier d.

(** The event of a transfer of the payment, at its channel. *)
Definition of_transfer (heap : Heap) (channels : ChannelMap) st (sc : StateChange) (event : Event) : Prop :=
  exists h it l, od_get h (transfers st) = Some it /\ channels !! it_channel_identifier it = Some l /\
    transfer_event it (heap l) sc event.

Definition payment_event (heap : Heap) (channels : ChannelMap) (st : option InitiatorPaymentState)
    (sc : StateChange) (event : Event) : Prop :=
  harmless event \/
  match event with
  | SendLockedTransfer msg t => exists heap' d, starts st sc d /\ new_transfer heap' d msg t /\
      (forall l, ch_our_state (heap' l) = ch_our_state (heap l) /\ same_channel (heap l) (heap' l))
  | _ => exists st0, st = Some st0 /\ of_transfer heap channels st0 sc event
  end.

(** Only transfers that were there remain, each a step further. *)
Definition transfers_step st st' : Prop :=
  forall h it', od_get h (transfers st') = Some it' ->
  exists it, od_get h (transfers st) = Some it /\ transfer_step it it'.

#[export] Instance transfer_step_preorder : PreOrder transfer_step.
Proof.
  split; [exact transfer_step_refl|]. intros i1 i2 i3 [A1 B1] [A2 B2]. split; [by etransitivity|].
  intros [Hs|]%B2; [|auto]. apply B1 in Hs as [|Hs]; [auto|]. right. by apply A2.
Qed.

#[export] Instance transfers_step_preorder : PreOrder transfers_step.
Proof.
  split; [intros st h it' Hg; by exists it'|]. intros s1 s2 s3 H1 H2 h it3 H3.
  destruct (H2 _ _ H3) as (it2 & G2 & E2). destruct (H1 _ _ G2) as (it1 & G1 & E1). exists it1. split; [done|].
  by etransitivity.
Qed.

Lemma transfers_step_put st h it it' :
  od_get h (transfers st) = Some it -> transfer_step it it' ->
  transfers_step st (initiator_manager.put_transfer h it' st).
Proof.
  intros Hg Hs h' it2. cbn. rewrite od_get_set. case_decide; [|intros; by exists it2].
  intros [= <-]. subst. by exists it.
Qed.

Lemma transfers_step_del st h :
  payment_wf st -> transfers_step st (set_ip_initiator_transfers (od_del h (transfers st)) st).
Proof.
  intros Hwf h' it'. cbn. destruct (decide (h' = h)) as [->|Hne]; [by rewrite od_del_get by apply Hwf|].
  rewrite od_get_del_ne by done. intros; by exists it'.
Qed.

Lemma transfers_step_cancel st : transfers_step st (initiator_manager.cancel_other_transfers st).
Proof.
  intros h it'. cbn. rewrite od_get_map. intros (it & Hg & ->)%fmap_Some. exists it. split; [done|].
  by apply set_transfer_state_step.
Qed.

(** ** One transfer *)

Lemma subdispatch_inv st h it sc channels block_number w w' st' evs :
  payment_wf st -> od_get h (transfers st) = Some it ->
  initiator_manager.subdispatch_to_initiatortransfer st h it sc channels block_number w = Ok (st', evs, w') ->
  (channels !! it_channel_identifier it = None /\ st' = st /\ evs = [] /\ w' = w) \/
  exists l it' keep ch g, channels !! it_channel_identifier it = Some l /\
    initiator.state_transition it sc (w_heap w l) (w_prng w) block_number = Ok (it', keep, evs, ch, g) /\
    w' = Build_World (<[l := ch]> (w_heap w)) g /\
    st' = if keep : bool then initiator_manager.put_transfer h it' st
          else set_ip_initiator_transfers (od_del h (transfers st)) st.
Proof.
  intros Hwf Hget. unfold initiator_manager.subdispatch_to_initiatortransfer.
  destruct (channels !! _) as [l|]; [|intros [= <- <- <-]; by left].
  intros ([[it' keep] evs1] & w1 & Hstep & Hrun)%M_bind_inv. right. unfold with_channel_prng in Hstep.
  apply bind_Ok_inv in Hstep as ([[ch r] g] & Hstep & [= -> <-]).
  apply bind_Ok_inv in Hstep as ([[[[i k] e] c] p] & Hstep & E). injection E as -> -> -> -> ->.
  pose proof (state_transition_events _ _ _ _ _ _ _ _ _ _ Hstep) as [[[_ _ _ Et _] _] _].
  exists l, it', keep, ch, g. cbv zeta in Hrun. destruct keep.
  { by injection Hrun as <- <- <-. }
  apply M_bind_inv in Hrun as (st1 & w1 & [Hdel ->]%lift_inv & Hrun). injection Hrun as <- <- <-.
  do 3 (split; [done|]). unfold initiator_manager.del_transfer in Hdel.
  destruct (initiator_manager.transfer_exists _ _); [|discriminate]. injection Hdel as <-. cbn.
  destruct (pw_transfers _ Hwf _ _ Hget) as [Eh _]. rewrite Et, Eh. rewrite od_del_set by apply Hwf. by destruct st.
Qed.

(** What the call makes of the payment. *)
Lemma subdispatch_spec st h it sc channels block_number w w' st' evs :
  payment_wf st -> od_get h (transfers st) = Some it ->
  initiator_manager.subdispatch_to_initiatortransfer st h it sc channels block_number w = Ok (st', evs, w') ->
  payment_wf st' /\ transfers_step st st' /\ (forall h', h' <> h -> od_get h' (transfers st') = od_get h' (transfers st)) /\
  Forall (fun ev => exists l, channels !! it_channel_identifier it = Some l /\ transfer_event it (w_heap w l) sc ev) evs.
Proof.
  intros Hwf Hget Hsub.
  destruct (subdispatch_inv _ _ _ _ _ _ _ _ _ _ Hwf Hget Hsub)
    as [(_ & -> & -> & _)|(l & it' & keep & ch & g & Hl & Hrun & _ & ->)].
  { split; [done|]. split; [reflexivity|]. done. }
  apply state_transition_events in Hrun as [Hs Hev].
  assert (Hevs : Forall (fun ev => exists l, channels !! it_channel_identifier it = Some l /\
    transfer_event it (w_heap w l) sc ev) evs).
  { eapply Forall_impl; [exact Hev|]. intros ev He. by exists l. }
  destruct keep; (split; [|split; [|split; [|exact Hevs]]]).
  - by eapply payment_wf_put.
  - by eapply transfers_step_put.
  - intros h' Hne. cbn. by rewrite od_get_set, decide_False.
  - by apply payment_wf_del.
  - by apply transfers_step_del.
  - intros h' Hne. cbn. by rewrite od_get_del_ne.
Qed.

Lemma of_transfer_payment_event heap channels st sc ev :
  of_transfer heap channels st sc ev -> payment_event heap channels (Some st) sc ev.
Proof.
  intros Hev. pose proof Hev as (h & it & l & _ & _ & He).
  destruct ev; try (left; exact I); try (right; by exists st). done.
Qed.

(** A dispatch to the transfer stored under the secret hash of a message. *)
Lemma subdispatch_events st h it sc channels block_number w w' st' evs :
  payment_wf st -> od_get h (transfers st) = Some it ->
  initiator_manager.subdispatch_to_initiatortransfer st h it sc channels block_number w = Ok (st', evs, w') ->
  payment_wf st' /\ transfers_step st st' /\ Forall (payment_event (w_heap w) channels (Some st) sc) evs.
Proof.
  intros Hwf Hget Hrun. destruct (subdispatch_spec _ _ _ _ _ _ _ _ _ _ Hwf Hget Hrun) as (Hwf' & Hs & _ & Hev).
  split; [done|]. split; [done|]. eapply Forall_impl; [exact Hev|]. intros ev (l & Hl & He).
  apply of_transfer_payment_event. by exists h, it, l.
Qed.

(** ** Blocks *)

(** During the loop over the transfers, locks only disappear. *)
Definition shrunk (h0 h : Heap) : Prop :=
  forall l, get_status (h l) = get_status (h0 l) /\
    es_secrethashes_to_lockedlocks (ch_our_state (h l)) ⊆ es_secrethashes_to_lockedlocks (ch_our_state (h0 l)).

Lemma shrunk_insert h0 h l ch :
  shrunk h0 h -> get_status ch = get_status (h l) ->
  es_secrethashes_to_lockedlocks (ch_our_state ch) ⊆ es_secrethashes_to_lockedlocks (ch_our_state (h l)) ->
  shrunk h0 (<[l := ch]> h).
Proof.
  intros Hs Es Hsub l'. destruct (decide (l = l')) as [<-|Hne]; [|by rewrite fn_lookup_insert_ne].
  rewrite fn_lookup_insert. destruct (Hs l) as [E1 E2]. split; [congruence | by etransitivity].
Qed.

Lemma handle_block_shrinks it a ch (prng : Random) it' keep evs ch' prng' :
  initiator.handle_block it a ch prng = Ok (it', keep, evs, ch', prng') ->
  get_status ch' = get_status ch /\
  es_secrethashes_to_lockedlocks (ch_our_state ch') ⊆ es_secrethashes_to_lockedlocks (ch_our_state ch).
Proof.
  unfold initiator.handle_block. cbv zeta. destruct (_ !! _) as [lock|]; [|by intros [= _ _ _ <- _]].
  destruct (ok _ && _); [|by intros [= _ _ _ <- _]].
  intros ([[ch1 evs1] g] & Hsend & [= _ _ _ <- _])%bind_Ok_inv.
  case_bool_decide; [|by injection Hsend as <- _ _].
  apply send_lock_expired_inv in Hsend as [_ [(-> & _)|(bp & msg & _ & _ & _ & _ & ->)]]; [done|].
  split; [done|]. cbn. apply delete_subseteq.
Qed.

Lemma block_event_shrunk it h0 h l a ev :
  shrunk h0 h -> transfer_event it (h l) (SCBlock a) ev -> transfer_event it (h0 l) (SCBlock a) ev.
Proof.
  intros Hs. destruct (Hs l) as [Est Hsub]. destruct ev; cbn; try done; try naive_solver.
  intros (a' & lock & Ea & Ho & Hl & Hrest). exists a', lock. rewrite <- Est. split; [done|]. split; [done|].
  split; [|done]. by eapply lookup_weaken.
Qed.

Lemma subdispatch_to_transfers_spec a channels block_number h0 st0 keys st w w' st' evs :
  payment_wf st -> transfers_step st0 st -> shrunk h0 (w_heap w) -> NoDup keys ->
  (forall h, h ∈ keys -> od_get h (transfers st) = od_get h (transfers st0)) ->
  initiator_manager.subdispatch_to_transfers st keys (SCBlock a) channels block_number w = Ok (st', evs, w') ->
  payment_wf st' /\ transfers_step st0 st' /\ Forall (of_transfer h0 channels st0 (SCBlock a)) evs.
Proof.
  revert st w evs. induction keys as [|h keys IH]; intros st w evs Hwf Hs Hsh Hnd Hkeys;
    cbn [initiator_manager.subdispatch_to_transfers].
  { by intros [= <- <- <-]. }
  apply NoDup_cons in Hnd as [Hh Hnd].
  destruct (od_get h (transfers st)) as [it|] eqn:Hget; [|by intros [[=] _]%lift_inv].
  intros ([st1 evs1] & w1 & Hsub & Hrun)%M_bind_inv.
  apply M_bind_inv in Hrun as ([st2 evs2] & w2 & Hrest & Hrun). injection Hrun as <- <- <-.
  destruct (subdispatch_spec _ _ _ _ _ _ _ _ _ _ Hwf Hget Hsub) as (Hwf1 & Hs1 & Hother & Hev).
  assert (Hsh1 : shrunk h0 (w_heap w1)).
  { destruct (subdispatch_inv _ _ _ _ _ _ _ _ _ _ Hwf Hget Hsub)
      as [(_ & _ & _ & ->)|(l & it' & keep & ch & g & _ & Hb & -> & _)]; [done|].
    apply handle_block_shrinks in Hb as [? ?]. by apply shrunk_insert. }
  destruct (IH st1 w1 evs2) as (Hwf' & Hs' & Hev'); [done | by etransitivity | done | done | | exact Hrest |].
  { intros h' Hin. rewrite Hother by set_solver. apply Hkeys. set_solver. }
  split; [done|]. split; [done|]. apply Forall_app. split; [|done].
  eapply Forall_impl; [exact Hev|]. intros ev (l & Hl & He). exists h, it, l.
  rewrite <- Hkeys by set_solver. split; [done|]. split; [done|]. exact (block_event_shrunk it h0 (w_heap w) l a ev Hsh He).
Qed.
(** ** Starting a transfer *)

Lemma try_new_route_payment_event ad routes d block_number channels (st : option InitiatorPaymentState) sc h0 w w' o evs :
  starts st sc d -> td_secret d = [] \/ sha256_secrethash (td_secret d) = td_secrethash d ->
  (forall l, ch_our_state (w_heap w l) = ch_our_state (h0 l) /\ same_channel (h0 l) (w_heap w l)) ->
  initiator.try_new_route ad routes d block_number w = Ok (o, evs, w') ->
  Forall (payment_event h0 channels st sc) evs /\
  forall it, o = Some it -> transfer_wf it /\ it_transfer_description it = d /\
    it_received_secret_request it = false /\ lock_secrethash (ltu_lock (it_transfer it)) = td_secrethash d.
Proof.
  intros Hst Hsec Hheap [(-> & _ & exceeds & ->)|(it & l & route & mid & amount & -> & Ht)]%try_new_route_inv.
  { split; [|done]. apply Forall_singleton. by left. }
  destruct (route_taken_wf _ _ _ _ _ _ _ _ _ _ _ _ Ht Hsec) as (Hwf & Hd & _ & Hr & Hh).
  split; [|by intros it' [= <-]].
  destruct Ht as [_ (our & Hf) (ch & msg & u & g & Htn & Hsend & _ & -> & ->)]. cbn in Hwf, Hh.
  apply Forall_singleton. right. exists (w_heap w), d. split; [done|]. split; [|done].
  destruct Hf as (limit & (hop & _ & _ & Ha & Hl) & Hle & Hu).
  assert (Hmsg : sm_recipient msg = es_address (ch_partner_state (w_heap w l))).
  { revert Hsend. unfold send_lockedtransfer, create_sendlockedtransfer.
    intros ([[m t] locks] & Hc & [= _ <- _])%bind_Ok_inv.
    apply py_assert_Ok_inv in Hc as [_ Hc]. apply py_assert_Ok_inv in Hc as [_ Hc].
    apply bind_Ok_inv in Hc as (lock & _ & Hc). destruct (compute_locks_with _ _); [|discriminate].
    apply py_assert_Ok_inv in Hc as [_ Hc]. apply bind_Ok_inv in Hc as (bp & _ & Hc).
    by apply bind_Ok_inv in Hc as (t' & _ & [= <- _ _]). }
  apply send_lockedtransfer_copies in Hsend as (msg' & u' & [= <- <-] & E1 & _ & E2 & _ & E3 & E4 & E5).
  exists l, limit. rewrite E2. split_and!; done.
Qed.

Lemma handle_transferreroute_inv st a channels ad block_number w w' st' evs :
  atr_secrethash a = sha256_secrethash (atr_secret a) ->
  initiator_manager.handle_transferreroute st a channels ad block_number w = Ok (st', evs, w') ->
  (st' = st /\ evs = [] /\ w' = w) \/
  exists it l ch meta v cevs msg,
    od_get (lock_secrethash (lts_lock (atr_transfer a))) (transfers st) = Some it /\
    channels !! it_channel_identifier it = Some l /\
    handle_receive_lockedtransfer (w_heap w l) (atr_transfer a) meta = Ok (ch, (v, cevs, msg)) /\
    let w1 := Build_World (<[l := ch]> (w_heap w)) (w_prng w) in
    ((st' = st /\ evs = [] /\ w' = w1) \/
     exists routes d o more, v = true /\ starts (Some st) (SCActionTransferReroute a) d /\
       lock_amount (lts_lock (atr_transfer a)) = lock_amount (ltu_lock (it_transfer it)) /\
       initiator.try_new_route ad routes d block_number w1 = Ok (o, more, w') /\ evs = cevs ++ more /\
       st' = match o with
             | Some it' => initiator_manager.put_transfer (lock_secrethash (ltu_lock (it_transfer it'))) it' st
             | None => st
             end).
Proof.
  intros Ha. unfold initiator_manager.handle_transferreroute. cbv zeta.
  destruct (od_get _ _) as [it|] eqn:Hget; [|intros [= <- <- <-]; by left]. cbn [mbind option_bind].
  destruct (channels !! _) as [l|] eqn:Hl; [|intros [= <- <- <-]; by left].
  intros ([[v cevs] msg] & w1 & (ch & Hrecv & ->)%with_channel_inv & Hrun)%M_bind_inv. right.
  exists it, l, ch. eexists _, v, cevs, msg. do 2 (split; [done|]). split; [exact Hrecv|]. cbv zeta.
  destruct (negb _ || negb _ || negb v) eqn:Hc; [injection Hrun as <- <- <-; by left|]. right.
  apply orb_false_iff in Hc as [Hc Hv%negb_false_iff]. apply orb_false_iff in Hc as [Hlock%negb_false_iff _].
  apply andb_prop in Hlock as [Hlock _]. apply andb_prop in Hlock as [_ Hamount%Z.eqb_eq].
  apply M_bind_inv in Hrun as (heap & w1 & [= <- <-] & Hrun).
  apply M_bind_inv in Hrun as ([o more] & w1 & Htry & Hrun).
  eexists _, _, o, more. split; [done|]. split; [|split; [done|]; split; [|split]].
  2:{ destruct o; injection Hrun as _ _ <-; exact Htry. }
  2:{ by destruct o; injection Hrun as _ <- _. }
  2:{ by destruct o; injection Hrun as <- _ _. }
  exists it. split; [done|]. split; [done|]. split; [done|]. split; [|done]. cbn. rewrite Ha. by destruct (_ && _).
Qed.

Lemma receive_lockedtransfer_frame ch t meta ch' v evs msg :
  handle_receive_lockedtransfer ch t meta = Ok (ch', (v, evs, msg)) ->
  ch_our_state ch' = ch_our_state ch /\ same_channel ch ch' /\ Forall harmless evs.
Proof.
  intros [(_ & _ & _ & -> & ->)|(_ & _ & _ & -> & reason & ->)]%handle_receive_lockedtransfer_inv;
    (split; [done|]); (split; [by split|]); by apply Forall_singleton.
Qed.

Lemma harmless_payment_event heap channels (st : option InitiatorPaymentState) sc evs :
  Forall harmless evs -> Forall (payment_event heap channels st sc) evs.
Proof. intros Hq. eapply Forall_impl; [exact Hq|]. by left. Qed.

Lemma starts_secret (st : option InitiatorPaymentState) a d :
  starts st (SCActionTransferReroute a) d -> sha256_secrethash (td_secret d) = td_secrethash d.
Proof. destruct st as [st|]; [|done]. by intros (it & _ & _ & -> & -> & _). Qed.

Lemma handle_transferreroute_spec st a channels ad block_number w w' st' evs :
  payment_wf st -> atr_secrethash a = sha256_secrethash (atr_secret a) ->
  initiator_manager.handle_transferreroute st a channels ad block_number w = Ok (st', evs, w') ->
  payment_wf st' /\ Forall (payment_event (w_heap w) channels (Some st) (SCActionTransferReroute a)) evs.
Proof.
  intros Hwf Ha Hrun.
  destruct (handle_transferreroute_inv _ _ _ _ _ _ _ _ _ Ha Hrun)
    as [(-> & -> & _)|(it & l & ch & meta & v & cevs & msg & Hget & Hl & Hrecv & Hrest)]; [done|].
  cbv zeta in Hrest. destruct Hrest as [(-> & -> & _)|(routes & d & o & more & -> & Hst & _ & Htry & -> & ->)]; [done|].
  apply receive_lockedtransfer_frame in Hrecv as (Eour & Hsame & Hq).
  assert (Hheap : forall l', ch_our_state (<[l := ch]> (w_heap w) l') = ch_our_state (w_heap w l') /\
    same_channel (w_heap w l') (<[l := ch]> (w_heap w) l')).
  { intros l'. destruct (decide (l = l')) as [<-|Hne]; [by rewrite fn_lookup_insert | by rewrite fn_lookup_insert_ne]. }
  pose proof (try_new_route_payment_event ad routes d block_number channels _ _ (w_heap w)
    (Build_World (<[l := ch]> (w_heap w)) (w_prng w)) _ _ _ Hst (or_intror (starts_secret _ _ _ Hst)) Hheap Htry) as [Hev Ho].
  split; [|apply Forall_app; split; [by apply harmless_payment_event | done]].
  destruct o as [it'|]; [|done]. destruct (Ho it' eq_refl) as (Hwf' & Ed & _ & Eh).
  destruct Hst as (it0 & Hget0 & Hp & _). eapply payment_wf_new; [done | exact Hget0 | by rewrite Ed | done | done].
Qed.

(** ** Cancelling *)

Lemma cancel_transfers_spec heap channels st todo st' evs :
  payment_wf st -> NoDup todo.*1 -> (forall h it, (h, it) ∈ todo -> od_get h (transfers st) = Some it) ->
  initiator_manager.cancel_transfers heap channels st todo = Ok (st', evs) ->
  payment_wf st' /\ transfers_step st st' /\ Forall harmless evs.
Proof.
  revert st evs. induction todo as [|[h it] todo IH]; intros st evs Hwf Hnd Hin; cbn [initiator_manager.cancel_transfers].
  { by intros [= <- <-]. }
  apply NoDup_cons in Hnd as [Hh Hnd].
  assert (Hskip : initiator_manager.cancel_transfers heap channels st todo = Ok (st', evs) ->
    payment_wf st' /\ transfers_step st st' /\ Forall harmless evs).
  { apply IH; [done|done|]. intros h' it' Hi. apply Hin. set_solver. }
  destruct (channels !! _) as [l|]; [|done]. cbv zeta. destruct (initiator_manager.can_cancel it); [|done].
  intros ([st1 cevs] & Hc & ([st2 more] & Hrest & [= <- <-])%bind_Ok_inv)%bind_Ok_inv.
  apply py_assert_Ok_inv in Hc as [_ [= <- <-]].
  set (stc := set_ip_cancelled_channels _ st) in *. set (it1 := set_it_transfer_state transfer_cancelled it) in *.
  assert (Hget : od_get h (transfers stc) = Some it) by (apply Hin; set_solver).
  assert (Hstep : transfer_step it it1) by (by apply set_transfer_state_step).
  destruct (IH (initiator_manager.put_transfer h it1 stc) more) as (Hwf' & Hs' & Hq); [| done | | exact Hrest |].
  - eapply payment_wf_put; [by apply payment_wf_cancelled_channels | exact Hget | exact Hstep].
  - intros h' it' Hi. cbn. rewrite od_get_set. case_decide as Heq; [|apply Hin; set_solver].
    subst h'. destruct Hh. apply list_elem_of_fmap. by exists (h, it').
  - split; [done|]. split.
    + etransitivity; [|exact Hs']. by apply (transfers_step_put stc h it it1).
    + by repeat (constructor; [exact I|]).
Qed.

Lemma handle_failroute_spec st a st' evs :
  payment_wf st -> initiator_manager.handle_failroute st a = Ok (st', evs) ->
  payment_wf st' /\ transfers_step st st' /\ Forall harmless evs.
Proof.
  intros Hwf. unfold initiator_manager.handle_failroute.
  destruct (od_get _ _) as [it|]; [|intros [= <- <-]; by split_and!].
  destruct (initiator_manager.can_cancel it) eqn:Hc; [|intros [= <- <-]; by split_and!].
  unfold initiator_manager.cancel_current_route. rewrite Hc. intros [= <- <-].
  split; [by apply payment_wf_cancelled_channels|]. split; [by intros h it' Hg; exists it'|]. by repeat constructor.
Qed.

(** ** Secrets and expired locks *)

Lemma handle_secretreveal_spec st sc h msg channels block_number w w' st' evs :
  payment_wf st ->
  initiator_manager.handle_secretreveal st sc h msg channels block_number w = Ok (st', evs, w') ->
  payment_wf st' /\ transfers_step st st' /\ Forall (payment_event (w_heap w) channels (Some st) sc) evs.
Proof.
  intros Hwf. unfold initiator_manager.handle_secretreveal.
  destruct (od_get h _) as [it|] eqn:Hget; [|intros [= <- <- <-]; by split_and!].
  intros ([] & w1 & [_ ->]%lift_inv & Hrun)%M_bind_inv.
  apply M_bind_inv in Hrun as ([st1 evs1] & w1 & Hsub & Hrun). injection Hrun as <- <- <-.
  destruct (subdispatch_events _ _ _ _ _ _ _ _ _ _ Hwf Hget Hsub) as (Hwf1 & Hs1 & Hev).
  destruct (negb _); [|done].
  split; [by apply payment_wf_cancel_others|]. split; [|done]. etransitivity; [exact Hs1 | apply transfers_step_cancel].
Qed.

Lemma handle_secretrequest_spec st a channels block_number w w' st' evs :
  payment_wf st ->
  initiator_manager.handle_secretrequest st a channels block_number w = Ok (st', evs, w') ->
  payment_wf st' /\ transfers_step st st' /\
  Forall (payment_event (w_heap w) channels (Some st) (SCReceiveSecretRequest a)) evs.
Proof.
  intros Hwf. unfold initiator_manager.handle_secretrequest.
  destruct (od_get _ _) as [it|] eqn:Hget; [|intros [= <- <- <-]; by split_and!].
  case_bool_decide; [intros [= <- <- <-]; by split_and!|]. by apply subdispatch_events.
Qed.

Lemma initiator_lock_expired_spec st a channels block_number w w' st' evs :
  initiator_manager.handle_lock_expired st a channels block_number w = Ok (st', evs, w') ->
  st' = st /\ Forall harmless evs /\
  (w' = w \/ exists l ch meta evs', handle_receive_lock_expired (w_heap w l) a block_number meta = Ok (Some ch, evs') /\
     w' = Build_World (<[l := ch]> (w_heap w)) (w_prng w)).
Proof.
  unfold initiator_manager.handle_lock_expired. destruct (od_get _ _) as [it|]; [|intros [= <- <- <-]; auto].
  destruct (channels !! _) as [l|]; [|intros [= <- <- <-]; auto]. cbv zeta.
  intros (evs1 & w1 & (ch & Hrecv & ->)%with_channel_inv & Hrun)%M_bind_inv.
  apply bind_Ok_inv in Hrecv as ([o evs2] & Hrecv & E). destruct o as [ch1|]; [|discriminate]. injection E as -> ->.
  assert (Hq : Forall harmless evs1).
  { revert Hrecv. unfold handle_receive_lock_expired. intros ([[v msg] locks] & _ & Hrun')%bind_Ok_inv.
    destruct v; [destruct locks; [|discriminate]; injection Hrun' as _ <-; by apply Forall_singleton|].
    apply py_assert_Ok_inv in Hrun' as [_ [= _ <-]]. by apply Forall_singleton. }
  apply M_bind_inv in Hrun as (ch2 & w2 & [= <- <-] & Hrun).
  destruct (is_none _); injection Hrun as <- <- <-; (split; [done|]); (split; [|right; eauto 10]).
  - apply Forall_app. split; [done | by apply Forall_singleton].
  - done.
Qed.
End Dispatch.
