(* ===== verification/InitiatorTheorems.v ===== *)
(** * The initiator of a payment: the theorems

    The state of a payment stays well-formed; the secret leaves the node only
    for the target's first valid request and a lock is paid only after its
    secret is shown, each at most once per transfer; the channels stay sound;
    a new transfer goes out over the first route that fits; and an expired lock
    is withdrawn from the channel. *)

From Stdlib Require Import ZArith Lia Strings.Byte.
From stdpp Require Import base functions gmap list strings pretty.
From S2P Require Import Prelude Encoding MediationFee State Events ChannelViews ChannelValidation ChannelSend ChannelHandlers TaskState World Mediator Initiator InitiatorManager LockSets ChannelInvariant BalanceProofMessages LockOperations StateTransition TransferTheorems Reachability ChannelFrame SecretRegistration WorldLogic MediatorInvariant MediatorPhases MediatorForwarding ChannelTheorems InitiatorInvariant InitiatorRoutes InitiatorSteps InitiatorDispatch.

Section Transitions.
Context `{Externals} {Random : Type} `{RandomGen Random}.
Implicit Types (st : InitiatorPaymentState) (w : World Random).

(** ** The dispatch *)

Lemma initiator_block_spec st a channels block_number w w' st' evs :
  payment_wf st -> initiator_manager.handle_block st a channels block_number w = Ok (st', evs, w') ->
  payment_wf st' /\ transfers_step st st' /\ Forall (payment_event (w_heap w) channels (Some st) (SCBlock a)) evs.
Proof.
  intros Hwf Hrun. destruct (subdispatch_to_transfers_spec a channels block_number (w_heap w) st
    (transfers st).*1 st w w' st' evs) as (Hwf' & Hs & Hev); try done; [apply Hwf|].
  split; [done|]. split; [done|]. eapply Forall_impl; [exact Hev|]. intros ev. apply of_transfer_payment_event.
Qed.

(** The run of a handler behind the dispatch of an existing payment. *)
Lemma task_dispatched (m : M Random (InitiatorPaymentState * list Event)) w w' o evs :
  ('(st', events) ← m; mret (Some st', events)) w = Ok (o, evs, w') ->
  exists st', o = Some st' /\ m w = Ok (st', evs, w').
Proof. intros ([st' evs'] & w1 & Hm & Hrun)%M_bind_inv. injection Hrun as <- <- <-. eauto. Qed.

Lemma dispatch_running st sc channels ad block_number w w' o evs :
  payment_wf st -> initiator_declared sc ->
  initiator_manager.dispatch (Some st) sc channels ad block_number w = Ok (o, evs, w') ->
  exists st', o = Some st' /\ payment_wf st' /\ (starts_transfer sc = false -> transfers_step st st') /\
    Forall (payment_event (w_heap w) channels (Some st) sc) evs.
Proof.
  intros Hwf Hdecl. unfold initiator_manager.dispatch. cbv zeta.
  assert (Hsame : (mret (Some st, []) : M Random _) w = Ok (o, evs, w') -> exists st', o = Some st' /\ payment_wf st' /\
    (starts_transfer sc = false -> transfers_step st st') /\ Forall (payment_event (w_heap w) channels (Some st) sc) evs).
  { intros [= <- <- _]. exists st. do 2 (split; [done|]). split; [by intros _ | done]. }
  destruct sc; try exact Hsame; intros Hrun; try apply task_dispatched in Hrun as (st' & -> & Hrun).
  - apply initiator_block_spec in Hrun as (? & ? & ?); [|done]. by exists st'.
  - apply handle_secretreveal_spec in Hrun as (? & ? & ?); [|done]. by exists st'.
  - apply initiator_lock_expired_spec in Hrun as (-> & Hq & _). exists st. do 2 (split; [done|]). split; [by intros _|].
    by apply harmless_payment_event.
  - apply handle_secretreveal_spec in Hrun as (? & ? & ?); [|done]. by exists st'.
  - apply handle_transferreroute_spec in Hrun as [? ?]; [|done|done]. by exists st'.
  - apply lift_inv in Hrun as [Hrun _]. apply handle_failroute_spec in Hrun as (? & ? & Hq); [|done].
    exists st'. split_and!; try done. by apply harmless_payment_event.
  - apply handle_secretrequest_spec in Hrun as (? & ? & ?); [|done]. by exists st'.
  - apply M_bind_inv in Hrun as (heap & w1 & [= <- <-] & [Hrun _]%lift_inv).
    apply cancel_transfers_spec in Hrun as (? & ? & Hq); [|done|apply Hwf|].
    + exists st'. split_and!; try done. by apply harmless_payment_event.
    + intros h it Hin. apply od_get_elem; [apply Hwf | done].
Qed.

Lemma dispatch_fresh sc channels ad block_number w w' o evs :
  initiator_declared sc ->
  initiator_manager.dispatch None sc channels ad block_number w = Ok (o, evs, w') ->
  (forall st', o = Some st' -> payment_wf st' /\ (length (transfers st') = 1)%nat) /\
  Forall (payment_event (w_heap w) channels None sc) evs.
Proof.
  intros Hdecl. unfold initiator_manager.dispatch. cbv zeta.
  destruct sc; try (by intros [[=] _]%lift_inv); try (by intros [= <- <- _]).
  unfold initiator_manager.handle_init. intros ([o1 evs1] & w1 & Htry & Hrun)%M_bind_inv.
  pose proof (try_new_route_payment_event ad (aii_routes a) (aii_transfer a) block_number channels None
    (SCActionInitInitiator a) (w_heap w) w w1 o1 evs1 eq_refl Hdecl ltac:(done) Htry) as [Hev Ho].
  destruct o1 as [it|]; injection Hrun as <- <- _; [|by split]. split; [|done].
  intros st' [= <-]. split; [|done]. destruct (Ho it eq_refl) as (Hwf & _). split; cbn.
  - apply NoDup_singleton.
  - intros h it'. case_decide; [|done]. intros [= <-]. by subst.
  - intros h1 i1 h2 i2. repeat case_decide; try done. intros [= <-] [= <-]. reflexivity.
Qed.

Lemma initiator_transition_inv o sc channels ad block_number w w' o' evs :
  initiator_manager.state_transition o sc channels ad block_number w = Ok (o', evs, w') ->
  exists o1, initiator_manager.dispatch o sc channels ad block_number w = Ok (o1, evs, w') /\
    forall st', o' = Some st' -> o1 = Some st' /\ transfers st' <> [].
Proof.
  unfold initiator_manager.state_transition. intros ([o1 evs1] & w1 & Hd & Hrun)%M_bind_inv.
  exists o1. unfold initiator_manager.clear_if_finalized in Hrun. destruct o1 as [st1|].
  - destruct (_ =? 0)%nat eqn:E; injection Hrun as <- <- <-; (split; [done|]); [done|].
    intros st' [= <-]. split; [done|]. intros E'. by rewrite E' in E.
  - by injection Hrun as <- <- <-.
Qed.

(** C15. The type of a payment.  A transition keeps the state of a payment
    well-formed: transfers are filed under the secret hashes of their locks, each
    locks the amount to pay with fees and margin, at most up to the fee limit,
    for the target and payment of its description, and all transfers of a payment
    are for the same amount, target and identifier.  A payment without transfers
    is dropped. *)
Theorem initiator_state_typed o sc channels ad block_number w w' o' evs :
  initiator_declared sc -> (forall st, o = Some st -> payment_wf st) ->
  initiator_manager.state_transition o sc channels ad block_number w = Ok (o', evs, w') ->
  forall st', o' = Some st' -> payment_wf st' /\ transfers st' <> [].
Proof.
  intros Hdecl Hwf (o1 & Hd & Ho)%initiator_transition_inv st' [-> Hne]%Ho. split; [|done].
  destruct o as [st|].
  - destruct (dispatch_running _ _ _ _ _ _ _ _ _ (Hwf st eq_refl) Hdecl Hd) as (st1 & [= ->] & Hwf' & _). done.
  - destruct (dispatch_fresh _ _ _ _ _ _ _ _ Hdecl Hd) as [Hwf' _]. by destruct (Hwf' st' eq_refl).
Qed.

(** C13. What leaves the initiator.  Every event of a transition is justified: the
    secret goes to the target only, for its first request of this payment, for at
    least the amount, with the expiration of the pending lock; a lock is paid and
    success reported only when the next hop revealed the secret or it was
    registered on-chain before the lock expired, in an open channel; a lock is
    declared expired only past its expiration and the confirmations; and a new
    transfer locks at most the limit in a channel usable for it. *)
Theorem initiator_events_safe o sc channels ad block_number w w' o' evs :
  initiator_declared sc -> (forall st, o = Some st -> payment_wf st) ->
  initiator_manager.state_transition o sc channels ad block_number w = Ok (o', evs, w') ->
  Forall (payment_event (w_heap w) channels o sc) evs.
Proof.
  intros Hdecl Hwf (o1 & Hd & _)%initiator_transition_inv. destruct o as [st|].
  - by destruct (dispatch_running _ _ _ _ _ _ _ _ _ (Hwf st eq_refl) Hdecl Hd) as (? & _ & _ & _ & Hev).
  - by destruct (dispatch_fresh _ _ _ _ _ _ _ _ Hdecl Hd) as [_ Hev].
Qed.
(** ** The channels *)

(** The secret hash of a new transfer is new in every channel it may leave
    through, and a refund brings a decoded lock that is new in its channel. *)
Definition fresh_in (heap : Heap) (ad : AddressDict) (secrethash : bytes) : Prop :=
  forall key l, od_get key ad = Some l -> get_lock (ch_our_state (heap l)) secrethash = None.

Definition initiator_admissible (heap : Heap) (channels : ChannelMap) (ad : AddressDict)
    (o : option InitiatorPaymentState) (sc : StateChange) : Prop :=
  match sc, o with
  | SCActionInitInitiator a, None => fresh_in heap ad (td_secrethash (aii_transfer a))
  | SCActionTransferReroute a, Some st =>
      fresh_in heap ad (sha256_secrethash (atr_secret a)) /\
      forall it l, od_get (lock_secrethash (lts_lock (atr_transfer a))) (transfers st) = Some it ->
        channels !! it_channel_identifier it = Some l ->
        lock_wf (lts_lock (atr_transfer a)) /\
        get_lock (ch_partner_state (heap l)) (lock_secrethash (lts_lock (atr_transfer a))) = None
  | _, _ => True
  end.

Lemma try_new_route_steady ad routes d block_number w w' o evs :
  (forall l, channel_inv (w_heap w l)) -> fresh_in (w_heap w) ad (td_secrethash d) ->
  initiator.try_new_route ad routes d block_number w = Ok (o, evs, w') -> steady (w_heap w) w'.
Proof.
  intros Hinv Hfresh [(_ & -> & _)|(it & l & route & mid & amount & _ & Ht)]%try_new_route_inv; [by apply steady_refl|].
  destruct Ht as [_ (our & limit & (hop & _ & Hl & _) & _) (ch & msg & u & g & _ & Hsend & -> & _)].
  apply steady_insert; [by apply steady_refl|]. eapply send_lockedtransfer_safe; [apply Hinv | | exact Hsend].
  by eapply Hfresh.
Qed.

Lemma subdispatch_steady h0 st h it sc channels block_number w w' st' evs :
  payment_wf st -> od_get h (transfers st) = Some it -> steady h0 w ->
  initiator_manager.subdispatch_to_initiatortransfer st h it sc channels block_number w = Ok (st', evs, w') ->
  steady h0 w'.
Proof.
  intros Hwf Hget Hs Hsub.
  destruct (subdispatch_inv _ _ _ _ _ _ _ _ _ _ Hwf Hget Hsub)
    as [(_ & _ & _ & ->)|(l & it' & keep & ch & g & Hl & Hrun & -> & _)]; [done|].
  apply steady_insert; [done|]. eapply state_transition_safe; [by apply (steady_inv h0) | exact Hrun].
Qed.

Lemma subdispatch_to_transfers_steady h0 sc channels block_number keys st w w' st' evs :
  payment_wf st -> steady h0 w ->
  initiator_manager.subdispatch_to_transfers st keys sc channels block_number w = Ok (st', evs, w') ->
  steady h0 w'.
Proof.
  revert st w evs. induction keys as [|h keys IH]; intros st w evs Hwf Hs; cbn [initiator_manager.subdispatch_to_transfers].
  { by intros [= _ _ <-]. }
  destruct (od_get h (transfers st)) as [it|] eqn:Hget; [|by intros [[=] _]%lift_inv].
  intros ([st1 evs1] & w1 & Hsub & Hrun)%M_bind_inv.
  apply M_bind_inv in Hrun as ([st2 evs2] & w2 & Hrest & Hrun). injection Hrun as <- _ <-.
  destruct (subdispatch_spec _ _ _ _ _ _ _ _ _ _ Hwf Hget Hsub) as (Hwf1 & _).
  eapply IH; [exact Hwf1 | | exact Hrest]. eapply subdispatch_steady; [exact Hwf | exact Hget | exact Hs | exact Hsub].
Qed.

Lemma handle_secretreveal_steady h0 st sc h msg channels block_number w w' st' evs :
  payment_wf st -> steady h0 w ->
  initiator_manager.handle_secretreveal st sc h msg channels block_number w = Ok (st', evs, w') -> steady h0 w'.
Proof.
  intros Hwf Hs. unfold initiator_manager.handle_secretreveal.
  destruct (od_get h _) as [it|] eqn:Hget; [|by intros [= _ _ <-]].
  intros ([] & w1 & [_ ->]%lift_inv & Hrun)%M_bind_inv.
  apply M_bind_inv in Hrun as ([st1 evs1] & w1 & Hsub & Hrun). injection Hrun as _ _ <-.
  eapply subdispatch_steady; [exact Hwf | exact Hget | exact Hs | exact Hsub].
Qed.

Lemma handle_transferreroute_steady st a channels ad block_number w w' st' evs :
  (forall l, channel_inv (w_heap w l)) -> atr_secrethash a = sha256_secrethash (atr_secret a) ->
  initiator_admissible (w_heap w) channels ad (Some st) (SCActionTransferReroute a) ->
  initiator_manager.handle_transferreroute st a channels ad block_number w = Ok (st', evs, w') ->
  steady (w_heap w) w'.
Proof.
  intros Hinv Ha [Hfresh Hrefund] Hrun.
  destruct (handle_transferreroute_inv _ _ _ _ _ _ _ _ _ Ha Hrun)
    as [(_ & _ & ->)|(it & l & ch & meta & v & cevs & msg & Hget & Hl & Hrecv & Hrest)]; [by apply steady_refl|].
  destruct (Hrefund it l Hget Hl) as [Hwf Hnew].
  pose proof (handle_receive_lockedtransfer_safe _ _ _ _ _ _ _ (Hinv l) Hwf Hnew Hrecv) as Hsafe.
  apply receive_lockedtransfer_frame in Hrecv as (Eour & Hsame & _). cbv zeta in Hrest.
  set (w1 := Build_World (<[l := ch]> (w_heap w)) (w_prng w)) in *.
  assert (H1 : steady (w_heap w) w1) by (apply steady_insert; [by apply steady_refl | done]).
  destruct Hrest as [(_ & _ & ->)|(routes & d & o & more & _ & Hst & _ & Htry & _)]; [done|].
  assert (Hheap : forall l', ch_our_state (w_heap w1 l') = ch_our_state (w_heap w l')).
  { intros l'. unfold w1. cbn. destruct (decide (l = l')) as [<-|Hne]; [by rewrite fn_lookup_insert | by rewrite fn_lookup_insert_ne]. }
  apply steady_trans with (h1 := w_heap w1); [intros l'; apply (H1 l')|].
  eapply try_new_route_steady; [intros l'; apply (H1 l') | | exact Htry].
  destruct Hst as (_ & _ & _ & _ & Eh & _). intros key l' Hl'. rewrite Hheap, Eh. by eapply Hfresh.
Qed.

(** C16. The channels under a payment.  Whatever is dispatched to the task of a
    payment, every channel object still satisfies the channel invariant
    afterwards and is the same channel in the same status, provided a new
    transfer brings a new secret hash and a refund a new lock. *)
Theorem initiator_keeps_channels o sc channels ad block_number w w' o' evs :
  (forall l, channel_inv (w_heap w l)) -> initiator_declared sc -> (forall st, o = Some st -> payment_wf st) ->
  initiator_admissible (w_heap w) channels ad o sc ->
  initiator_manager.state_transition o sc channels ad block_number w = Ok (o', evs, w') ->
  forall l, channel_inv (w_heap w' l) /\ same_channel (w_heap w l) (w_heap w' l).
Proof.
  intros Hinv Hdecl Hwf Hadm (o1 & Hd & _)%initiator_transition_inv.
  assert (Hs : steady (w_heap w) w'); [|intros l; by destruct (Hs l)].
  assert (Hw : steady (w_heap w) w) by (by apply steady_refl).
  revert Hd. unfold initiator_manager.dispatch. cbv zeta. destruct o as [st|].
  - specialize (Hwf st eq_refl).
    destruct sc; try (by intros [= _ _ <-]); try intros (st' & _ & Hrun)%task_dispatched.
    + by eapply subdispatch_to_transfers_steady.
    + by eapply handle_secretreveal_steady.
    + apply initiator_lock_expired_spec in Hrun as (_ & _ & [->|(l & ch & meta & evs' & Hrecv & ->)]); [done|].
      apply steady_insert; [done|]. by eapply handle_receive_lock_expired_safe.
    + by eapply handle_secretreveal_steady.
    + by eapply handle_transferreroute_steady.
    + by apply lift_inv in Hrun as [_ ->].
    + revert Hrun. unfold initiator_manager.handle_secretrequest.
      destruct (od_get _ _) as [it|] eqn:Hget; [|by intros [= _ _ <-]].
      case_bool_decide; [by intros [= _ _ <-]|]. by eapply subdispatch_steady.
    + by apply M_bind_inv in Hrun as (heap & w1 & [= _ <-] & [_ ->]%lift_inv).
  - destruct sc; try (by intros [[=] _]%lift_inv); try (by intros [= _ _ <-]).
    unfold initiator_manager.handle_init. intros ([o2 evs1] & w1 & Htry & Hrun)%M_bind_inv.
    assert (w1 = w') as -> by (by destruct o2; injection Hrun as _ _ <-). by eapply try_new_route_steady.
Qed.
End Transitions.
