(* ===== verification/InitiatorRuns.v ===== *)
(** * Runs of a payment

    Along any sequence of transitions that starts no further transfer, the
    secret of each transfer is revealed at most once and at most one payment per
    transfer is reported. *)

From Stdlib Require Import ZArith Lia Strings.Byte.
From stdpp Require Import base functions gmap list strings pretty.
From S2P Require Import Prelude Encoding MediationFee State Events ChannelViews ChannelValidation ChannelSend ChannelHandlers TaskState World Mediator Initiator InitiatorManager LockSets ChannelInvariant BalanceProofMessages LockOperations StateTransition TransferTheorems Reachability ChannelFrame SecretRegistration WorldLogic MediatorInvariant MediatorPhases MediatorForwarding ChannelTheorems InitiatorInvariant InitiatorRoutes InitiatorSteps InitiatorDispatch InitiatorTheorems.

(** ** Counting *)

Definition reveals_secret (secrethash : bytes) (event : Event) : bool :=
  match event with SendSecretReveal _ _ h => bool_decide (h = secrethash) | _ => false end.
Definition reports_payment (event : Event) : bool :=
  match event with EventPaymentSentSuccess _ _ _ _ _ _ _ => true | _ => false end.

Definition reveals (secrethash : bytes) (evs : list Event) : nat :=
  length (List.filter (reveals_secret secrethash) evs).
Definition payments (evs : list Event) : nat := length (List.filter reports_payment evs).

Lemma reveals_app h e1 e2 : reveals h (e1 ++ e2) = (reveals h e1 + reveals h e2)%nat.
Proof. unfold reveals. by rewrite List.filter_app, length_app. Qed.

Lemma payments_app e1 e2 : payments (e1 ++ e2) = (payments e1 + payments e2)%nat.
Proof. unfold payments. by rewrite List.filter_app, length_app. Qed.

Lemma harmless_counts h evs : Forall harmless evs -> reveals h evs = 0%nat /\ payments evs = 0%nat.
Proof.
  unfold reveals, payments. induction 1 as [|ev evs Hev _ IH]; [done|]. by destruct ev.
Qed.

(** What may still happen: the secret of the transfer with this hash was not
    requested yet; the transfers that may still be paid. *)
Definition unrequested (secrethash : bytes) (o : option InitiatorPaymentState) : nat :=
  match st ← o; od_get secrethash (transfers st) with
  | Some it => if it_received_secret_request it then 0 else 1
  | None => 0
  end.
Definition unpaid (o : option InitiatorPaymentState) : nat :=
  match o with Some st => length (transfers st) | None => 0 end.

Section Runs.
Context `{Externals} {Random : Type} `{RandomGen Random}.
Implicit Types (st : InitiatorPaymentState) (w : World Random).

Definition spends (o : option InitiatorPaymentState) (evs : list Event) (o' : option InitiatorPaymentState) : Prop :=
  (forall h, (reveals h evs + unrequested h o' <= unrequested h o)%nat) /\
  (payments evs + unpaid o' <= unpaid o)%nat.

Lemma spends_trans o1 e1 o2 e2 o3 : spends o1 e1 o2 -> spends o2 e2 o3 -> spends o1 (e1 ++ e2) o3.
Proof.
  intros [R1 P1] [R2 P2]. split; [|rewrite payments_app; lia]. intros h. rewrite reveals_app.
  specialize (R1 h). specialize (R2 h). lia.
Qed.

Lemma transfers_step_unrequested h st st' :
  transfers_step st st' -> (unrequested h (Some st') <= unrequested h (Some st))%nat.
Proof.
  intros Hs. unfold unrequested. cbn. destruct (od_get h (transfers st')) as [it'|] eqn:Hg; [|lia].
  destruct (Hs _ _ Hg) as (it & -> & [[_ _ _ _ Hr] _]).
  destruct (it_received_secret_request it); [by rewrite Hr|]. destruct (it_received_secret_request it'); lia.
Qed.

Lemma transfers_step_unpaid st st' :
  payment_wf st' -> transfers_step st st' -> (unpaid (Some st') <= unpaid (Some st))%nat.
Proof.
  intros Hwf Hs. cbn. rewrite <- !(length_fmap fst). apply submseteq_length, NoDup_submseteq; [apply Hwf|].
  intros h Hin. destruct (od_get h (transfers st')) as [it'|] eqn:Hg; [|by apply od_get_None in Hg].
  destruct (Hs _ _ Hg) as (it & Hg' & _). apply od_get_Some_elem in Hg'.
  apply list_elem_of_fmap. by exists (h, it).
Qed.

Lemma harmless_spends st evs st' :
  payment_wf st' -> transfers_step st st' -> Forall harmless evs -> spends (Some st) evs (Some st').
Proof.
  intros Hwf Hs Hq. split.
  - intros h. destruct (harmless_counts h evs Hq) as [-> _]. by apply transfers_step_unrequested.
  - destruct (harmless_counts [] evs Hq) as [_ ->]. by apply transfers_step_unpaid.
Qed.

(** One call for one transfer. *)
Lemma state_transition_counts it sc ch (prng : Random) block_number it' keep evs ch' prng' :
  transfer_wf it ->
  initiator.state_transition it sc ch prng block_number = Ok (it', keep, evs, ch', prng') ->
  (Forall harmless evs \/ exists msg bp h, sc = SCBlock msg /\ evs = bp :: h /\ Forall harmless h /\
     (forall s, reveals_secret s bp = false) /\ reports_payment bp = false) \/
  (keep = true /\ it_received_secret_request it = false /\ it_received_secret_request it' = true /\
   exists msg secret, evs = [SendSecretReveal msg secret (lock_secrethash (ltu_lock (it_transfer it)))]) \/
  (keep = false /\ payments evs = 1%nat /\ forall h, reveals h evs = 0%nat).
Proof.
  intros Hwf. unfold initiator.state_transition.
  assert (Hpaid : forall ch1 secret h, initiator.events_for_unlock_lock it ch1 secret h prng block_number = Ok (evs, ch', prng') ->
    payments evs = 1%nat /\ forall h, reveals h evs = 0%nat).
  { intros ch1 secret h (mid & meta & ev & Hs & ->)%events_for_unlock_lock_inv.
    apply send_unlock_inv in Hs as (l & bp & msg & our & _ & _ & _ & _ & _ & -> & _). done. }
  destruct sc; try (by intros [= _ _ <- _ _]; left; left).
  - unfold initiator.handle_block. cbv zeta. destruct (_ !! _) as [lock|]; [|by intros [= _ _ <- _ _]; left; left].
    destruct (ok _ && _); [|by intros [= _ _ <- _ _]; left; left].
    intros ([[ch1 evs1] g] & Hsend & [= _ _ <- _ _])%bind_Ok_inv. left.
    case_bool_decide; [|injection Hsend as _ <- _; left; by repeat constructor].
    apply send_lock_expired_inv in Hsend as [_ [(_ & -> & _)|(bp & msg & _ & _ & -> & _)]]; [left; by repeat constructor|].
    right. do 3 eexists. split; [done|]. split; [reflexivity|]. by repeat constructor.
  - intros (-> & ch1 & _ & [(_ & -> & _)|(-> & _ & _ & _ & Hrun)])%handle_onchain_secretreveal_inv; [by left; left|].
    right. right. split; [done|]. by eapply Hpaid.
  - intros (-> & [(_ & -> & _)|(-> & _ & _ & Hrun)])%handle_offchain_secretreveal_inv; [by left; left|].
    right. right. split; [done|]. by eapply Hpaid.
  - unfold initiator.handle_secretrequest. cbv zeta. destruct (negb _); [by intros [= _ _ <- _ _]; left; left|].
    destruct (get_lock _ _); [|done]. destruct (it_received_secret_request it) eqn:Hr; [by intros [= _ _ <- _ _]; left; left|].
    destruct (_ && _ && _) eqn:Hv; [|intros [= _ _ <- _ _]; left; left; by repeat constructor].
    apply andb_prop in Hv as [_ Hne%negb_true_iff%bool_decide_eq_false].
    destruct (message_identifier_from_prng prng). intros [= <- <- <- _ _]. right. left.
    do 3 (split; [done|]). unfold SendSecretReveal_init.
    destruct (tw_secret _ Hwf) as [Hnil|Esec]; [done|]. rewrite Esec, (tw_hash _ Hwf). eauto.
Qed.

Lemma od_del_length {K V} `{EqDecision K} k (d : list (K * V)) v :
  od_get k d = Some v -> length d = S (length (od_del k d)).
Proof. induction d as [|[k' v'] d IH]; csimpl; [done|]. case_decide; [done|]. intros Hg. cbn. by rewrite IH. Qed.

Lemma subdispatch_spends st h it sc channels block_number w w' st' evs :
  payment_wf st -> od_get h (transfers st) = Some it ->
  initiator_manager.subdispatch_to_initiatortransfer st h it sc channels block_number w = Ok (st', evs, w') ->
  spends (Some st) evs (Some st').
Proof.
  intros Hwf Hget Hsub. destruct (subdispatch_spec _ _ _ _ _ _ _ _ _ _ Hwf Hget Hsub) as (Hwf' & Hs & _).
  destruct (subdispatch_inv _ _ _ _ _ _ _ _ _ _ Hwf Hget Hsub)
    as [(_ & -> & -> & _)|(l & it' & keep & ch & g & Hl & Hrun & _ & ->)]; [by apply harmless_spends|].
  destruct (pw_transfers _ Hwf _ _ Hget) as [Eh Htw].
  destruct (state_transition_counts _ _ _ _ _ _ _ _ _ _ Htw Hrun)
    as [[Hq|(msg & ev & more & _ & -> & Hq & Hnr & Hnp)]|[(-> & Hr & Hr' & msg & secret & ->)|(-> & Hp & Hno)]].
  - by apply harmless_spends.
  - destruct (harmless_spends _ _ _ Hwf' Hs Hq) as [R P]. unfold spends, reveals, payments in *. cbn [List.filter].
    rewrite Hnp. split; [|done]. intros h'. rewrite Hnr. apply R.
  - split; [intros h'|by apply transfers_step_unpaid]. unfold reveals. cbn [List.filter reveals_secret].
    rewrite Eh. case_bool_decide as Heq; [|by apply transfers_step_unrequested]. subst h'.
    unfold unrequested. cbn. rewrite od_get_set, decide_True by done. by rewrite Hget, Hr, Hr'.
  - split; [intros h'; rewrite Hno; by apply transfers_step_unrequested|].
    rewrite Hp. cbn. rewrite (od_del_length _ _ _ Hget). lia.
Qed.

Lemma subdispatch_to_transfers_spends sc channels block_number keys st w w' st' evs :
  payment_wf st ->
  initiator_manager.subdispatch_to_transfers st keys sc channels block_number w = Ok (st', evs, w') ->
  spends (Some st) evs (Some st').
Proof.
  revert st w evs. induction keys as [|h keys IH]; intros st w evs Hwf; cbn [initiator_manager.subdispatch_to_transfers].
  { intros [= <- <- _]. by apply harmless_spends. }
  destruct (od_get h (transfers st)) as [it|] eqn:Hget; [|by intros [[=] _]%lift_inv].
  intros ([st1 evs1] & w1 & Hsub & Hrun)%M_bind_inv.
  apply M_bind_inv in Hrun as ([st2 evs2] & w2 & Hrest & Hrun). injection Hrun as <- <- <-.
  destruct (subdispatch_spec _ _ _ _ _ _ _ _ _ _ Hwf Hget Hsub) as (Hwf1 & _).
  eapply spends_trans; [eapply subdispatch_spends; [exact Hwf | exact Hget | exact Hsub]|]. by eapply IH.
Qed.

Lemma handle_secretreveal_spends st sc h msg channels block_number w w' st' evs :
  payment_wf st ->
  initiator_manager.handle_secretreveal st sc h msg channels block_number w = Ok (st', evs, w') ->
  spends (Some st) evs (Some st').
Proof.
  intros Hwf. unfold initiator_manager.handle_secretreveal.
  destruct (od_get h _) as [it|] eqn:Hget; [|intros [= <- <- _]; by apply harmless_spends].
  intros ([] & w1 & [_ ->]%lift_inv & Hrun)%M_bind_inv.
  apply M_bind_inv in Hrun as ([st1 evs1] & w1 & Hsub & Hrun). injection Hrun as <- <- _.
  pose proof (subdispatch_spends _ _ _ _ _ _ _ _ _ _ Hwf Hget Hsub) as Hsp.
  destruct (subdispatch_spec _ _ _ _ _ _ _ _ _ _ Hwf Hget Hsub) as (Hwf1 & _).
  destruct (negb _); [|done]. rewrite <- (app_nil_r evs1). eapply spends_trans; [exact Hsp|].
  apply harmless_spends; [by apply payment_wf_cancel_others | apply transfers_step_cancel | done].
Qed.

Lemma dispatch_spends st sc channels ad block_number w w' o evs :
  payment_wf st -> initiator_declared sc -> starts_transfer sc = false ->
  initiator_manager.dispatch (Some st) sc channels ad block_number w = Ok (o, evs, w') -> spends (Some st) evs o.
Proof.
  intros Hwf Hdecl Hno Hd.
  destruct (dispatch_running _ _ _ _ _ _ _ _ _ Hwf Hdecl Hd) as (st' & -> & Hwf' & Hs & _). specialize (Hs Hno).
  revert Hd. unfold initiator_manager.dispatch. cbv zeta.
  destruct sc; try discriminate Hno; try (intros [= <- <- _]; by apply harmless_spends);
    intros (st1 & [= <-] & Hrun)%task_dispatched.
  - by eapply subdispatch_to_transfers_spends.
  - by eapply handle_secretreveal_spends.
  - apply initiator_lock_expired_spec in Hrun as (_ & Hq & _). by apply harmless_spends.
  - by eapply handle_secretreveal_spends.
  - apply lift_inv in Hrun as [Hrun _]. apply handle_failroute_spec in Hrun as (_ & _ & Hq); [|done].
    by apply harmless_spends.
  - revert Hrun. unfold initiator_manager.handle_secretrequest.
    destruct (od_get _ _) as [it|] eqn:Hget; [|intros [= <- <- _]; by apply harmless_spends].
    case_bool_decide; [intros [= <- <- _]; by apply harmless_spends|]. by eapply subdispatch_spends.
  - apply M_bind_inv in Hrun as (heap & w1 & [= <- <-] & [Hrun _]%lift_inv).
    apply cancel_transfers_spec in Hrun as (_ & _ & Hq); [by apply harmless_spends | done | apply Hwf |].
    intros h it Hin. apply od_get_elem; [apply Hwf | done].
Qed.

(** ** Sequences of transitions *)

(** Transitions of a task that start no transfer, with whatever channels, block
    numbers and changes of the world by other tasks in between. *)
Inductive payment_run : option InitiatorPaymentState -> list Event -> option InitiatorPaymentState -> Prop :=
  | payment_run_nil o : payment_run o [] o
  | payment_run_step o sc channels ad block_number w w' o1 evs1 evs2 o2 :
      initiator_declared sc -> starts_transfer sc = false ->
      initiator_manager.state_transition o sc channels ad block_number w = Ok (o1, evs1, w') ->
      payment_run o1 evs2 o2 -> payment_run o (evs1 ++ evs2) o2.

Lemma state_transition_spends o sc channels ad block_number w w' o' evs :
  (forall st, o = Some st -> payment_wf st) -> initiator_declared sc -> starts_transfer sc = false ->
  initiator_manager.state_transition o sc channels ad block_number w = Ok (o', evs, w') ->
  spends o evs o' /\ forall st, o' = Some st -> payment_wf st.
Proof.
  intros Hwf Hdecl Hno (o1 & Hd & Ho)%initiator_transition_inv. destruct o as [st|].
  - pose proof (dispatch_spends _ _ _ _ _ _ _ _ _ (Hwf st eq_refl) Hdecl Hno Hd) as [R P].
    destruct (dispatch_running _ _ _ _ _ _ _ _ _ (Hwf st eq_refl) Hdecl Hd) as (st' & -> & Hwf' & _).
    destruct o' as [st2|].
    + destruct (Ho st2 eq_refl) as [[= <-] _]. split; [by split|]. by intros st2 [= <-].
    + split; [|done]. split; [intros h; specialize (R h)|]; cbn in *; lia.
  - revert Hd. unfold initiator_manager.dispatch. cbv zeta.
    assert (o' = None \/ exists st, o' = Some st) as [->|(st & ->)] by (destruct o'; eauto).
    + destruct sc; try discriminate Hno; try (by intros [[=] _]%lift_inv); by intros [= <- <- _].
    + destruct (Ho st eq_refl) as [-> _]. destruct sc; try discriminate Hno; try (by intros [[=] _]%lift_inv); by intros [=].
Qed.

(** C14. A payment is made once.  Along any run of a payment that starts no
    further transfer, each transfer reveals its secret at most once, and never
    after the request for it was answered or refused; and no more payments are
    reported than the payment has transfers, so one for a payment that was just
    started. *)
Theorem initiator_acts_once st evs o :
  payment_wf st -> payment_run (Some st) evs o ->
  (payments evs <= length (transfers st))%nat /\
  forall h it, od_get h (transfers st) = Some it ->
    (reveals h evs <= if it_received_secret_request it then 0 else 1)%nat.
Proof.
  intros Hwf Hrun. assert (Hs : spends (Some st) evs o).
  { assert (Hwf' : forall st', Some st = Some st' -> payment_wf st') by (by intros st' [= <-]).
    revert Hwf'. generalize (Some st) Hrun. clear. intros o0 Hrun.
    induction Hrun as [o|o sc channels ad block_number w w' o1 evs1 evs2 o2 Hdecl Hno Hstep _ IH]; intros Hwf.
    - split; [intros h|]; cbn; lia.
    - destruct (state_transition_spends _ _ _ _ _ _ _ _ _ Hwf Hdecl Hno Hstep) as [Hs Hwf'].
      eapply spends_trans; [exact Hs | by apply IH]. }
  destruct Hs as [R P]. split; [cbn in P; lia|]. intros h it Hg. specialize (R h).
  unfold unrequested in R at 2. cbn in R. rewrite Hg in R. lia.
Qed.
End Runs.
