(* ===== verification/InitiatorOutcomes.v ===== *)
(** * What becomes of a transfer

    The functional behaviour of the initiator on each branch: which route a new
    transfer takes, what a reveal of the secret and an expired lock lead to, and
    what cancelling a payment does. *)

From Stdlib Require Import ZArith Lia Strings.Byte.
From stdpp Require Import base functions gmap list strings pretty.
From S2P Require Import Prelude Encoding MediationFee State Events ChannelViews ChannelValidation ChannelSend ChannelHandlers TaskState World Mediator Initiator InitiatorManager LockSets ChannelInvariant BalanceProofMessages LockOperations StateTransition TransferTheorems Reachability ChannelFrame SecretRegistration WorldLogic MediatorInvariant MediatorPhases MediatorForwarding ChannelTheorems InitiatorInvariant InitiatorRoutes InitiatorSteps InitiatorDispatch InitiatorTheorems.

Section Outcomes.
Context `{Externals} `{!ExternalsLaws} {Random : Type} `{RandomGen Random}.
Implicit Types (st : InitiatorPaymentState) (w : World Random) (prng : Random).

(** A channel that can send: its counters and identifier are in range. *)
Record sendable (ch : NettingChannelState) : Prop := {
  sd_inv : channel_inv ch;
  sd_nonce : 0 <= es_nonce (ch_our_state ch) < UINT64_MAX;
  sd_identifier : CanonicalIdentifier_validate (ch_canonical_identifier ch) = Ok tt;
}.

(** ** New transfers *)

(** Every amount can be computed: neither the payment nor a fee is beyond the
    range of a [float]. *)
Definition amounts_computable (d : TransferDescriptionWithSecretState) (routes : list RouteState) : Prop :=
  (exists limit, max_amount_limit (td_amount d) = Ok limit) /\
  forall route, route ∈ routes -> exists amount,
    calculate_safe_amount_with_fee (td_amount d) (rs_estimated_fee route) = Ok amount /\ 0 <= amount.

(** The channels are those of the dictionary, and the transfer is new there. *)
Definition channels_ready (heap : Heap) (ad : AddressDict) (d : TransferDescriptionWithSecretState)
    (routes : list RouteState) (block_number : Z) : Prop :=
  length (td_secrethash d) = 32%nat /\
  forall network hop l, od_get (network, hop) ad = Some l ->
    let expiration := get_safe_initial_expiration block_number (ch_reveal_timeout (heap l)) (td_lock_timeout d) in
    sendable (heap l) /\ ch_token_network_address (heap l) = network /\
    get_lock (ch_our_state (heap l)) (td_secrethash d) = None /\ 0 <= expiration <= UINT256_MAX /\
    forall route amount, route ∈ routes ->
      calculate_safe_amount_with_fee (td_amount d) (rs_estimated_fee route) = Ok amount ->
      compute_locksroot (es_pending_locks (ch_our_state (heap l)) ++
      [lock_as_bytes amount expiration (td_secrethash d)]) <> LOCKSROOT_OF_NO_LOCKS.

Lemma choose_route_Ok heap ad our d b routes :
  amounts_computable d routes -> exists r, initiator.choose_route heap ad our d b routes = Ok r.
Proof.
  intros [[limit Hl] Ha]. revert b. induction routes as [|route routes IH]; intros b; cbn [initiator.choose_route]; [eauto|].
  assert (Hnext : forall b, exists r, initiator.choose_route heap ad our d b routes = Ok r).
  { intros b'. apply IH. intros r Hr. apply Ha. set_solver. }
  cbv zeta. destruct (truthy_bytes _); [|apply Hnext]. destruct (od_get _ _); [|apply Hnext].
  destruct (Ha route) as (amount & -> & _); [set_solver|]. rewrite Hl. cbn [bind].
  destruct (_ <? _); [apply Hnext|]. case_bool_decide; [eauto | apply Hnext].
Qed.

(** C17. The route of a transfer.  [try_new_route] returns, with the first
    candidate that fits: it leads through a channel we have, its fees keep the
    amount within the limit, and the channel is usable for that amount.  The
    transfer that is sent locks exactly this amount in that channel, no balance
    moves and no other channel changes.  If no candidate fits, nothing changes
    and the payment fails, with the fee limit named as a reason exactly when a
    candidate exceeded it. *)
Theorem try_new_route_correct ad key0 l0 routes d block_number w :
  let our := es_address (ch_our_state (w_heap w l0)) in
  let fits := route_fits (w_heap w) ad our d in
  head ad = Some (key0, l0) -> amounts_computable d routes -> channels_ready (w_heap w) ad d routes block_number ->
  (exists before route after l amount it msg w',
     routes = before ++ route :: after /\ fits route l amount /\
     Forall (fun r => forall l' amount', ~ fits r l' amount') before /\
     initiator.try_new_route ad routes d block_number w
       = Ok (Some it, [SendLockedTransfer msg (it_transfer it)], w') /\
     it_route it = route /\ it_transfer_description it = d /\ lock_amount (ltu_lock (it_transfer it)) = amount /\
     lock_effect true (w_heap w l) (w_heap w' l) 0 amount /\
     forall l', l' <> l -> w_heap w' l' = w_heap w l') \/
  (Forall (fun r => forall l amount, ~ fits r l amount) routes /\
   exists exceeds, (exceeds = true <-> Exists (route_exceeds_limit ad our d) routes) /\
     initiator.try_new_route ad routes d block_number w = Ok (None, [payment_failed d exceeds], w)).
Proof.
  intros our fits Hhead Hamounts [Hlen Hready]. destruct ad as [|[key l1] ad']; [done|]. injection Hhead as -> ->.
  destruct (choose_route_Ok (w_heap w) ((key0, l0) :: ad') our d false routes Hamounts) as [[chosen exceeds] Hc].
  unfold initiator.try_new_route, mbind, M_bind, get_heap, lift. cbn [bind]. fold our. rewrite Hc. cbn [bind].
  apply choose_route_spec in Hc. destruct chosen as [[l route]|].
  2:{ right. destruct Hc as [Hno Hex]. split; [done|]. exists exceeds. split; [|by destruct exceeds].
      rewrite Hex. split; [by intros [|]|by right]. }
  left. destruct Hc as (before & after & amount & -> & Hfit & Hno & _).
  pose proof Hfit as (limit & (hop & Hhop & Hl & Hamount & Hlimit) & Hle & Huse).
  destruct (Hready _ _ _ Hl) as (Hsend & Htn & Hnew & Hexp & Hroot).
  destruct Hamounts as [_ Ha]. destruct (Ha route) as (amount' & Ha' & Hpos); [set_solver|].
  rewrite Hamount in Ha'. injection Ha' as <-. unfold fresh_message_identifier.
  destruct (message_identifier_from_prng (w_prng w)) as [mid g]. cbn [bind].
  destruct (send_lockedtransfer_Ok (w_heap w l) (td_initiator d) (td_target d) amount mid (td_payment_identifier d)
    (get_safe_initial_expiration block_number (ch_reveal_timeout (w_heap w l)) (td_lock_timeout d))
    (Some (td_secret d)) (td_secrethash d) (before ++ route :: after)
    (get_address_metadata (es_address (ch_partner_state (w_heap w l))) (before ++ route :: after)) None
    (td_lock_timeout d)) as (ch & ev & Hrun & Heff & _); try done; try apply Hsend.
  { apply (Hroot route); [set_solver | done]. }
  pose proof (send_lockedtransfer_copies _ _ _ _ _ _ _ _ _ _ _ _ _ _ Hrun) as (msg & u & -> & _ & _ & Eamount & _).
  exists before, route, after, l, amount, (InitiatorTransferState_init route d (ch_identifier ch) u), msg,
    (Build_World (<[l := ch]> (w_heap w)) g).
  do 3 (split; [done|]). split.
  - unfold with_channel, mbind, M_bind, read, lift, write, mret, M_ret. cbn [bind w_heap w_prng fst snd].
    unfold initiator.send_lockedtransfer. rewrite py_assert_true by (by apply bool_decide_true).
    rewrite Hamount. cbn [bind]. rewrite Hrun. cbn [bind fst snd]. cbn [mediator.sent_transfer bind w_heap].
    by rewrite fn_lookup_insert.
  - cbn [w_heap]. rewrite fn_lookup_insert. do 4 (split; [done|]). intros l' Hne. by rewrite fn_lookup_insert_ne.
Qed.
(** ** Reveals *)

Lemma _del_lock_get_lock h es es' : _del_lock h es = Ok es' -> get_lock es' h = None.
Proof.
  intros Hd. apply py_assert_Ok_inv in Hd as [_ [= <-]]. unfold get_lock. cbn. by rewrite !lookup_delete_eq.
Qed.

Lemma _del_unclaimed_lock_get_lock h es :
  es_secrethashes_to_onchain_unlockedlocks es !! h = None -> get_lock (_del_unclaimed_lock h es) h = None.
Proof. intros Ho. unfold get_lock. cbn. by rewrite !lookup_delete_eq, Ho. Qed.

(** The three events of a paid lock. *)
Definition paid_events (it : InitiatorTransferState) (ch : NettingChannelState) (secret : bytes)
    (evs : list Event) : Prop :=
  let d := it_transfer_description it in
  exists msg bp,
    evs = [SendUnlock msg (td_payment_identifier d) (ch_token_address ch) bp secret (sha256_secrethash secret);
           EventPaymentSentSuccess (ch_token_network_registry_address ch) (ch_token_network_address ch)
             (td_payment_identifier d) (td_amount d) (td_target d) secret (rs_route (it_route it));
           EventUnlockSuccess (td_payment_identifier d) (td_secrethash d)].

Lemma events_for_unlock_lock_Ok it ch lock secret prng block_number :
  sendable ch -> get_status ch = STATE_OPENED ->
  get_lock (ch_our_state ch) (lock_secrethash lock) = Some lock ->
  ok (is_lock_expired (ch_our_state ch) lock block_number (lock_expiration lock)) = false ->
  exists evs ch' prng',
    initiator.events_for_unlock_lock it ch secret (lock_secrethash lock) prng block_number = Ok (evs, ch', prng') /\
    paid_events it ch secret evs /\ lock_effect true ch ch' (lock_amount lock) (- lock_amount lock) /\
    get_lock (ch_our_state ch') (lock_secrethash lock) = None.
Proof.
  intros [Hinv Hn Hci] Hopen Hl Hexp. unfold initiator.events_for_unlock_lock.
  destruct (message_identifier_from_prng prng) as [mid g].
  destruct (send_unlock_Ok ch lock mid (td_payment_identifier (it_transfer_description it)) secret block_number
    (get_address_metadata (es_address (ch_partner_state ch)) [it_route it])) as (ch' & ev & Hs); try done.
  rewrite Hs. cbn [bind]. do 3 eexists. split; [reflexivity|].
  pose proof (send_unlock_effect _ _ _ _ _ _ _ _ _ _ Hinv Hl Hs) as Heff.
  apply send_unlock_inv in Hs as (l & bp & msg & our & Hl' & _ & _ & _ & _ & -> & _ & _ & Hdel & ->).
  rewrite Hl in Hl'. injection Hl' as <-.
  split; [by exists msg, bp|]. split; [done|]. by apply _del_lock_get_lock in Hdel.
Qed.

(** What the state of a transfer has to do with its channel. *)
Record transfer_in (it : InitiatorTransferState) (ch : NettingChannelState) : Prop := {
  ti_hash : lock_secrethash (ltu_lock (it_transfer it)) = td_secrethash (it_transfer_description it);
  ti_lock : get_lock (ch_our_state ch) (lock_secrethash (ltu_lock (it_transfer it))) = Some (ltu_lock (it_transfer it));
}.

(** C18. A reveal by the next hop.  The initiator pays exactly when the secret hash
    is that of the transfer, the sender is the partner, the channel is open and
    the lock not expired: it returns the unlock, reports the payment, is done
    with the transfer, and the locked amount moves to the partner.  Otherwise
    nothing changes. *)
Theorem initiator_pays_on_reveal it ch a prng block_number :
  sendable ch -> transfer_in it ch ->
  let lock := ltu_lock (it_transfer it) in
  let in_time := rsr_secrethash a = lock_secrethash lock /\ rsr_sender a = es_address (ch_partner_state ch) /\
    get_status ch = STATE_OPENED /\
    (block_number < lock_expiration lock \/ is_secret_known_onchain (ch_our_state ch) (lock_secrethash lock) = true) in
  (in_time ->
   exists evs ch' prng',
     initiator.state_transition it (SCReceiveSecretReveal a) ch prng block_number = Ok (it, false, evs, ch', prng') /\
     paid_events it ch (rsr_secret a) evs /\ lock_effect true ch ch' (lock_amount lock) (- lock_amount lock) /\
     get_lock (ch_our_state ch') (lock_secrethash lock) = None) /\
  (~ in_time ->
   initiator.state_transition it (SCReceiveSecretReveal a) ch prng block_number = Ok (it, true, [], ch, prng)).
Proof.
  intros Hsend [Hh Hl] lock in_time. cbn [initiator.state_transition]. unfold initiator.handle_offchain_secretreveal.
  cbv zeta. fold lock. rewrite <- Hh. fold lock.
  assert (Hexp : ok (is_lock_expired (ch_our_state ch) lock block_number (lock_expiration lock)) = false <->
    block_number < lock_expiration lock \/ is_secret_known_onchain (ch_our_state ch) (lock_secrethash lock) = true).
  { unfold is_lock_expired, is_secret_known_onchain, has_key. cbn [lt_secrethash HashTimeLockState_LockType].
    destruct (es_secrethashes_to_onchain_unlockedlocks _ !! _); cbn [is_some]; [split; auto|]. destruct (_ <? _) eqn:E; zbool; split; try done; [auto|intros [|]; [lia|done]]. }
  split.
  - intros (Eh & Es & Ho & Ht). unfold is_valid_secret_reveal. rewrite !bool_decide_true by done.
    rewrite (proj2 Hexp Ht). cbn [andb negb].
    destruct (events_for_unlock_lock_Ok it ch lock (rsr_secret a) prng block_number) as (evs & ch' & g & Hrun & Hrest);
      try done; [by apply Hexp|].
    rewrite Eh, Hrun. cbn [bind]. by exists evs, ch', g.
  - intros Hno. destruct (is_valid_secret_reveal _ _ && _ && _ && _) eqn:Hc; [|done]. destruct Hno.
    apply andb_prop in Hc as [Hc He%negb_true_iff]. apply andb_prop in Hc as [Hc Hs%bool_decide_eq_true].
    apply andb_prop in Hc as [Eh%bool_decide_eq_true Ho%bool_decide_eq_true]. by rewrite Hexp in He.
Qed.

(** ** Expired locks *)

(** The run of a block for a transfer that is still locked. *)
Lemma block_with_locked_lock it ch a prng :
  sendable ch -> get_status ch = STATE_OPENED -> it_transfer_state it <> transfer_expired ->
  let lock := ltu_lock (it_transfer it) in
  let d := it_transfer_description it in
  es_secrethashes_to_lockedlocks (ch_our_state ch) !! lock_secrethash lock = Some lock ->
  if lock_expiration lock + DEFAULT_WAIT_BEFORE_LOCK_REMOVAL <=? block_block_number a then
    exists msg bp reason ch' prng',
      initiator.state_transition it (SCBlock a) ch prng (block_block_number a) =
        Ok (set_it_transfer_state transfer_expired it,
            is_some (get_lock (ch_partner_state ch) (lock_secrethash lock)),
            [SendLockExpired msg bp (lock_secrethash lock);
             EventPaymentSentFailed (td_token_network_registry_address d) (td_token_network_address d)
               (td_payment_identifier d) (td_target d) reason;
             EventRouteFailed (lock_secrethash lock) (rs_route (it_route it)) (td_token_network_address d);
             EventUnlockFailed (td_payment_identifier d) (td_secrethash d) reason], ch', prng') /\
      lock_effect true ch ch' 0 (- lock_amount lock) /\ get_lock (ch_our_state ch') (lock_secrethash lock) = None
  else initiator.state_transition it (SCBlock a) ch prng (block_block_number a) = Ok (it, true, [], ch, prng).
Proof.
  intros [Hinv Hn Hci] Hopen Hst lock d Hlocked. cbn [initiator.state_transition]. unfold initiator.handle_block.
  cbv zeta. fold lock. rewrite Hlocked. fold d.
  destruct (locked_lock_unclaimed _ _ _ (ci_our _ Hinv) Hlocked) as [Hu _].
  destruct (unclaimed_lock_inv _ _ _ Hu) as [Hl _].
  assert (Ho : es_secrethashes_to_onchain_unlockedlocks (ch_our_state ch) !! lock_secrethash lock = None).
  { unfold unclaimed_lock in Hu. by destruct (es_secrethashes_to_onchain_unlockedlocks _ !! _). }
  unfold is_lock_expired, has_key. cbn [lt_secrethash HashTimeLockState_LockType]. rewrite Ho. cbn [is_some].
  rewrite (bool_decide_false (_ = transfer_expired)) by done.
  destruct (_ <=? _) eqn:E; zbool.
  2:{ by rewrite (proj2 (Z.ltb_lt _ _)). }
  rewrite (proj2 (Z.ltb_ge _ _)) by done. cbn [ok Success error_messages andb negb].
  rewrite bool_decide_true by done.
  destruct (send_lock_expired_Ok ch lock prng
    (get_address_metadata (es_address (ch_partner_state ch)) [it_route it])) as (ch' & ev & g & Hrun); try done.
  rewrite Hrun. cbn [bind].
  pose proof (send_lock_expired_effect ch lock prng _ ch' _ g lock Hinv Hu eq_refl eq_refl Hrun) as Heff.
  apply send_lock_expired_inv in Hrun as [_ [(_ & [=] & _)|(bp & msg & _ & _ & [= ->] & _ & ->)]].
  assert (Hgone : get_lock (ch_our_state (upd_our (sent_expired bp
    (list_remove_first (lt_encoded lock) (es_pending_locks (ch_our_state ch))) (lt_secrethash lock)) ch))
    (lock_secrethash lock) = None) by (by apply _del_unclaimed_lock_get_lock).
  eexists msg, bp, _, _, g. split; [|split; [exact Heff | exact Hgone]].
  unfold lock_exists_in_either_channel_side. rewrite Hgone. reflexivity.
Qed.

(** C19. An expired lock.  In the block in which the lock and the confirmations
    have passed, the initiator of a transfer that is still locked returns: it
    tells the partner that the lock expired, reports payment, route and unlock
    as failed, and has the amount back.  The task stays exactly if the partner
    holds a lock with the same secret hash (a refund); before that block nothing
    happens. *)
Theorem initiator_lock_expires it ch a prng :
  sendable ch -> get_status ch = STATE_OPENED -> it_transfer_state it <> transfer_expired ->
  let lock := ltu_lock (it_transfer it) in
  let d := it_transfer_description it in
  es_secrethashes_to_lockedlocks (ch_our_state ch) !! lock_secrethash lock = Some lock ->
  if lock_expiration lock + DEFAULT_WAIT_BEFORE_LOCK_REMOVAL <=? block_block_number a then
    exists msg bp reason ch' prng',
      initiator.state_transition it (SCBlock a) ch prng (block_block_number a) =
        Ok (set_it_transfer_state transfer_expired it,
            is_some (get_lock (ch_partner_state ch) (lock_secrethash lock)),
            [SendLockExpired msg bp (lock_secrethash lock);
             EventPaymentSentFailed (td_token_network_registry_address d) (td_token_network_address d)
               (td_payment_identifier d) (td_target d) reason;
             EventRouteFailed (lock_secrethash lock) (rs_route (it_route it)) (td_token_network_address d);
             EventUnlockFailed (td_payment_identifier d) (td_secrethash d) reason], ch', prng') /\
      lock_effect true ch ch' 0 (- lock_amount lock) /\ get_lock (ch_our_state ch') (lock_secrethash lock) = None
  else initiator.state_transition it (SCBlock a) ch prng (block_block_number a) = Ok (it, true, [], ch, prng).
Proof. apply block_with_locked_lock. Qed.
(** C21. A request that comes too late.  The task of an expired transfer that was
    refunded stays, although its lock is gone; if the target then asks for the
    secret of the payment, the initiator does not ignore the request but raises
    an exception. *)
Theorem late_secret_request_raises it ch a prng r :
  sendable ch -> get_status ch = STATE_OPENED -> it_transfer_state it <> transfer_expired ->
  let lock := ltu_lock (it_transfer it) in
  let d := it_transfer_description it in
  es_secrethashes_to_lockedlocks (ch_our_state ch) !! lock_secrethash lock = Some lock ->
  lock_secrethash lock = td_secrethash d ->
  is_some (get_lock (ch_partner_state ch) (lock_secrethash lock)) = true ->
  lock_expiration lock + DEFAULT_WAIT_BEFORE_LOCK_REMOVAL <= block_block_number a ->
  rsq_sender r = td_target d -> rsq_secrethash r = td_secrethash d ->
  rsq_payment_identifier r = td_payment_identifier d ->
  exists it' evs ch' prng',
    initiator.state_transition it (SCBlock a) ch prng (block_block_number a) = Ok (it', true, evs, ch', prng') /\
    initiator.state_transition it' (SCReceiveSecretRequest r) ch' prng' (block_block_number a)
      = Raise (AssertionError "channel is does not have the transfer's lock").
Proof.
  intros Hsend Hopen Hst lock d Hlocked Hh Hpartner Hb E1 E2 E3.
  pose proof (block_with_locked_lock it ch a prng Hsend Hopen Hst Hlocked) as Hrun. cbv zeta in Hrun.
  fold lock d in Hrun. rewrite (proj2 (Z.leb_le _ _)) in Hrun by done.
  destruct Hrun as (msg & bp & reason & ch' & g & Hrun & _ & Hgone). rewrite Hpartner in Hrun.
  do 4 eexists. split; [exact Hrun|]. cbn [initiator.state_transition]. unfold initiator.handle_secretrequest.
  cbn [it_transfer_description set_it_transfer_state]. fold d.
  rewrite !bool_decide_true, E3, Z.eqb_refl by done. cbn [andb negb]. by rewrite <- Hh, Hgone.
Qed.

(** ** Cancelling a payment *)

Definition cancellable (channels : ChannelMap) (it : InitiatorTransferState) : bool :=
  is_some (channels !! it_channel_identifier it)
  && negb (bool_decide (it_transfer_state it = transfer_secret_revealed)).

(** The events of a cancelled transfer; the failed payment names the channel's
    token network. *)
Definition cancel_events (heap : Heap) (channels : ChannelMap) (it : InitiatorTransferState) : list Event :=
  let d := it_transfer_description it in
  match channels !! it_channel_identifier it with
  | Some l =>
      [EventUnlockFailed (td_payment_identifier d) (td_secrethash d) "route was canceled";
       EventRouteFailed (td_secrethash d) (rs_route (it_route it)) (td_token_network_address d);
       EventPaymentSentFailed (ch_token_network_registry_address (heap l)) (ch_token_network_address (heap l))
         (td_payment_identifier d) (td_target d) "user canceled payment"]
  | None => []
  end.

Definition after_cancel (channels : ChannelMap) (it : InitiatorTransferState) : InitiatorTransferState :=
  if cancellable channels it then set_it_transfer_state transfer_cancelled it else it.

Lemma cancel_transfers_run heap channels st todo :
  NoDup todo.*1 -> (forall h it, (h, it) ∈ todo -> od_get h (transfers st) = Some it) ->
  let hit := List.filter (fun p => cancellable channels p.2) todo in
  exists st', initiator_manager.cancel_transfers heap channels st todo
      = Ok (st', flat_map (fun p => cancel_events heap channels p.2) hit) /\
    ip_cancelled_channels st' = ip_cancelled_channels st ++ map (fun p => it_channel_identifier p.2) hit /\
    (forall h, od_get h (transfers st') =
       if decide (h ∈ todo.*1) then after_cancel channels <$> od_get h (transfers st) else od_get h (transfers st)).
Proof.
  revert st. induction todo as [|[h it] todo IH]; intros st Hnd Hin; cbn [initiator_manager.cancel_transfers].
  { exists st. cbn. rewrite app_nil_r. split; [done|]. split; [done|]. intros h. by rewrite decide_False by set_solver. }
  apply NoDup_cons in Hnd as [Hh Hnd]. cbv zeta. cbn [List.filter snd].
  assert (Hrest : forall h' it', (h', it') ∈ todo -> h' <> h /\ od_get h' (transfers st) = Some it').
  { intros h' it' Hi. split; [|apply Hin; set_solver]. intros ->. apply Hh. apply list_elem_of_fmap. by exists (h, it'). }
  assert (Hget : od_get h (transfers st) = Some it) by (apply Hin; set_solver).
  assert (Hskip : after_cancel channels it = it -> forall st',
    (forall h', od_get h' (transfers st') = if decide (h' ∈ todo.*1) then after_cancel channels <$> od_get h' (transfers st)
       else od_get h' (transfers st)) ->
    forall h', od_get h' (transfers st') = if decide (h' ∈ (h :: todo.*1)) then after_cancel channels <$> od_get h' (transfers st)
       else od_get h' (transfers st)).
  { intros Hsame st' Hall h'. rewrite Hall. destruct (decide (h' = h)) as [->|Hne].
    - rewrite decide_False by done. rewrite decide_True by set_solver. rewrite Hget. cbn. by rewrite Hsame.
    - destruct (decide (h' ∈ todo.*1)); [by rewrite decide_True by set_solver | by rewrite decide_False by set_solver]. }
  assert (Hcan : forall i, cancellable channels i = is_some (channels !! it_channel_identifier i) && initiator_manager.can_cancel i)
    by done.
  rewrite Hcan. destruct (channels !! it_channel_identifier it) as [l|] eqn:Hl; cbn [is_some andb].
  2:{ destruct (IH st Hnd) as (st' & Hrun & Hch & Hall); [intros; by apply Hrest|].
      exists st'. split; [done|]. split; [done|]. apply Hskip; [|done]. unfold after_cancel. by rewrite Hcan, Hl. }
  destruct (initiator_manager.can_cancel it) eqn:Hc.
  2:{ destruct (IH st Hnd) as (st' & Hrun & Hch & Hall); [intros; by apply Hrest|].
      exists st'. split; [done|]. split; [done|]. apply Hskip; [|done]. unfold after_cancel. by rewrite Hcan, Hl, Hc. }
  unfold initiator_manager.cancel_current_route. rewrite Hc. cbn [py_assert bind].
  set (it' := set_it_transfer_state transfer_cancelled it).
  set (st1 := initiator_manager.put_transfer h it' (set_ip_cancelled_channels _ st)).
  assert (Hget1 : forall h', od_get h' (transfers st1) = if decide (h' = h) then Some it' else od_get h' (transfers st)).
  { intros h'. unfold st1. cbn. by rewrite od_get_set. }
  destruct (IH st1 Hnd) as (st' & Hrun & Hch & Hall).
  { intros h' i Hi. destruct (Hrest _ _ Hi). by rewrite Hget1, decide_False. }
  exists st'. rewrite Hrun. cbn [bind]. split.
  - cbn [flat_map snd]. unfold cancel_events at 2. by rewrite Hl.
  - split; [rewrite Hch; cbn; by rewrite <- app_assoc|]. intros h'. rewrite Hall, Hget1. cbn [fmap list_fmap].
    destruct (decide (h' = h)) as [->|Hne].
    + rewrite decide_False by done. rewrite decide_True by set_solver. rewrite Hget. cbn.
      unfold after_cancel. by rewrite Hcan, Hl, Hc.
    + destruct (decide (h' ∈ todo.*1)); [by rewrite decide_True by set_solver | by rewrite decide_False by set_solver].
Qed.

(** C20. Cancelling.  Cancelling a payment returns, cancels exactly the transfers
    whose channel is known and whose secret was not revealed, blocks their
    channels for other routes and reports their failure; the other transfers
    stay as they are.  A cancelled transfer answers no request for its secret. *)
Theorem cancel_payment_correct st channels w :
  payment_wf st ->
  let hit := List.filter (fun p => cancellable channels p.2) (transfers st) in
  exists st',
    initiator_manager.handle_cancelpayment st channels w
      = Ok (st', flat_map (fun p => cancel_events (w_heap w) channels p.2) hit, w) /\
    ip_cancelled_channels st' = ip_cancelled_channels st ++ map (fun p => it_channel_identifier p.2) hit /\
    (forall h, od_get h (transfers st') = after_cancel channels <$> od_get h (transfers st)) /\
    forall h it r block_number w1, od_get h (transfers st) = Some it -> cancellable channels it = true ->
      rsq_secrethash r = h -> initiator_manager.handle_secretrequest st' r channels block_number w1 = Ok (st', [], w1).
Proof.
  intros Hwf hit. destruct (cancel_transfers_run (w_heap w) channels st (transfers st)) as (st' & Hrun & Hch & Hall).
  { apply Hwf. }
  { intros h it Hin. apply od_get_elem; [apply Hwf | done]. }
  assert (Hget : forall h, od_get h (transfers st') = after_cancel channels <$> od_get h (transfers st)).
  { intros h. rewrite Hall. destruct (decide _) as [Hin|Hno]; [done|].
    apply od_get_None in Hno. by rewrite Hno. }
  exists st'. split.
  - unfold initiator_manager.handle_cancelpayment, mbind, M_bind, get_heap, lift. cbn [bind]. by rewrite Hrun.
  - split; [done|]. split; [done|]. intros h it r block_number w1 Hg Hc <-.
    unfold initiator_manager.handle_secretrequest. rewrite Hget, Hg. cbn. unfold after_cancel. rewrite Hc.
    by rewrite bool_decide_true.
Qed.
End Outcomes.
