(* ===== verification/ChannelSync.v ===== *)
(** * Two nodes, one channel

    Each node keeps its own view of a channel.  [mirrored] says that two views
    agree: on deposits, withdraws, transferred amounts, nonces, pending locks
    and the set of locks of each end (whether a secret is already known may
    differ).  The theorems are the simulation: what one node's send functions
    produce, the other node's receive handlers accept, and the views agree
    again afterwards. *)

From Stdlib Require Import ZArith Lia Strings.Byte.
From stdpp Require Import base gmap list strings pretty.
From S2P Require Import Prelude Encoding MediationFee State Events ChannelViews ChannelValidation ChannelSend ChannelHandlers LockSets ChannelInvariant BalanceProofMessages LockOperations TransferTheorems.

(** ** Definitions *)

(** Two views of the same end. *)
Record agree (es es' : NettingChannelEndState) : Prop := {
  ag_address : es_address es' = es_address es;
  ag_deposit : es_contract_balance es' = es_contract_balance es;
  ag_withdraw : total_withdraw es' = total_withdraw es;
  ag_transferred : transferred_amount es' = transferred_amount es;
  ag_nonce : es_nonce es' = es_nonce es;
  ag_pending : es_pending_locks es' = es_pending_locks es;
  ag_locks : all_locks es' = all_locks es;
}.

(** Two views of the same channel, each from its own side. *)
Record mirrored (a b : NettingChannelState) : Prop := {
  mi_id : ch_canonical_identifier b = ch_canonical_identifier a;
  mi_a : agree (ch_our_state a) (ch_partner_state b);
  mi_b : agree (ch_partner_state a) (ch_our_state b);
}.

(** [sbp] is [bp] as the message layer of the node at [address] sends it. *)
Record signs `{Externals} (address : bytes) (bp : BalanceProofUnsignedState) (sbp : BalanceProofSignedState)
    : Prop := {
  si_nonce : bps_nonce sbp = bpu_nonce bp;
  si_transferred : bps_transferred_amount sbp = bpu_transferred_amount bp;
  si_locked : bps_locked_amount sbp = bpu_locked_amount bp;
  si_locksroot : bps_locksroot sbp = bpu_locksroot bp;
  si_id : bps_canonical_identifier sbp = bpu_canonical_identifier bp;
  si_signature : forall data,
    pack_balance_proof (bpu_nonce bp) (bpu_balance_hash bp) (bps_message_hash sbp)
      (bpu_canonical_identifier bp) = Ok data ->
    is_valid_signature data (bps_signature sbp) address = Success;
}.

(** The chain id is a [uint256], as the packing of signed data requires. *)
Definition valid_chain_id (ci : CanonicalIdentifier) : Prop := 0 <= ci_chain_identifier ci <= UINT256_MAX.

(** ** Agreement *)

Section Sync.
Context `{ExternalsLaws}.

Lemma agree_sym es es' : agree es es' -> agree es' es.
Proof. intros []. by split. Qed.

#[export] Instance agree_equivalence : Equivalence agree.
Proof.
  split; [by split | intros ??; apply agree_sym |].
  intros es1 es2 es3 [] []. split; congruence.
Qed.

Lemma agree_amount_locked es es' :
  locks_inv es -> locks_inv es' -> agree es es' -> get_amount_locked es' = get_amount_locked es.
Proof.
  intros Hi Hi' Hag. rewrite !get_amount_locked_all_locks by (by apply li_disjoint).
  by rewrite (ag_locks _ _ Hag).
Qed.

Lemma agree_get_lock es es' h : agree es es' -> get_lock es' h = get_lock es h.
Proof. intros Hag. by rewrite <- !all_locks_get_lock, (ag_locks _ _ Hag). Qed.

(** Balances do not depend on which of two agreeing views is taken. *)
#[export] Instance get_balance_proper : Proper (agree ==> agree ==> eq) get_balance.
Proof.
  intros s s' Hs r r' Hr. rewrite !get_balance_eq, !get_max_withdraw_amount_eq.
  by rewrite (ag_deposit _ _ Hs), (ag_transferred _ _ Hs), (ag_transferred _ _ Hr), (ag_withdraw _ _ Hs).
Qed.

#[export] Instance total_withdraw_proper : Proper (agree ==> eq) total_withdraw.
Proof. intros s s' Hs. symmetry. apply Hs. Qed.

Lemma agree_distributable s r s' r' :
  locks_inv s -> locks_inv s' -> agree s s' -> agree r r' ->
  get_distributable s' r' = get_distributable s r.
Proof.
  intros Hi Hi' Hs Hr. unfold get_distributable.
  rewrite !get_current_balanceproof_amounts by done.
  rewrite (agree_amount_locked s s'), (ag_transferred _ _ Hs) by done.
  assert (get_balance s' r' = get_balance s r) as -> by (by rewrite Hs, Hr). done.
Qed.

Lemma pack_balance_proof_Ok nonce balance_hash additional ci :
  0 <= nonce <= UINT64_MAX -> valid_chain_id ci -> CanonicalIdentifier_validate ci = Ok tt ->
  exists data, pack_balance_proof nonce balance_hash additional ci = Ok data.
Proof.
  unfold valid_chain_id, CanonicalIdentifier_validate, UINT64_MAX, UINT256_MAX, pack_balance_proof.
  intros Hn Hc Hv. destruct (_ || _) eqn:E; [discriminate|]. zbool.
  rewrite !encode_single_uint256_Ok by (unfold MessageTypeId_BALANCE_PROOF; lia). simpl. eauto.
Qed.

(** The receiver's signature check accepts what the sender signed. *)
Lemma signed_balance_proof_valid address bp sbp nonce transferred locked locksroot ci :
  BalanceProofUnsignedState_init nonce transferred locked locksroot ci = Ok bp ->
  valid_chain_id ci -> signs address bp sbp ->
  is_valid_balanceproof_signature sbp address = Ok Success.
Proof.
  intros Hbp Hc [Sn St Sl Sr Si Ss].
  assert (Hv : CanonicalIdentifier_validate ci = Ok tt).
  { revert Hbp. unfold BalanceProofUnsignedState_init.
    intros (_ & _ & ([] & ? & _)%bind_Ok_inv)%bind_Ok_inv. done. }
  apply BalanceProofUnsignedState_init_inv in Hbp as (Hn & _ & _ & En & Et & El & Er & Ei & Hh).
  unfold is_valid_balanceproof_signature. rewrite St, Sl, Sr, Et, El, Er, Hh. cbn [bind].
  unfold bps_chain_id, bps_token_network_address, bps_channel_identifier. rewrite Si, Sn.
  destruct (bpu_canonical_identifier bp) as [c tn i] eqn:Eci. cbn.
  destruct (pack_balance_proof_Ok (bpu_nonce bp) (bpu_balance_hash bp) (bps_message_hash sbp)
              (bpu_canonical_identifier bp)) as [data Hdata]; [lia|by rewrite Eci, Ei|by rewrite Eci, Ei|].
  rewrite Eci in *. rewrite Hdata. cbn [bind]. by rewrite (Ss _ Hdata).
Qed.

(** A balance proof the sender built is usable by the receiver. *)
Lemma sent_balance_proof_usable a b address bp sbp transferred locked locksroot :
  mirrored a b -> get_status b = STATE_OPENED -> valid_chain_id (ch_canonical_identifier a) ->
  BalanceProofUnsignedState_init (es_nonce (ch_our_state a) + 1) transferred locked locksroot
    (ch_canonical_identifier a) = Ok bp ->
  transferred + locked <= UINT256_MAX -> address = es_address (ch_our_state a) -> signs address bp sbp ->
  usable_balance_proof sbp b (ch_partner_state b) /\
  is_valid_balanceproof_signature sbp (es_address (ch_partner_state b)) = Ok Success.
Proof.
  intros [Mi Ma Mb] Hopen Hc Hbp Hover -> Hs.
  pose proof (signed_balance_proof_valid _ _ _ _ _ _ _ _ Hbp Hc Hs) as Hsig.
  apply BalanceProofUnsignedState_init_inv in Hbp as (_ & _ & _ & En & Et & El & _ & Ei & _).
  destruct Hs as [Sn St Sl Sr Si _].
  assert (Eci : bps_canonical_identifier sbp = ch_canonical_identifier b) by congruence.
  rewrite (ag_address _ _ Ma). split; [|done]. split; try done.
  - unfold bps_channel_identifier. by rewrite Eci.
  - unfold bps_token_network_address. by rewrite Eci.
  - unfold bps_chain_id. by rewrite Eci.
  - lia.
  - rewrite (ag_nonce _ _ Ma). lia.
  - rewrite (ag_address _ _ Ma). by exists Success.
Qed.

Lemma agree_added l es es' s s' :
  agree es es' -> lock_added l es s -> lock_added l es' s' -> same_funds es s -> same_funds es' s' ->
  transferred_amount s' = transferred_amount s -> es_nonce s' = es_nonce s -> agree s s'.
Proof.
  intros [A1 A2 A3 A4 A5 A6 A7] Ha Ha' Hf Hf' Et En. split; try done.
  - by rewrite (sf_address _ _ Hf), (sf_address _ _ Hf').
  - by rewrite (sf_deposit _ _ Hf), (sf_deposit _ _ Hf').
  - by rewrite (same_funds_total_withdraw _ _ Hf), (same_funds_total_withdraw _ _ Hf').
  - by rewrite (la_pending _ _ _ Ha), (la_pending _ _ _ Ha'), A6.
  - by rewrite (all_locks_added _ _ _ Ha), (all_locks_added _ _ _ Ha'), A7.
Qed.

Lemma agree_removed l es es' s s' :
  agree es es' -> lock_removed l es s -> lock_removed l es' s' -> same_funds es s -> same_funds es' s' ->
  transferred_amount s' = transferred_amount s -> es_nonce s' = es_nonce s -> agree s s'.
Proof.
  intros [A1 A2 A3 A4 A5 A6 A7] Ha Ha' Hf Hf' Et En. split; try done.
  - by rewrite (sf_address _ _ Hf), (sf_address _ _ Hf').
  - by rewrite (sf_deposit _ _ Hf), (sf_deposit _ _ Hf').
  - by rewrite (same_funds_total_withdraw _ _ Hf), (same_funds_total_withdraw _ _ Hf').
  - by rewrite (lr_pending _ _ _ Ha), (lr_pending _ _ _ Ha'), A6.
  - by rewrite (all_locks_removed _ _ _ Ha), (all_locks_removed _ _ _ Ha'), A7.
Qed.

(** The amounts of the partner's current balance proof, as the sender sees them. *)
Lemma mirrored_current_amounts a b :
  channel_inv a -> channel_inv b -> mirrored a b ->
  (get_current_balanceproof (ch_partner_state b)).1.2 = transferred_amount (ch_our_state a) /\
  (get_current_balanceproof (ch_partner_state b)).2 = get_amount_locked (ch_our_state a).
Proof.
  intros Ia Ib Hm. rewrite get_current_balanceproof_amounts by auto with channel. simpl.
  rewrite (ag_transferred _ _ (mi_a _ _ Hm)).
  rewrite (agree_amount_locked (ch_our_state a)); [done | auto using mi_a with channel..].
Qed.

(** C3. A locked transfer crosses the channel.  If two views of a channel are
    mirrored, the receiver's view is open with room for another pending
    transfer, and one node sends a locked transfer, then the other node accepts
    the message, and both views are mirrored and well formed again. *)
Theorem locked_transfer_synchronised a b initiator target amount mid pid expiration secret secrethash
    routes rmeta prev a' msg t rt meta :
  channel_inv a -> channel_inv b -> mirrored a b ->
  get_status b = STATE_OPENED -> valid_chain_id (ch_canonical_identifier a) ->
  Z.of_nat (length (es_pending_locks (ch_our_state a))) < MAXIMUM_PENDING_TRANSFERS ->
  get_lock (ch_our_state a) secrethash = None ->
  send_lockedtransfer a initiator target amount mid pid expiration secret secrethash routes rmeta prev
    = Ok (a', SendLockedTransfer msg t) ->
  lts_lock rt = ltu_lock t ->
  signs (es_address (ch_our_state a)) (ltu_balance_proof t) (lts_balance_proof rt) ->
  exists b' evs,
    handle_receive_lockedtransfer b rt meta = Ok (b', (true, evs, None)) /\
    mirrored a' b' /\ channel_inv a' /\ channel_inv b'.
Proof.
  intros Ia Ib Hm Hopen Hc Hlim Hnew Hsend El Hs. pose proof Hsend as Hsend'.
  apply send_lockedtransfer_inv in Hsend as (lock & bp & m & t' & Hlock & Hfresh & Hbp & Hd & _ & _ & Et & <- & <- & _ & _ & Ea).
  injection Et as <- <-.
  pose proof (HashTimeLockState_init_wf _ _ _ _ Hlock) as (Hwf & Eam & _ & Eh). subst amount secrethash.
  pose proof (lock_wf_amount _ Hwf).
  pose proof (distributable_bounds _ _ _ (ci_our _ Ia) ltac:(eassumption) Hd) as [_ Hover].
  pose proof (agree_get_lock _ _ (lock_secrethash (ltu_lock t)) (mi_a _ _ Hm)) as Hnew'. rewrite Hnew in Hnew'.
  destruct (mirrored_current_amounts _ _ Ia Ib Hm) as [Ct Cl].
  destruct (sent_balance_proof_usable a b _ _ _ _ _ _ Hm Hopen Hc Hbp ltac:(lia) eq_refl Hs) as [Hu Hsig].
  apply BalanceProofUnsignedState_init_inv in Hbp as (_ & _ & _ & En & Etr & Elk & Er & _).
  pose proof Hm as [Mi Ma Mb]. rewrite <- El in *.
  assert (Hacc : acceptable_lock (lts_balance_proof rt) (lts_lock rt) b (ch_partner_state b) (ch_our_state b)).
  { split; rewrite ?(ag_pending _ _ Ma), ?Ct, ?Cl; try done.
    - rewrite (si_locksroot _ _ _ Hs). done.
    - rewrite (si_transferred _ _ _ Hs). done.
    - rewrite (si_locked _ _ _ Hs). done.
    - rewrite (agree_distributable (ch_our_state a) (ch_partner_state a)); auto with channel. }
  unfold handle_receive_lockedtransfer, is_valid_lockedtransfer.
  destruct (valid_lockedtransfer_check_Ok b (ch_partner_state b) (ch_our_state b) "LockedTransfer" _ (lts_lock rt) _ Hsig)
    as (v & ms & locks & E).
  rewrite E. cbn [bind].
  apply valid_lockedtransfer_check_spec in E as [(-> & -> & -> & _)|(_ & _ & _ & Hno)]; [|done].
  do 2 eexists. split; [reflexivity|]. split; [|split].
  - rewrite Ea. split; [done | | done].
    eapply (agree_added (lts_lock rt) _ _ _ _ Ma); try by split.
    + cbn. apply (si_transferred _ _ _ Hs).
    + cbn. apply (si_nonce _ _ _ Hs).
  - eapply (le_inv true a). by eapply send_lockedtransfer_effect.
  - eapply (le_inv false b). by apply receive_lock_effect.
Qed.

(** C4. An unlock crosses the channel: the receiver accepts the balance proof of
    the sender's unlock, the amount moves in both views, and the views are
    mirrored again. *)
Theorem unlock_synchronised a b mid pid secret secrethash block_number rmeta a' ev u meta lock :
  channel_inv a -> channel_inv b -> mirrored a b ->
  get_status b = STATE_OPENED -> valid_chain_id (ch_canonical_identifier a) ->
  get_lock (ch_our_state a) secrethash = Some lock ->
  send_unlock a mid pid secret secrethash block_number rmeta = Ok (a', ev) ->
  ru_secrethash u = secrethash ->
  (forall msg bp, ev = SendUnlock_init msg pid (ch_token_address a) bp secret ->
                  signs (es_address (ch_our_state a)) bp (ru_balance_proof u)) ->
  exists b' evs,
    handle_unlock b u meta = Ok (b', (true, evs, None)) /\
    mirrored a' b' /\ channel_inv a' /\ channel_inv b' /\
    get_balance (ch_our_state b') (ch_partner_state b')
      = get_balance (ch_our_state b) (ch_partner_state b) + lock_amount lock.
Proof.
  intros Ia Ib Hm Hopen Hc Hlock Hsend Eu Hsigns. subst secrethash. pose proof Hsend as Hsend'.
  apply send_unlock_inv in Hsend as (l & bp & msg & our' & Hl & Hin & _ & _ & Hbp & Eev & _ & _ & Hdel & Ea).
  assert (l = lock) as -> by congruence. specialize (Hsigns _ _ Eev) as Hs.
  pose proof (get_lock_inv _ _ _ (ci_our _ Ia) Hl) as (Hwf & Eh & _).
  pose proof (lock_wf_amount _ Hwf). pose proof (locks_inv_overflow _ (ci_our _ Ia)) as Hover.
  pose proof (agree_get_lock _ _ (ru_secrethash u) (mi_a _ _ Hm)) as Hlb. rewrite Hl in Hlb.
  destruct (mirrored_current_amounts _ _ Ia Ib Hm) as [Ct Cl].
  destruct (sent_balance_proof_usable a b _ _ _ _ _ _ Hm Hopen Hc Hbp ltac:(lia) eq_refl Hs) as [Hu Hsig].
  apply BalanceProofUnsignedState_init_inv in Hbp as (_ & _ & _ & En & Etr & Elk & Er & _).
  pose proof Hm as [Mi Ma Mb].
  assert (Hacc : acceptable_unlock (ru_balance_proof u) lock b (ch_partner_state b)).
  { split; rewrite ?(ag_pending _ _ Ma), ?Ct, ?Cl; try done.
    - by rewrite (si_locksroot _ _ _ Hs).
    - rewrite (si_transferred _ _ _ Hs). lia.
    - by rewrite (si_locked _ _ _ Hs). }
  unfold handle_unlock. destruct (is_valid_unlock_Ok u b _ _ Hsig) as (v & ms & locks & E).
  rewrite E. cbn [bind].
  apply is_valid_unlock_spec in E as [(l & Hl' & -> & -> & -> & _)|(_ & _ & _ & Hno)];
    [|by destruct (Hno _ Hlb)].
  assert (l = lock) as -> by congruence. rewrite <- Eh in Hlb.
  destruct (receive_unlock_effect _ _ _ Ib Hlb Hacc) as (es' & Hdelb & Heff). rewrite Eh in Hdelb.
  cbn. rewrite Hdelb. do 2 eexists. split; [reflexivity|].
  split; [|split; [by eapply (le_inv true a), send_unlock_effect | split; [apply (le_inv _ _ _ _ _ Heff)|]]].
  - rewrite Ea. split; [done | | done].
    apply py_assert_Ok_inv in Hdelb as [_ [= <-]]. apply py_assert_Ok_inv in Hdel as [_ [= <-]].
    eapply (agree_removed lock _ _ _ _ Ma); try (split; try done; cbn; by rewrite ?Eh, ?(ag_pending _ _ Ma)).
    + cbn. apply (si_transferred _ _ _ Hs).
    + cbn. rewrite (si_nonce _ _ _ Hs). done.
  - apply (le_receiver _ _ _ _ _ Heff).
Qed.

(** C5. An expired lock crosses the channel: once the receiver's block has passed
    the expiration by the confirmation blocks, and provided it did not see the
    secret on-chain, it accepts the sender's removal of the lock; no balance
    changes and the views are mirrored again. *)
Theorem lock_expired_synchronised {Random} `{RandomGen Random} a b lock (prng : Random) rmeta a' bp msg
    prng' m block_number meta :
  channel_inv a -> channel_inv b -> mirrored a b ->
  get_status b = STATE_OPENED -> valid_chain_id (ch_canonical_identifier a) ->
  unclaimed_lock (ch_our_state a) (lock_secrethash lock) = Some lock ->
  is_secret_known_onchain (ch_partner_state b) (lock_secrethash lock) = false ->
  is_secret_known_onchain (ch_our_state b) (lock_secrethash lock) = false ->
  get_receiver_expiration_threshold (lock_expiration lock) <= block_number ->
  send_lock_expired a lock prng rmeta = Ok (a', [SendLockExpired msg bp (lock_secrethash lock)], prng') ->
  rle_secrethash m = lock_secrethash lock ->
  signs (es_address (ch_our_state a)) bp (rle_balance_proof m) ->
  exists b' evs,
    handle_receive_lock_expired b m block_number meta = Ok (Some b', evs) /\
    mirrored a' b' /\ channel_inv a' /\ channel_inv b' /\
    get_amount_locked (ch_partner_state b') = get_amount_locked (ch_partner_state b) - lock_amount lock.
Proof.
  intros Ia Ib Hm Hopen Hc Hlock Hpb Hob Hblock Hsend Em Hs. pose proof Hsend as Hsend'.
  apply send_lock_expired_inv in Hsend as [_ [(_ & [=] & _)|(bp' & msg' & Hin & Hbp & Eev & _ & Ea)]].
  injection Eev as <- <-. cbn in Hin, Hbp, Ea.
  pose proof (unclaimed_lock_inv _ _ _ Hlock) as [Hl _].
  pose proof (get_lock_inv _ _ _ (ci_our _ Ia) Hl) as (Hwf & _ & _).
  pose proof (lock_wf_amount _ Hwf). pose proof (locks_inv_overflow _ (ci_our _ Ia)) as Hover.
  pose proof (agree_get_lock _ _ (lock_secrethash lock) (mi_a _ _ Hm)) as Hlb. rewrite Hl in Hlb.
  destruct (mirrored_current_amounts _ _ Ia Ib Hm) as [Ct Cl].
  destruct (sent_balance_proof_usable a b _ _ _ _ _ _ Hm Hopen Hc Hbp ltac:(lia) eq_refl Hs) as [Hu Hsig].
  apply BalanceProofUnsignedState_init_inv in Hbp as (_ & _ & _ & En & Etr & Elk & Er & _).
  pose proof Hm as [Mi Ma Mb]. unfold is_secret_known_onchain in Hpb, Hob.
  assert (Hub : unclaimed_lock (ch_partner_state b) (lock_secrethash lock) = Some lock).
  { unfold unclaimed_lock. by destruct (es_secrethashes_to_onchain_unlockedlocks (ch_partner_state b) !! _). }
  assert (Hacc : acceptable_lock_expired (rle_balance_proof m) lock b (ch_partner_state b) (ch_our_state b) block_number).
  { split; rewrite ?(ag_pending _ _ Ma), ?Ct, ?Cl; try done.
    - unfold is_lock_expired. cbn. rewrite Hob. by rewrite (proj2 (Z.ltb_ge _ _) Hblock).
    - by rewrite (si_locksroot _ _ _ Hs).
    - by rewrite (si_transferred _ _ _ Hs).
    - by rewrite (si_locked _ _ _ Hs). }
  unfold handle_receive_lock_expired.
  destruct (is_valid_lock_expired_Ok m b _ (ch_our_state b) block_number _ Hsig) as (v & ms & locks & E).
  rewrite E. cbn [bind].
  apply is_valid_lock_expired_spec in E as [(l & Hl' & -> & -> & -> & _)|(_ & _ & _ & Hno)];
    rewrite Em in *; [|by destruct (Hno _ Hub)].
  assert (l = lock) as -> by congruence.
  pose proof (receive_lock_expired_effect _ _ _ _ Ib Hub Hacc) as Heff.
  do 2 eexists. split; [reflexivity|].
  split; [|split; [exact (le_inv _ _ _ _ _ (send_lock_expired_effect a lock prng rmeta a' _ prng' lock Ia Hlock eq_refl eq_refl Hsend')) | split; [apply (le_inv _ _ _ _ _ Heff)|]]].
  - rewrite Ea. split; [done | | done].
    eapply (agree_removed lock _ _ _ _ Ma).
    + apply removed_unclaimed; try done; [auto with channel | by apply (unclaimed_lock_inv _ _ _ Hlock)].
    + apply removed_unclaimed; try done; [auto with channel | by apply (unclaimed_lock_inv _ _ _ Hub)].
    + done.
    + done.
    + apply (si_transferred _ _ _ Hs).
    + apply (si_nonce _ _ _ Hs).
  - apply (le_locked _ _ _ _ _ Heff).
Qed.
End Sync.
