(* ===== verification/WithdrawTheorems.v ===== *)
(** * Withdraws: the theorems

    What a withdraw action and a withdraw request are accepted for and what they
    do; the three-message exchange between the two nodes; the expiration of
    pending withdraws. *)

From Stdlib Require Import ZArith Lia Strings.Byte Sorting.Sorted.
From stdpp Require Import base gmap list strings pretty.
From S2P Require Import Prelude Encoding MediationFee State Events ChannelViews ChannelValidation ChannelSend ChannelHandlers LockSets ChannelInvariant BalanceProofMessages LockOperations StateTransition TransferTheorems ChannelSync.

(** ** Definitions *)

(** A withdraw request the partner may make. *)
Record acceptable_withdraw_request `{Externals} (ch : NettingChannelState) (r : ReceiveWithdrawRequest) : Prop := {
  aw_id : rwr_canonical_identifier r = ch_canonical_identifier ch;
  aw_participant : rwr_participant r = es_address (ch_partner_state ch);
  aw_sender : rwr_sender r = es_address (ch_partner_state ch);
  aw_increasing : total_withdraw (ch_partner_state ch) <= rwr_total_withdraw r;
  aw_balance : rwr_total_withdraw r <= get_max_withdraw_amount (ch_partner_state ch) (ch_our_state ch);
  aw_nonce : rwr_nonce r = es_nonce (ch_partner_state ch) + 1;
  aw_overflow : rwr_total_withdraw r + total_withdraw (ch_our_state ch) <= UINT256_MAX;
  aw_signature : exists s,
    is_valid_withdraw (rwr_canonical_identifier r) (rwr_participant r) (rwr_total_withdraw r)
      (rwr_expiration r) (rwr_signature r) (rwr_sender r) = Ok s /\ ok s = true;
}.

(** The message [r] is the event [ev] as it arrives at the other node. *)
Definition carries_request (ev : Event) (r : ReceiveWithdrawRequest) : Prop :=
  match ev with
  | SendWithdrawRequest m total participant expiration nonce coop =>
      rwr_canonical_identifier r = sm_canonical_identifier m /\ rwr_total_withdraw r = total /\
      rwr_participant r = participant /\ rwr_expiration r = expiration /\ rwr_nonce r = nonce /\
      rwr_coop_settle r = coop /\ rwr_sender r = participant
  | _ => False
  end.

Definition carries_confirmation (ev : Event) (sender : bytes) (r : ReceiveWithdrawConfirmation) : Prop :=
  match ev with
  | SendWithdrawConfirmation m total participant expiration nonce =>
      rwc_canonical_identifier r = sm_canonical_identifier m /\ rwc_total_withdraw r = total /\
      rwc_participant r = participant /\ rwc_expiration r = expiration /\ rwc_nonce r = nonce /\
      rwc_sender r = sender
  | _ => False
  end.

(** The pending withdraws that are left, and those that expire, at a block: a
    prefix expires. *)
Definition withdraw_live (block_number : Z) (p : Z * PendingWithdrawState) : bool :=
  negb (is_withdraw_expired block_number (get_sender_expiration_threshold (pw_expiration p.2))).

Fixpoint live_suffix (block_number : Z) (d : list (Z * PendingWithdrawState)) : list (Z * PendingWithdrawState) :=
  match d with
  | [] => []
  | p :: d' => if withdraw_live block_number p then d else live_suffix block_number d'
  end.

Fixpoint expired_prefix (block_number : Z) (d : list (Z * PendingWithdrawState)) : list PendingWithdrawState :=
  match d with
  | [] => []
  | p :: d' => if withdraw_live block_number p then [] else p.2 :: expired_prefix block_number d'
  end.

Definition expired_record (w : PendingWithdrawState) : ExpiredWithdrawState :=
  {| ew_total_withdraw := pw_total_withdraw w; ew_expiration := pw_expiration w;
     ew_nonce := pw_nonce w; ew_recipient_metadata := pw_recipient_metadata w |}.

Section Withdraw.
Context `{Externals} {Random : Type} `{RandomGen Random}.

(** ** Actions and requests *)

Lemma is_valid_total_withdraw_iff ch total :
  ok (is_valid_total_withdraw ch total false) = true <->
  get_status ch = STATE_OPENED /\ total_withdraw (ch_our_state ch) < total /\
  total <= get_max_withdraw_amount (ch_our_state ch) (ch_partner_state ch) /\
  total + total_withdraw (ch_partner_state ch) <= UINT256_MAX.
Proof.
  pose proof (get_balance_eq (ch_our_state ch) (ch_partner_state ch)) as Hb.
  unfold is_valid_total_withdraw, is_valid_channel_total_withdraw, our_total_withdraw, partner_total_withdraw.
  split.
  - split_ifs; try discriminate. zbool. cbn in *. zbool. intros _. split; [done|]. lia.
  - intros (-> & ? & ? & ?). rewrite bool_decide_true by done. cbn [negb andb].
    split_ifs; zbool; try lia; done.
Qed.

Lemma send_withdraw_request_opened ch total expiration (prng : Random) meta coop :
  get_status ch = STATE_OPENED ->
  exists our ev prng',
    send_withdraw_request ch total expiration prng meta coop = (set_ch_our_state our ch, [ev], prng') /\
    same_locks (ch_our_state ch) our /\ es_contract_balance our = es_contract_balance (ch_our_state ch) /\
    es_address our = es_address (ch_our_state ch) /\
    es_initiated_coop_settle our = es_initiated_coop_settle (ch_our_state ch) /\
    es_onchain_total_withdraw our = es_onchain_total_withdraw (ch_our_state ch) /\
    es_nonce our = es_nonce (ch_our_state ch) + 1 /\
    (exists w, es_withdraws_pending our = od_set total w (es_withdraws_pending (ch_our_state ch)) /\
               pw_total_withdraw w = total /\ pw_expiration w = expiration) /\
    (exists mid, ev = SendWithdrawRequest
       {| sm_recipient := es_address (ch_partner_state ch); sm_recipient_metadata := meta;
          sm_canonical_identifier := ch_canonical_identifier ch; sm_message_identifier := mid |}
       total (es_address (ch_our_state ch)) expiration (es_nonce (ch_our_state ch) + 1) coop).
Proof.
  intros Hst. unfold send_withdraw_request. rewrite bool_decide_true by (rewrite Hst; set_solver).
  cbn [negb]. destruct (message_identifier_from_prng prng) as [mid g]. unfold upd_our. do 3 eexists.
  split; [reflexivity|]. do 6 (split; [by split || done|]). split.
  - eexists. split; [reflexivity|]. done.
  - exists mid. cbn. by destruct ch as [[]].
Qed.

(** C34. Requesting a withdraw.  The action is accepted exactly when the channel
    is open, the total grows, the balance covers it and the totals of both ends
    stay below 2^256; then the total withdraw is the requested one, the balance
    shrinks by the difference, and one request with the next nonce is sent.
    Otherwise the channel is unchanged and one event reports the reason. *)
Theorem handle_action_withdraw_correct ch a (prng : Random) block_number :
  withdraws_inv (ch_our_state ch) ->
  let total := acw_total_withdraw a in
  exists ch' evs prng',
    _handle_action_withdraw a ch prng block_number = Ok (Some ch', evs, prng') /\
    ((get_status ch = STATE_OPENED /\ total_withdraw (ch_our_state ch) < total /\
      total <= get_max_withdraw_amount (ch_our_state ch) (ch_partner_state ch) /\
      total + total_withdraw (ch_partner_state ch) <= UINT256_MAX /\
      total_withdraw (ch_our_state ch') = total /\
      get_balance (ch_our_state ch') (ch_partner_state ch')
        = get_balance (ch_our_state ch) (ch_partner_state ch) - (total - total_withdraw (ch_our_state ch)) /\
      exists m, evs = [SendWithdrawRequest m total (es_address (ch_our_state ch))
                         (get_safe_initial_expiration block_number (ch_reveal_timeout ch) None)
                         (es_nonce (ch_our_state ch) + 1) false])
     \/
     (~ (get_status ch = STATE_OPENED /\ total_withdraw (ch_our_state ch) < total /\
         total <= get_max_withdraw_amount (ch_our_state ch) (ch_partner_state ch) /\
         total + total_withdraw (ch_partner_state ch) <= UINT256_MAX) /\
      ch' = ch /\ prng' = prng /\ exists reason, evs = [EventInvalidActionWithdraw total reason])).
Proof.
  intros Hw total. unfold _handle_action_withdraw. fold total.
  pose proof (is_valid_total_withdraw_iff ch total) as Hiff.
  destruct (ok _) eqn:Hok.
  - destruct (proj1 Hiff eq_refl) as (Hst & Hlt & Hle & Hmax).
    destruct (send_withdraw_request_opened ch total
                (get_safe_initial_expiration block_number (ch_reveal_timeout ch) None) prng
                (acw_recipient_metadata a) false Hst)
      as (our & ev & g & E & Hl & Hd & Hadr & _ & Ho & Hn & (w & Hp & Ew & _) & (mid & Eev)).
    rewrite E. do 3 eexists. split; [reflexivity|]. left. do 4 (split; [done|]).
    assert (Ht : total_withdraw our = total).
    { rewrite <- Ew. apply (withdraws_inv_set w (ch_our_state ch)); rewrite ?Ew; try done. lia. }
    split; [exact Ht|]. split; [|rewrite Eev; by eexists].
    cbn. rewrite !get_balance_eq, !get_max_withdraw_amount_eq, Ht, (same_locks_transferred _ _ Hl), Hd. lia.
  - rewrite py_assert_true by (by apply str_true_error_total_withdraw).
    do 3 eexists. split; [reflexivity|]. right. split; [rewrite <- Hiff; discriminate|]. eauto.
Qed.

Lemma is_valid_withdraw_request_iff ch r s :
  is_valid_withdraw (rwr_canonical_identifier r) (rwr_participant r) (rwr_total_withdraw r)
    (rwr_expiration r) (rwr_signature r) (rwr_sender r) = Ok s ->
  exists v, is_valid_withdraw_request ch r = Ok v /\
    (ok v = true <-> acceptable_withdraw_request ch r).
Proof.
  intros Hs. pose proof (get_balance_eq (ch_partner_state ch) (ch_our_state ch)) as Hb.
  unfold is_valid_withdraw_request, is_valid_channel_total_withdraw, our_total_withdraw, partner_total_withdraw,
    get_next_nonce. rewrite Hs. cbn [bind]. eexists. split; [reflexivity|]. split.
  - split_ifs; try discriminate. zbool. intros Hok. split; try done; try lia. eauto.
  - intros [E1 E2 E3 E4 E5 E6 E7 (s' & Hs' & Hok)]. assert (s' = s) as -> by congruence.
    rewrite E1, E2, E3, !bool_decide_true by done. cbn [negb].
    split_ifs; zbool; try lia. done.
Qed.

(** The channel after an accepted request outside a cooperative settlement. *)
Lemma withdraw_request_accepted ch r block_number block_hash (prng : Random) s :
  withdraws_inv (ch_partner_state ch) ->
  es_initiated_coop_settle (ch_our_state ch) = None -> rwr_coop_settle r = false ->
  is_valid_withdraw (rwr_canonical_identifier r) (rwr_participant r) (rwr_total_withdraw r)
    (rwr_expiration r) (rwr_signature r) (rwr_sender r) = Ok s ->
  acceptable_withdraw_request ch r ->
  exists partner m,
    _handle_receive_withdraw_request r ch block_number block_hash prng
    = Ok (Some (set_ch_our_state (set_es_nonce (es_nonce (ch_our_state ch) + 1) (ch_our_state ch))
                  (set_ch_partner_state partner ch)),
          [SendWithdrawConfirmation m (rwr_total_withdraw r) (es_address (ch_partner_state ch))
             (rwr_expiration r) (es_nonce (ch_our_state ch) + 1)], prng) /\
    sm_canonical_identifier m = ch_canonical_identifier ch /\ sm_message_identifier m = rwr_message_identifier r /\
    same_locks (ch_partner_state ch) partner /\ es_contract_balance partner = es_contract_balance (ch_partner_state ch) /\
    es_address partner = es_address (ch_partner_state ch) /\ es_nonce partner = rwr_nonce r /\
    total_withdraw partner = rwr_total_withdraw r.
Proof.
  intros Hw Hcoop Hflag Hs Hacc. unfold _handle_receive_withdraw_request.
  destruct (is_valid_withdraw_request_iff ch r s Hs) as (v & Hv & Hiff). rewrite Hv. cbn [bind].
  unfold fail. rewrite (proj2 Hiff Hacc). cbn [negb]. cbv zeta.
  cbn [es_initiated_coop_settle ch_our_state upd_partner set_ch_partner_state].
  rewrite Hcoop, Hflag. cbn [is_some orb negb]. do 2 eexists. split; [reflexivity|].
  split; [done|]. split; [done|]. split; [by split|]. do 3 (split; [done|]).
  set (w := {| pw_total_withdraw := rwr_total_withdraw r; pw_expiration := rwr_expiration r;
               pw_nonce := rwr_nonce r; pw_recipient_metadata := rwr_sender_metadata r |}).
  apply (withdraws_inv_set w (ch_partner_state ch)); try done. apply Hacc.
Qed.

(** C11. Receiving a withdraw request (outside a cooperative settlement).  The
    handler accepts exactly the acceptable requests: then the partner's total
    withdraw is the requested one and one confirmation with our next nonce is
    sent.  Otherwise the channel is unchanged and one event reports it. *)
Theorem handle_receive_withdraw_request_correct ch r block_number block_hash (prng : Random) s :
  withdraws_inv (ch_partner_state ch) ->
  es_initiated_coop_settle (ch_our_state ch) = None -> rwr_coop_settle r = false ->
  is_valid_withdraw (rwr_canonical_identifier r) (rwr_participant r) (rwr_total_withdraw r)
    (rwr_expiration r) (rwr_signature r) (rwr_sender r) = Ok s ->
  exists ch' evs,
    _handle_receive_withdraw_request r ch block_number block_hash prng = Ok (Some ch', evs, prng) /\
    ((acceptable_withdraw_request ch r /\
      total_withdraw (ch_partner_state ch') = rwr_total_withdraw r /\
      es_nonce (ch_partner_state ch') = rwr_nonce r /\
      es_nonce (ch_our_state ch') = es_nonce (ch_our_state ch) + 1 /\
      agree (set_es_nonce (es_nonce (ch_our_state ch) + 1) (ch_our_state ch)) (ch_our_state ch') /\
      exists m, sm_canonical_identifier m = ch_canonical_identifier ch /\
                sm_message_identifier m = rwr_message_identifier r /\
                evs = [SendWithdrawConfirmation m (rwr_total_withdraw r) (es_address (ch_partner_state ch))
                         (rwr_expiration r) (es_nonce (ch_our_state ch) + 1)])
     \/ (~ acceptable_withdraw_request ch r /\ ch' = ch /\
         exists reason, evs = [EventInvalidReceivedWithdrawRequest (rwr_total_withdraw r) reason])).
Proof.
  intros Hw Hcoop Hflag Hs. destruct (is_valid_withdraw_request_iff ch r s Hs) as (v & Hv & Hiff).
  destruct (ok v) eqn:Hok.
  - pose proof (proj1 Hiff eq_refl) as Hacc.
    destruct (withdraw_request_accepted ch r block_number block_hash prng s Hw Hcoop Hflag Hs Hacc)
      as (partner & m & E & Em & Ei & _ & _ & _ & En & Et).
    do 2 eexists. split; [exact E|]. left. split; [done|]. do 3 (split; [done|]). split; [by split|].
    by exists m.
  - unfold _handle_receive_withdraw_request, invalid_withdraw_request. rewrite Hv. cbn [bind].
    unfold fail. rewrite Hok. cbn [negb]. rewrite py_assert_true.
    2:{ destruct (is_valid_withdraw_request_spec ch r) as (v' & Hv' & _ & Herr).
        - unfold is_valid_withdraw in Hs. by destruct (pack_withdraw _ _ _ _).
        - assert (v' = v) as -> by congruence. by apply Herr. }
    do 2 eexists. split; [reflexivity|]. right. split; [rewrite <- Hiff; discriminate|]. eauto.
Qed.

(** ** The exchange between two nodes *)

Lemma agree_withdraw es es' s s' w :
  agree es es' -> same_locks es s -> same_locks es' s' ->
  es_contract_balance s = es_contract_balance es -> es_contract_balance s' = es_contract_balance es' ->
  es_address s = es_address es -> es_address s' = es_address es' ->
  total_withdraw s = w -> total_withdraw s' = w -> es_nonce s' = es_nonce s -> agree s s'.
Proof.
  intros [A1 A2 A3 A4 A5 A6 A7] Hl Hl' Ed Ed' Ea Ea' Ew Ew' En. split; try congruence.
  - by rewrite (same_locks_transferred _ _ Hl), (same_locks_transferred _ _ Hl').
  - by rewrite (sl_pending _ _ Hl), (sl_pending _ _ Hl').
  - destruct Hl as [L1 L2 L3 _ _], Hl' as [L1' L2' L3' _ _].
    unfold all_locks, locked_of, unlocked_of, onchain_of in *. by rewrite L1, L2, L3, L1', L2', L3'.
Qed.

Lemma agree_nonce es es' n : agree es es' -> agree (set_es_nonce n es) (set_es_nonce n es').
Proof. intros []. by split. Qed.

(** What our confirmation check needs. *)
Lemma is_valid_withdraw_confirmation_Ok ch r w s :
  od_get (rwc_total_withdraw r) (es_withdraws_pending (ch_our_state ch)) = Some w ->
  rwc_expiration r = pw_expiration w ->
  rwc_canonical_identifier r = ch_canonical_identifier ch ->
  rwc_total_withdraw r = total_withdraw (ch_our_state ch) ->
  rwc_nonce r = es_nonce (ch_partner_state ch) + 1 ->
  rwc_participant r = es_address (ch_our_state ch) -> rwc_sender r = es_address (ch_partner_state ch) ->
  rwc_total_withdraw r + total_withdraw (ch_partner_state ch) <= UINT256_MAX ->
  is_valid_withdraw (rwc_canonical_identifier r) (rwc_participant r) (rwc_total_withdraw r)
    (rwc_expiration r) (rwc_signature r) (rwc_sender r) = Ok s ->
  is_valid_withdraw_confirmation ch r = Ok s.
Proof.
  intros Hw Ee Ei Et En Ep Es Ho Hs.
  unfold is_valid_withdraw_confirmation, find_withdraw_expiration, is_valid_channel_total_withdraw,
    our_total_withdraw, partner_total_withdraw, get_next_nonce.
  rewrite Hw, Hs, Ei, Et, En, Ee, Ep, Es, !bool_decide_true by done.
  rewrite !Z.eqb_refl. cbn [negb]. rewrite (proj2 (Z.leb_le _ _)) by lia. done.
Qed.

(** What [_handle_action_withdraw] sends is acceptable to the other node. *)
Lemma sent_request_acceptable a b m total expiration r :
  mirrored a b -> ok (is_valid_total_withdraw a total false) = true ->
  sm_canonical_identifier m = ch_canonical_identifier a ->
  carries_request (SendWithdrawRequest m total (es_address (ch_our_state a)) expiration
                     (es_nonce (ch_our_state a) + 1) false) r ->
  is_valid_withdraw (rwr_canonical_identifier r) (rwr_participant r) (rwr_total_withdraw r)
    (rwr_expiration r) (rwr_signature r) (rwr_sender r) = Ok Success ->
  acceptable_withdraw_request b r.
Proof.
  intros [Mi Ma Mb] Hok Em (Ri & Rt & Rp & Re & Rn & Rc & Rs) Hsig.
  destruct (proj1 (is_valid_total_withdraw_iff a total) Hok) as (Hst & Hlt & Hle & Hmax).
  split; rewrite ?Ri, ?Em, ?Rt, ?Rp, ?Rn, ?Rs, ?Mi, ?(ag_address _ _ Ma), ?(ag_nonce _ _ Ma),
      ?(ag_withdraw _ _ Ma), ?(ag_withdraw _ _ Mb); try done; try lia.
  - rewrite get_max_withdraw_amount_eq in *.
    rewrite (ag_deposit _ _ Ma), (ag_transferred _ _ Ma), (ag_transferred _ _ Mb). lia.
  - exists Success. split; [|done]. rewrite <- Hsig, Ri, Em, Rt, Rp, Rs. done.
Qed.

(** A valid confirmation outside a cooperative settlement only advances the
    partner's nonce, and leads to the on-chain withdraw if there is time left. *)
Lemma withdraw_confirmation_accepted ch c block_number block_hash :
  is_valid_withdraw_confirmation ch c = Ok Success -> coop_settling ch = false ->
  exists evs,
    _handle_receive_withdraw_confirmation c ch block_number block_hash
    = Ok (Some (set_ch_partner_state (set_es_nonce (rwc_nonce c) (ch_partner_state ch)) ch), evs) /\
    (block_number - ch_reveal_timeout ch <= rwc_expiration c ->
     ContractSendChannelWithdraw block_hash (rwc_canonical_identifier c) (rwc_total_withdraw c)
       (rwc_expiration c) (rwc_signature c) ∈ evs).
Proof.
  intros Hvalid Hco. unfold coop_settling in Hco. apply orb_false_iff in Hco as [Hca Hca'].
  unfold _handle_receive_withdraw_confirmation. rewrite Hvalid. cbn [bind]. cbv zeta. cbn [ok].
  cbn [es_initiated_coop_settle ch_our_state ch_partner_state upd_partner set_ch_partner_state set_es_nonce ch_reveal_timeout].
  destruct (es_initiated_coop_settle (ch_our_state ch)); [discriminate|].
  destruct (es_initiated_coop_settle (ch_partner_state ch)); [discriminate|].
  destruct (_ && _) eqn:Hex; eexists; (split; [reflexivity|]); intros Hb; [set_solver|].
  exfalso. cbn [is_none is_some negb andb] in Hex. apply Z.leb_gt in Hex. lia.
Qed.

(** C6. A withdraw crosses the channel.  From mirrored views of an open channel
    with no cooperative settlement, an accepted withdraw action produces a
    request that the other node accepts; its confirmation is accepted back; the
    first node then submits the withdraw on-chain if there is time left, and the
    views are mirrored again. *)
Theorem withdraw_synchronised a b action (ga gb : Random) block_a block_b block_a' hash_b hash_a r c a1 ev ga1 :
  mirrored a b -> withdraws_inv (ch_our_state a) -> withdraws_inv (ch_partner_state b) ->
  coop_settling a = false -> es_initiated_coop_settle (ch_our_state b) = None ->
  ok (is_valid_total_withdraw a (acw_total_withdraw action) false) = true ->
  _handle_action_withdraw action a ga block_a = Ok (Some a1, [ev], ga1) ->
  carries_request ev r ->
  is_valid_withdraw (rwr_canonical_identifier r) (rwr_participant r) (rwr_total_withdraw r)
    (rwr_expiration r) (rwr_signature r) (rwr_sender r) = Ok Success ->
  exists b1 ev_b,
    _handle_receive_withdraw_request r b block_b hash_b gb = Ok (Some b1, [ev_b], gb) /\
    (carries_confirmation ev_b (es_address (ch_our_state b)) c ->
     is_valid_withdraw (rwc_canonical_identifier c) (rwc_participant c) (rwc_total_withdraw c)
       (rwc_expiration c) (rwc_signature c) (rwc_sender c) = Ok Success ->
     exists a2 evs_a,
       _handle_receive_withdraw_confirmation c a1 block_a' hash_a = Ok (Some a2, evs_a) /\
       mirrored a2 b1 /\ total_withdraw (ch_our_state a2) = acw_total_withdraw action /\
       (block_a' - ch_reveal_timeout a1 <= rwr_expiration r ->
        ContractSendChannelWithdraw hash_a (ch_canonical_identifier a) (acw_total_withdraw action)
          (rwr_expiration r) (rwc_signature c) ∈ evs_a)).
Proof.
  intros Hm Hwa Hwb Hca Hcb Hok Hact Hreq Hsig. pose proof Hm as [Mi Ma Mb].
  pose proof (proj1 (is_valid_total_withdraw_iff a (acw_total_withdraw action)) Hok) as (Hst & Hlt & Hle & Hmax).
  unfold _handle_action_withdraw in Hact. rewrite Hok in Hact.
  destruct (send_withdraw_request_opened a (acw_total_withdraw action)
              (get_safe_initial_expiration block_a (ch_reveal_timeout a) None) ga
              (acw_recipient_metadata action) false Hst)
    as (our & ev' & g & E & Hl & Hd & Hadr & Hco & Ho & Hn & (w & Hp & Ew & Ee) & (mid & Eev)).
  rewrite E in Hact. injection Hact as <- <- <-. rewrite Eev in Hreq.
  assert (Hacc : acceptable_withdraw_request b r)
    by (eapply sent_request_acceptable; [exact Hm | exact Hok | | exact Hreq | exact Hsig]; reflexivity).
  destruct Hreq as (Ri & Rt & Rp & Re & Rn & Rc & Rs).
  destruct (withdraw_request_accepted b r block_b hash_b gb Success Hwb Hcb Rc Hsig Hacc)
    as (partner & m & Eb & Em & _ & Lb & Db & Ab & Nb & Tb).
  do 2 eexists. split; [exact Eb|]. intros (Ci & Ct & Cp & Ce & Cn & Cs) Hsig'.
  set (a1 := set_ch_our_state our a) in *.
  assert (Ht : total_withdraw our = acw_total_withdraw action).
  { rewrite <- Ew. apply (withdraws_inv_set w (ch_our_state a)); rewrite ?Ew; try done. lia. }
  assert (Hget : od_get (rwc_total_withdraw c) (es_withdraws_pending our) = Some w).
  { rewrite Hp, od_get_set, Ct, Rt. by rewrite decide_True. }
  pose proof (ag_address _ _ Ma) as Aa. pose proof (ag_address _ _ Mb) as Ab'. pose proof (ag_nonce _ _ Mb) as An.
  pose proof (ag_withdraw _ _ Mb) as Aw.
  assert (Hvalid : is_valid_withdraw_confirmation a1 c = Ok Success).
  { apply (is_valid_withdraw_confirmation_Ok a1 c w); cbn; try congruence; lia. }
  destruct (withdraw_confirmation_accepted a1 c block_a' hash_a Hvalid) as (evs & Ea & Hin).
  { unfold coop_settling in *. cbn. by rewrite Hco. }
  exists (set_ch_partner_state (set_es_nonce (rwc_nonce c) (ch_partner_state a1)) a1), evs. split; [exact Ea|].
  split; [split; [done | |] | split; [exact Ht|]].
  - eapply (agree_withdraw _ _ our partner _ Ma Hl Lb); try done; [by rewrite Tb | lia].
  - cbn. rewrite Cn. apply (agree_nonce _ _ _ Mb).
  - intros Hb. rewrite <- Ce, <- Mi, <- Em, <- Ci, <- Rt, <- Ct. apply Hin. by rewrite Ce.
Qed.

(** ** Expiration *)

Lemma expire_withdraw_fields w rest es :
  es_withdraws_pending es = (pw_total_withdraw w, w) :: rest ->
  exists es', expire_withdraw w es = Ok es' /\ es_withdraws_pending es' = rest /\
    es_withdraws_expired es' = es_withdraws_expired es ++ [expired_record w] /\
    es_nonce es' = es_nonce es + 1 /\ same_locks es es' /\
    es_onchain_total_withdraw es' = es_onchain_total_withdraw es.
Proof.
  intros Hp. unfold expire_withdraw, del_item, get_next_nonce. cbv zeta.
  destruct (es_initiated_coop_settle (set_es_nonce _ es)) as [cs|]; [destruct (_ && _)|]; cbn;
    rewrite Hp; cbn; rewrite !decide_True by done; cbn; eexists; (split; [reflexivity|]); by repeat split.
Qed.

Lemma expired_withdraws_loop_spec snapshot ch block_number (prng : Random) :
  Forall (fun p => p.1 = pw_total_withdraw p.2) (es_withdraws_pending (ch_our_state ch)) ->
  (es_withdraws_pending (ch_our_state ch)).*2 = snapshot ->
  exists our evs prng',
    expired_withdraws_loop snapshot ch block_number prng = Ok (set_ch_our_state our ch, evs, prng') /\
    es_withdraws_pending our = live_suffix block_number (es_withdraws_pending (ch_our_state ch)) /\
    es_withdraws_expired our = es_withdraws_expired (ch_our_state ch)
      ++ map expired_record (expired_prefix block_number (es_withdraws_pending (ch_our_state ch))) /\
    es_nonce our = es_nonce (ch_our_state ch)
      + Z.of_nat (length (expired_prefix block_number (es_withdraws_pending (ch_our_state ch)))) /\
    length evs = length (expired_prefix block_number (es_withdraws_pending (ch_our_state ch))) /\
    same_locks (ch_our_state ch) our /\
    es_onchain_total_withdraw our = es_onchain_total_withdraw (ch_our_state ch).
Proof.
  revert ch prng. induction snapshot as [|w snapshot IH]; intros ch prng Hkeys Hsnap; cbn [expired_withdraws_loop].
  - destruct (es_withdraws_pending (ch_our_state ch)) as [|] eqn:Ep; [|discriminate].
    exists (ch_our_state ch), [], prng. split; [by destruct ch|]. cbn. rewrite app_nil_r, Z.add_0_r.
    split; [done|]. by repeat split.
  - destruct (es_withdraws_pending (ch_our_state ch)) as [|[k w'] rest] eqn:Ep; [discriminate|].
    csimpl in Hsnap. injection Hsnap as -> Hrest. apply Forall_cons in Hkeys as [Hk Hkeys]. cbn in Hk. subst k.
    cbn [live_suffix expired_prefix]. unfold withdraw_live. cbn [snd].
    destruct (is_withdraw_expired _ _); cbn [negb].
    2:{ exists (ch_our_state ch), [], prng. split; [by destruct ch|]. cbn. rewrite app_nil_r, Z.add_0_r.
        split; [done|]. by repeat split. }
    destruct (expire_withdraw_fields w rest (ch_our_state ch) Ep) as (our1 & E & Er & Ex & En & Hl & Eo).
    rewrite E. cbn [bind]. cbv zeta. destruct (message_identifier_from_prng prng) as [mid g].
    destruct (IH (set_ch_our_state our1 ch) g) as (our & evs & g' & El & Hp & He & Hn & Hlen & Hl' & Ho).
    { cbn. by rewrite Er. }
    { cbn. by rewrite Er. }
    rewrite El. cbn [bind]. cbn in Hp, He, Hn, Hlen, Hl', Ho. rewrite Er in *.
    do 3 eexists. split; [reflexivity|]. split; [done|]. split; [by rewrite He, Ex, <- app_assoc|].
    split; [cbn [length]; lia|]. split; [cbn [length]; lia|].
    split; [destruct Hl, Hl'; split; congruence | congruence].
Qed.

(** Expired withdraws.  On each block exactly the longest prefix of the
    pending withdraws whose expiration plus twice the confirmation blocks has
    passed is dropped: each is moved to the expired ones in order, takes the next
    nonce and is announced by one message.  The locks are unchanged. *)
Theorem events_for_expired_withdraws_correct ch block_number (prng : Random) :
  withdraws_inv (ch_our_state ch) ->
  let pending := es_withdraws_pending (ch_our_state ch) in
  let gone := expired_prefix block_number pending in
  exists our evs prng',
    events_for_expired_withdraws ch block_number prng = Ok (set_ch_our_state our ch, evs, prng') /\
    pending.*2 = gone ++ (es_withdraws_pending our).*2 /\
    (forall p rest, es_withdraws_pending our = p :: rest ->
       block_number < pw_expiration p.2 + DEFAULT_NUMBER_OF_BLOCK_CONFIRMATIONS * 2) /\
    Forall (fun w => pw_expiration w + DEFAULT_NUMBER_OF_BLOCK_CONFIRMATIONS * 2 <= block_number) gone /\
    es_withdraws_expired our = es_withdraws_expired (ch_our_state ch) ++ map expired_record gone /\
    es_nonce our = es_nonce (ch_our_state ch) + Z.of_nat (length gone) /\
    length evs = length gone /\ same_locks (ch_our_state ch) our.
Proof.
  intros Hw pending gone. unfold events_for_expired_withdraws.
  destruct (expired_withdraws_loop_spec pending.*2 ch block_number prng) as (our & evs & g & E & Hp & He & Hn & Hlen & Hl & _);
    [|done|].
  { eapply Forall_impl; [apply (wi_entries _ Hw)|]. cbn. tauto. }
  fold pending in E, Hp, He, Hn, Hlen. fold gone in He, Hn, Hlen.
  exists our, evs, g. split; [exact E|]. rewrite Hp. unfold gone.
  assert (Hsplit : forall d, d.*2 = expired_prefix block_number d ++ (live_suffix block_number d).*2 /\
      (forall p rest, live_suffix block_number d = p :: rest ->
         block_number < pw_expiration p.2 + DEFAULT_NUMBER_OF_BLOCK_CONFIRMATIONS * 2) /\
      Forall (fun w => pw_expiration w + DEFAULT_NUMBER_OF_BLOCK_CONFIRMATIONS * 2 <= block_number)
        (expired_prefix block_number d)).
  { induction d as [|p d IH]; csimpl; [by repeat constructor|].
    destruct (withdraw_live block_number p) eqn:El;
      unfold withdraw_live, is_withdraw_expired, get_sender_expiration_threshold in El; zbool.
    - split; [done|]. split; [|constructor]. intros q rest [= <- _]. done.
    - destruct IH as (IH1 & IH2 & IH3). split; [csimpl; by rewrite IH1|]. split; [done|]. by constructor. }
  destruct (Hsplit pending) as (H1 & H2 & H3). done.
Qed.
End Withdraw.
