(* ===== verification/Instances.v ===== *)
(** * Concrete instances

    A computable stand-in for the external code (a 32-byte polynomial hash,
    signatures that embed the signer and the digest) and a generator, at which
    the witnesses evaluate the model; and a channel between two nodes, alice
    and bob, seen from alice's side. *)

From Stdlib Require Import ZArith Lia Strings.Byte SpecFloat.
From stdpp Require Import base gmap list strings pretty.
From S2P Require Import Prelude Encoding MediationFee State Events ChannelViews ChannelValidation ChannelSend ChannelHandlers.

(** ** External code *)

Definition toy_hash (bs : bytes) : bytes :=
  be_bytes 32 (fold_left (fun acc b => (acc * 31 + Z_of_byte b + 1) mod 4294967296) bs 7).

Definition toy_sign_hash (address hash : bytes) : bytes := address ++ hash ++ zero_bytes 13.

Definition toy_recover (hash signature : bytes) : option bytes :=
  if bool_decide (take 32 (drop 20 signature) = hash) then Some (take 20 signature) else None.

Definition toy_pack_withdraw (network : string) (chain channel : Z) (participant : string)
    (amount expiration : Z) : Res bytes :=
  let* c := int_to_bytes 32 chain in
  let* ch := int_to_bytes 32 channel in
  let* a := int_to_bytes 32 amount in
  let* e := int_to_bytes 32 expiration in
  Ok (String.list_byte_of_string network ++ c ++ ch ++ String.list_byte_of_string participant ++ a ++ e).

#[export] Instance toy_externals : Externals := {|
  keccak := toy_hash;
  ecdsa_recover_address := toy_recover;
  encode_single_uint256 := int_to_bytes 32;
  to_bytes_hexstr := String.list_byte_of_string;
  pack_withdraw_message := toy_pack_withdraw;
  float_pow := fun x y => Ok (float_mul x x);
|}.

#[export] Instance toy_externals_laws : ExternalsLaws.
Proof.
  split.
  - intros bs. apply be_bytes_length.
  - intros z Hz. simpl. by rewrite int_to_bytes_Ok by (simpl; lia).
Qed.

(** ** Random numbers *)

Definition toy_randint (lo hi g : Z) : Z * Z :=
  (lo + g mod (hi - lo + 1), (g * 6364136223846793005 + 1442695040888963407) mod 2 ^ 64).

#[export] Program Instance toy_random : RandomGen Z := {| randint := toy_randint |}.
Next Obligation.
  intros lo hi g Hle. simpl. pose proof (Z.mod_pos_bound g (hi - lo + 1)). lia.
Qed.

(** ** A channel *)

Definition alice : bytes := replicate 20 x61.
Definition bob : bytes := replicate 20 x62.
Definition token : bytes := replicate 20 x74.
Definition a_secrethash : bytes := replicate 32 x31.
Definition a_block_hash : bytes := replicate 32 xbb.

Definition a_canonical_identifier : CanonicalIdentifier :=
  {| ci_chain_identifier := 1; ci_token_network_address := replicate 20 x6e; ci_channel_identifier := 7 |}.

Definition no_fees : FeeScheduleState :=
  {| fs_cap_fees := true; fs_flat := 0; fs_proportional := 0; fs_imbalance_penalty := None;
     fs_penalty_func := None |}.

Definition fresh_end (address : bytes) (deposit : Z) : NettingChannelEndState :=
  {| es_address := address; es_contract_balance := deposit;
     es_onchain_total_withdraw := 0; es_withdraws_pending := [];
     es_initiated_coop_settle := None; es_expired_coop_settles := [];
     es_withdraws_expired := []; es_secrethashes_to_lockedlocks := ∅;
     es_secrethashes_to_unlockedlocks := ∅; es_secrethashes_to_onchain_unlockedlocks := ∅;
     es_balance_proof := None; es_pending_locks := [];
     es_onchain_locksroot := LOCKSROOT_OF_NO_LOCKS; es_nonce := 0 |}.

(** The channel [us]--[them] with the given deposits. *)
Definition fresh_channel (us them : bytes) (our_deposit their_deposit : Z) : NettingChannelState :=
  {| ch_canonical_identifier := a_canonical_identifier; ch_token_address := token;
     ch_token_network_registry_address := replicate 20 x72; ch_reveal_timeout := 50;
     ch_settle_timeout := 500; ch_fee_schedule := no_fees;
     ch_our_state := fresh_end us our_deposit; ch_partner_state := fresh_end them their_deposit;
     ch_open_transaction := {| stx_finished_block_number := 1; stx_started_block_number := None |};
     ch_close_transaction := None; ch_settle_transaction := None; ch_update_transaction := None |}.

(** Signs an unsigned balance proof, as the message layer does before sending. *)
Definition sign_balance_proof `{Externals} (sign : bytes -> bytes -> bytes) (address message_hash : bytes)
    (bp : BalanceProofUnsignedState) : Res BalanceProofSignedState :=
  let* data :=
    pack_balance_proof (bpu_nonce bp) (bpu_balance_hash bp) message_hash (bpu_canonical_identifier bp) in
  Ok {| bps_nonce := bpu_nonce bp; bps_transferred_amount := bpu_transferred_amount bp;
        bps_locked_amount := bpu_locked_amount bp; bps_locksroot := bpu_locksroot bp;
        bps_message_hash := message_hash; bps_signature := sign address (eth_sign_sha3 data);
        bps_sender := address; bps_canonical_identifier := bpu_canonical_identifier bp;
        bps_balance_hash := bpu_balance_hash bp |}.

(** Runs a list of state changes, threading the channel and the generator. *)
Fixpoint run (ch : NettingChannelState) (scs : list (StateChange * Z)) (g : Z)
    : Res (NettingChannelState * Z) :=
  match scs with
  | [] => Ok (ch, g)
  | (sc, block_number) :: rest =>
      let* (it, g) := state_transition ch sc block_number a_block_hash g in
      match it.1 with
      | Some ch => run ch rest g
      | None => Raise KeyError
      end
  end.

(** ** Signed messages *)

Definition a_message_hash : bytes := zero_bytes 32.
Definition a_secret : bytes := zero_bytes 32.
Definition secrethash_of_a_secret : bytes := Eval vm_compute in sha256_secrethash a_secret.

Definition ok_or {A} (d : A) (r : Res A) : A := match r with Ok a => a | Raise _ => d end.

Definition packed_withdraw (participant : bytes) (total expiration : Z) : bytes :=
  ok_or [] (pack_withdraw a_canonical_identifier participant total expiration).

(** A withdraw request by [address], a confirmation by [signer] of the request of
    [participant], and the expiration message of [address]. *)
Definition request_from (address : bytes) (total nonce expiration : Z) (coop : bool) : ReceiveWithdrawRequest :=
  {| rwr_sender := address; rwr_message_identifier := 5; rwr_canonical_identifier := a_canonical_identifier;
     rwr_total_withdraw := total; rwr_nonce := nonce; rwr_expiration := expiration;
     rwr_signature := toy_sign_hash address (eth_sign_sha3 (packed_withdraw address total expiration));
     rwr_participant := address; rwr_coop_settle := coop; rwr_sender_metadata := None |}.

Definition confirmation_from (signer participant : bytes) (total nonce expiration : Z)
    : ReceiveWithdrawConfirmation :=
  {| rwc_sender := signer; rwc_message_identifier := 6; rwc_canonical_identifier := a_canonical_identifier;
     rwc_total_withdraw := total; rwc_nonce := nonce; rwc_expiration := expiration;
     rwc_signature := toy_sign_hash signer (eth_sign_sha3 (packed_withdraw participant total expiration));
     rwc_participant := participant |}.

Definition expired_from (address : bytes) (total nonce expiration : Z) : ReceiveWithdrawExpired :=
  {| rwe_sender := address; rwe_message_identifier := 9; rwe_canonical_identifier := a_canonical_identifier;
     rwe_total_withdraw := total; rwe_expiration := expiration; rwe_nonce := nonce;
     rwe_participant := address |}.

(** Balance proofs as [bob] signs them. *)
Definition empty_signed_balance_proof : BalanceProofSignedState :=
  {| bps_nonce := 0; bps_transferred_amount := 0; bps_locked_amount := 0; bps_locksroot := [];
     bps_message_hash := []; bps_signature := []; bps_sender := [];
     bps_canonical_identifier := a_canonical_identifier; bps_balance_hash := [] |}.
Definition signed_by (address : bytes) (bp : BalanceProofUnsignedState) : BalanceProofSignedState :=
  ok_or empty_signed_balance_proof (sign_balance_proof toy_sign_hash address a_message_hash bp).

(** The balance proof of a sent message, signed by [address]. *)
Definition event_balance_proof (address : bytes) (ev : Event) : BalanceProofSignedState :=
  match ev with
  | SendLockedTransfer _ t => signed_by address (ltu_balance_proof t)
  | SendUnlock _ _ _ bp _ _ => signed_by address bp
  | SendLockExpired _ bp _ => signed_by address bp
  | _ => empty_signed_balance_proof
  end.

Definition transfer_message (address : bytes) (lock : HashTimeLockState) (ev : Event) : LockedTransferSignedState :=
  {| lts_payment_identifier := 1; lts_token := token; lts_lock := lock; lts_initiator := address;
     lts_target := alice; lts_message_identifier := 1; lts_route_states := [];
     lts_balance_proof := event_balance_proof address ev; lts_metadata := None; lts_secret := None |}.

Definition unlock_message (address : bytes) (secret : bytes) (ev : Event) : ReceiveUnlock :=
  {| ru_sender := address; ru_balance_proof := event_balance_proof address ev; ru_message_identifier := 2;
     ru_secret := secret; ru_secrethash := secrethash_of_a_secret |}.

Definition lock_expired_message (address : bytes) (ev : Event) : ReceiveLockExpired :=
  {| rle_sender := address; rle_balance_proof := event_balance_proof address ev;
     rle_secrethash := secrethash_of_a_secret; rle_message_identifier := 3 |}.

(** On-chain logs. *)
Definition a_log (block_number : Z) : ContractReceive :=
  {| cr_transaction_hash := zero_bytes 32; cr_block_number := block_number; cr_block_hash := a_block_hash |}.

Definition no_imbalance_fees : MediationFeeConfig :=
  {| mfc_token_to_flat_fee := ∅; mfc_token_to_proportional_fee := ∅;
     mfc_token_to_proportional_imbalance_fee := {[ token := 0 ]}; mfc_cap_mediation_fees := true |}.

Definition withdraw_log (participant : bytes) (total block_number : Z) : StateChange :=
  SCContractReceiveChannelWithdraw
    {| crcw_contract := a_log block_number; crcw_canonical_identifier := a_canonical_identifier;
       crcw_participant := participant; crcw_total_withdraw := total; crcw_fee_config := no_imbalance_fees |}.

Definition deposit_receipt (participant : bytes) (total block_number : Z) : ContractReceiveChannelDeposit :=
  {| crcd_contract := a_log block_number; crcd_canonical_identifier := a_canonical_identifier;
     crcd_deposit_transaction := {| dep_participant_address := participant; dep_contract_balance := total;
                                    dep_deposit_block_number := block_number |};
     crcd_fee_config := no_imbalance_fees |}.
Definition deposit_log (participant : bytes) (total block_number : Z) : StateChange :=
  SCContractReceiveChannelDeposit (deposit_receipt participant total block_number).

Definition coop_settle_action : StateChange :=
  SCActionChannelCoopSettle
    {| accs_canonical_identifier := a_canonical_identifier; accs_recipient_metadata := None |}.

(** Bob sends a locked transfer of 4 to alice, and alice receives it. *)
Definition bob_channel : NettingChannelState := fresh_channel bob alice 10 10.
Definition alice_channel : NettingChannelState := fresh_channel alice bob 10 10.

Definition bob_sends : Res (NettingChannelState * Event) :=
  send_lockedtransfer bob_channel bob alice 4 1 1 100 None secrethash_of_a_secret [] None None.
Definition no_event : Event := ContractSendChannelSettle [] a_canonical_identifier.
Definition bob_sent : NettingChannelState := Eval vm_compute in (ok_or (bob_channel, no_event) bob_sends).1.
Definition bob_event : Event := Eval vm_compute in (ok_or (bob_channel, no_event) bob_sends).2.
Definition bob_lock : HashTimeLockState :=
  {| lock_amount := 4; lock_expiration := 100; lock_secrethash := secrethash_of_a_secret;
     lock_encoded := lock_as_bytes 4 100 secrethash_of_a_secret |}.
Definition bob_transfer : LockedTransferSignedState := Eval vm_compute in transfer_message bob bob_lock bob_event.
Definition alice_received : NettingChannelState := Eval vm_compute in
  (ok_or (alice_channel, (false, [], None)) (handle_receive_lockedtransfer alice_channel bob_transfer None)).1.

(** Bob sends 2 more under the same secret hash, and alice receives them too. *)
Definition bob_sends_again : Res (NettingChannelState * Event) :=
  send_lockedtransfer bob_sent bob alice 2 2 1 100 None secrethash_of_a_secret [] None None.
Definition bob_sent_twice : NettingChannelState := Eval vm_compute in (ok_or (bob_channel, no_event) bob_sends_again).1.
Definition second_event : Event := Eval vm_compute in (ok_or (bob_channel, no_event) bob_sends_again).2.
Definition second_lock : HashTimeLockState :=
  {| lock_amount := 2; lock_expiration := 100; lock_secrethash := secrethash_of_a_secret;
     lock_encoded := lock_as_bytes 2 100 secrethash_of_a_secret |}.
Definition second_transfer : LockedTransferSignedState := Eval vm_compute in
  transfer_message bob second_lock second_event.
Definition alice_received_twice : NettingChannelState := Eval vm_compute in
  (ok_or (alice_channel, (false, [], None)) (handle_receive_lockedtransfer alice_received second_transfer None)).1.
