(* ===== verification/Divergences.v ===== *)
(** * Where the code does not do what it means to

    Concrete runs of the model in which an assertion of the code fires although
    every step was accepted, a lock is lost, or a message is sent twice.  They are
    the reasons for the corresponding clauses of [StateTransition.admissible] and
    for the premise on secret hashes in [Reachability.channel_step]. *)

From Stdlib Require Import ZArith Lia Strings.Byte.
From stdpp Require Import base gmap list strings pretty.
From S2P Require Import Prelude Encoding MediationFee State Events ChannelViews ChannelValidation ChannelSend ChannelHandlers LockSets ChannelInvariant BalanceProofMessages LockOperations StateTransition Instances TransferTheorems ChannelSync WithdrawTheorems.

Definition negative_balance_msg : string :=
  "The balance can never be negative, that would be equivalent to a loan or a double spend.".

Definition withdraw_action (total : Z) : StateChange :=
  SCActionChannelWithdraw
    {| acw_canonical_identifier := a_canonical_identifier; acw_total_withdraw := total;
       acw_recipient_metadata := None |}.

(** The channel a transition returned. *)
Definition new_channel (r : Res (ChannelTransition * Z)) : Res NettingChannelState :=
  let* (it, _) := r in
  match it.1 with Some ch => Ok ch | None => Raise KeyError end.
Definition ok_some {A} (r : Res A) : option A := match r with Ok a => Some a | Raise _ => None end.

(** Bob withdraws all his tokens while 4 of them are locked; alice answers. *)
Definition bob_withdraws : Res (ChannelTransition * Z) :=
  state_transition bob_sent (withdraw_action 10) 20 a_block_hash 1.
Definition bob_withdrew : NettingChannelState := Eval vm_compute in ok_or bob_channel (new_channel bob_withdraws).
Definition bob_unlocked : NettingChannelState := Eval vm_compute in
  (ok_or (bob_channel, no_event) (send_unlock bob_withdrew 2 1 a_secret secrethash_of_a_secret 30 None)).1.
Definition alice_confirms : Res (ChannelTransition * Z) :=
  state_transition alice_received (SCReceiveWithdrawRequest (request_from bob 10 2 100 false)) 20 a_block_hash 1.
Definition alice_confirmed : NettingChannelState := Eval vm_compute in
  ok_or alice_channel (new_channel alice_confirms).

Definition bob_unlocked_event : Event := Eval vm_compute in
  (ok_or (bob_channel, no_event) (send_unlock bob_withdrew 2 1 a_secret secrethash_of_a_secret 30 None)).2.
Definition alice_paid_out : NettingChannelState := Eval vm_compute in
  (ok_or (alice_channel, (false, [], None))
     (handle_unlock alice_confirmed (unlock_message bob a_secret bob_unlocked_event) None)).1.

(** Alice's channel once she asked for a cooperative settlement at block 20 and
    bob deposited 5 more tokens. *)
Definition coop_then_deposit : Res (NettingChannelState * Z) :=
  run alice_channel [(coop_settle_action, 20); (deposit_log bob 15 25, 25)] 1.

(** Bob asks for a cooperative settlement; both totals are withdrawn separately
    on-chain; alice deposits 10 more and asks for one herself. *)
Definition second_coop_settle : Res (NettingChannelState * Z) :=
  run alice_channel
    [(SCReceiveWithdrawRequest (request_from bob 10 1 100 true), 20);
     (withdraw_log bob 10 30, 30); (withdraw_log alice 10 31, 31);
     (deposit_log alice 20 40, 40); (coop_settle_action, 50)] 1.

(** Withdraws are validated against the balance without the locked amount.
    Bob has 4 of his 10 tokens locked in a transfer to alice and withdraws all
    10: his own action is accepted, alice accepts his request, and both sanity
    checks pass.  When he then pays out the lock, alice accepts the unlock, and
    at both nodes the sanity check raises because his balance is -4. *)
Theorem locked_tokens_can_be_withdrawn :
  (new_channel bob_withdraws = Ok bob_withdrew /\
   get_amount_locked (ch_our_state bob_withdrew) = 4 /\
   get_balance (ch_our_state bob_withdrew) (ch_partner_state bob_withdrew) = 0 /\
   fst <$> ok_some (send_unlock bob_withdrew 2 1 a_secret secrethash_of_a_secret 30 None) = Some bob_unlocked /\
   sanity_check bob_unlocked = Raise (AssertionError negative_balance_msg)) /\
  (new_channel alice_confirms = Ok alice_confirmed /\
   get_amount_locked (ch_partner_state alice_confirmed) = 4 /\
   get_balance (ch_partner_state alice_confirmed) (ch_our_state alice_confirmed) = 0 /\
   (let* (ch, outcome) := handle_unlock alice_confirmed (unlock_message bob a_secret bob_unlocked_event) None in
    Ok (ch, outcome.1.1)) = Ok (alice_paid_out, true) /\
   sanity_check alice_paid_out = Raise (AssertionError negative_balance_msg)).
Proof.
  split; [split; [|split; [|split; [|split]]]|split; [|split; [|split; [|split]]]]; vm_compute; reflexivity.
Qed.

(** A second transfer under a secret hash that is already locked hides the first
    lock, at both nodes.  Bob locks 4 and then 2 more under the same hash; alice
    accepts both.  The 4 are still in the locksroot and in the locked amount that
    bob signed, but no longer in the locked amount of either node.  Once bob pays
    out the lock of 2, nothing is locked for alice although her pending locks
    still hold the lock of 4; and every sanity check passes. *)
Definition second_unlock_event : Event := Eval vm_compute in
  (ok_or (bob_channel, no_event) (send_unlock bob_sent_twice 3 1 a_secret secrethash_of_a_secret 30 None)).2.
Definition alice_lost_lock : NettingChannelState := Eval vm_compute in
  (ok_or (alice_channel, (false, [], None))
     (handle_unlock alice_received_twice (unlock_message bob a_secret second_unlock_event) None)).1.

Theorem second_transfer_hides_lock :
  (exists ev, bob_sends_again = Ok (bob_sent_twice, ev)) /\
  handle_receive_lockedtransfer alice_received second_transfer None
    = Ok (alice_received_twice, (true, [processed bob None 1], None)) /\
  bps_locked_amount (lts_balance_proof second_transfer) = 6 /\
  get_amount_locked (ch_our_state bob_sent_twice) = 2 /\
  get_amount_locked (ch_partner_state alice_received_twice) = 2 /\
  sanity_check bob_sent_twice = Ok tt /\ sanity_check alice_received_twice = Ok tt /\
  (exists evs, handle_unlock alice_received_twice (unlock_message bob a_secret second_unlock_event) None
               = Ok (alice_lost_lock, (true, evs, None))) /\
  es_pending_locks (ch_partner_state alice_lost_lock) = [lock_encoded bob_lock] /\
  get_amount_locked (ch_partner_state alice_lost_lock) = 0 /\
  get_lock (ch_partner_state alice_lost_lock) secrethash_of_a_secret = None /\
  sanity_check alice_lost_lock = Ok tt.
Proof. repeat (split; [first [vm_compute; reflexivity | eexists; vm_compute; reflexivity]|]). vm_compute. reflexivity. Qed.

(** A cooperative settlement can make an honest node raise.  Alice starts one
    expecting bob to withdraw 10; bob deposits 5 tokens before he answers, so he
    asks for his maximum of 15, as the code requires of him; alice's node fails
    the assertion on the expected total. *)
Theorem coop_settle_races_with_deposit :
  exists ch g cs,
    coop_then_deposit = Ok (ch, g) /\ es_initiated_coop_settle (ch_our_state ch) = Some cs /\
    get_max_withdraw_amount (ch_partner_state ch) (ch_our_state ch) = 15 /\
    state_transition ch (SCReceiveWithdrawRequest (request_from bob 15 1 (cs_expiration cs) true)) 30 a_block_hash g
    = Raise (AssertionError "The expected total withdraw of the partner doesn't match the withdraw-request").
Proof.
  do 3 eexists. split; [vm_compute; reflexivity|]. split; [vm_compute; reflexivity|].
  split; vm_compute; reflexivity.
Qed.

(** A cooperative settlement of the partner is never forgotten when its
    withdraws go through separately on-chain.  A later one of ours is accepted,
    and bob's confirmation of it makes alice's node fail the assertion that only
    one party initiated. *)
Theorem stale_coop_settle_blocks_the_next :
  exists ch g cs,
    second_coop_settle = Ok (ch, g) /\ es_initiated_coop_settle (ch_our_state ch) = Some cs /\
    es_withdraws_pending (ch_partner_state ch) = [] /\
    is_some (es_initiated_coop_settle (ch_partner_state ch)) = true /\
    state_transition ch
      (SCReceiveWithdrawConfirmation (confirmation_from bob alice 20 2 (cs_expiration cs))) 55 a_block_hash g
    = Raise (AssertionError "Only one party can initiate a coop settle").
Proof.
  do 3 eexists. split; [vm_compute; reflexivity|]. split; [vm_compute; reflexivity|].
  split; [vm_compute; reflexivity|]. split; vm_compute; reflexivity.
Qed.

(** A zero withdraw outlives the settlement that allowed it.  Bob starts a
    cooperative settlement of a channel in which alice owns nothing: her node
    records a pending withdraw of 0.  When bob's withdraw expires the settlement
    is dropped while the 0 is still pending, and the sanity check raises. *)
Theorem zero_withdraw_breaks_order :
  exists ch evs g,
    state_transition (fresh_channel alice bob 0 10)
      (SCReceiveWithdrawRequest (request_from bob 10 1 100 true)) 20 a_block_hash 1 = Ok (Some ch, evs, g) /\
    (es_withdraws_pending (ch_our_state ch)).*1 = [0] /\
    state_transition ch (SCReceiveWithdrawExpired (expired_from bob 10 2 100)) 106 a_block_hash g
    = Raise (AssertionError "total_withdraw must be ordered").
Proof. do 3 eexists. split; [vm_compute; reflexivity|]. split; vm_compute; reflexivity. Qed.

(** A rejected cooperative settlement leaves its withdraw behind.  Bob asks
    for one with a total below his maximum: alice's node reports it as invalid,
    but it has already counted the withdraw and taken the nonce, and bob's
    balance is lower from then on. *)
Theorem rejected_coop_settle_changes_the_channel :
  exists ch g reason,
    state_transition alice_channel (SCReceiveWithdrawRequest (request_from bob 5 1 100 true)) 20 a_block_hash 1
    = Ok (Some ch, [EventInvalidReceivedWithdrawRequest 5 reason], g) /\
    es_nonce (ch_partner_state ch) = es_nonce (ch_partner_state alice_channel) + 1 /\
    get_balance (ch_partner_state ch) (ch_our_state ch)
    = get_balance (ch_partner_state alice_channel) (ch_our_state alice_channel) - 5.
Proof. do 3 eexists. split; [vm_compute; reflexivity|]. split; vm_compute; reflexivity. Qed.

(** The answer to a cooperative settlement is queued twice.  Whenever the
    partner starts one that is accepted, the events are our withdraw request,
    the same request again, and the confirmation. *)
Theorem coop_settle_request_sent_twice `{Externals} {Random : Type} `{RandomGen Random} ch r block_number
    block_hash (prng : Random) :
  acceptable_withdraw_request ch r -> rwr_coop_settle r = true ->
  get_status ch = STATE_OPENED ->
  es_initiated_coop_settle (ch_our_state ch) = None ->
  rwr_total_withdraw r = get_max_withdraw_amount (ch_partner_state ch) (ch_our_state ch) ->
  es_pending_locks (ch_our_state ch) = [] -> es_pending_locks (ch_partner_state ch) = [] ->
  exists ch' m e n conf prng',
    let request := SendWithdrawRequest m (get_max_withdraw_amount (ch_our_state ch) (ch_partner_state ch))
                     (es_address (ch_our_state ch)) e n false in
    _handle_receive_withdraw_request r ch block_number block_hash prng
    = Ok (Some ch', [request; request; conf], prng').
Proof.
  intros Hacc Hflag Hst Hcoop Htotal Hno Hnp.
  destruct (aw_signature _ _ Hacc) as (s & Hs & _).
  destruct (is_valid_withdraw_request_iff ch r s Hs) as (v & Hv & Hiff).
  unfold _handle_receive_withdraw_request. rewrite Hv. cbn [bind]. unfold fail. rewrite (proj2 Hiff Hacc).
  cbn [negb]. cbv zeta. cbn [es_initiated_coop_settle ch_our_state upd_partner set_ch_partner_state].
  rewrite Hcoop, Hflag. cbn [is_some orb negb].
  match goal with |- context [get_max_withdraw_amount (ch_partner_state ?c) ?o =? _] => set (ch1 := c) end.
  change (get_max_withdraw_amount (ch_partner_state ch1) (ch_our_state ch))
    with (get_max_withdraw_amount (ch_partner_state ch) (ch_our_state ch)).
  rewrite <- Htotal, Z.eqb_refl. cbn [negb].
  unfold get_number_of_pending_transfers.
  change (es_pending_locks (ch_partner_state ch1)) with (es_pending_locks (ch_partner_state ch)).
  rewrite Hno, Hnp. cbn [length Z.of_nat Z.ltb Z.compare].
  set (ch2 := upd_partner (set_es_initiated_coop_settle _) ch1).
  destruct (send_withdraw_request_opened ch2
              (get_max_withdraw_amount (ch_our_state ch) (ch_partner_state ch1)) (rwr_expiration r) prng
              (rwr_sender_metadata r) false Hst)
    as (our & ev & g & E & _ & _ & _ & _ & _ & _ & _ & (mid & Eev)).
  cbn [cs_expiration]. rewrite E, Eev. unfold confirm_withdraw. by do 6 eexists.
Qed.
