(* ===== verification/Witnesses.v ===== *)
(** * Concrete instances of the theorems

    Every theorem with hypotheses is applied to concrete data: the channel
    between alice and bob of [Instances], seen from either side, before and
    after bob's transfer of 4 tokens. *)

From Stdlib Require Import ZArith Lia Strings.Byte Sorting.Sorted.
From stdpp Require Import base gmap list strings pretty relations.
From S2P Require Import Prelude Encoding MediationFee State Events ChannelViews ChannelValidation ChannelSend ChannelHandlers LockSets ChannelInvariant BalanceProofMessages LockOperations StateTransition Instances TransferTheorems Reachability Lifecycle ChannelTheorems ChannelSync WithdrawTheorems Divergences.

(** ** The channels of the witnesses are well formed *)

Lemma fresh_channel_opened us them a b :
  bool_decide (us = EMPTY_ADDRESS) = false -> bool_decide (them = EMPTY_ADDRESS) = false ->
  bool_decide (us = them) = false -> 0 <= a -> 0 <= b -> opened (fresh_channel us them a b).
Proof.
  intros Hus Hthem Hne Ha Hb.
  exists us, a, them, b, (fresh_end us a), (fresh_end them b), a_canonical_identifier, token,
    (replicate 20 x72), 50, 500, no_fees, {| stx_finished_block_number := 1; stx_started_block_number := None |}.
  unfold NettingChannelEndState_init, NettingChannelState_init.
  rewrite Hus, Hthem, !(proj2 (Z.ltb_ge _ _)) by done.
  split; [done|]. split; [done|]. cbn [es_address fresh_end]. by rewrite Hne.
Qed.

Lemma alice_channel_opened : opened alice_channel.
Proof. by apply fresh_channel_opened; try lia; vm_compute. Qed.
Lemma bob_channel_opened : opened bob_channel.
Proof. by apply fresh_channel_opened; try lia; vm_compute. Qed.

Lemma alice_channel_inv : channel_inv alice_channel.
Proof. apply opened_inv, alice_channel_opened. Qed.
Lemma bob_channel_inv : channel_inv bob_channel.
Proof. apply opened_inv, bob_channel_opened. Qed.

Lemma bob_sends_Ok : bob_sends = Ok (bob_sent, bob_event).
Proof. vm_compute. reflexivity. Qed.

Lemma bob_sends_effect : lock_effect true bob_channel bob_sent 0 4.
Proof.
  pose proof bob_sends_Ok as E. unfold bob_sends in E.
  eapply send_lockedtransfer_effect; [apply bob_channel_inv | | exact E]. vm_compute. reflexivity.
Qed.
Lemma bob_sent_inv : channel_inv bob_sent.
Proof. apply (le_inv _ _ _ _ _ bob_sends_effect). Qed.

Lemma bob_lock_wf : lock_wf bob_lock.
Proof.
  apply (HashTimeLockState_init_wf 4 100 secrethash_of_a_secret bob_lock). vm_compute. reflexivity.
Qed.

Lemma alice_receives_Ok :
  handle_receive_lockedtransfer alice_channel bob_transfer None
  = Ok (alice_received, (true, [processed bob None 1], None)).
Proof. vm_compute. reflexivity. Qed.

Lemma alice_received_inv : channel_inv alice_received.
Proof.
  eapply handle_receive_lockedtransfer_preserves; [apply alice_channel_inv | | | apply alice_receives_Ok].
  - apply bob_lock_wf.
  - vm_compute. reflexivity.
Qed.

Lemma bob_sent_reachable : reachable (Random := Z) bob_sent.
Proof.
  exists bob_channel. split; [apply bob_channel_opened|]. apply rtc_once.
  pose proof bob_sends_Ok as E. unfold bob_sends in E.
  eapply step_send_transfer; [|exact E]. vm_compute. reflexivity.
Qed.

(** Two ends agree when the fields [agree] is computed from are equal. *)
Lemma agree_views es es' :
  es_address es' = es_address es -> es_contract_balance es' = es_contract_balance es ->
  total_withdraw es' = total_withdraw es -> transferred_amount es' = transferred_amount es ->
  es_nonce es' = es_nonce es -> es_pending_locks es' = es_pending_locks es ->
  es_secrethashes_to_lockedlocks es' = es_secrethashes_to_lockedlocks es ->
  es_secrethashes_to_unlockedlocks es' = es_secrethashes_to_unlockedlocks es ->
  es_secrethashes_to_onchain_unlockedlocks es' = es_secrethashes_to_onchain_unlockedlocks es ->
  agree es es'.
Proof. intros ?????? Hl Hu Ho. split; try done. unfold all_locks, locked_of, unlocked_of, onchain_of. by rewrite Hl, Hu, Ho. Qed.

Lemma fresh_mirrored : mirrored bob_channel alice_channel.
Proof. split; [done | apply agree_views | apply agree_views]; reflexivity. Qed.

Lemma sent_mirrored : mirrored bob_sent alice_received.
Proof. split; [done | apply agree_views | apply agree_views]; reflexivity. Qed.

(** ** Signatures *)

(** What [signed_by] produces is signed by the address. *)
Lemma signed_by_signs address bp :
  length address = 20%nat ->
  is_Ok (sign_balance_proof toy_sign_hash address a_message_hash bp) = true ->
  signs address bp (signed_by address bp).
Proof.
  intros Hlen Hok. unfold signed_by. destruct (sign_balance_proof _ _ _ _) as [sbp|] eqn:E; [|done].
  unfold sign_balance_proof in E. apply bind_Ok_inv in E as (data & Hdata & [= <-]). split; try done.
  intros data' Hdata'. assert (Ok data' = Ok data) as [= ->] by (etransitivity; [symmetry; exact Hdata' | exact Hdata]).
  change (is_valid_signature data (toy_sign_hash address (eth_sign_sha3 data)) address = Success).
  unfold is_valid_signature, recover. cbv zeta.
  set (h := eth_sign_sha3 data). assert (Hh : length h = 32%nat) by apply keccak_length.
  unfold toy_sign_hash. change (zero_bytes 13) with (zero_bytes 12 ++ [x00]).
  rewrite !app_assoc, last_snoc. cbn [Z_of_byte]. change (27 <=? Z_of_byte x00) with false. cbv iota.
  unfold ecdsa_recover_address, toy_externals, toy_recover. rewrite <- !app_assoc, drop_app_length' by done.
  rewrite take_app_length' by done. rewrite bool_decide_true by done. rewrite take_app_length' by done.
  by rewrite bool_decide_true.
Qed.

(** ** Bob's answers *)

Definition bob_unlocks : Res (NettingChannelState * Event) :=
  send_unlock bob_sent 2 1 a_secret secrethash_of_a_secret 30 None.
Definition bob_paid : NettingChannelState := Eval vm_compute in (ok_or (bob_channel, no_event) bob_unlocks).1.
Definition bob_unlock_event : Event := Eval vm_compute in (ok_or (bob_channel, no_event) bob_unlocks).2.
Definition bob_unlock : ReceiveUnlock := Eval vm_compute in unlock_message bob a_secret bob_unlock_event.
Lemma bob_unlocks_Ok : send_unlock bob_sent 2 1 a_secret secrethash_of_a_secret 30 None = Ok (bob_paid, bob_unlock_event).
Proof. vm_compute. reflexivity. Qed.

Definition bob_expires : Res (NettingChannelState * list Event * Z) := send_lock_expired bob_sent bob_lock 1 None.
Definition bob_dropped : NettingChannelState := Eval vm_compute in (ok_or (bob_channel, [], 1) bob_expires).1.1.
Definition bob_expired_event : Event := Eval vm_compute in default no_event (head (ok_or (bob_channel, [], 1) bob_expires).1.2).
Definition bob_prng : Z := Eval vm_compute in (ok_or (bob_channel, [], 1) bob_expires).2.
Definition bob_expired : ReceiveLockExpired := Eval vm_compute in lock_expired_message bob bob_expired_event.
Lemma bob_expires_Ok : send_lock_expired bob_sent bob_lock 1 None = Ok (bob_dropped, [bob_expired_event], bob_prng).
Proof. vm_compute. reflexivity. Qed.

(** The unsigned balance proof of a sent message. *)
Definition unsigned_of (ev : Event) : option BalanceProofUnsignedState :=
  match ev with
  | SendLockedTransfer _ t => Some (ltu_balance_proof t)
  | SendUnlock _ _ _ bp _ _ => Some bp
  | SendLockExpired _ bp _ => Some bp
  | _ => None
  end.

Lemma bob_signs ev bp sbp :
  unsigned_of ev = Some bp -> is_Ok (sign_balance_proof toy_sign_hash bob a_message_hash bp) = true ->
  sbp = event_balance_proof bob ev -> signs bob bp sbp.
Proof. intros Hev Hok ->. destruct ev; cbn in *; try discriminate; injection Hev as <-; by apply signed_by_signs. Qed.

Lemma chain_id_ok : valid_chain_id a_canonical_identifier.
Proof. unfold valid_chain_id, UINT256_MAX. cbn. lia. Qed.

(** ** Two nodes *)

Lemma locked_transfer_synchronised_witness :
  mirrored bob_channel alice_channel /\
  exists b' evs, handle_receive_lockedtransfer alice_channel bob_transfer None = Ok (b', (true, evs, None)) /\
    mirrored bob_sent b' /\ channel_inv bob_sent /\ channel_inv b'.
Proof.
  split; [apply fresh_mirrored|]. pose proof bob_sends_Ok as E. unfold bob_sends, bob_event in E.
  eapply (locked_transfer_synchronised bob_channel alice_channel);
    [apply bob_channel_inv | apply alice_channel_inv | apply fresh_mirrored | reflexivity | apply chain_id_ok
    | vm_compute; reflexivity | | exact E | reflexivity | ].
  - vm_compute. reflexivity.
  - apply (bob_signs bob_event); vm_compute; reflexivity.
Defined.

Lemma unlock_synchronised_witness :
  mirrored bob_sent alice_received /\
  exists b' evs, handle_unlock alice_received bob_unlock None = Ok (b', (true, evs, None)) /\
    mirrored bob_paid b' /\ channel_inv bob_paid /\ channel_inv b' /\
    get_balance (ch_our_state b') (ch_partner_state b')
      = get_balance (ch_our_state alice_received) (ch_partner_state alice_received) + lock_amount bob_lock.
Proof.
  split; [apply sent_mirrored|].
  eapply (unlock_synchronised bob_sent alice_received);
    [apply bob_sent_inv | apply alice_received_inv | apply sent_mirrored | reflexivity | apply chain_id_ok
    | | apply bob_unlocks_Ok | reflexivity | ].
  - vm_compute. reflexivity.
  - intros msg bp Hev. apply (bob_signs bob_unlock_event); [by rewrite Hev | | vm_compute; reflexivity].
    apply (f_equal unsigned_of) in Hev. injection Hev as <-. vm_compute. reflexivity.
Defined.

Lemma lock_expired_synchronised_witness :
  mirrored bob_sent alice_received /\
  exists b' evs, handle_receive_lock_expired alice_received bob_expired 120 None = Ok (Some b', evs) /\
    mirrored bob_dropped b' /\ channel_inv bob_dropped /\ channel_inv b' /\
    get_amount_locked (ch_partner_state b')
      = get_amount_locked (ch_partner_state alice_received) - lock_amount bob_lock.
Proof.
  split; [apply sent_mirrored|].
  eapply (lock_expired_synchronised bob_sent alice_received bob_lock);
    [apply bob_sent_inv | apply alice_received_inv | apply sent_mirrored | reflexivity | apply chain_id_ok
    | | | | | apply bob_expires_Ok | reflexivity | ].
  - vm_compute. reflexivity.
  - vm_compute. reflexivity.
  - vm_compute. reflexivity.
  - vm_compute. discriminate.
  - apply (bob_signs bob_expired_event); vm_compute; reflexivity.
Defined.

(** Bob withdraws 3 of his 10 tokens at block 20. *)
Definition bob_withdraw_action : ActionChannelWithdraw :=
  {| acw_canonical_identifier := a_canonical_identifier; acw_total_withdraw := 3; acw_recipient_metadata := None |}.
Definition bob_withdraw_expiration : Z := Eval vm_compute in get_safe_initial_expiration 20 50 None.
Definition bob_requests : Res (ChannelTransition * Z) := _handle_action_withdraw bob_withdraw_action bob_channel 1 20.
Definition bob_requested : NettingChannelState := Eval vm_compute in
  default bob_channel (ok_or (None, [], 1) bob_requests).1.1.
Definition bob_request_event : Event := Eval vm_compute in default no_event (head (ok_or (None, [], 1) bob_requests).1.2).
Definition bob_request_prng : Z := Eval vm_compute in (ok_or (None, [], 1) bob_requests).2.
Definition bob_request : ReceiveWithdrawRequest := Eval vm_compute in request_from bob 3 1 bob_withdraw_expiration false.
Definition alice_confirmation : ReceiveWithdrawConfirmation := Eval vm_compute in
  confirmation_from alice bob 3 1 bob_withdraw_expiration.

Lemma bob_requests_Ok :
  _handle_action_withdraw bob_withdraw_action bob_channel 1 20 = Ok (Some bob_requested, [bob_request_event], bob_request_prng).
Proof. vm_compute. reflexivity. Qed.

Lemma bob_request_signed :
  is_valid_withdraw (rwr_canonical_identifier bob_request) (rwr_participant bob_request)
    (rwr_total_withdraw bob_request) (rwr_expiration bob_request) (rwr_signature bob_request)
    (rwr_sender bob_request) = Ok Success.
Proof. vm_compute. reflexivity. Qed.

Lemma alice_confirmation_signed :
  is_valid_withdraw (rwc_canonical_identifier alice_confirmation) (rwc_participant alice_confirmation)
    (rwc_total_withdraw alice_confirmation) (rwc_expiration alice_confirmation)
    (rwc_signature alice_confirmation) (rwc_sender alice_confirmation) = Ok Success.
Proof. vm_compute. reflexivity. Qed.

Definition alice_answers : Res (ChannelTransition * Z) :=
  _handle_receive_withdraw_request bob_request alice_channel 21 a_block_hash 1.
Definition alice_answered : NettingChannelState := Eval vm_compute in
  default alice_channel (ok_or (None, [], 1) alice_answers).1.1.
Definition alice_answer : Event := Eval vm_compute in default no_event (head (ok_or (None, [], 1) alice_answers).1.2).
Lemma alice_answers_Ok :
  _handle_receive_withdraw_request bob_request alice_channel 21 a_block_hash 1
  = Ok (Some alice_answered, [alice_answer], 1).
Proof. vm_compute. reflexivity. Qed.

Lemma withdraw_synchronised_witness :
  exists b1 ev_b a2 evs_a,
    _handle_receive_withdraw_request bob_request alice_channel 21 a_block_hash 1 = Ok (Some b1, [ev_b], 1) /\
    carries_confirmation ev_b alice alice_confirmation /\
    _handle_receive_withdraw_confirmation alice_confirmation bob_requested 22 a_block_hash = Ok (Some a2, evs_a) /\
    mirrored a2 b1 /\ total_withdraw (ch_our_state a2) = 3 /\
    ContractSendChannelWithdraw a_block_hash a_canonical_identifier 3 bob_withdraw_expiration
      (rwc_signature alice_confirmation) ∈ evs_a.
Proof.
  destruct (withdraw_synchronised bob_channel alice_channel bob_withdraw_action 1 1 20 21 22 a_block_hash a_block_hash
              bob_request alice_confirmation bob_requested bob_request_event bob_request_prng)
    as (b1 & ev_b & Eb & Hconf);
    [apply fresh_mirrored | apply bob_channel_inv | apply alice_channel_inv | reflexivity | reflexivity
    | vm_compute; reflexivity | apply bob_requests_Ok | cbn; tauto | apply bob_request_signed | ].
  assert (ev_b = alice_answer) as ->.
  { assert (Ok (Some b1, [ev_b], 1) = Ok (Some alice_answered, [alice_answer], 1)) as [= _ ->]
      by (rewrite <- Eb; apply alice_answers_Ok). done. }
  destruct Hconf as (a2 & evs_a & Ea & Hm & Ht & Hin); [cbn; tauto | apply alice_confirmation_signed | ].
  exists b1, alice_answer, a2, evs_a. split; [exact Eb|]. split; [cbn; tauto|]. split; [exact Ea|].
  split; [exact Hm|]. split; [exact Ht|]. apply Hin. vm_compute. discriminate.
Defined.

(** ** Messages received by alice *)

Definition bob_signature_check : Res SuccessOrError :=
  is_valid_balanceproof_signature (lts_balance_proof bob_transfer) bob.

Lemma bob_transfer_signed : is_valid_balanceproof_signature (lts_balance_proof bob_transfer) bob = Ok Success.
Proof. vm_compute. reflexivity. Qed.
Lemma bob_unlock_signed : is_valid_balanceproof_signature (ru_balance_proof bob_unlock) bob = Ok Success.
Proof. vm_compute. reflexivity. Qed.
Lemma bob_expired_signed : is_valid_balanceproof_signature (rle_balance_proof bob_expired) bob = Ok Success.
Proof. vm_compute. reflexivity. Qed.

Lemma second_transfer_signed : is_valid_balanceproof_signature (lts_balance_proof second_transfer) bob = Ok Success.
Proof. vm_compute. reflexivity. Qed.

Lemma second_lock_wf : lock_wf (lts_lock second_transfer).
Proof. apply (HashTimeLockState_init_wf 2 100 secrethash_of_a_secret second_lock). vm_compute. reflexivity. Qed.

Lemma alice_receives_twice_Ok :
  handle_receive_lockedtransfer alice_received second_transfer None
  = Ok (alice_received_twice, (true, [processed bob None 1], None)).
Proof. vm_compute. reflexivity. Qed.

Lemma bob_lock_new : get_lock (ch_partner_state alice_channel) (lock_secrethash (lts_lock bob_transfer)) = None.
Proof. vm_compute. reflexivity. Qed.

(** A new lock; and a second one under the same secret hash. *)
Lemma handle_receive_lockedtransfer_correct_witness :
  (lock_taken (lts_balance_proof bob_transfer) (lts_lock bob_transfer) alice_channel alice_received /\
   lock_effect false alice_channel alice_received 0 (lock_amount (lts_lock bob_transfer))) /\
  (lock_taken (lts_balance_proof second_transfer) (lts_lock second_transfer) alice_received alice_received_twice /\
   replaced_amount (ch_partner_state alice_received) (lock_secrethash (lts_lock second_transfer)) = 4).
Proof.
  split.
  - destruct (handle_receive_lockedtransfer_correct alice_channel bob_transfer None Success alice_channel_inv
                bob_lock_wf bob_transfer_signed) as (ch' & v & evs & msg & E & _ & Hacc & _).
    rewrite alice_receives_Ok in E. injection E as <- <- <- <-.
    destruct (Hacc eq_refl) as (Htaken & _ & Heff). split; [exact Htaken | apply Heff, bob_lock_new].
  - destruct (handle_receive_lockedtransfer_correct alice_received second_transfer None Success alice_received_inv
                second_lock_wf second_transfer_signed) as (ch' & v & evs & msg & E & _ & Hacc & _).
    rewrite alice_receives_twice_Ok in E. injection E as <- <- <- <-.
    destruct (Hacc eq_refl) as (Htaken & _ & _). split; [exact Htaken | vm_compute; reflexivity].
Defined.

Definition alice_unlocks : Res (NettingChannelState * (bool * list Event * option string)) :=
  handle_unlock alice_received bob_unlock None.
Definition alice_paid : NettingChannelState := Eval vm_compute in (ok_or (alice_channel, (false, [], None)) alice_unlocks).1.
Lemma alice_unlocks_Ok :
  handle_unlock alice_received bob_unlock None = Ok (alice_paid, (true, [processed bob None 2], None)).
Proof. vm_compute. reflexivity. Qed.

Lemma handle_unlock_correct_witness :
  exists lock, get_lock (ch_partner_state alice_received) secrethash_of_a_secret = Some lock /\
    lock_effect false alice_received alice_paid (lock_amount lock) (- lock_amount lock) /\
    get_lock (ch_partner_state alice_paid) secrethash_of_a_secret = None.
Proof.
  destruct (handle_unlock_correct alice_received bob_unlock None Success alice_received_inv bob_unlock_signed)
    as (ch' & v & evs & msg & E & _ & Hacc & _).
  rewrite alice_unlocks_Ok in E. injection E as <- <- <- <-. exact (Hacc eq_refl).
Defined.

Definition alice_drops : Res ChannelTransition := handle_receive_lock_expired alice_received bob_expired 120 None.
Definition alice_dropped : NettingChannelState := Eval vm_compute in default alice_channel (ok_or (None, []) alice_drops).1.
Lemma alice_drops_Ok :
  handle_receive_lock_expired alice_received bob_expired 120 None = Ok (Some alice_dropped, [processed bob None 3]).
Proof. vm_compute. reflexivity. Qed.

Lemma handle_receive_lock_expired_correct_witness :
  exists lock, unclaimed_lock (ch_partner_state alice_received) secrethash_of_a_secret = Some lock /\
    lock_effect false alice_received alice_dropped 0 (- lock_amount lock) /\
    get_lock (ch_partner_state alice_dropped) secrethash_of_a_secret = None.
Proof.
  destruct (handle_receive_lock_expired_correct alice_received bob_expired 120 None Success alice_received_inv
              bob_expired_signed) as (ch' & evs & E & [(lock & Hl & _ & Heff & Hget & _)|(_ & _ & reason & ->)]);
    rewrite alice_drops_Ok in E; [|discriminate].
  injection E as <- _. exists lock. split; [exact Hl|]. split; [exact Heff | exact Hget].
Defined.

(** The same message as the refund of a transfer with the same data. *)
Definition transfer_of (ev : Event) : option LockedTransferUnsignedState :=
  match ev with SendLockedTransfer _ t => Some t | _ => None end.
Definition bob_refund : ReceiveTransferRefund :=
  {| rtr_sender := bob; rtr_balance_proof := lts_balance_proof bob_transfer; rtr_transfer := bob_transfer |}.

Lemma handle_refundtransfer_correct_witness :
  exists received ch' evs msg,
    transfer_of bob_event = Some received /\
    handle_refundtransfer received alice_channel bob_refund = Ok (ch', (true, evs, msg)) /\
    lock_effect false alice_channel ch' 0 (lock_amount (lts_lock bob_transfer)).
Proof.
  eexists. destruct (handle_refundtransfer_correct alice_channel ltac:(let t := eval cbv in (transfer_of bob_event) in
      lazymatch t with Some ?t => exact t end) bob_refund Success alice_channel_inv
      bob_lock_wf bob_lock_new bob_transfer_signed) as (ch' & v & evs & msg & E & _ & Hacc & Hrej).
  destruct v.
  - exists ch', evs, msg. split; [reflexivity|]. split; [exact E | exact (Hacc eq_refl)].
  - exfalso. revert E. vm_compute. discriminate.
Defined.

(** ** Reachable channels *)

Lemma reachable_channel_is_sane_witness :
  reachable (Random := Z) bob_sent /\ sanity_check bob_sent = Ok tt /\
  get_distributable (ch_our_state bob_sent) (ch_partner_state bob_sent) = 6.
Proof.
  split; [apply bob_sent_reachable|]. destruct (reachable_channel_is_sane bob_sent bob_sent_reachable) as (Hs & _).
  split; [exact Hs | vm_compute; reflexivity].
Defined.

Lemma alice_received_reachable : reachable (Random := Z) alice_received.
Proof.
  exists alice_channel. split; [apply alice_channel_opened|]. apply rtc_once.
  eapply (step_receive_transfer _ _ bob_transfer); [exact bob_lock_wf | apply bob_lock_new | apply alice_receives_Ok].
Qed.

(** Of the 6 tokens that bob's second balance proof locks, 2 are left. *)
Lemma pending_locks_account_for_locked_amount_witness :
  sum_Z (pending_amounts (es_pending_locks (ch_partner_state alice_received))) = 4 /\
  get_amount_locked (ch_partner_state alice_received_twice) = 2 /\
  sum_Z (pending_amounts (es_pending_locks (ch_partner_state alice_received_twice))) = 6.
Proof.
  destruct (pending_locks_account_for_locked_amount alice_received alice_received_reachable) as [Hall Hnext].
  destruct (Hall false) as [Hs _].
  destruct (Hnext second_transfer None _ _ _ second_lock_wf alice_receives_twice_Ok) as [_ [Hs2 _]].
  split; [etransitivity; [exact Hs | vm_compute; reflexivity]|]. split; [vm_compute; reflexivity|].
  etransitivity; [exact Hs2 | vm_compute; reflexivity].
Defined.

(** An admissible withdraw action. *)
Lemma state_transition_total_witness :
  exists ch' evs prng',
    state_transition bob_sent (SCActionChannelWithdraw bob_withdraw_action) 20 a_block_hash 1
      = Ok (Some ch', evs, prng') /\ channel_inv ch'.
Proof.
  destruct (state_transition_total bob_sent (SCActionChannelWithdraw bob_withdraw_action) 20 a_block_hash 1)
    as ([ch'|] & evs & prng' & E & Hinv).
  - apply bob_sent_inv.
  - vm_compute. discriminate.
  - exists ch', evs, prng'. split; [exact E | exact Hinv].
  - exfalso. revert E. vm_compute. discriminate.
Defined.

Lemma usable_channel_can_send_witness :
  exists ch' ev,
    send_lockedtransfer bob_channel bob alice 4 1 1 100 None secrethash_of_a_secret [] None None = Ok (ch', ev) /\
    lock_effect true bob_channel ch' 0 4.
Proof.
  destruct (usable_channel_can_send bob_channel bob alice 4 1 1 100 None secrethash_of_a_secret [] None None None)
    as (ch' & ev & E & Heff & _).
  - apply bob_channel_inv.
  - vm_compute. reflexivity.
  - lia.
  - unfold UINT256_MAX. lia.
  - reflexivity.
  - vm_compute. reflexivity.
  - unfold UINT64_MAX. cbn. lia.
  - vm_compute. reflexivity.
  - vm_compute. discriminate.
  - exists ch', ev. split; [exact E | exact Heff].
Defined.

Lemma pending_lock_can_be_resolved_witness :
  (exists ch' ev, send_unlock bob_sent 2 1 a_secret secrethash_of_a_secret 30 None = Ok (ch', ev) /\
     lock_effect true bob_sent ch' 4 (-4)) /\
  (exists ch' ev prng', send_lock_expired bob_sent bob_lock 1 None = Ok (ch', [ev], prng') /\
     lock_effect true bob_sent ch' 0 (-4)).
Proof.
  destruct (pending_lock_can_be_resolved (Random := Z) bob_sent bob_lock) as [Hun Hex].
  - apply bob_sent_inv.
  - vm_compute. reflexivity.
  - vm_compute. reflexivity.
  - vm_compute. split; [discriminate | reflexivity].
  - vm_compute. reflexivity.
  - split; [apply (Hun 2 1 a_secret 30 None); reflexivity | apply (Hex 1 None); vm_compute; reflexivity].
Defined.

(** ** Secrets *)

Lemma alice_holds_lock :
  es_secrethashes_to_lockedlocks (ch_partner_state alice_received) !! secrethash_of_a_secret = Some bob_lock.
Proof. vm_compute. reflexivity. Qed.

Lemma register_offchain_secret_correct_witness :
  let ch' := register_offchain_secret a_secret secrethash_of_a_secret alice_received in
  channel_inv ch' /\ get_secret (ch_partner_state ch') secrethash_of_a_secret = Some a_secret /\
  is_lock_locked (ch_partner_state ch') secrethash_of_a_secret = false /\
  get_lock (ch_partner_state ch') secrethash_of_a_secret = Some bob_lock.
Proof.
  destruct (register_offchain_secret_correct alice_received a_secret secrethash_of_a_secret bob_lock
              alice_received_inv alice_holds_lock) as (Hinv & Hs & Hl & Hg & _).
  split; [exact Hinv|]. split; [exact Hs|]. split; [exact Hl | exact Hg].
Defined.

(** A reveal at block 90, before the lock's expiration at block 100. *)
Lemma register_onchain_secret_correct_witness :
  exists ch',
    register_onchain_secret a_secret secrethash_of_a_secret 90 true alice_received = Ok ch' /\
    is_secret_known_onchain (ch_partner_state ch') secrethash_of_a_secret = true /\
    forall b threshold, ok (is_lock_expired (ch_partner_state ch') bob_lock b threshold) = false.
Proof.
  destruct (register_onchain_secret_correct alice_received a_secret secrethash_of_a_secret 90 bob_lock
              alice_received_inv) as (ch' & E & _ & _ & _ & Hin).
  - vm_compute. reflexivity.
  - exists ch'. split; [exact E|]. destruct Hin as (Hk & _ & Hx). split; [exact Hk | exact Hx].
Defined.

(** ** Withdraws *)

Lemma handle_action_withdraw_correct_witness :
  total_withdraw (ch_our_state bob_requested) = 3 /\
  get_balance (ch_our_state bob_requested) (ch_partner_state bob_requested)
    = get_balance (ch_our_state bob_channel) (ch_partner_state bob_channel) - 3.
Proof.
  destruct (handle_action_withdraw_correct bob_channel bob_withdraw_action 1 20 (ci_our_withdraws _ bob_channel_inv))
    as (ch' & evs & g & E & [(_ & _ & _ & _ & Ht & Hb & _)|(_ & _ & _ & reason & ->)]);
    rewrite bob_requests_Ok in E; [|discriminate].
  injection E as <- _ _. split; [exact Ht | rewrite Hb; vm_compute; reflexivity].
Defined.

Lemma handle_receive_withdraw_request_correct_witness :
  total_withdraw (ch_partner_state alice_answered) = 3 /\ es_nonce (ch_our_state alice_answered) = 1 /\
  exists m, alice_answer = SendWithdrawConfirmation m 3 bob bob_withdraw_expiration 1.
Proof.
  destruct (handle_receive_withdraw_request_correct alice_channel bob_request 21 a_block_hash 1 Success
              (ci_partner_withdraws _ alice_channel_inv) eq_refl eq_refl bob_request_signed)
    as (ch' & evs & E & [(_ & Ht & _ & Hn & _ & m & _ & _ & Hev)|(_ & _ & reason & ->)]);
    rewrite alice_answers_Ok in E; [|discriminate].
  assert (evs = [alice_answer] /\ ch' = alice_answered) as [-> ->] by (split; congruence).
  split; [exact Ht|]. split; [exact Hn|]. exists m. exact (f_equal (fun l => default no_event (head l)) Hev).
Defined.

(** Bob's withdraw of block 20 expires. *)
Lemma bob_requested_inv : channel_inv bob_requested.
Proof.
  destruct (state_transition_preserves bob_channel (SCActionChannelWithdraw bob_withdraw_action) 20 a_block_hash 1
              bob_channel_inv) as (c & evs & g & E & Hc).
  - vm_compute. discriminate.
  - assert (new_channel (state_transition bob_channel (SCActionChannelWithdraw bob_withdraw_action) 20 a_block_hash 1)
            = Ok bob_requested) as Er by (vm_compute; reflexivity).
    rewrite E in Er. destruct c as [c|]; [|discriminate]. injection Er as <-. by apply Hc.
Qed.

Lemma events_for_expired_withdraws_correct_witness :
  exists our evs g,
    events_for_expired_withdraws bob_requested 200 1 = Ok (set_ch_our_state our bob_requested, evs, g) /\
    length evs = 1%nat /\ es_nonce our = es_nonce (ch_our_state bob_requested) + 1.
Proof.
  destruct (events_for_expired_withdraws_correct bob_requested 200 1 (ci_our_withdraws _ bob_requested_inv))
    as (our & evs & g & E & _ & _ & _ & _ & Hn & Hl & _).
  exists our, evs, g. split; [exact E|]. split; [exact Hl | exact Hn].
Defined.

Lemma coop_settle_request_sent_twice_witness :
  exists ch' m e n conf prng',
    let request := SendWithdrawRequest m 10 alice e n false in
    _handle_receive_withdraw_request (request_from bob 10 1 100 true) alice_channel 20 a_block_hash 1
    = Ok (Some ch', [request; request; conf], prng').
Proof.
  apply (coop_settle_request_sent_twice alice_channel (request_from bob 10 1 100 true) 20 a_block_hash 1);
    [|reflexivity..].
  split; try reflexivity; try (vm_compute; discriminate).
  exists Success. split; vm_compute; reflexivity.
Defined.

(** ** The life cycle *)

(** Alice closes the channel in block 30; bob's node answers. *)
Definition close_log (from : bytes) : ContractReceiveChannelClosed :=
  {| crcc_contract := a_log 30; crcc_transaction_from := from; crcc_canonical_identifier := a_canonical_identifier |}.
Definition alice_closed : NettingChannelState := Eval vm_compute in
  ok_or alice_channel (new_channel (state_transition alice_received (SCContractReceiveChannelClosed (close_log bob)) 30 a_block_hash 1)).

Lemma alice_closed_Ok :
  new_channel (state_transition alice_received (SCContractReceiveChannelClosed (close_log bob)) 30 a_block_hash 1)
  = Ok alice_closed.
Proof. vm_compute. reflexivity. Qed.

Lemma alice_closed_inv : channel_inv alice_closed.
Proof.
  destruct (state_transition_preserves alice_received (SCContractReceiveChannelClosed (close_log bob)) 30 a_block_hash 1
              alice_received_inv) as (c & evs & g & E & Hc).
  - vm_compute. discriminate.
  - pose proof alice_closed_Ok as Er. rewrite E in Er. destruct c as [c|]; [|discriminate].
    injection Er as <-. by apply Hc.
Qed.

(** Bob closed: alice's node answers with his balance proof. *)
Lemma handle_channel_closed_spec_witness :
  exists ch' evs bp,
    _handle_channel_closed (close_log bob) alice_received = Ok (Some ch', evs) /\ get_status ch' = STATE_CLOSED /\
    es_balance_proof (ch_partner_state alice_received) = Some (BPSigned bp) /\
    evs = [ContractSendChannelUpdateTransfer a_block_hash 530 bp].
Proof.
  destruct (handle_channel_closed_spec alice_received (close_log bob)) as (ch' & evs & E & Hst & _ & _ & Hev).
  - apply alice_received_inv.
  - vm_compute. apply list_elem_of_here.
  - reflexivity.
  - exists ch', evs, (lts_balance_proof bob_transfer). split; [exact E|]. split; [exact Hst|]. split; [reflexivity|].
    exact (proj1 Hev).
Defined.

Definition a_block (n : Z) : Block :=
  {| block_block_number := n; block_gas_limit := 0; block_block_hash := a_block_hash |}.

(** The settlement window of 500 blocks after block 30 has passed at block 531. *)
Lemma handle_block_closed_witness :
  exists ch',
    _handle_block (a_block 531) alice_closed 531 1
      = Ok (Some ch', [ContractSendChannelSettle a_block_hash a_canonical_identifier], 1) /\
    get_status ch' = STATE_SETTLING.
Proof.
  destruct (handle_block_closed alice_closed (a_block 531) 531 1 alice_closed_inv) as (t & closed & Et & Ef & Hrun);
    [reflexivity | reflexivity |].
  injection Et as <-. injection Ef as <-. destruct Hrun as (ch' & E & Hst & _). exists ch'. split; [exact E | exact Hst].
Defined.

Lemma state_transition_status_monotone_witness :
  get_status alice_received = STATE_OPENED /\ get_status alice_closed = STATE_CLOSED /\
  status_rank (get_status alice_received) <= status_rank (get_status alice_closed).
Proof.
  split; [vm_compute; reflexivity|]. split; [vm_compute; reflexivity|].
  destruct (state_transition alice_received (SCContractReceiveChannelClosed (close_log bob)) 30 a_block_hash 1)
    as [[[[c|] evs] g]|] eqn:E;
    pose proof alice_closed_Ok as Er; rewrite E in Er; [|discriminate..].
  injection Er as <-. exact (state_transition_status_monotone _ _ _ _ _ _ _ _ E).
Defined.

(** Both ends still have locks when the settlement is mined. *)
Definition settle_log : ContractReceiveChannelSettled :=
  {| crcs_contract := a_log 540; crcs_canonical_identifier := a_canonical_identifier;
     crcs_our_onchain_locksroot := a_secrethash; crcs_our_transferred_amount := 0;
     crcs_partner_onchain_locksroot := a_block_hash; crcs_partner_transferred_amount := 0 |}.
Definition unlock_log (sender receiver locksroot : bytes) : ContractReceiveChannelBatchUnlock :=
  {| crbu_contract := a_log 550; crbu_canonical_identifier := a_canonical_identifier; crbu_receiver := receiver;
     crbu_sender := sender; crbu_locksroot := locksroot; crbu_unlocked_amount := 0; crbu_returned_tokens := 0 |}.

Definition settle_log_one_side : ContractReceiveChannelSettled :=
  {| crcs_contract := a_log 540; crcs_canonical_identifier := a_canonical_identifier;
     crcs_our_onchain_locksroot := LOCKSROOT_OF_NO_LOCKS; crcs_our_transferred_amount := 0;
     crcs_partner_onchain_locksroot := a_block_hash; crcs_partner_transferred_amount := 0 |}.

(** Locks at both ends, then at bob's end only. *)
Lemma settled_channel_removed_after_unlocks_witness :
  (exists ch1 ch2,
    _handle_channel_settled settle_log alice_closed
    = Ok (Some ch1, [ContractSendChannelBatchUnlock a_block_hash a_canonical_identifier bob]) /\
    _handle_channel_batch_unlock (unlock_log bob alice a_block_hash) ch1 = (Some ch2, []) /\
    _handle_channel_batch_unlock (unlock_log alice bob a_secrethash) ch2 = (None, [])) /\
  (exists ch1,
    _handle_channel_settled settle_log_one_side alice_closed
    = Ok (Some ch1, [ContractSendChannelBatchUnlock a_block_hash a_canonical_identifier bob]) /\
    _handle_channel_batch_unlock (unlock_log bob alice a_block_hash) ch1 = (None, [])).
Proof.
  split.
  - destruct (settled_channel_removed_after_unlocks alice_closed settle_log false (unlock_log bob alice a_block_hash))
      as (ch1 & E & _ & _ & _ & Hkept); [reflexivity | intros t [=] | vm_compute; intros [? _]; discriminate | discriminate | reflexivity |].
    destruct Hkept as (ch2 & E1 & _ & _ & _ & E2); [vm_compute; discriminate|].
    exists ch1, ch2. split; [exact E|]. split; [exact E1 | by apply E2].
  - destruct (settled_channel_removed_after_unlocks alice_closed settle_log_one_side false
                (unlock_log bob alice a_block_hash)) as (ch1 & E & _ & _ & Hgone & _);
      [reflexivity | intros t [=] | vm_compute; intros [_ ?]; discriminate | discriminate | reflexivity |].
    exists ch1. split; [exact E | by apply Hgone].
Defined.

(** Alice's total of 15 and bob's of 20, in both orders. *)
Definition after_deposit (a : ContractReceiveChannelDeposit) (ch : NettingChannelState) : NettingChannelState :=
  default ch (ok_or (None, []) (_handle_channel_deposit a ch)).1.

Lemma deposits_commute_witness :
  let a1 := deposit_receipt alice 15 25 in
  let a2 := deposit_receipt bob 20 26 in
  after_deposit a2 (after_deposit a1 alice_channel) = after_deposit a1 (after_deposit a2 alice_channel) /\
  our_total_deposit (after_deposit a2 (after_deposit a1 alice_channel)) = 15.
Proof.
  intros a1 a2.
  destruct (deposits_commute alice_channel a1 a2 (after_deposit a1 alice_channel)
              (after_deposit a2 (after_deposit a1 alice_channel)) (after_deposit a2 alice_channel)
              (after_deposit a1 (after_deposit a2 alice_channel)) [] [] [] []) as (E & Ho & _);
    [reflexivity | vm_compute; reflexivity..|].
  split; [exact E | rewrite Ho; vm_compute; reflexivity].
Defined.
