(* ===== verification/TaskWitnesses.v ===== *)
(** * Concrete instances for the payment tasks

    Alice as the target of bob's transfer, and as a mediator who forwards it to
    carol, at which the theorems about the tasks are applied. *)

From Stdlib Require Import ZArith Lia QArith Strings.Byte.
From stdpp Require Import base functions gmap list strings pretty.
From S2P Require Import Prelude Encoding MediationFee MediationFeeTheorems State Events ChannelViews ChannelValidation ChannelSend ChannelHandlers TaskState Target World Mediator ForwardingFees LockSets ChannelInvariant BalanceProofMessages LockOperations StateTransition Instances TransferTheorems Reachability ChannelFrame SecretRegistration TargetTheorems WorldLogic MediatorInvariant MediatorPhases MediatorForwarding MediatorTheorems Witnesses.

Open Scope Z_scope.

(** ** Alice receives bob's payment *)

Definition from_bob : HopState := {| hop_node_address := bob; hop_channel_identifier := 7 |}.

Definition bob_init : ActionInitTarget :=
  {| ait_sender := bob; ait_balance_proof := lts_balance_proof bob_transfer; ait_from_hop := from_bob;
     ait_transfer := bob_transfer; ait_received_valid_secret := false |}.

Definition alice_task : TargetTransferState := TargetTransferState_init from_bob bob_transfer.

Lemma alice_pending : get_lock (ch_partner_state alice_received) (tts_secrethash alice_task) = Some bob_lock.
Proof. vm_compute. reflexivity. Qed.

Lemma alice_task_inv : target_inv (Some alice_task) alice_received.
Proof.
  split; [apply alice_received_inv|]. split; [apply alice_pending | |].
  - split; [done|]. intros Hin. exfalso. revert Hin. apply not_elem_of_cons. split; [done|].
    apply not_elem_of_cons. split; [done | apply not_elem_of_nil].
  - intros s Hs. exfalso. assert (E : get_secret (ch_partner_state alice_received) (tts_secrethash alice_task) = None)
      by (vm_compute; reflexivity). rewrite E in Hs. discriminate.
Qed.

Lemma bob_transfer_encodable : encodable (lts_balance_proof bob_transfer) alice_channel.
Proof. exists Success. exact bob_transfer_signed. Qed.

Lemma alice_timed ch b : ch_reveal_timeout ch = 50 -> 0 < b -> timed (lts_lock bob_transfer) ch b.
Proof. intros Hr Hb. split; [done|]. rewrite Hr. cbn. lia. Qed.

Lemma alice_admits_init : target_admissible None alice_channel (SCActionInitTarget bob_init) 10.
Proof.
  split; [reflexivity|]. split; [exact bob_lock_wf|]. split; [exact bob_lock_new|].
  split; [exact bob_transfer_encodable | by apply alice_timed].
Qed.

Lemma alice_untasked : target_inv None alice_channel.
Proof. split; [exact alice_channel_inv | done]. Qed.

Lemma target_state_transition_total_witness :
  exists ts evs ch g, target.state_transition None (SCActionInitTarget bob_init) alice_channel 1 10 = Ok (ts, evs, ch, g) /\
    target_inv ts ch.
Proof. exact (target_state_transition_total None alice_channel _ 1 10 alice_untasked alice_admits_init). Defined.

Lemma target_init_correct_witness :
  exists ts evs ch g, target.state_transition None (SCActionInitTarget bob_init) alice_channel 1 10 = Ok (ts, evs, ch, g) /\
    is_some ts = true /\ lock_effect false alice_channel ch 0 4 /\
    exists msg pid amount expiration h, SendSecretRequest msg pid amount expiration h ∈ evs.
Proof.
  destruct (target_init_correct bob_init alice_channel 1 10 alice_untasked alice_admits_init)
    as (ts & evs & ch & g & E & Hts & Heff & Hreq & _).
  assert (Hsome : is_some ts = true).
  { assert (Hrun : match target.state_transition None (SCActionInitTarget bob_init) alice_channel 1 10 with
                   | Ok r => is_some r.1.1.1 | Raise _ => false end = true) by (vm_compute; reflexivity).
    rewrite E in Hrun. exact Hrun. }
  exists ts, evs, ch, g. split; [exact E|]. split; [exact Hsome|]. split; [exact (Heff Hsome)|].
  apply Hreq. split; [by apply Hts|]. split; [reflexivity|]. cbn. lia.
Defined.

Lemma bob_unlock_acceptable :
  acceptable_unlock (ru_balance_proof bob_unlock) bob_lock alice_received (ch_partner_state alice_received).
Proof.
  destruct (handle_unlock_inv _ _ _ _ _ _ _ alice_received_inv alice_unlocks_Ok) as [(_ & l & [Hl Hacc] & _)|(? & _)];
    [|discriminate].
  assert (E : get_lock (ch_partner_state alice_received) (ru_secrethash bob_unlock) = Some bob_lock)
    by (vm_compute; reflexivity).
  rewrite E in Hl. injection Hl as <-. exact Hacc.
Qed.

Lemma target_payment_received_iff_unlocked_witness :
  exists evs ch, target.state_transition (Some alice_task) (SCReceiveUnlock bob_unlock) alice_received 1 30
      = Ok (None, evs, ch, 1) /\
    (exists registry network pid amount initiator,
       EventPaymentReceivedSuccess registry network pid amount initiator ∈ evs) /\
    lock_effect false alice_received ch 4 (- 4).
Proof.
  destruct (target_payment_received_iff_unlocked alice_task alice_received bob_unlock 1 30 alice_task_inv)
    as (ts & evs & ch & E & Hev & Hpaid & _).
  { split; [vm_compute; reflexivity|]. exists Success. exact bob_unlock_signed. }
  destruct (Hpaid bob_unlock_acceptable) as [-> Heff]. exists evs, ch. split; [exact E|].
  split; [exact (proj2 Hev bob_unlock_acceptable) | exact Heff].
Defined.

(** After bob's reveal. *)
Definition alice_learned : NettingChannelState :=
  register_offchain_secret a_secret secrethash_of_a_secret alice_received.
Definition alice_learned_task (st : TargetState) : TargetTransferState :=
  set_tts_secret (Some a_secret) (set_tts_state st alice_task).

Lemma alice_learned_task_inv st : target_task (alice_learned_task st) alice_learned.
Proof.
  destruct alice_task_inv as [Hinv Htask].
  assert (Hreg := register_offchain_secret_registered a_secret secrethash_of_a_secret alice_received Hinv).
  refine (proj2 (target_inv_registered alice_task alice_received alice_learned a_secret secrethash_of_a_secret st
    Htask Hreg _ _ _)); [vm_compute; reflexivity | vm_compute; reflexivity | discriminate].
Qed.

Lemma alice_learned_known :
  is_secret_known_offchain (ch_partner_state alice_learned) (tts_secrethash (alice_learned_task OFFCHAIN_SECRET_REVEAL)) = true.
Proof. vm_compute. reflexivity. Qed.

Lemma alice_learned_open : get_status alice_learned ∈ CHANNEL_STATES_UP_TO_CLOSED.
Proof. apply (proj1 (bool_decide_eq_true _)). vm_compute. reflexivity. Qed.

Lemma target_registers_secret_in_time_witness :
  exists ts' secret,
    target.handle_block (alice_learned_task OFFCHAIN_SECRET_REVEAL) alice_learned 60 a_block_hash
      = Ok (ts', [ContractSendSecretReveal a_block_hash 100 secret]) /\
    sha256_secrethash secret = secrethash_of_a_secret.
Proof.
  assert (Hx := target_registers_secret_in_time (alice_learned_task OFFCHAIN_SECRET_REVEAL) alice_learned 60 a_block_hash
    (alice_learned_task_inv _) (alice_timed alice_learned 60 eq_refl eq_refl) eq_refl alice_learned_known eq_refl
    alice_learned_open).
  change (ch_reveal_timeout alice_learned <? lock_expiration (lts_lock bob_transfer) - 60) with false in Hx.
  destruct Hx as (ts' & secret & E & Hs & _). exists ts', secret. split; [exact E | exact Hs].
Defined.

Lemma revealed_secret_hashes sender secret :
  rsr_secrethash (ReceiveSecretReveal_init sender secret) = sha256_secrethash (rsr_secret (ReceiveSecretReveal_init sender secret)).
Proof. reflexivity. Qed.

Lemma target_state_typed_witness :
  exists ts evs ch g,
    target.state_transition (Some alice_task) (SCReceiveSecretReveal (ReceiveSecretReveal_init bob a_secret))
      alice_received 1 20 = Ok (Some ts, evs, ch, g) /\ target_typed ts /\ tts_secret ts = Some a_secret.
Proof.
  destruct (target.state_transition (Some alice_task) (SCReceiveSecretReveal (ReceiveSecretReveal_init bob a_secret))
      alice_received 1 20) as [[[[[ts|] evs] ch] g]|] eqn:E; [|exfalso..].
  - exists ts, evs, ch, g. split; [reflexivity|]. split.
    + exact (proj1 (target_state_typed alice_task ts alice_received ch
        (SCReceiveSecretReveal (ReceiveSecretReveal_init bob a_secret)) evs 1 g 20 (tt_typed _ _ (proj2 alice_task_inv)) (revealed_secret_hashes bob a_secret) E)).
    + assert (Hrun : match target.state_transition (Some alice_task)
        (SCReceiveSecretReveal (ReceiveSecretReveal_init bob a_secret)) alice_received 1 20 with
        | Ok (Some ts, _, _, _) => tts_secret ts | _ => None end = Some a_secret) by (vm_compute; reflexivity).
      rewrite E in Hrun. exact Hrun.
  - apply (f_equal (fun r => match r with Ok (Some _, _, _, _) => true | _ => false end)) in E.
    vm_compute in E. discriminate.
  - apply (f_equal (fun r => match r with Ok (Some _, _, _, _) => true | _ => false end)) in E.
    vm_compute in E. discriminate.
Defined.

(** ** Fees *)

(** A channel of alice with carol, in the same token network. *)
Definition carol : bytes := replicate 20 x63.
Definition carol_channel : NettingChannelState :=
  let ch := fresh_channel alice carol 10 10 in
  {| ch_canonical_identifier :=
       {| ci_chain_identifier := 1; ci_token_network_address := replicate 20 x6e; ci_channel_identifier := 8 |};
     ch_token_address := ch_token_address ch;
     ch_token_network_registry_address := ch_token_network_registry_address ch;
     ch_reveal_timeout := ch_reveal_timeout ch; ch_settle_timeout := ch_settle_timeout ch;
     ch_fee_schedule := ch_fee_schedule ch; ch_our_state := ch_our_state ch; ch_partner_state := ch_partner_state ch;
     ch_open_transaction := ch_open_transaction ch; ch_close_transaction := None; ch_settle_transaction := None;
     ch_update_transaction := None |}.

Lemma get_amount_without_fees_correct_witness :
  get_amount_without_fees 4 alice_channel carol_channel = Ok (Some 4).
Proof.
  etransitivity; [apply (get_amount_without_fees_correct 4 alice_channel carol_channel); try reflexivity;
                  try (vm_compute; discriminate); vm_compute; split; discriminate|].
  vm_compute. reflexivity.
Defined.

(** A fee of one in five, as a function of the forwarded amount. *)
Definition a_fee_line : Interpolate :=
  ok_or {| ip_slopes := []; ip_x_list := []; ip_y_list := [] |} (Interpolate_init [0; 5; 10]%Q [0; 1; 2]%Q).

Lemma a_fee_line_interpolates : interpolates a_fee_line [0; 5; 10]%Q [0; 1; 2]%Q.
Proof. apply Interpolate_init_interpolates; [vm_compute; reflexivity | reflexivity]. Qed.

Lemma find_intersection_correct_witness :
  exists x y, find_intersection a_fee_line (amount_line 6 a_fee_line) = Ok (Some x) /\ (0 <= x <= 10)%Q /\
    Interpolate_call a_fee_line x = Ok y /\ (x + y == 6)%Q.
Proof.
  destruct (find_intersection_correct a_fee_line [0; 5; 10]%Q [0; 1; 2]%Q 6 0 10 0 2) as (r & E & Hr);
    [apply a_fee_line_interpolates | reflexivity.. | left; intros Heq; vm_compute in Heq; discriminate |].
  destruct r as [x|].
  - destruct Hr as (Hx & y & Ey & Hy). by exists x, y.
  - exfalso. vm_compute in E. discriminate.
Defined.

(** ** Alice mediates bob's payment to carol *)

Definition a_route : RouteState :=
  {| rs_route := [bob; alice; carol]; rs_address_to_metadata := ∅; rs_swaps := ∅; rs_estimated_fee := 0 |}.

Definition bob_mediated : LockedTransferSignedState :=
  {| lts_payment_identifier := lts_payment_identifier bob_transfer; lts_token := lts_token bob_transfer;
     lts_lock := bob_lock; lts_initiator := bob; lts_target := carol; lts_message_identifier := 1;
     lts_route_states := [a_route]; lts_balance_proof := lts_balance_proof bob_transfer; lts_metadata := None;
     lts_secret := None |}.

Definition alice_channels : ChannelMap := {[ 7 := 1%positive; 8 := 2%positive ]}.
Definition alice_addresses : AddressMap :=
  {[ (replicate 20 x6e, bob) := 1%positive; (replicate 20 x6e, carol) := 2%positive ]}.

Definition alice_heap : Heap := fun l => if (l =? 1)%positive then alice_channel else carol_channel.
Definition alice_world : World Z := {| w_heap := alice_heap; w_prng := 1 |}.

Definition mediation_init : ActionInitMediator :=
  {| aim_sender := bob; aim_balance_proof := lts_balance_proof bob_transfer; aim_from_hop := from_bob;
     aim_candidate_route_states := [a_route]; aim_from_transfer := bob_mediated |}.

Lemma carol_channel_inv : channel_inv carol_channel.
Proof.
  apply opened_inv.
  exists alice, 10, carol, 10, (fresh_end alice 10), (fresh_end carol 10), (ch_canonical_identifier carol_channel), token,
    (replicate 20 x72), 50, 500, no_fees, {| stx_finished_block_number := 1; stx_started_block_number := None |}.
  split; [reflexivity|]. split; reflexivity.
Qed.

Lemma alice_heap_inv l : channel_inv (w_heap alice_world l).
Proof. cbn. unfold alice_heap. destruct (_ =? _)%positive; [apply alice_channel_inv | apply carol_channel_inv]. Qed.

Lemma alice_forwardable payer : forwardable alice_heap alice_addresses [a_route] [] payer bob_mediated.
Proof.
  split.
  - intros route ->%list_elem_of_singleton. apply lookup_empty.
  - intros hop l _ _. unfold alice_heap. destruct (_ =? _)%positive; split; vm_compute; reflexivity.
Qed.

Lemma alice_admits_mediation :
  mediator_admissible (w_heap alice_world) alice_channels alice_addresses None (SCActionInitMediator mediation_init).
Proof.
  intros payer _. split; [exact bob_lock_wf|]. split; [|apply alice_forwardable].
  cbn. unfold alice_heap. destruct (_ =? _)%positive; vm_compute; reflexivity.
Qed.

(** The first transition: the transfer is forwarded. *)
Definition mediation_started : Res (option MediatorTransferState * list Event * World Z) :=
  mediator.dispatch None (SCActionInitMediator mediation_init) alice_channels alice_addresses 10 a_block_hash alice_world.

Definition started_state : option MediatorTransferState := (ok_or (None, [], alice_world) mediation_started).1.1.
Definition started_events : list Event := (ok_or (None, [], alice_world) mediation_started).1.2.
Definition started_world : World Z := (ok_or (None, [], alice_world) mediation_started).2.

Lemma mediation_started_Ok : mediation_started = Ok (started_state, started_events, started_world).
Proof.
  unfold started_state, started_events, started_world. destruct mediation_started as [[[st evs] w]|] eqn:E; [done|].
  exfalso. apply (f_equal is_Ok) in E. vm_compute in E. discriminate.
Qed.

Lemma started_task :
  mediator_task started_state /\ forall l, channel_inv (w_heap started_world l).
Proof.
  pose proof mediation_started_Ok as E. unfold mediation_started in E.
  destruct (dispatched alice_channels alice_addresses None (SCActionInitMediator mediation_init) 10
    a_block_hash alice_world started_world started_state started_events alice_heap_inv I alice_admits_mediation E)
    as (Hw & Hst & _).
  split; [|intros l; apply Hw]. destruct Hst as [Hst|(? & ? & ? & [=] & _)]. exact Hst.
Qed.

(** The second: carol reveals the secret, so bob is told and carol is paid. *)
Definition carol_reveals : StateChange := SCReceiveSecretReveal (ReceiveSecretReveal_init carol a_secret).

Definition mediation_learned : Res (option MediatorTransferState * list Event * World Z) :=
  mediator.state_transition started_state carol_reveals alice_channels alice_addresses 20 a_block_hash started_world.

Lemma mediation_learned_Ok :
  exists o evs w, mediation_learned = Ok (o, evs, w) /\
    map (fun e => match e with SendSecretReveal _ _ _ => 1 | SendUnlock _ _ _ _ _ _ => 2 | _ => 3 end) evs = [1; 2; 3].
Proof.
  destruct mediation_learned as [[[o evs] w]|] eqn:E.
  - exists o, evs, w. split; [reflexivity|].
    assert (Hrun : match mediation_learned with
      | Ok (_, evs, _) => map (fun e => match e with SendSecretReveal _ _ _ => 1 | SendUnlock _ _ _ _ _ _ => 2 | _ => 3 end) evs
      | Raise _ => [] end = [1; 2; 3]) by (vm_compute; reflexivity).
    rewrite E in Hrun. exact Hrun.
  - exfalso. apply (f_equal is_Ok) in E. vm_compute in E. discriminate.
Qed.

Lemma carol_reveals_admissible :
  mediator_admissible (w_heap started_world) alice_channels alice_addresses started_state carol_reveals.
Proof. exact (revealed_secret_hashes carol a_secret). Qed.

(** Carol, who reveals the secret, is the payee of the unlock. *)
Lemma mediator_events_safe_witness :
  exists before o evs w, started_state = Some before /\ mediation_learned = Ok (o, evs, w) /\ length evs = 3%nat /\
    Forall (safe_event (w_heap started_world) alice_channels 20 (Some carol) before) evs.
Proof.
  destruct mediation_learned_Ok as (o & evs & w & E & Hevs).
  assert (Hs : exists before, started_state = Some before) by (eexists; vm_compute; reflexivity).
  destruct Hs as [before Hs]. exists before, o, evs, w. split; [exact Hs|]. split; [exact E|].
  split; [apply (f_equal length) in Hevs; rewrite length_map in Hevs; exact Hevs|]. unfold mediation_learned in E.
  destruct (mediator_events_safe alice_channels alice_addresses started_state carol_reveals 20 a_block_hash
    started_world w o evs (proj2 started_task) (proj1 started_task) carol_reveals_admissible E) as [_ Hsafe].
  rewrite Hs in Hsafe. exact Hsafe.
Defined.

Lemma mediator_keeps_channels_witness :
  exists o evs w, mediation_learned = Ok (o, evs, w) /\ forall l, channel_inv (w_heap w l).
Proof.
  destruct mediation_learned_Ok as (o & evs & w & E & _). exists o, evs, w. split; [exact E|]. unfold mediation_learned in E. intros l.
  exact (proj1 (mediator_keeps_channels alice_channels alice_addresses started_state carol_reveals 20 a_block_hash
    started_world w o evs (proj2 started_task) (proj1 started_task) carol_reveals_admissible E l)).
Defined.

Lemma mediator_state_typed_witness :
  mediator.state_transition None (SCActionInitMediator mediation_init) alice_channels alice_addresses 10 a_block_hash
    alice_world = Ok (mediator.clear_if_finalized started_state alice_channels (w_heap started_world), started_events, started_world).
Proof.
  pose proof mediation_started_Ok as E. unfold mediation_started in E.
  destruct (mediator_state_typed alice_channels alice_addresses None (SCActionInitMediator mediation_init) 10
    a_block_hash alice_world started_world started_state started_events alice_heap_inv I alice_admits_mediation E)
    as [(_ & _ & Hrun)|[(? & ? & ? & [=] & _) _]]. exact Hrun.
Defined.

Definition forwarded_at_10 : Res (option MediationPairState * list Event * World Z) :=
  mediator.forward_transfer_pair bob_mediated 1%positive 2%positive 10 alice_world.

Lemma forward_transfer_pair_correct_witness :
  exists p evs w, forwarded_at_10 = Ok (Some p, evs, w) /\ lock_expiration (ltu_lock (mp_payee_transfer p)) = 100.
Proof.
  destruct forwarded_at_10 as [[[[p|] evs] w]|] eqn:E.
  - exists p, evs, w. split; [reflexivity|]. unfold forwarded_at_10 in E.
    destruct (forward_transfer_pair_correct bob_mediated 1%positive 2%positive 10 alice_world w (Some p) evs
      carol_channel_inv ltac:(vm_compute; reflexivity) E) as (msg & _ & _ & _ & _ & Hexp & _). exact Hexp.
  - exfalso. apply (f_equal (fun r => match r with Ok (Some _, _, _) => true | _ => false end)) in E.
    vm_compute in E. discriminate.
  - exfalso. apply (f_equal is_Ok) in E. vm_compute in E. discriminate.
Defined.

(** ** The tasks' divergences *)

Lemma expired_target_repeats_itself_witness :
  exists ts' secret,
    target.handle_block (alice_learned_task EXPIRED) alice_learned 130 a_block_hash
      = Ok (ts', [ContractSendSecretReveal a_block_hash 100 secret]) /\
    target.handle_block ts' alice_learned 131 a_block_hash
      = Ok (alice_learned_task EXPIRED, [EventUnlockClaimFailed 1 secrethash_of_a_secret "lock expired"]).
Proof.
  destruct (expired_target_repeats_itself (alice_learned_task EXPIRED) alice_learned 130 a_block_hash 131 a_block_hash)
    as (ts' & secret & E1 & E2).
  - apply alice_learned_task_inv.
  - by apply alice_timed.
  - by apply alice_timed.
  - vm_compute. discriminate.
  - vm_compute. discriminate.
  - reflexivity.
  - exact alice_learned_known.
  - vm_compute. reflexivity.
  - exact alice_learned_open.
  - exists ts', secret. split; [exact E1 | exact E2].
Defined.

(** The secret is registered on-chain at block 90. *)
Definition alice_claimed : NettingChannelState :=
  ok_or alice_received (register_onchain_secret a_secret secrethash_of_a_secret 90 true alice_received).

Lemma alice_claimed_task_inv : target_task (alice_learned_task ONCHAIN_UNLOCK) alice_claimed.
Proof.
  destruct alice_task_inv as [Hinv Htask].
  destruct (register_onchain_secret_registered a_secret secrethash_of_a_secret 90 alice_received Hinv) as (ch' & E & Hreg).
  unfold alice_claimed. rewrite E. cbn [ok_or].
  refine (proj2 (target_inv_registered alice_task alice_received ch' a_secret secrethash_of_a_secret ONCHAIN_UNLOCK
    Htask Hreg _ _ _)); [vm_compute; reflexivity | vm_compute; reflexivity | discriminate].
Qed.

Lemma claimed_lock_reported_as_failed_witness :
  target.handle_block (alice_learned_task ONCHAIN_UNLOCK) alice_claimed 130 a_block_hash
    = Ok (alice_learned_task EXPIRED, [EventUnlockClaimFailed 1 secrethash_of_a_secret "lock expired"]).
Proof.
  assert (Hr : ch_reveal_timeout alice_claimed = 50) by (vm_compute; reflexivity).
  destruct (claimed_lock_reported_as_failed (alice_learned_task ONCHAIN_UNLOCK) alice_claimed 130 a_block_hash) as [E _].
  - apply alice_claimed_task_inv.
  - by apply alice_timed.
  - vm_compute. discriminate.
  - reflexivity.
  - vm_compute. reflexivity.
  - vm_compute. reflexivity.
  - exact E.
Defined.

(** Bob's lock expires at block 40, below alice's reveal timeout of 50. *)
Definition early_lock : HashTimeLockState :=
  {| lock_amount := 4; lock_expiration := 40; lock_secrethash := secrethash_of_a_secret;
     lock_encoded := lock_as_bytes 4 40 secrethash_of_a_secret |}.
Definition early_transfer : LockedTransferSignedState := Eval vm_compute in
  transfer_message bob early_lock
    (ok_or (bob_channel, no_event)
      (send_lockedtransfer bob_channel bob alice 4 1 1 40 None secrethash_of_a_secret [] None None)).2.
Definition early_init : ActionInitTarget :=
  {| ait_sender := bob; ait_balance_proof := lts_balance_proof early_transfer; ait_from_hop := from_bob;
     ait_transfer := early_transfer; ait_received_valid_secret := false |}.

Lemma early_expiration_raises_witness :
  target.state_transition None (SCActionInitTarget early_init) alice_channel 1 10
    = Raise (AssertionError "lock_expiration must be larger than reveal_timeout").
Proof.
  apply (early_expiration_raises early_init alice_channel 1 10); try reflexivity.
  - exists Success. vm_compute. reflexivity.
  - assert (Hv : match handle_receive_lockedtransfer alice_channel early_transfer None with
        | Ok (_, (v, _, _)) => v | Raise _ => false end = true) by (vm_compute; reflexivity).
    destruct (handle_receive_lockedtransfer alice_channel early_transfer None) as [[ch [[v evs] msg]]|] eqn:E;
      [|discriminate]. subst v.
    apply handle_receive_lockedtransfer_inv in E as [(_ & _ & Hacc & _)|(? & _)]; [exact Hacc | discriminate].
  - cbn. lia.
Defined.

Definition started_task_state : MediatorTransferState := Eval vm_compute in
  default (MediatorTransferState_init [] []) started_state.

Lemma started_state_Some : started_state = Some started_task_state.
Proof. vm_compute. reflexivity. Qed.

Lemma unlock_before_secret_raises_witness :
  mediator.state_transition (Some started_task_state) (SCReceiveUnlock bob_unlock) alice_channels alice_addresses 20
    a_block_hash started_world = Raise (AssertionError "Mediator's state must have secret").
Proof.
  assert (Hv : match ChannelHandlers.handle_unlock (w_heap started_world 1%positive) bob_unlock
      (get_address_metadata (bps_sender (ru_balance_proof bob_unlock)) (ms_routes started_task_state)) with
      | Ok (_, (v, _, _)) => v | Raise _ => false end = true) by (vm_compute; reflexivity).
  destruct (ChannelHandlers.handle_unlock (w_heap started_world 1%positive) bob_unlock
    (get_address_metadata (bps_sender (ru_balance_proof bob_unlock)) (ms_routes started_task_state)))
    as [[ch [[v evs] msg]]|] eqn:E; [|discriminate]. subst v.
  refine (unlock_before_secret_raises alice_channels alice_addresses started_task_state _ bob_unlock 1%positive 20
    a_block_hash started_world ch evs msg _ _ _ _ E); [reflexivity | reflexivity | reflexivity | vm_compute; reflexivity].
Defined.
