(* ===== verification/InitiatorWitnesses.v ===== *)
(** * A concrete payment

    Bob pays 4 to alice through their channel: the theorems about the initiator
    applied to the first transitions of that payment, to a reveal by alice, to an
    expired lock, to a refunded one, and to a cancelled payment. *)

From Stdlib Require Import ZArith Lia Strings.Byte.
From stdpp Require Import base functions gmap list strings pretty.
From S2P Require Import Prelude Encoding MediationFee State Events ChannelViews ChannelValidation ChannelSend ChannelHandlers TaskState World Mediator Initiator InitiatorManager LockSets ChannelInvariant BalanceProofMessages LockOperations StateTransition Instances TransferTheorems Reachability ChannelFrame SecretRegistration WorldLogic MediatorInvariant MediatorPhases MediatorForwarding ChannelTheorems InitiatorInvariant InitiatorRoutes InitiatorSteps InitiatorDispatch InitiatorTheorems InitiatorRuns InitiatorOutcomes Witnesses.

Open Scope Z_scope.

Definition route_to_alice : RouteState :=
  {| rs_route := [bob; alice]; rs_address_to_metadata := ∅; rs_swaps := ∅; rs_estimated_fee := 0 |}.

Definition bob_description : TransferDescriptionWithSecretState :=
  {| td_token_network_registry_address := replicate 20 x72; td_payment_identifier := 1; td_amount := 4;
     td_token_network_address := replicate 20 x6e; td_initiator := bob; td_target := alice;
     td_secret := a_secret; td_secrethash := secrethash_of_a_secret; td_lock_timeout := None |}.

Definition bob_world : World Z := {| w_heap := fun _ => bob_channel; w_prng := 1 |}.
Definition bob_channels : ChannelMap := {[ 7 := 1%positive ]}.
Definition bob_addresses : AddressDict := [((replicate 20 x6e, alice), 1%positive)].
Definition bob_pays : StateChange :=
  SCActionInitInitiator {| aii_transfer := bob_description; aii_routes := [route_to_alice] |}.

Lemma a_secret_hashes : sha256_secrethash a_secret = secrethash_of_a_secret.
Proof. vm_compute. reflexivity. Qed.

Lemma bob_pays_declared : initiator_declared bob_pays.
Proof. right. exact a_secret_hashes. Qed.

(** The first transition sends the transfer. *)
Definition payment_started : Res (option InitiatorPaymentState * list Event * World Z) :=
  initiator_manager.state_transition None bob_pays bob_channels bob_addresses 10 bob_world.

Definition started_payment : option InitiatorPaymentState := (ok_or (None, [], bob_world) payment_started).1.1.
Definition payment_events : list Event := (ok_or (None, [], bob_world) payment_started).1.2.
Definition payment_world : World Z := (ok_or (None, [], bob_world) payment_started).2.

Lemma payment_started_Ok : payment_started = Ok (started_payment, payment_events, payment_world).
Proof.
  unfold started_payment, payment_events, payment_world. destruct payment_started as [[[st evs] w]|] eqn:E; [done|].
  exfalso. apply (f_equal is_Ok) in E. vm_compute in E. discriminate.
Qed.

Definition empty_payment : InitiatorPaymentState :=
  {| ip_routes := []; ip_initiator_transfers := []; ip_cancelled_channels := [] |}.
Definition bob_payment : InitiatorPaymentState := default empty_payment started_payment.

Lemma started_payment_Some : started_payment = Some bob_payment.
Proof.
  unfold bob_payment. assert (E : is_some started_payment = true) by (vm_compute; reflexivity).
  by destruct started_payment.
Qed.

Lemma initiator_state_typed_witness :
  started_payment = Some bob_payment /\ payment_wf bob_payment /\ transfers bob_payment <> [].
Proof.
  pose proof payment_started_Ok as E. unfold payment_started in E. split; [exact started_payment_Some|].
  exact (initiator_state_typed None bob_pays bob_channels bob_addresses 10 bob_world payment_world started_payment
    payment_events bob_pays_declared ltac:(discriminate) E bob_payment started_payment_Some).
Defined.

Lemma bob_payment_wf : payment_wf bob_payment.
Proof.
  pose proof payment_started_Ok as E. unfold payment_started in E.
  apply initiator_transition_inv in E as (o & Hd & Ho).
  destruct (dispatch_fresh _ _ _ _ _ _ _ _ bob_pays_declared Hd) as [Hwf _].
  apply Hwf. by apply Ho, started_payment_Some.
Qed.

Lemma bob_admissible : initiator_admissible (w_heap bob_world) bob_channels bob_addresses None bob_pays.
Proof. intros key l _. vm_compute. reflexivity. Qed.

Lemma initiator_keeps_channels_witness :
  payment_started = Ok (started_payment, payment_events, payment_world) /\
  channel_inv (w_heap payment_world 1%positive).
Proof.
  pose proof payment_started_Ok as E. split; [exact E|]. unfold payment_started in E.
  exact (proj1 (initiator_keeps_channels None bob_pays bob_channels bob_addresses 10 bob_world payment_world
    started_payment payment_events (fun _ => bob_channel_inv) bob_pays_declared ltac:(discriminate) bob_admissible E
    1%positive)).
Defined.

(** The second answers alice's request with the secret. *)
Definition alice_asks : ReceiveSecretRequest :=
  {| rsq_sender := alice; rsq_payment_identifier := 1; rsq_amount := 4; rsq_expiration := 109;
     rsq_secrethash := secrethash_of_a_secret |}.
Definition secret_requested : Res (option InitiatorPaymentState * list Event * World Z) :=
  initiator_manager.state_transition (Some bob_payment) (SCReceiveSecretRequest alice_asks) bob_channels bob_addresses
    20 payment_world.

Lemma secret_requested_Ok :
  exists o msg h w, secret_requested = Ok (o, [SendSecretReveal msg a_secret h], w).
Proof.
  destruct secret_requested as [[[o evs] w]|] eqn:E.
  - assert (Hrun : match secret_requested with
      | Ok (_, [SendSecretReveal _ s _], _) => bool_decide (s = a_secret)
      | _ => false end = true) by (vm_compute; reflexivity).
    rewrite E in Hrun. destruct evs as [|[] [|]]; try discriminate Hrun. apply bool_decide_eq_true in Hrun.
    subst. eauto.
  - exfalso. apply (f_equal is_Ok) in E. vm_compute in E. discriminate.
Qed.

Lemma bob_payment_wf_only st : Some bob_payment = Some st -> payment_wf st.
Proof.
  intros Heq. change st with (default empty_payment (Some st)). rewrite <- Heq. exact bob_payment_wf.
Qed.

Lemma initiator_events_safe_witness :
  exists o evs w, secret_requested = Ok (o, evs, w) /\ evs <> [] /\
    Forall (payment_event (w_heap payment_world) bob_channels (Some bob_payment) (SCReceiveSecretRequest alice_asks)) evs.
Proof.
  destruct secret_requested_Ok as (o & msg & h & w & E). exists o, [SendSecretReveal msg a_secret h], w.
  split; [exact E|]. split; [discriminate|]. unfold secret_requested in E.
  exact (initiator_events_safe (Some bob_payment) (SCReceiveSecretRequest alice_asks) bob_channels bob_addresses 20
    payment_world w o _ I bob_payment_wf_only E).
Defined.

Lemma initiator_acts_once_witness :
  exists evs o, payment_run (Some bob_payment) evs o /\ length evs = 1%nat /\
    (payments evs <= length (transfers bob_payment))%nat.
Proof.
  destruct secret_requested_Ok as (o & msg & h & w & E). exists ([SendSecretReveal msg a_secret h] ++ []), o.
  assert (Hrun : payment_run (Some bob_payment) ([SendSecretReveal msg a_secret h] ++ []) o).
  { unfold secret_requested in E. eapply (payment_run_step _ (SCReceiveSecretRequest alice_asks)); [exact I | reflexivity | exact E | apply payment_run_nil]. }
  split; [exact Hrun|]. split; [reflexivity|].
  exact (proj1 (initiator_acts_once bob_payment _ o bob_payment_wf Hrun)).
Defined.

(** ** The route *)

Lemma bob_sendable ch :
  channel_inv ch -> bool_decide (0 <= es_nonce (ch_our_state ch) < UINT64_MAX) = true ->
  ch_canonical_identifier ch = a_canonical_identifier -> sendable ch.
Proof. intros Hinv Hn%bool_decide_eq_true Hci. split; [exact Hinv | exact Hn | by rewrite Hci]. Qed.

Lemma bob_amounts : amounts_computable bob_description [route_to_alice].
Proof.
  split; [exists 4; vm_compute; reflexivity|]. intros route ->%list_elem_of_singleton. exists 4.
  split; [vm_compute; reflexivity | lia].
Qed.

Lemma bob_ready : channels_ready (w_heap bob_world) bob_addresses bob_description [route_to_alice] 10.
Proof.
  split; [reflexivity|]. intros network hop l Hl. cbn in Hl. case_decide as Hkey; [|discriminate].
  injection Hkey as -> ->. split; [apply bob_sendable; [exact bob_channel_inv | vm_compute; reflexivity | reflexivity]|].
  split; [reflexivity|]. split; [vm_compute; reflexivity|]. split; [vm_compute; split; discriminate|].
  intros route amount ->%list_elem_of_singleton Ha.
  assert (E : calculate_safe_amount_with_fee 4 0 = Ok 4) by (vm_compute; reflexivity).
  change (calculate_safe_amount_with_fee 4 0 = Ok amount) in Ha. rewrite E in Ha.
  injection Ha as <-. vm_compute. discriminate.
Qed.

Lemma try_new_route_correct_witness :
  exists it msg w', initiator.try_new_route bob_addresses [route_to_alice] bob_description 10 bob_world
      = Ok (Some it, [SendLockedTransfer msg (it_transfer it)], w') /\ lock_amount (ltu_lock (it_transfer it)) = 4.
Proof.
  destruct (try_new_route_correct bob_addresses (replicate 20 x6e, alice) 1%positive [route_to_alice] bob_description 10
    bob_world eq_refl bob_amounts bob_ready)
    as [(before & route & after & l & amount & it & msg & w' & Hin & Hfit & _ & E & _ & _ & Ha & _)|[_ (b & _ & E)]].
  - exists it, msg, w'. split; [exact E|]. rewrite Ha. destruct Hfit as (limit & (hop & _ & _ & Hc & _) & _).
    assert (Hroute : route = route_to_alice).
    { destruct before as [|r [|r' before]]; cbn in Hin; congruence. }
    rewrite Hroute in Hc. vm_compute in Hc. congruence.
  - exfalso. apply (f_equal (fun r => match r with Ok (Some _, _, _) => true | _ => false end)) in E.
    vm_compute in E. discriminate.
Defined.

(** ** Reveal and expiration *)

Definition bob_sent_transfer : LockedTransferUnsignedState := Eval vm_compute in
  match bob_event with
  | SendLockedTransfer _ t => t
  | _ => {| ltu_payment_identifier := 0; ltu_token := []; ltu_lock := bob_lock; ltu_initiator := []; ltu_target := [];
            ltu_balance_proof := {| bpu_nonce := 0; bpu_transferred_amount := 0; bpu_locked_amount := 0;
              bpu_locksroot := []; bpu_canonical_identifier := a_canonical_identifier; bpu_balance_hash := [] |};
            ltu_route_states := []; ltu_metadata := None; ltu_secret := None |}
  end.
Definition bob_task : InitiatorTransferState :=
  InitiatorTransferState_init route_to_alice bob_description 7 bob_sent_transfer.

Lemma bob_sent_sendable : sendable bob_sent.
Proof. apply bob_sendable; [exact bob_sent_inv | vm_compute; reflexivity | reflexivity]. Qed.

Lemma bob_task_in : transfer_in bob_task bob_sent.
Proof. split; vm_compute; reflexivity. Qed.

Definition alice_reveals : ReceiveSecretReveal :=
  {| rsr_sender := alice; rsr_secret := a_secret; rsr_secrethash := secrethash_of_a_secret |}.

Lemma initiator_pays_on_reveal_witness :
  exists evs ch' g, initiator.state_transition bob_task (SCReceiveSecretReveal alice_reveals) bob_sent 1 30
      = Ok (bob_task, false, evs, ch', g) /\ lock_effect true bob_sent ch' 4 (- 4).
Proof.
  destruct (initiator_pays_on_reveal bob_task bob_sent alice_reveals 1 30 bob_sent_sendable bob_task_in) as [Hpay _].
  destruct Hpay as (evs & ch' & g & E & _ & Heff & _).
  - split; [reflexivity|]. split; [reflexivity|]. split; [vm_compute; reflexivity|]. left. vm_compute. reflexivity.
  - exists evs, ch', g. split; [exact E | exact Heff].
Defined.

Definition block_at (n : Z) : Block :=
  {| block_block_number := n; block_gas_limit := 0; block_block_hash := a_block_hash |}.

Lemma bob_lock_locked :
  es_secrethashes_to_lockedlocks (ch_our_state bob_sent) !! lock_secrethash (ltu_lock (it_transfer bob_task))
    = Some (ltu_lock (it_transfer bob_task)).
Proof. vm_compute. reflexivity. Qed.

Lemma initiator_lock_expires_witness :
  exists evs ch' g, initiator.state_transition bob_task (SCBlock (block_at 110)) bob_sent 1 110
      = Ok (set_it_transfer_state transfer_expired bob_task, false, evs, ch', g) /\
    length evs = 4%nat /\ lock_effect true bob_sent ch' 0 (- 4).
Proof.
  assert (Hx := initiator_lock_expires bob_task bob_sent (block_at 110) 1 bob_sent_sendable ltac:(vm_compute; reflexivity)
    ltac:(discriminate) bob_lock_locked).
  change (lock_expiration (ltu_lock (it_transfer bob_task)) + DEFAULT_WAIT_BEFORE_LOCK_REMOVAL <=?
    block_block_number (block_at 110)) with true in Hx.
  destruct Hx as (msg & bp & reason & ch' & g & E & Heff & _).
  assert (Hkeep : is_some (get_lock (ch_partner_state bob_sent) (lock_secrethash (ltu_lock (it_transfer bob_task)))) = false)
    by (vm_compute; reflexivity).
  rewrite Hkeep in E. do 3 eexists. split; [exact E|]. split; [reflexivity | exact Heff].
Defined.

(** Alice refunds the transfer: she locks the same amount for bob. *)
Definition alice_refunds : Res (NettingChannelState * Event) :=
  send_lockedtransfer alice_received bob alice 4 5 1 100 None secrethash_of_a_secret [] None None.
Definition alice_refund : LockedTransferSignedState := Eval vm_compute in
  transfer_message alice bob_lock (ok_or (alice_channel, no_event) alice_refunds).2.
Definition bob_refunded : NettingChannelState := Eval vm_compute in
  (ok_or (bob_channel, (false, [], None)) (handle_receive_lockedtransfer bob_sent alice_refund None)).1.

Lemma bob_refunded_safe : safe_step bob_sent bob_refunded.
Proof.
  assert (Hv : match handle_receive_lockedtransfer bob_sent alice_refund None with
    | Ok (_, (v, _, _)) => v | Raise _ => false end = true) by (vm_compute; reflexivity).
  assert (Eq : bob_refunded = (ok_or (bob_channel, (false, [], None))
    (handle_receive_lockedtransfer bob_sent alice_refund None)).1) by (vm_compute; reflexivity).
  destruct (handle_receive_lockedtransfer bob_sent alice_refund None) as [[ch [[v evs] msg]]|] eqn:E; [|discriminate].
  rewrite Eq. cbn [ok_or fst]. refine (handle_receive_lockedtransfer_safe bob_sent alice_refund None ch v evs msg _ _ _ E).
  - exact bob_sent_inv.
  - exact bob_lock_wf.
  - vm_compute. reflexivity.
Qed.

Lemma bob_refunded_sendable : sendable bob_refunded.
Proof. apply bob_sendable; [apply bob_refunded_safe | vm_compute; reflexivity | vm_compute; reflexivity]. Qed.

Lemma late_secret_request_raises_witness :
  exists it' evs ch' g,
    initiator.state_transition bob_task (SCBlock (block_at 110)) bob_refunded 1 110 = Ok (it', true, evs, ch', g) /\
    initiator.state_transition it' (SCReceiveSecretRequest alice_asks) ch' g 110
      = Raise (AssertionError "channel is does not have the transfer's lock").
Proof.
  refine (late_secret_request_raises bob_task bob_refunded (block_at 110) 1 alice_asks bob_refunded_sendable _ _ _ _ _ _ _ _ _).
  - vm_compute. reflexivity.
  - discriminate.
  - vm_compute. reflexivity.
  - vm_compute. reflexivity.
  - vm_compute. reflexivity.
  - vm_compute. discriminate.
  - reflexivity.
  - reflexivity.
  - reflexivity.
Defined.

(** ** Cancelling *)

Lemma bob_task_wf : transfer_wf bob_task.
Proof.
  split; try (vm_compute; reflexivity).
  - right. exact a_secret_hashes.
  - exists 4. split; [vm_compute; reflexivity|]. vm_compute. discriminate.
  - discriminate.
Qed.

Definition one_payment : InitiatorPaymentState :=
  {| ip_routes := [route_to_alice]; ip_initiator_transfers := [(secrethash_of_a_secret, bob_task)];
     ip_cancelled_channels := [] |}.

Lemma one_payment_wf : payment_wf one_payment.
Proof.
  split.
  - apply NoDup_singleton.
  - intros h it. cbn. case_decide; [|discriminate]. intros [= <-]. subst h.
    split; [vm_compute; reflexivity | exact bob_task_wf].
  - intros h1 i1 h2 i2. cbn. repeat case_decide; try discriminate. intros [= <-] [= <-]. reflexivity.
Qed.

Lemma cancel_payment_correct_witness :
  exists st' evs, initiator_manager.handle_cancelpayment one_payment bob_channels bob_world = Ok (st', evs, bob_world) /\
    ip_cancelled_channels st' = [7] /\ length evs = 3%nat.
Proof.
  destruct (cancel_payment_correct one_payment bob_channels bob_world one_payment_wf) as (st' & E & Hch & _).
  do 2 eexists. split; [exact E|]. split; [rewrite Hch; vm_compute; reflexivity | vm_compute; reflexivity].
Defined.
